(** * zan-money: a shallow embedding of [ZanNumber], [Money] and [MoneyFactory]

    The development follows the TypeScript sources:
    - [currency.enum.ts]   : [CurrencyEnum], [isValidCurrencyCode], [validateCurrencyCode];
    - [zan-number.ts]      : class [ZanNumber], a wrapper around a finite [BigNumber];
    - [money.ts]           : class [Money], a [ZanNumber] tagged with a currency code;
    - [money.dto.ts]       : [MoneyDto] and the pattern of its [amount] field;
    - [money-factory.ts]   : [MoneyFactory].

    [bignumber.js] and the JavaScript [number] type are not part of the
    repository; the first sections model the part of their behaviour that the
    repository relies on. *)

From Stdlib Require Import ZArith List String Ascii Bool Lia Lqa QArith Qround Qabs Qpower.
Import ListNotations.

Open Scope string_scope.
Open Scope Z_scope.

(** ** Exceptions

    Every failure in the sources is [throw new Error(message)]; a call either
    returns a value or throws a message. *)

Inductive result (A : Type) : Type :=
| Ok (a : A)
| Throw (message : string).

Arguments Ok {A} a.
Arguments Throw {A} message.

Definition bind {A B} (r : result A) (k : A -> result B) : result B :=
  match r with
  | Ok a => k a
  | Throw msg => Throw msg
  end.

Notation "x <- r ;; k" := (bind r (fun x => k))
  (at level 61, r at next level, right associativity).

Definition throws {A} (r : result A) : Prop := exists msg, r = Throw msg.
Definition throws_with {A} (P : string -> Prop) (r : result A) : Prop :=
  exists msg, r = Throw msg /\ P msg.

(** ** Decimal digits and strings *)

Module Digits.

Definition is_digit (ch : ascii) : bool :=
  let n := nat_of_ascii ch in (48 <=? n)%nat && (n <=? 57)%nat.

Definition digit_of_ascii (ch : ascii) : Z := Z.of_nat (nat_of_ascii ch) - 48.

Definition ascii_of_digit (d : Z) : ascii := ascii_of_nat (Z.to_nat (48 + d)).

(** Value of a big-endian list of decimal digits. *)
Definition of_digits (ds : list Z) : Z :=
  fold_left (fun acc d => 10 * acc + d) ds 0.

Fixpoint to_digits_fuel (fuel : nat) (n : Z) (acc : list Z) : list Z :=
  match fuel with
  | O => acc
  | S fuel' =>
      if n <? 10 then n :: acc
      else to_digits_fuel fuel' (n / 10) (n mod 10 :: acc)
  end.

(** Big-endian decimal digits of [n >= 0], without leading zeros
    ([0] is the single digit [0]). *)
Definition to_digits (n : Z) : list Z :=
  to_digits_fuel (S (Z.to_nat (Z.log2 n))) n [].

Fixpoint drop_zeros (ds : list Z) : list Z :=
  match ds with
  | 0 :: ds' => drop_zeros ds'
  | _ => ds
  end.

Definition strip_trailing_zeros (ds : list Z) : list Z :=
  rev (drop_zeros (rev ds)).

Definition chars_of_digits (ds : list Z) : list ascii := map ascii_of_digit ds.
Definition digits_of_chars (cs : list ascii) : list Z := map digit_of_ascii cs.

(** Longest prefix of decimal digits, and the rest. *)
Fixpoint span_digits (cs : list ascii) : list ascii * list ascii :=
  match cs with
  | ch :: cs' =>
      if is_digit ch
      then let '(ds, rest) := span_digits cs' in (ch :: ds, rest)
      else ([], cs)
  | [] => ([], [])
  end.

(** Decimal rendering of an integer, as [String(n)] gives it for an integral
    number of moderate size. *)
Definition chars_of_Z (n : Z) : list ascii :=
  if n <? 0 then "-"%char :: chars_of_digits (to_digits (- n))
  else chars_of_digits (to_digits n).

Definition is_nil {A} (l : list A) : bool :=
  match l with [] => true | _ => false end.

End Digits.
Import Digits.

(** ** JavaScript numbers

    A [number] is an IEEE 754 binary64 value.  A finite one is kept as its
    sign, its integral significand [m] and its exponent [e], and stands for
    [(-1)^neg * m * 2^e]; negative zero is [Finite true 0 (-1074)]. *)

Inductive number : Type :=
| NaN
| Infinity (neg : bool)
| Finite (neg : bool) (m e : Z).

Module JsNumber.

Definition prec : Z := 53.
Definition emin : Z := -1074.
Definition emax : Z := 971.

(** The encodings that binary64 has: a significand below [2^53], which is at
    least [2^52] unless the exponent is the least one. *)
Definition wf_number (x : number) : bool :=
  match x with
  | Finite _ m e =>
      (0 <=? m) && (m <? 2 ^ prec) && (emin <=? e) && (e <=? emax)
      && ((2 ^ (prec - 1) <=? m) || (e =? emin))
  | _ => true
  end.

Definition isNaN (x : number) : bool :=
  match x with NaN => true | _ => false end.

Definition isFinite (x : number) : bool :=
  match x with Finite _ _ _ => true | _ => false end.

(** The magnitude [m * 2^e]. *)
Definition magnitude (m e : Z) : Q := (inject_Z m * (2 # 1) ^ e)%Q.

(** [p / (q * 2^k)] as a fraction of integers. *)
Definition scale2 (p q k : Z) : Z * Z :=
  if 0 <=? k then (p, q * 2 ^ k) else (p * 2 ^ (- k), q).

(** [floor (log2 (p / q))] for positive [p] and [q]. *)
Definition ilog2 (p q : Z) : Z :=
  let d := Z.log2 p - Z.log2 q in
  let '(n, dd) := scale2 p q d in
  if n <? dd then d - 1 else d.

(** The number nearest to the rational [x >= 0], ties to the even
    significand: the rounding that turns a decimal literal into a number. *)
Definition nearest (neg : bool) (x : Q) : number :=
  let p := Qnum (Qred x) in
  let q := Zpos (Qden (Qred x)) in
  if p <=? 0 then Finite neg 0 emin
  else
    let e := Z.max (ilog2 p q - (prec - 1)) emin in
    let '(n, d) := scale2 p q e in
    let m := n / d in
    let r := n mod d in
    let m1 := if (d <? 2 * r) || ((d =? 2 * r) && Z.odd m) then m + 1 else m in
    let '(m2, e2) := if m1 =? 2 ^ prec then (2 ^ (prec - 1), e + 1) else (m1, e) in
    if emax <? e2 then Infinity neg else Finite neg m2 e2.

(** [Number.isInteger]. *)
Definition Number_isInteger (x : number) : bool :=
  match x with
  | Finite _ m e => (0 <=? e) || (m mod 2 ^ (- e) =? 0)
  | _ => false
  end.

(** The rational that a finite number stands for. *)
Definition to_Q (x : number) : Q :=
  match x with
  | Finite neg m e => if neg then (- magnitude m e)%Q else magnitude m e
  | _ => 0%Q
  end.

(** [Math.round]: the nearest integer, a tie going towards +Infinity; the
    sign of a zero result is the sign of the argument. *)
Definition Math_round (x : number) : number :=
  match x with
  | Finite neg m e =>
      if Number_isInteger x then x
      else nearest neg (inject_Z (Z.abs (Qfloor (to_Q x + (1 # 2)))))
  | _ => x
  end.

(** The integer that an integral number stands for. *)
Definition to_Z (x : number) : option Z :=
  if Number_isInteger x then Some (Qfloor (to_Q x)) else None.

(** [v === ~~v] for a non-negative finite [v]: an integer below [2^31]. *)
Definition is_int32 (m e : Z) : bool :=
  Number_isInteger (Finite false m e) && (Qfloor (magnitude m e) <? 2 ^ 31).

(** *** The digits of [String(v)]

    [Number::toString] writes a positive finite number as [s * 10^x] with as
    few digits [s] as possible among the decimals that read back as the same
    number; of several such [s] it takes the closest to the number, and the
    even one of two equally close.  The search goes from few digits to many
    and ends at the latest with the exact decimal expansion. *)

Definition decimal (s x : Z) : Q := (inject_Z s * (10 # 1) ^ x)%Q.

(** Does the decimal [s * 10^x] read back as [Finite false m e]? *)
Definition reads_back (m e s x : Z) : bool :=
  match nearest false (decimal s x) with
  | Finite _ m' e' => (m' =? m) && (e' =? e)
  | _ => false
  end.

Definition candidate (m e x : Z) : option Z :=
  let y := (magnitude m e / (10 # 1) ^ x)%Q in
  let lo := Qfloor y in
  let hi := lo + 1 in
  match reads_back m e lo x, reads_back m e hi x with
  | true, true =>
      match (y - inject_Z lo ?= 1 # 2)%Q with
      | Lt => Some lo
      | Gt => Some hi
      | Eq => if Z.even lo then Some lo else Some hi
      end
  | true, false => Some lo
  | false, true => Some hi
  | false, false => None
  end.

Fixpoint shortest_from (fuel : nat) (m e x : Z) : Z * Z :=
  match fuel with
  | O =>
      let xmin := Z.min e 0 in
      (Qfloor (magnitude m e / (10 # 1) ^ xmin), xmin)
  | S fuel' =>
      match candidate m e x with
      | Some s => (s, x)
      | None => shortest_from fuel' m e (x - 1)
      end
  end.

Definition shortest_digits (m e : Z) : Z * Z :=
  let x0 := Z.of_nat (List.length (to_digits (Qfloor (magnitude m e) + 1))) in
  shortest_from (Z.to_nat (x0 - Z.min e 0)) m e x0.

End JsNumber.

(** ** bignumber.js

    A [BigNumber] is NaN, a signed infinity, or a signed finite decimal
    [0.c1 c2 ... cn * 10^(e+1)]: [c] holds the decimal digits of the
    coefficient, most significant first, without leading or trailing zeros
    (zero is the single digit [0] with [e = 0]), and [e] is the exponent of the
    first digit.  The library packs the digits fourteen to an array element;
    [coeffToString] gives them back one by one. *)

Inductive BigNumber : Type :=
| BNaN
| BInfinity (neg : bool)
| BFinite (neg : bool) (c : list Z) (e : Z).

Module BigNumber.

(** The library's defaults, which the repository leaves alone: the exponent
    range of RANGE (1e7), the exponents at which [toString] turns to
    exponential notation, and the library's cap [MAX] on a number of decimal
    places. *)
Definition MAX_EXP : Z := 10000000.
Definition MIN_EXP : Z := -10000000.
Definition TO_EXP_NEG : Z := -7.
Definition TO_EXP_POS : Z := 21.
Definition MAX : Z := 1000000000.

Definition isNaN (x : BigNumber) : bool :=
  match x with BNaN => true | _ => false end.

Definition isFinite (x : BigNumber) : bool :=
  match x with BFinite _ _ _ => true | _ => false end.

Definition isZero (x : BigNumber) : bool :=
  match x with BFinite _ (0 :: _) _ => true | _ => false end.

Definition zero (neg : bool) : BigNumber := BFinite neg [0] 0.

Definition negated (x : BigNumber) : BigNumber :=
  match x with
  | BNaN => BNaN
  | BInfinity neg => BInfinity (negb neg)
  | BFinite neg c e => BFinite (negb neg) c e
  end.

(** The integer coefficient and the exponent of its last digit:
    the magnitude is [coefficient c * 10 ^ unit_exponent c e]. *)
Definition coefficient (c : list Z) : Z := of_digits c.
Definition unit_exponent (c : list Z) (e : Z) : Z :=
  e - Z.of_nat (List.length c) + 1.

(** The rational magnitude of a finite value (0 otherwise). *)
Definition magnitude (x : BigNumber) : Q :=
  match x with
  | BFinite _ c e => (inject_Z (coefficient c) * (10 # 1) ^ unit_exponent c e)%Q
  | _ => 0%Q
  end.

(** [normalise]: the finite value [m * 10^x] ([0 <= m]) with its trailing
    zeros removed, or what it overflows or underflows to. *)
Definition normalise (neg : bool) (m x : Z) : BigNumber :=
  if m =? 0 then zero neg
  else
    let ds := to_digits m in
    let e := x + Z.of_nat (List.length ds) - 1 in
    if MAX_EXP <? e then BInfinity neg
    else if e <? MIN_EXP then zero neg
    else BFinite neg (strip_trailing_zeros ds) e.

(** *** [new BigNumber(number)] *)
Definition ofNumber (v : number) : BigNumber :=
  match v with
  | NaN => BNaN
  | Infinity neg => BInfinity neg
  | Finite neg m e =>
      if JsNumber.is_int32 m e then
        normalise neg (Qfloor (JsNumber.magnitude m e)) 0
      else
        let '(s, x) := JsNumber.shortest_digits m e in normalise neg s x
  end.

(** *** [new BigNumber(string)] *)

Definition is_exp_mark (ch : ascii) : bool :=
  Ascii.eqb ch "e" || Ascii.eqb ch "E".

Definition strip_minus (cs : list ascii) : bool * list ascii :=
  match cs with
  | "-"%char :: cs' => (true, cs')
  | _ => (false, cs)
  end.

(** The mantissa: digits with an optional point and further digits, or a
    point and digits.  Gives the integer digits, the fraction digits and
    what follows. *)
Definition read_mantissa (cs : list ascii)
  : option (list ascii * list ascii * list ascii) :=
  let '(ip, r1) := span_digits cs in
  match r1 with
  | "."%char :: r2 =>
      let '(fp, r3) := span_digits r2 in
      if is_nil ip && is_nil fp then None else Some (ip, fp, r3)
  | _ => if is_nil ip then None else Some (ip, [], r1)
  end.

(** The optional exponent part, up to the end of the string: [e] or [E],
    an optional sign, digits. *)
Definition read_exponent (cs : list ascii) : option Z :=
  match cs with
  | [] => Some 0
  | ch :: r =>
      if is_exp_mark ch then
        let '(neg, r1) :=
          match r with
          | "-"%char :: r' => (true, r')
          | "+"%char :: r' => (false, r')
          | _ => (false, r)
          end in
        let '(ds, r2) := span_digits r1 in
        if is_nil ds || negb (is_nil r2) then None
        else
          let n := of_digits (digits_of_chars ds) in
          Some (if neg then - n else n)
      else None
  end.

(** The library's [isNumeric] pattern: an optional minus, a mantissa, an
    optional exponent part. *)
Definition isNumeric (cs : list ascii) : bool :=
  let '(_, cs1) := strip_minus cs in
  match read_mantissa cs1 with
  | Some (_, _, rest) =>
      match read_exponent rest with Some _ => true | None => false end
  | None => false
  end.

(** The end of the constructor: from the digits [str] of the literal
    without its point, and the exponent [e] that the point and the exponent
    part give, drop the leading and trailing zeros and check the range. *)
Definition ofDigits (neg : bool) (str : list Z) (e : Z) : BigNumber :=
  let tail := drop_zeros str in
  let i := Z.of_nat (List.length str - List.length tail) in
  let ds := strip_trailing_zeros tail in
  if is_nil ds then zero neg
  else
    let e := e - i - 1 in
    if MAX_EXP <? e then BInfinity neg
    else if e <? MIN_EXP then zero neg
    else BFinite neg ds e.

(** The constructor on a string that [isNumeric] accepts: the decimal point
    is dropped and its index (or the number of digits) becomes the exponent,
    to which the exponent part is added. *)
Definition ofDecimal (cs : list ascii) : BigNumber :=
  let '(neg, cs1) := strip_minus cs in
  match read_mantissa cs1 with
  | Some (ip, fp, rest) =>
      match read_exponent rest with
      | Some ex =>
          ofDigits neg (digits_of_chars (ip ++ fp)) (Z.of_nat (List.length ip) + ex)
      | None => BNaN
      end
  | None => BNaN
  end.

Section StringConstructor.

(** What the library makes of a string outside the decimal grammar
    (surrounding blanks, a leading plus, [0x], [0b] and [0o] literals,
    [Infinity], or NaN for anything else). *)
Variable parseNumeric : string -> BigNumber.

Definition ofString (str : string) : BigNumber :=
  let cs := list_ascii_of_string str in
  if isNumeric cs then ofDecimal cs else parseNumeric str.

End StringConstructor.

(** *** Comparison *)

Definition sign (neg : bool) : Z := if neg then -1 else 1.

Definition is_neg (x : BigNumber) : bool :=
  match x with
  | BNaN => false
  | BInfinity neg | BFinite neg _ _ => neg
  end.

Definition flip (a : bool) (gt : bool) : Z := if xorb gt a then 1 else -1.

(** Digit by digit, then by length. *)
Fixpoint compare_digits (a : bool) (xc yc : list Z) : Z :=
  match xc, yc with
  | [], [] => 0
  | [], _ :: _ => flip a false
  | _ :: _, [] => flip a true
  | xd :: xc', yd :: yc' =>
      if xd =? yd then compare_digits a xc' yc' else flip a (yd <? xd)
  end.

(** [compare(x, y)]: [1], [-1], [0], or nothing when either is NaN. *)
Definition compare (x y : BigNumber) : option Z :=
  match x, y with
  | BNaN, _ | _, BNaN => None
  | _, _ =>
      let i := sign (is_neg x) in
      let j := sign (is_neg y) in
      if isZero x || isZero y then
        Some (if isZero x then if isZero y then 0 else - j else i)
      else if negb (i =? j) then Some i
      else
        let a := i <? 0 in
        match x, y with
        | BFinite _ xc k, BFinite _ yc l =>
            if negb (k =? l) then Some (flip a (l <? k))
            else Some (compare_digits a xc yc)
        | BInfinity _, BInfinity _ => Some 0
        | BInfinity _, _ => Some (flip a true)
        | _, _ => Some (flip a false)
        end
  end.

Definition isEqualTo (x y : BigNumber) : bool :=
  match compare x y with Some 0 => true | _ => false end.

Definition isLessThan (x y : BigNumber) : bool :=
  match compare x y with Some k => k <? 0 | None => false end.

Definition isGreaterThan (x y : BigNumber) : bool :=
  match compare x y with Some k => 0 <? k | None => false end.

Definition isLessThanOrEqualTo (x y : BigNumber) : bool :=
  match compare x y with Some k => (k =? -1) || (k =? 0) | None => false end.

Definition isGreaterThanOrEqualTo (x y : BigNumber) : bool :=
  match compare x y with Some k => (k =? 1) || (k =? 0) | None => false end.

(** *** Arithmetic *)

(** The two coefficients brought to the smaller unit exponent. *)
Definition align (xc : list Z) (xe : Z) (yc : list Z) (ye : Z) : Z * Z * Z :=
  let kx := unit_exponent xc xe in
  let ky := unit_exponent yc ye in
  let k := Z.min kx ky in
  (coefficient xc * 10 ^ (kx - k), coefficient yc * 10 ^ (ky - k), k).

(** [x + y] when both have the same sign. *)
Definition add_same (x y : BigNumber) : BigNumber :=
  match x, y with
  | BFinite a xc xe, BFinite _ yc ye =>
      if isZero x || isZero y then
        if negb (isZero y) then y
        else if negb (isZero x) then x
        else zero a
      else
        let '(mx, my, k) := align xc xe yc ye in
        normalise a (mx + my) k
  | _, _ => BInfinity (is_neg x)
  end.

(** [x - y] when both have the same sign; a zero difference is [+0]. *)
Definition sub_same (x y : BigNumber) : BigNumber :=
  match x, y with
  | BFinite a xc xe, BFinite _ yc ye =>
      if isZero x || isZero y then
        if negb (isZero y) then negated y
        else if negb (isZero x) then x
        else zero false
      else
        let '(mx, my, k) := align xc xe yc ye in
        if mx =? my then zero false
        else if mx <? my then normalise (negb a) (my - mx) k
        else normalise a (mx - my) k
  | BInfinity _, BInfinity _ => BNaN
  | BInfinity _, _ => x
  | _, _ => negated y
  end.

Definition plus (x y : BigNumber) : BigNumber :=
  match x, y with
  | BNaN, _ | _, BNaN => BNaN
  | _, _ =>
      if xorb (is_neg x) (is_neg y) then sub_same x (negated y)
      else add_same x y
  end.

Definition minus (x y : BigNumber) : BigNumber :=
  match x, y with
  | BNaN, _ | _, BNaN => BNaN
  | _, _ =>
      if xorb (is_neg x) (is_neg y) then add_same x (negated y)
      else sub_same x y
  end.

Definition times (x y : BigNumber) : BigNumber :=
  match x, y with
  | BNaN, _ | _, BNaN => BNaN
  | BFinite xn xc xe, BFinite yn yc ye =>
      if isZero x || isZero y then zero (xorb xn yn)
      else normalise (xorb xn yn) (coefficient xc * coefficient yc)
             (unit_exponent xc xe + unit_exponent yc ye)
  | _, _ =>
      if isZero x || isZero y then BNaN
      else BInfinity (xorb (is_neg x) (is_neg y))
  end.

(** [x.dividedBy(y)]: the quotient rounded to [dp] decimal places, a
    following digit of 5 or more rounding the magnitude up (the default
    ROUNDING_MODE, ROUND_HALF_UP). *)
Definition dividedBy (dp : Z) (x y : BigNumber) : BigNumber :=
  match x, y with
  | BNaN, _ | _, BNaN => BNaN
  | BFinite xn xc xe, BFinite yn yc ye =>
      let neg := xorb xn yn in
      if isZero x && isZero y then BNaN
      else if isZero x then zero neg
      else if isZero y then BInfinity neg
      else
        normalise neg
          (Qfloor (magnitude x / magnitude y * (10 # 1) ^ dp + (1 # 2))) (- dp)
  | BInfinity _, BInfinity _ => BNaN
  | BInfinity xn, BFinite yn _ _ => BInfinity (xorb xn yn)
  | BFinite xn _ _, BInfinity yn => zero (xorb xn yn)
  end.

(** [round(x, sd, ROUND_HALF_UP)]: keep [sd] significant digits; the digit
    after them, [rd], rounds the magnitude up when it is 5 or more. *)
Definition round (x : BigNumber) (sd : Z) : BigNumber :=
  match x with
  | BFinite neg c e =>
      if Z.of_nat (List.length c) <=? sd then x
      else
        let rd := if sd <? 0 then 0 else nth (Z.to_nat sd) c 0 in
        let kept := of_digits (firstn (Z.to_nat sd) c) in
        normalise neg (if 5 <=? rd then kept + 1 else kept) (e - sd + 1)
  | _ => x
  end.

(** [x.decimalPlaces(dp, BigNumber.ROUND_HALF_UP)] for an integral [dp]. *)
Definition decimalPlaces (x : BigNumber) (dp : Z) : result BigNumber :=
  if (dp <? 0) || (MAX <? dp) then
    Throw ("[BigNumber Error] Argument out of range: "
             ++ string_of_list_ascii (chars_of_Z dp))
  else
    match x with
    | BFinite _ _ e => Ok (round x (dp + e + 1))
    | _ => Ok x
    end.

(** *** [BigNumber.sum], [BigNumber.min], [BigNumber.max]

    Each starts from [new BigNumber(args[0])], which is NaN when there is
    no argument. *)
Definition sum (args : list BigNumber) : BigNumber :=
  match args with
  | [] => BNaN
  | x :: rest => fold_left plus rest x
  end.

Definition maxOrMin (args : list BigNumber) (n : Z) : BigNumber :=
  match args with
  | [] => BNaN
  | x :: rest =>
      fold_left
        (fun x y =>
           if isNaN y then y
           else match compare x y with
                | Some k =>
                    if (k =? n) || ((k =? 0) && (sign (is_neg x) =? n))
                    then y else x
                | None => x
                end)
        rest x
  end.

Definition max (args : list BigNumber) : BigNumber := maxOrMin args (-1).
Definition min (args : list BigNumber) : BigNumber := maxOrMin args 1.

(** *** Conversions *)

Definition zeros (n : Z) : list ascii := repeat "0"%char (Z.to_nat n).

Definition toFixedPoint (str : list ascii) (e : Z) : list ascii :=
  if e <? 0 then "0"%char :: "."%char :: zeros (- e - 1) ++ str
  else
    let len := Z.of_nat (List.length str) in
    if len <? e + 1 then str ++ zeros (e + 1 - len)
    else if e + 1 <? len then
      firstn (Z.to_nat (e + 1)) str ++ "."%char :: skipn (Z.to_nat (e + 1)) str
    else str.

Definition toExponential (str : list ascii) (e : Z) : list ascii :=
  (match str with
   | d :: (_ :: _) as rest => d :: "."%char :: rest
   | _ => str
   end)
  ++ (if e <? 0 then ["e"%char] else ["e"; "+"]%char) ++ chars_of_Z e.

Definition render (c : list Z) (e : Z) : list ascii :=
  if (e <=? TO_EXP_NEG) || (TO_EXP_POS <=? e)
  then toExponential (chars_of_digits c) e
  else toFixedPoint (chars_of_digits c) e.

(** [x.toString()], without a base. *)
Definition toString (x : BigNumber) : string :=
  match x with
  | BNaN => "NaN"
  | BInfinity neg => if neg then "-Infinity" else "Infinity"
  | BFinite neg c e =>
      let str := render c e in
      string_of_list_ascii
        (if neg && negb (isZero x) then "-"%char :: str else str)
  end.

(** [x.valueOf()]: as [toString], but negative zero keeps its sign. *)
Definition valueOf (x : BigNumber) : string :=
  match x with
  | BFinite neg c e =>
      let str := render c e in
      string_of_list_ascii (if neg then "-"%char :: str else str)
  | _ => toString x
  end.

(** [x.toNumber()] is [+valueOf(x)]: the number nearest to the decimal. *)
Definition toNumber (x : BigNumber) : number :=
  match x with
  | BNaN => NaN
  | BInfinity neg => Infinity neg
  | BFinite neg c e =>
      JsNumber.nearest neg (magnitude x)
  end.

End BigNumber.

(** The state of the library that a call meets: the fallback of the string
    constructor for strings outside the decimal grammar, and the configured
    [BigNumber.config().DECIMAL_PLACES] (20 unless reconfigured). *)
Class Library : Type := {
  parseNumeric : string -> BigNumber;
  DECIMAL_PLACES : Z
}.

(** ** currency.enum.ts *)

Module CurrencyEnum.

Definition PLN := "PLN".
Definition EUR := "EUR".
Definition USD := "USD".
Definition GBP := "GBP".
Definition JPY := "JPY".

(** [Object.values(CurrencyEnum)] *)
Definition values : list string :=
  [ "PLN"; "EUR"; "USD"; "GBP"; "CHF"; "CZK"; "DKK"; "SEK"; "NOK"; "HUF";
    "RON"; "BGN"; "UAH"; "TRY"; "JPY"; "CNY"; "AUD"; "CAD"; "NZD"; "ZAR";
    "BRL"; "MXN"; "INR"; "KRW"; "SGD"; "HKD"; "THB"; "IDR"; "MYR"; "PHP";
    "SAR"; "KWD"; "QAR"; "OMR"; "AED"; "BHD"; "IQD"; "SYP"; "EGP" ].

End CurrencyEnum.

(** A currency code is a string at run time; [null] and [undefined] are not
    values of the parameter types that take one. *)
Definition isValidCurrencyCode (value : string) : bool :=
  existsb (String.eqb value) CurrencyEnum.values.

Definition validateCurrencyCode (currencyCode : string) : result unit :=
  if negb (isValidCurrencyCode currencyCode)
  then Throw ("Invalid currency code: " ++ currencyCode)
  else Ok tt.

(** ** The classes and the values passed to them *)

Record ZanNumber : Type := { value : BigNumber }.

Record Money : Type := { _value : ZanNumber; currencyCode : string }.

Record MoneyDto : Type := { amount : string; currency : string }.

(** A value as a method may receive it at run time, whatever the declared
    type of the parameter.  [ADto] is an object with an [amount] field that
    is a string and a [currency] field; [AObject] is any other object. *)
Inductive any : Type :=
| AUndefined
| ANull
| ABoolean (b : bool)
| ANumber (n : number)
| AString (s : string)
| ABigNumber (b : BigNumber)
| AZanNumber (z : ZanNumber)
| AMoney (m : Money)
| ADto (d : MoneyDto)
| AObject.

(** ** zan-number.ts *)

Module ZanNumber.
Section WithLibrary.
Context {lib : Library}.

(** [new ZanNumber(value)] *)
Definition new (value : any) : result ZanNumber :=
  match value with
  | ABigNumber value =>
      if BigNumber.isNaN value || negb (BigNumber.isFinite value) then
        Throw "Invalid ZanNumber BigNumber value: must be finite and not NaN"
      else Ok {| value := value |}
  | ANumber value =>
      if JsNumber.isNaN value || negb (JsNumber.isFinite value) then
        Throw "Invalid ZanNumber number value: must be finite and not NaN"
      else Ok {| value := BigNumber.ofNumber value |}
  | AString value =>
      let bigNumValue := BigNumber.ofString parseNumeric value in
      if BigNumber.isNaN bigNumValue || negb (BigNumber.isFinite bigNumValue) then
        Throw "Invalid ZanNumber string format: must be finite and not NaN"
      else Ok {| value := bigNumValue |}
  | _ => Throw "Invalid ZanNumber input type: must be BigNumber, number, or string"
  end.

End WithLibrary.

(** The static [sum], [min] and [max]. *)
Module Static.
Section WithLibrary.
Context {lib : Library}.

Definition sum (args : list ZanNumber) : result ZanNumber :=
  new (ABigNumber (BigNumber.sum (map value args))).

Definition min (args : list ZanNumber) : result ZanNumber :=
  new (ABigNumber (BigNumber.min (map value args))).

Definition max (args : list ZanNumber) : result ZanNumber :=
  new (ABigNumber (BigNumber.max (map value args))).

End WithLibrary.
End Static.

Section WithLibrary.
Context {lib : Library}.

Definition createValueForComparisonOperations (value : any) : result ZanNumber :=
  match value with
  | AZanNumber value => Ok value
  | _ => new value
  end.

Definition toNumber (this : ZanNumber) : number :=
  BigNumber.toNumber (value this).

Definition toString (this : ZanNumber) : string :=
  BigNumber.toString (value this).

Definition toBigNumber (this : ZanNumber) : BigNumber := value this.

Definition add (this other : ZanNumber) : result ZanNumber :=
  new (ABigNumber (BigNumber.plus (value this) (value other))).

Definition subtract (this other : ZanNumber) : result ZanNumber :=
  new (ABigNumber (BigNumber.minus (value this) (value other))).

Definition multiply (this : ZanNumber) (multiplier : number) : result ZanNumber :=
  new (ABigNumber (BigNumber.times (value this) (BigNumber.ofNumber multiplier))).

Definition divide (this : ZanNumber) (divisor : number) : result ZanNumber :=
  if BigNumber.isZero (BigNumber.ofNumber divisor) then Throw "Division by zero"
  else new (ABigNumber (BigNumber.dividedBy DECIMAL_PLACES (value this)
                          (BigNumber.ofNumber divisor))).

(** An omitted [scale] is [BigNumber.config().DECIMAL_PLACES]. *)
Definition scale_or_default (scale : option Z) : Z :=
  match scale with Some scale => scale | None => DECIMAL_PLACES end.

Definition multiplyAndRound (this : ZanNumber) (multiplier : number)
    (scale : option Z) : result ZanNumber :=
  rounded <- BigNumber.decimalPlaces
               (BigNumber.times (value this) (BigNumber.ofNumber multiplier))
               (scale_or_default scale) ;;
  new (ABigNumber rounded).

Definition divideAndRound (this : ZanNumber) (divider : number)
    (scale : option Z) : result ZanNumber :=
  if BigNumber.isZero (BigNumber.ofNumber divider) then Throw "Division by zero"
  else
    rounded <- BigNumber.decimalPlaces
                 (BigNumber.dividedBy DECIMAL_PLACES (value this)
                    (BigNumber.ofNumber divider))
                 (scale_or_default scale) ;;
    new (ABigNumber rounded).

Definition round (this : ZanNumber) (scale : option Z) : result ZanNumber :=
  rounded <- BigNumber.decimalPlaces (value this) (scale_or_default scale) ;;
  new (ABigNumber rounded).

Definition isEqual (this : ZanNumber) (other : any) : result bool :=
  data <- createValueForComparisonOperations other ;;
  Ok (BigNumber.isEqualTo (value this) (value data)).

Definition isLessThan (this : ZanNumber) (other : any) : result bool :=
  data <- createValueForComparisonOperations other ;;
  Ok (BigNumber.isLessThan (value this) (value data)).

Definition isLessThanOrEqual (this : ZanNumber) (other : any) : result bool :=
  data <- createValueForComparisonOperations other ;;
  Ok (BigNumber.isLessThanOrEqualTo (value this) (value data)).

Definition isGreaterThan (this : ZanNumber) (other : any) : result bool :=
  data <- createValueForComparisonOperations other ;;
  Ok (BigNumber.isGreaterThan (value this) (value data)).

Definition isGreaterThanOrEqual (this : ZanNumber) (other : any) : result bool :=
  data <- createValueForComparisonOperations other ;;
  Ok (BigNumber.isGreaterThanOrEqualTo (value this) (value data)).

Definition min (this : ZanNumber) (other : any) : result ZanNumber :=
  data <- createValueForComparisonOperations other ;;
  lt <- isLessThan this (AZanNumber data) ;;
  Ok (if lt then this else data).

Definition max (this : ZanNumber) (other : any) : result ZanNumber :=
  data <- createValueForComparisonOperations other ;;
  gt <- isGreaterThan this (AZanNumber data) ;;
  Ok (if gt then this else data).

End WithLibrary.
End ZanNumber.

(** The number that an integer literal of the sources denotes. *)
Definition num (z : Z) : number :=
  JsNumber.nearest (z <? 0) (inject_Z (Z.abs z)).

(** ** money.ts *)

Module Money.

Definition comparementError : string :=
  "Cannot compare Money instances with different currencies".
Definition sumError : string :=
  "Cannot sum Money instances with different currencies".

Definition isMoney (value : any) : bool :=
  match value with AMoney _ => true | _ => false end.

(** The loop [for (let i = 1; i < args.length; i++)] over the operands
    after the first. *)
Fixpoint check_currencies (message currency : string) (rest : list Money)
  : result unit :=
  match rest with
  | [] => Ok tt
  | arg :: rest' =>
      if negb (String.eqb (currencyCode arg) currency) then Throw message
      else check_currencies message currency rest'
  end.

Section WithLibrary.
Context {lib : Library}.

(** [new Money(value, currencyCode)] *)
Definition new (value : any) (currencyCode : string) : result Money :=
  _ <- validateCurrencyCode currencyCode ;;
  zan <- ZanNumber.new value ;;
  Ok {| _value := zan; currencyCode := currencyCode |}.

End WithLibrary.

(** The static [sum], [min] and [max]. *)
Module Static.
Section WithLibrary.
Context {lib : Library}.

Definition sum (args : list Money) : result Money :=
  match args with
  | [] => Throw "Cannot sum empty array"
  | first :: rest =>
      let currency := currencyCode first in
      _ <- check_currencies sumError currency rest ;;
      total <- ZanNumber.Static.sum (map _value args) ;;
      new (ABigNumber (ZanNumber.toBigNumber total)) currency
  end.

Definition min (args : list Money) : result Money :=
  match args with
  | [] => Throw "Cannot get min of empty array"
  | first :: rest =>
      let currency := currencyCode first in
      _ <- check_currencies comparementError currency rest ;;
      least <- ZanNumber.Static.min (map _value args) ;;
      new (ABigNumber (ZanNumber.toBigNumber least)) currency
  end.

Definition max (args : list Money) : result Money :=
  match args with
  | [] => Throw "Cannot get max of empty array"
  | first :: rest =>
      let currency := currencyCode first in
      _ <- check_currencies comparementError currency rest ;;
      greatest <- ZanNumber.Static.max (map _value args) ;;
      new (ABigNumber (ZanNumber.toBigNumber greatest)) currency
  end.

End WithLibrary.
End Static.

Section WithLibrary.
Context {lib : Library}.

Definition getCurrencyCode (this : Money) : string := currencyCode this.

Definition toNumber (this : Money) : number := ZanNumber.toNumber (_value this).

Definition toString (this : Money) : string := ZanNumber.toString (_value this).

Definition toBigNumber (this : Money) : BigNumber :=
  ZanNumber.toBigNumber (_value this).

Definition toMoneyDto (this : Money) : MoneyDto :=
  {| amount := ZanNumber.toString (_value this); currency := currencyCode this |}.

Definition toCents (this : Money) : number :=
  JsNumber.Math_round
    (BigNumber.toNumber
       (BigNumber.times (ZanNumber.toBigNumber (_value this))
          (BigNumber.ofNumber (num 100)))).

Definition add (this other : Money) : result Money :=
  if negb (String.eqb (currencyCode this) (currencyCode other)) then
    Throw "Cannot add money with different currency codes"
  else
    total <- ZanNumber.add (_value this) (_value other) ;;
    new (ABigNumber (ZanNumber.toBigNumber total)) (currencyCode this).

Definition subtract (this other : Money) : result Money :=
  if negb (String.eqb (currencyCode this) (currencyCode other)) then
    Throw "Cannot subtract money with different currency codes"
  else
    difference <- ZanNumber.subtract (_value this) (_value other) ;;
    new (ABigNumber (ZanNumber.toBigNumber difference)) (currencyCode this).

Definition multiplyAndRound (this : Money) (multiplier : number)
    (scale : option Z) : result Money :=
  product <- ZanNumber.multiplyAndRound (_value this) multiplier
               (Some (ZanNumber.scale_or_default scale)) ;;
  new (ABigNumber (ZanNumber.toBigNumber product)) (currencyCode this).

Definition divideAndRound (this : Money) (divider : number)
    (scale : option Z) : result Money :=
  quotient <- ZanNumber.divideAndRound (_value this) divider
                (Some (ZanNumber.scale_or_default scale)) ;;
  new (ABigNumber (ZanNumber.toBigNumber quotient)) (currencyCode this).

Definition round (this : Money) (scale : option Z) : result Money :=
  rounded <- ZanNumber.round (_value this)
               (Some (ZanNumber.scale_or_default scale)) ;;
  new (ABigNumber (ZanNumber.toBigNumber rounded)) (currencyCode this).

Definition isEqual (this : Money) (other : any) : result bool :=
  match other with
  | AMoney other =>
      if String.eqb (currencyCode this) (currencyCode other)
      then ZanNumber.isEqual (_value this) (AZanNumber (_value other))
      else Ok false
  | _ => Ok false
  end.

Definition isLessThan (this other : Money) : result bool :=
  if negb (String.eqb (currencyCode this) (currencyCode other)) then
    Throw comparementError
  else ZanNumber.isLessThan (_value this) (AZanNumber (_value other)).

Definition isLessThanOrEqual (this other : Money) : result bool :=
  if negb (String.eqb (currencyCode this) (currencyCode other)) then
    Throw comparementError
  else ZanNumber.isLessThanOrEqual (_value this) (AZanNumber (_value other)).

Definition isGreaterThan (this other : Money) : result bool :=
  if negb (String.eqb (currencyCode this) (currencyCode other)) then
    Throw comparementError
  else ZanNumber.isGreaterThan (_value this) (AZanNumber (_value other)).

Definition isGreaterThanOrEqual (this other : Money) : result bool :=
  if negb (String.eqb (currencyCode this) (currencyCode other)) then
    Throw comparementError
  else ZanNumber.isGreaterThanOrEqual (_value this) (AZanNumber (_value other)).

Definition min (this other : Money) : result Money :=
  if negb (String.eqb (currencyCode this) (currencyCode other)) then
    Throw comparementError
  else
    lt <- isLessThan this other ;;
    Ok (if lt then this else other).

Definition max (this other : Money) : result Money :=
  if negb (String.eqb (currencyCode this) (currencyCode other)) then
    Throw comparementError
  else
    gt <- isGreaterThan this other ;;
    Ok (if gt then this else other).

End WithLibrary.
End Money.

(** ** money-factory.ts *)

Module MoneyFactory.
Section WithLibrary.
Context {lib : Library}.

Definition invalidStringFormatError : string := "Invalid Money string format".

(** A parameter declared [currencyCode: CurrencyEnum = CurrencyEnum.USD]. *)
Definition or_USD (currencyCode : option string) : string :=
  match currencyCode with
  | Some currencyCode => currencyCode
  | None => CurrencyEnum.USD
  end.

Definition fromMoneyDto (dto : MoneyDto) : result Money :=
  let value := BigNumber.ofString parseNumeric (amount dto) in
  if BigNumber.isNaN value || negb (BigNumber.isFinite value) then
    Throw invalidStringFormatError
  else Money.new (ABigNumber value) (currency dto).

Definition fromNumber (value : number) (currencyCode : option string)
  : result Money :=
  let currencyCode := or_USD currencyCode in
  _ <- validateCurrencyCode currencyCode ;;
  if JsNumber.isNaN value || negb (JsNumber.isFinite value) then
    Throw "Invalid Money number value"
  else Money.new (ABigNumber (BigNumber.ofNumber value)) currencyCode.

Definition fromString (data : string) (currencyCode : option string)
  : result Money :=
  let currencyCode := or_USD currencyCode in
  _ <- validateCurrencyCode currencyCode ;;
  let value := BigNumber.ofString parseNumeric data in
  if BigNumber.isNaN value || negb (BigNumber.isFinite value) then
    Throw invalidStringFormatError
  else Money.new (ABigNumber value) currencyCode.

Definition fromAnyOrThrow (value : any) (currencyCode : option string)
  : result Money :=
  let currencyCode := or_USD currencyCode in
  _ <- validateCurrencyCode currencyCode ;;
  match value with
  | AUndefined | ANull => Throw "Invalid Money input value"
  | ANumber value => fromNumber value (Some currencyCode)
  | AString value => fromString value (Some currencyCode)
  | ABigNumber value =>
      if BigNumber.isNaN value || negb (BigNumber.isFinite value) then
        Throw "Invalid Money BigNumber value: must be finite and not NaN"
      else Money.new (ABigNumber value) currencyCode
  | ADto value => fromMoneyDto value
  | _ => Throw "Invalid Money input value"
  end.

Definition zero (currencyCode : option string) : result Money :=
  let currencyCode := or_USD currencyCode in
  _ <- validateCurrencyCode currencyCode ;;
  Money.new (ANumber (num 0)) currencyCode.

Definition fromCents (cents : number) (currencyCode : option string)
  : result Money :=
  let currencyCode := or_USD currencyCode in
  _ <- validateCurrencyCode currencyCode ;;
  if negb (JsNumber.Number_isInteger cents) || negb (JsNumber.isFinite cents) then
    Throw "Cents must be an integer"
  else
    Money.new
      (ABigNumber (BigNumber.dividedBy DECIMAL_PLACES (BigNumber.ofNumber cents)
                     (BigNumber.ofNumber (num 100))))
      currencyCode.

End WithLibrary.
End MoneyFactory.

(** ** money.dto.ts: the pattern of [amount]

    An optional minus, digits, and optionally a point followed by digits. *)
Definition matches_amount (str : string) : bool :=
  let '(_, cs) := BigNumber.strip_minus (list_ascii_of_string str) in
  let '(ip, r1) := span_digits cs in
  negb (is_nil ip) &&
  match r1 with
  | [] => true
  | "."%char :: r2 =>
      let '(fp, r3) := span_digits r2 in negb (is_nil fp) && is_nil r3
  | _ => false
  end.

(** ** Object identity

    [this.min(other)] and [this.max(other)] return one of their operands, not
    a copy.  Which one is visible only through object identity, so here
    [Money] instances live in a heap and methods handle references. *)

Module Objects.

Definition ref : Type := nat.
Definition heap : Type := list Money.

Definition deref (h : heap) (r : ref) : option Money := nth_error h r.

(** A fresh object is put after the existing ones. *)
Definition alloc (h : heap) (m : Money) : ref * heap :=
  (List.length h, (h ++ [m])%list).

Section WithLibrary.
Context {lib : Library}.

(** [new Money(value, currencyCode)] *)
Definition new (h : heap) (value : any) (currencyCode : string)
  : result (ref * heap) :=
  m <- Money.new value currencyCode ;;
  Ok (alloc h m).

(** [this.min(other)]; nothing is allocated. *)
Definition min (h : heap) (this other : ref) : option (result ref) :=
  match deref h this, deref h other with
  | Some a, Some b =>
      Some (if negb (String.eqb (currencyCode a) (currencyCode b)) then
              Throw Money.comparementError
            else
              lt <- Money.isLessThan a b ;;
              Ok (if lt then this else other))
  | _, _ => None
  end.

(** [this.max(other)]; nothing is allocated. *)
Definition max (h : heap) (this other : ref) : option (result ref) :=
  match deref h this, deref h other with
  | Some a, Some b =>
      Some (if negb (String.eqb (currencyCode a) (currencyCode b)) then
              Throw Money.comparementError
            else
              gt <- Money.isGreaterThan a b ;;
              Ok (if gt then this else other))
  | _, _ => None
  end.

End WithLibrary.
End Objects.

(** ** Conditions, invariants and the values that decimals stand for *)

(** The messages of the failures that a currency mismatch raises. *)
Definition CurrencyMismatch (message : string) : Prop :=
  message = "Cannot add money with different currency codes" \/
  message = "Cannot subtract money with different currency codes" \/
  message = Money.comparementError \/
  message = Money.sumError.

(** The messages of the failures that an empty operand list raises. *)
Definition EmptySequence (message : string) : Prop :=
  message = "Cannot sum empty array" \/
  message = "Cannot get min of empty array" \/
  message = "Cannot get max of empty array".

Definition InvalidCents (message : string) : Prop :=
  message = "Cents must be an integer".

Definition InvalidCurrency (message : string) : Prop :=
  exists code, message = "Invalid currency code: " ++ code.

(** The library with its default configuration.  Its fallback parser is
    never reached by the decimal strings used with it below. *)
Definition default_library : Library :=
  {| parseNumeric := fun _ => BNaN; DECIMAL_PLACES := 20 |}.

Module Invariant.

Definition is_decimal_digit (d : Z) : bool := (0 <=? d) && (d <=? 9).

(** The form in which the library keeps a finite value. *)
Definition canonical (x : BigNumber) : bool :=
  match x with
  | BFinite _ c e =>
      forallb is_decimal_digit c
      && (BigNumber.MIN_EXP <=? e) && (e <=? BigNumber.MAX_EXP)
      && match c with
         | [] => false
         | [0] => e =? 0
         | d :: _ => negb (d =? 0) && negb (last c 0 =? 0)
         end
  | _ => false
  end.

Definition exponent (x : BigNumber) : Z :=
  match x with BFinite _ _ e => e | _ => 0 end.

(** What the constructors establish: a finite value, a recognized
    currency. *)
Definition zan (z : ZanNumber) : bool := BigNumber.isFinite (value z).

Definition money (m : Money) : bool :=
  zan (_value m) && isValidCurrencyCode (currencyCode m).

End Invariant.

(** The rational that a finite decimal stands for. *)
Definition Qvalue (x : BigNumber) : Q :=
  if BigNumber.is_neg x then (- BigNumber.magnitude x)%Q else BigNumber.magnitude x.

(** Rounding a non-negative rational to [scale] decimal places, a half going
    up. *)
Definition round_half_up (q : Q) (scale : Z) : Q :=
  (inject_Z (Qfloor (q * (10 # 1) ^ scale + (1 # 2))) / (10 # 1) ^ scale)%Q.

(** The two tie-breaking rules that the specification allows for
    [toCents]. *)
Definition round_half_away_from_zero (q : Q) : Z :=
  if Qlt_le_dec q 0 then - Qfloor (- q + (1 # 2)) else Qfloor (q + (1 # 2)).

Definition round_half_to_even (q : Q) : Z :=
  let f := Qfloor q in
  match (q - inject_Z f ?= 1 # 2)%Q with
  | Lt => f
  | Gt => f + 1
  | Eq => if Z.even f then f else f + 1
  end.

(** Lists of decimal digits. *)
Definition digits_ok (ds : list Z) : Prop := Forall (fun d => 0 <= d <= 9) ds.

(** The exponent that [normalise] gives to [m * 10^x]. *)
Definition exponent_of (m x : Z) : Z :=
  x + Z.of_nat (List.length (to_digits m)) - 1.

(** A number with its sign replaced. *)
Definition with_sign (neg : bool) (x : number) : number :=
  match x with
  | NaN => NaN
  | Infinity _ => Infinity neg
  | Finite _ m e => Finite neg m e
  end.

(** The decimal 100, as [new BigNumber(100)] gives it. *)
Definition one_hundred : BigNumber := BFinite false [1] 2.

(** Values used in the examples. *)
Definition usd_one : Money :=
  {| _value := {| value := BFinite false [1] 0 |}; currencyCode := "USD" |}.
Definition eur_one : Money :=
  {| _value := {| value := BFinite false [1] 0 |}; currencyCode := "EUR" |}.
Definition minus_104_45 : ZanNumber := {| value := BFinite true [1; 0; 4; 4; 5] 2 |}.
Definition minus_0_015_usd : Money :=
  {| _value := {| value := BFinite true [1; 5] (-2) |}; currencyCode := "USD" |}.

(** A list of digits that does not end with a zero. *)
Definition no_trailing_zero (ds : list Z) : Prop := ds <> [] -> last ds 0 <> 0.

(** The result of the library's [compare] for an ordering. *)
Definition sign_of (c : comparison) : Z :=
  match c with Lt => -1 | Eq => 0 | Gt => 1 end.

(** Canonical values far enough from the ends of the exponent range for a
    sum or a difference of two of them not to leave it: the exponent is
    below the greatest one, and the last digit is not below the least. *)
Definition in_range (x : BigNumber) : bool :=
  match x with
  | BFinite _ c e =>
      Invariant.canonical x && (e <? BigNumber.MAX_EXP)
      && (BigNumber.MIN_EXP <=? BigNumber.unit_exponent c e)
  | _ => false
  end.

(** What follows the mantissa in a printed value: nothing, or an exponent
    part. *)
Definition after_mantissa (rest : list ascii) : Prop :=
  rest = [] \/ exists tl, rest = "e"%char :: tl.

(** The rational that a string of the form of a record's amount writes:
    its digits, divided by ten for every digit after the point, with the
    sign. *)
Definition written_value (str : string) : Q :=
  let '(neg, cs) := BigNumber.strip_minus (list_ascii_of_string str) in
  let '(ip, r1) := span_digits cs in
  let fp := match r1 with
            | "."%char :: r2 => fst (span_digits r2)
            | _ => []
            end in
  let q := (inject_Z (of_digits (digits_of_chars (ip ++ fp)%list))
            / (10 # 1) ^ Z.of_nat (List.length fp))%Q in
  if neg then (- q)%Q else q.

(** The rational value of the native number nearest to [x] (a tie going to
    the even significand): what the decimal [x] becomes when it is turned
    into a number. *)
Definition native_image (x : Q) : Q :=
  let y := JsNumber.to_Q (JsNumber.nearest false (Qabs x)) in
  if Qle_bool 0 x then y else (- y)%Q.

(** The library after [BigNumber.config({ DECIMAL_PLACES: 1 })]. *)
Definition one_place_library : Library :=
  {| parseNumeric := fun _ => BNaN; DECIMAL_PLACES := 1 |}.

(** * Theorems *)

Section Helpers.
Context {lib : Library}.

Lemma validate_valid (code : string) :
  isValidCurrencyCode code = true -> validateCurrencyCode code = Ok tt.
Proof. intros H. unfold validateCurrencyCode. now rewrite H. Qed.

Lemma validate_invalid (code : string) :
  isValidCurrencyCode code = false ->
  validateCurrencyCode code = Throw ("Invalid currency code: " ++ code).
Proof. intros H. unfold validateCurrencyCode. now rewrite H. Qed.

Lemma canonical_finite (x : BigNumber) :
  Invariant.canonical x = true ->
  BigNumber.isNaN x = false /\ BigNumber.isFinite x = true.
Proof. destruct x; simpl; intros H; (discriminate || auto). Qed.

Lemma new_zan_finite (b : BigNumber) :
  BigNumber.isFinite b = true -> ZanNumber.new (ABigNumber b) = Ok {| value := b |}.
Proof. destruct b; simpl; intros H; (discriminate || reflexivity). Qed.

Lemma new_money_finite (b : BigNumber) (code : string) :
  BigNumber.isFinite b = true -> isValidCurrencyCode code = true ->
  Money.new (ABigNumber b) code
  = Ok {| _value := {| value := b |}; currencyCode := code |}.
Proof.
  intros Hb Hc. unfold Money.new, validateCurrencyCode.
  rewrite Hc. destruct b; simpl in Hb; (discriminate || reflexivity).
Qed.

End Helpers.

(** ** C1: mixing currencies *)

(** C1. When the currency codes of [a] and [b] differ, [add], [subtract],
    the four order comparisons, the instance [min] and [max] and the static
    [sum], [min] and [max] on [a, b] all throw a currency-mismatch error,
    while [isEqual] returns [false]. *)
Theorem currency_mismatch_raises `{lib : Library} (a b : Money) :
  currencyCode a <> currencyCode b ->
  throws_with CurrencyMismatch (Money.add a b) /\
  throws_with CurrencyMismatch (Money.subtract a b) /\
  throws_with CurrencyMismatch (Money.isLessThan a b) /\
  throws_with CurrencyMismatch (Money.isLessThanOrEqual a b) /\
  throws_with CurrencyMismatch (Money.isGreaterThan a b) /\
  throws_with CurrencyMismatch (Money.isGreaterThanOrEqual a b) /\
  throws_with CurrencyMismatch (Money.min a b) /\
  throws_with CurrencyMismatch (Money.max a b) /\
  throws_with CurrencyMismatch (Money.Static.sum [a; b]) /\
  throws_with CurrencyMismatch (Money.Static.min [a; b]) /\
  throws_with CurrencyMismatch (Money.Static.max [a; b]) /\
  Money.isEqual a (AMoney b) = Ok false.
Proof.
  intros Hne.
  assert (Hab : String.eqb (currencyCode a) (currencyCode b) = false)
    by now apply String.eqb_neq.
  assert (Hba : String.eqb (currencyCode b) (currencyCode a) = false)
    by (apply String.eqb_neq; congruence).
  unfold Money.add, Money.subtract, Money.isLessThan, Money.isLessThanOrEqual,
    Money.isGreaterThan, Money.isGreaterThanOrEqual, Money.min, Money.max,
    Money.Static.sum, Money.Static.min, Money.Static.max, Money.isEqual.
  simpl Money.check_currencies. rewrite Hab, Hba. simpl.
  unfold throws_with, CurrencyMismatch.
  repeat split; eauto 8.
Qed.

Lemma currency_mismatch_raises_witness :
  throws_with CurrencyMismatch (@Money.add default_library usd_one eur_one) /\
  @Money.isEqual default_library usd_one (AMoney eur_one) = Ok false.
Proof.
  pose proof (@currency_mismatch_raises default_library usd_one eur_one) as H.
  assert (Hne : currencyCode usd_one <> currencyCode eur_one) by (simpl; discriminate).
  specialize (H Hne). split; [exact (proj1 H) | exact (proj2 (proj2 (proj2 (proj2 (proj2 (proj2 (proj2 (proj2 (proj2 (proj2 (proj2 H)))))))))))].
Defined.

(** ** C9: exact addition *)

(** C9. Adding the Money made from ["100.123456789"] to the one made from
    ["50.987654321"], both in USD, and printing the sum gives exactly
    ["151.11111111"]. *)
Theorem add_is_exact `{lib : Library} :
  (a <- Money.new (AString "100.123456789") CurrencyEnum.USD ;;
   b <- Money.new (AString "50.987654321") CurrencyEnum.USD ;;
   total <- Money.add a b ;;
   Ok (Money.toString total))
  = Ok "151.11111111".
Proof. reflexivity. Qed.

(** ** The pattern of a record's amount *)

Section AmountPattern.
Context {lib : Library}.

Lemma length_list_ascii_of_string (str : string) :
  List.length (list_ascii_of_string str) = String.length str.
Proof. induction str as [|ch str IH]; simpl; congruence. Qed.

Lemma span_digits_length (cs ds rest : list ascii) :
  span_digits cs = (ds, rest) ->
  (List.length ds + List.length rest = List.length cs)%nat.
Proof.
  revert ds rest. induction cs as [|ch cs IH]; intros ds rest H; simpl in H.
  - inversion H. reflexivity.
  - destruct (is_digit ch).
    + destruct (span_digits cs) as [ds' rest'] eqn:E. inversion H; subst.
      simpl. now rewrite (IH _ _ eq_refl).
    + inversion H. reflexivity.
Qed.

Lemma strip_minus_length (cs cs' : list ascii) (neg : bool) :
  BigNumber.strip_minus cs = (neg, cs') -> (List.length cs' <= List.length cs)%nat.
Proof.
  unfold BigNumber.strip_minus.
  destruct cs as [|ch cs0]; [intros H; inversion H; auto|].
  destruct (Ascii.eqb ch "-") eqn:E.
  - apply Ascii.eqb_eq in E. subst ch. intros H. inversion H. simpl. lia.
  - destruct ch as [[] [] [] [] [] [] [] []]; try discriminate E;
      intros H; inversion H; simpl; lia.
Qed.

(** A string of the transfer-record pattern is read by the decimal branch of
    the string constructor, and gives a finite value unless it is too long
    for the exponent range. *)
Lemma matches_amount_finite (str : string) :
  matches_amount str = true ->
  Z.of_nat (String.length str) <= BigNumber.MAX_EXP ->
  BigNumber.isNumeric (list_ascii_of_string str) = true /\
  BigNumber.isFinite (BigNumber.ofString parseNumeric str) = true.
Proof.
  unfold matches_amount, BigNumber.ofString, BigNumber.isNumeric, BigNumber.ofDecimal.
  rewrite <- (length_list_ascii_of_string str).
  generalize (list_ascii_of_string str) as cs. intros cs.
  destruct (BigNumber.strip_minus cs) as [neg cs1] eqn:Hm.
  pose proof (strip_minus_length _ _ _ Hm) as Hlen1.
  unfold BigNumber.read_mantissa.
  destruct (span_digits cs1) as [ip r1] eqn:Hip.
  pose proof (span_digits_length _ _ _ Hip) as Hlen2.
  intros H Hbound.
  apply andb_true_iff in H. destruct H as [Hnil H].
  destruct ip as [|i0 ip']; [discriminate Hnil|]. clear Hnil.
  assert (Hfin : forall (digits : list Z) (n : Z),
             n <= Z.of_nat (List.length (i0 :: ip')) ->
             BigNumber.isFinite (BigNumber.ofDigits neg digits n) = true).
  { intros digits n Hn. unfold BigNumber.ofDigits.
    destruct (is_nil _); [reflexivity|].
    destruct (BigNumber.MAX_EXP <? _) eqn:E.
    - apply Z.ltb_lt in E. simpl List.length in *. lia.
    - destruct (_ <? BigNumber.MIN_EXP); reflexivity. }
  destruct r1 as [|ch r2].
  - cbn [BigNumber.read_exponent]. split; [reflexivity|]. apply Hfin. lia.
  - destruct (Ascii.eqb ch ".") eqn:Edot.
    + apply Ascii.eqb_eq in Edot. subst ch.
      destruct (span_digits r2) as [fp r3] eqn:Hfp.
      apply andb_true_iff in H. destruct H as [Hfpn Hr3].
      destruct r3; [|discriminate Hr3].
      cbn [is_nil andb BigNumber.read_exponent].
      split; [reflexivity|]. apply Hfin. lia.
    + destruct ch as [[] [] [] [] [] [] [] []]; discriminate.
Qed.

End AmountPattern.

(** The [currencyCode] argument is checked before the record is looked at. *)
Lemma fromAnyOrThrow_checks_argument `{lib : Library} (v : any) (c : option string) :
  isValidCurrencyCode (MoneyFactory.or_USD c) = false ->
  throws_with InvalidCurrency (MoneyFactory.fromAnyOrThrow v c).
Proof.
  intros H. unfold MoneyFactory.fromAnyOrThrow.
  rewrite (validate_invalid _ H). simpl.
  eexists. split; [reflexivity|]. now eexists.
Qed.

(** ** C3: which operand [min] and [max] return *)

(** The reference that [min] returns is one of its two operands: [this] when
    [this] is less than [other], and [other] otherwise. *)
Lemma min_returns_an_operand `{lib : Library} (h : Objects.heap)
    (this other r : Objects.ref) :
  Objects.min h this other = Some (Ok r) -> r = this \/ r = other.
Proof.
  unfold Objects.min.
  destruct (Objects.deref h this) as [a|]; [|discriminate].
  destruct (Objects.deref h other) as [b|]; [|discriminate].
  destruct (negb _); [discriminate|].
  destruct (Money.isLessThan a b) as [[|]|]; simpl; intros H; inversion H; auto.
Qed.

Lemma max_returns_an_operand `{lib : Library} (h : Objects.heap)
    (this other r : Objects.ref) :
  Objects.max h this other = Some (Ok r) -> r = this \/ r = other.
Proof.
  unfold Objects.max.
  destruct (Objects.deref h this) as [a|]; [|discriminate].
  destruct (Objects.deref h other) as [b|]; [|discriminate].
  destruct (negb _); [discriminate|].
  destruct (Money.isGreaterThan a b) as [[|]|]; simpl; intros H; inversion H; auto.
Qed.

(** C3. Two distinct instances of 100 USD, made one after the other, get the
    references 0 and 1; on them both [this.min(other)] and [this.max(other)]
    return reference 1, the argument, not the receiver. *)
Theorem min_max_of_equals_return_the_argument `{lib : Library} :
  (first <- Objects.new [] (ANumber (num 100)) CurrencyEnum.USD ;;
   second <- Objects.new (snd first) (ANumber (num 100)) CurrencyEnum.USD ;;
   let this := fst first in
   let other := fst second in
   let h := snd second in
   Ok (this, other, Objects.min h this other, Objects.max h this other))
  = Ok (0%nat, 1%nat, Some (Ok 1%nat), Some (Ok 1%nat)).
Proof. reflexivity. Qed.

(** ** C4: [ZanNumber.isEqual] on arbitrary values *)

(** C4, the claim refuted: comparing with the number NaN does not return
    [false]; the constructor's error comes out. *)
Lemma isEqual_NaN_throws :
  @ZanNumber.isEqual default_library {| value := BFinite false [1] 0 |} (ANumber NaN)
  = Throw "Invalid ZanNumber number value: must be finite and not NaN" /\
  @ZanNumber.isEqual default_library {| value := BFinite false [1] 0 |} (ANumber NaN)
  <> Ok false.
Proof. split; [reflexivity | discriminate]. Qed.

(** C4, amended.  [isEqual] compares with a ZanNumber, or with a BigNumber,
    number or string that denotes a finite value; for every other argument
    it throws the error of the ZanNumber constructor. *)
Theorem isEqual_by_argument `{lib : Library} (this : ZanNumber) (other : any) :
  ZanNumber.isEqual this other =
  match other with
  | AZanNumber z => Ok (BigNumber.isEqualTo (value this) (value z))
  | ABigNumber b =>
      if BigNumber.isFinite b then Ok (BigNumber.isEqualTo (value this) b)
      else Throw "Invalid ZanNumber BigNumber value: must be finite and not NaN"
  | ANumber n =>
      if JsNumber.isFinite n
      then Ok (BigNumber.isEqualTo (value this) (BigNumber.ofNumber n))
      else Throw "Invalid ZanNumber number value: must be finite and not NaN"
  | AString s =>
      if BigNumber.isFinite (BigNumber.ofString parseNumeric s)
      then Ok (BigNumber.isEqualTo (value this) (BigNumber.ofString parseNumeric s))
      else Throw "Invalid ZanNumber string format: must be finite and not NaN"
  | _ => Throw "Invalid ZanNumber input type: must be BigNumber, number, or string"
  end.
Proof.
  unfold ZanNumber.isEqual, ZanNumber.createValueForComparisonOperations, ZanNumber.new.
  destruct other as [| |b|n|s|b|z|m|d|]; try reflexivity.
  - destruct n; reflexivity.
  - destruct (BigNumber.ofString parseNumeric s); reflexivity.
  - destruct b; reflexivity.
Qed.

(** ** C5: aggregation of no operand and of one *)

(** C5, the claim refuted: [ZanNumber.sum()] fails, but with the error of the
    ZanNumber constructor, which is none of the empty-sequence errors. *)
Lemma zan_sum_of_nothing_is_not_EmptySequence :
  @ZanNumber.Static.sum default_library []
  = Throw "Invalid ZanNumber BigNumber value: must be finite and not NaN" /\
  ~ throws_with EmptySequence (@ZanNumber.Static.sum default_library []).
Proof.
  split; [reflexivity|].
  intros [msg [H [E | [E | E]]]]; subst msg; discriminate H.
Qed.

(** C5, amended.  With no operand the Money statics throw their
    empty-sequence errors and the ZanNumber statics throw the constructor's
    invalid-value error (the library's aggregate of nothing is NaN); with one
    operand each returns that operand's value unchanged. *)
Theorem aggregation_of_none_and_one `{lib : Library} (z : ZanNumber) (m : Money) :
  Invariant.zan z = true ->
  Invariant.money m = true ->
  (Money.Static.sum [] = Throw "Cannot sum empty array" /\
   Money.Static.min [] = Throw "Cannot get min of empty array" /\
   Money.Static.max [] = Throw "Cannot get max of empty array") /\
  (throws_with EmptySequence (Money.Static.sum []) /\
   throws_with EmptySequence (Money.Static.min []) /\
   throws_with EmptySequence (Money.Static.max [])) /\
  (ZanNumber.Static.sum []
     = Throw "Invalid ZanNumber BigNumber value: must be finite and not NaN" /\
   ZanNumber.Static.min []
     = Throw "Invalid ZanNumber BigNumber value: must be finite and not NaN" /\
   ZanNumber.Static.max []
     = Throw "Invalid ZanNumber BigNumber value: must be finite and not NaN") /\
  (ZanNumber.Static.sum [z] = Ok z /\
   ZanNumber.Static.min [z] = Ok z /\
   ZanNumber.Static.max [z] = Ok z) /\
  (Money.Static.sum [m] = Ok m /\
   Money.Static.min [m] = Ok m /\
   Money.Static.max [m] = Ok m).
Proof.
  intros Hz Hm.
  assert (Hone : forall z0, Invariant.zan z0 = true ->
            ZanNumber.new (ABigNumber (value z0)) = Ok z0).
  { intros [v] Hv. unfold Invariant.zan in Hv. simpl in *.
    now rewrite (new_zan_finite _ Hv). }
  split; [repeat split|].
  split; [unfold throws_with, EmptySequence; repeat split; eexists; split;
          try reflexivity; auto|].
  split; [repeat split|].
  assert (Hsum : ZanNumber.Static.sum [z] = Ok z) by (apply (Hone z Hz)).
  assert (Hmin : ZanNumber.Static.min [z] = Ok z) by (apply (Hone z Hz)).
  assert (Hmax : ZanNumber.Static.max [z] = Ok z) by (apply (Hone z Hz)).
  split; [auto|].
  unfold Invariant.money in Hm. apply andb_true_iff in Hm. destruct Hm as [Hv Hc].
  assert (Hnew : Money.new (ABigNumber (ZanNumber.toBigNumber (_value m))) (currencyCode m)
                 = Ok m).
  { destruct m as [[v] code]. unfold Invariant.zan in Hv. simpl in *.
    apply (new_money_finite _ _ Hv Hc). }
  unfold Money.Static.sum, Money.Static.min, Money.Static.max.
  cbn [Money.check_currencies map bind].
  rewrite (Hone _ Hv : ZanNumber.Static.sum [_value m] = Ok _).
  rewrite (Hone _ Hv : ZanNumber.Static.min [_value m] = Ok _).
  rewrite (Hone _ Hv : ZanNumber.Static.max [_value m] = Ok _).
  cbn [bind]. rewrite Hnew. auto.
Qed.

Lemma aggregation_of_none_and_one_witness :
  @ZanNumber.Static.sum default_library [_value usd_one] = Ok (_value usd_one) /\
  @Money.Static.max default_library [usd_one] = Ok usd_one.
Proof.
  pose proof (@aggregation_of_none_and_one default_library (_value usd_one) usd_one
                eq_refl eq_refl) as H.
  split; [apply H | apply H].
Defined.

(** ** C2: the amount string through a record round trip *)

(** C2.  The amounts ["0.0000001"] and ["1000000000000000000000"] have the
    record pattern and no redundant zeros, yet come back from
    [fromMoneyDto] and [toMoneyDto] in exponential notation, which the record
    pattern itself does not accept. *)
Theorem round_trip_leaves_plain_notation `{lib : Library} :
  matches_amount "0.0000001" = true /\
  (m <- MoneyFactory.fromMoneyDto {| amount := "0.0000001"; currency := CurrencyEnum.USD |} ;;
   Ok (amount (Money.toMoneyDto m))) = Ok "1e-7" /\
  matches_amount "1e-7" = false /\
  matches_amount "1000000000000000000000" = true /\
  (m <- MoneyFactory.fromMoneyDto
          {| amount := "1000000000000000000000"; currency := CurrencyEnum.USD |} ;;
   Ok (amount (Money.toMoneyDto m))) = Ok "1e+21" /\
  matches_amount "1e+21" = false.
Proof. repeat split. Qed.

(** ** Decimal digits and the integers they write *)

Section DigitLemmas.

Lemma fold_digits_acc (ds : list Z) (acc : Z) :
  fold_left (fun a d => 10 * a + d) ds acc
  = acc * 10 ^ Z.of_nat (List.length ds) + of_digits ds.
Proof.
  unfold of_digits. revert acc.
  induction ds as [|d ds IH]; intros acc; cbn [fold_left List.length].
  - rewrite Z.pow_0_r. lia.
  - rewrite IH, (IH (10 * 0 + d)), Nat2Z.inj_succ, Z.pow_succ_r by lia. ring.
Qed.

Lemma of_digits_cons (d : Z) (ds : list Z) :
  of_digits (d :: ds) = d * 10 ^ Z.of_nat (List.length ds) + of_digits ds.
Proof.
  unfold of_digits at 1. cbn [fold_left]. rewrite fold_digits_acc. ring.
Qed.

Lemma of_digits_app (ds1 ds2 : list Z) :
  of_digits (ds1 ++ ds2)
  = of_digits ds1 * 10 ^ Z.of_nat (List.length ds2) + of_digits ds2.
Proof.
  unfold of_digits at 1. rewrite fold_left_app.
  fold (of_digits ds1). apply fold_digits_acc.
Qed.

Lemma of_digits_bound (ds : list Z) :
  digits_ok ds -> 0 <= of_digits ds < 10 ^ Z.of_nat (List.length ds).
Proof.
  induction 1 as [|d ds Hd _ IH].
  - cbn. lia.
  - rewrite of_digits_cons. cbn [List.length].
    rewrite Nat2Z.inj_succ, Z.pow_succ_r by lia.
    assert (0 < 10 ^ Z.of_nat (List.length ds)) by (apply Z.pow_pos_nonneg; lia).
    nia.
Qed.

Lemma of_digits_repeat_zero (t : nat) : of_digits (repeat 0 t) = 0.
Proof.
  induction t as [|t IH]; [reflexivity|].
  cbn [repeat]. rewrite of_digits_cons, IH. lia.
Qed.

Lemma to_digits_fuel_spec (f : nat) :
  forall (n : Z) (acc : list Z),
    0 <= n < 2 ^ Z.of_nat (S f) ->
    exists ds,
      to_digits_fuel (S f) n acc = (ds ++ acc)%list /\
      of_digits ds = n /\ digits_ok ds /\ ds <> [] /\
      (0 < n -> 10 ^ (Z.of_nat (List.length ds) - 1) <= n).
Proof.
  induction f as [|f IH]; intros n acc Hn.
  - exists [n]. cbn [to_digits_fuel].
    change (2 ^ Z.of_nat 1) with 2 in Hn.
    destruct (Z.ltb_spec n 10); [|lia].
    repeat split; try (cbn; lia); try discriminate.
    constructor; [lia | constructor].
  - remember (S f) as f1. cbn [to_digits_fuel].
    destruct (Z.ltb_spec n 10) as [Hlt|Hge].
    + exists [n]. repeat split; try (cbn; lia); try discriminate.
      constructor; [lia | constructor].
    + assert (Hdiv : 0 <= n / 10 < 2 ^ Z.of_nat f1).
      { split; [apply Z.div_pos; lia|].
        apply Z.div_lt_upper_bound; [lia|].
        rewrite Nat2Z.inj_succ, Z.pow_succ_r in Hn by lia. lia. }
      destruct (IH (n / 10) (n mod 10 :: acc) Hdiv) as [ds [E [Hv [Hok [Hne Hlow]]]]].
      exists (ds ++ [n mod 10])%list. rewrite E, <- app_assoc.
      split; [reflexivity|].
      split.
      { rewrite of_digits_app, Hv. cbn [List.length].
        change (of_digits [n mod 10]) with (10 * 0 + n mod 10).
        change (10 ^ Z.of_nat 1) with 10.
        pose proof (Z.div_mod n 10). lia. }
      split.
      { apply Forall_app. split; [exact Hok|].
        constructor; [|constructor]. pose proof (Z.mod_pos_bound n 10). lia. }
      split.
      { destruct ds; discriminate. }
      intros _. rewrite length_app. cbn [List.length].
      replace (Z.of_nat (List.length ds + 1) - 1) with (Z.of_nat (List.length ds)) by lia.
      assert (Hpos : 0 < n / 10) by (apply Z.div_str_pos; lia).
      specialize (Hlow Hpos).
      assert (Hlen : 0 < Z.of_nat (List.length ds))
        by (destruct ds; [contradiction | cbn [List.length]; lia]).
      replace (Z.of_nat (List.length ds)) with (Z.succ (Z.of_nat (List.length ds) - 1)) by lia.
      rewrite Z.pow_succ_r by lia.
      pose proof (Z.div_mod n 10). pose proof (Z.mod_pos_bound n 10). lia.
Qed.

Lemma to_digits_spec (n : Z) :
  0 <= n ->
  of_digits (to_digits n) = n /\ digits_ok (to_digits n) /\ to_digits n <> [] /\
  (0 < n -> 10 ^ (Z.of_nat (List.length (to_digits n)) - 1) <= n).
Proof.
  intros Hn. unfold to_digits.
  assert (Hb : 0 <= n < 2 ^ Z.of_nat (S (Z.to_nat (Z.log2 n)))).
  { split; [exact Hn|].
    rewrite Nat2Z.inj_succ, Z2Nat.id by apply Z.log2_nonneg.
    destruct (Z.eq_dec n 0) as [->|Hnz]; [cbn; lia|].
    apply Z.log2_spec. lia. }
  destruct (to_digits_fuel_spec _ n [] Hb) as [ds [E H]].
  rewrite E, app_nil_r. exact H.
Qed.

(** The number of decimal digits of a positive integer. *)
Lemma to_digits_length (n : Z) :
  0 < n ->
  10 ^ (Z.of_nat (List.length (to_digits n)) - 1) <= n
  < 10 ^ Z.of_nat (List.length (to_digits n)).
Proof.
  intros Hn. destruct (to_digits_spec n) as [Hv [Hok [_ Hlow]]]; [lia|].
  split; [auto|]. pose proof (of_digits_bound _ Hok). lia.
Qed.

Lemma drop_zeros_decomp (ds : list Z) :
  exists t, ds = (repeat 0 t ++ drop_zeros ds)%list.
Proof.
  induction ds as [|d ds [t IH]]; [exists 0%nat; reflexivity|].
  destruct d; try (exists 0%nat; reflexivity).
  exists (S t). cbn [drop_zeros repeat app]. now rewrite <- IH.
Qed.

Lemma strip_trailing_zeros_decomp (ds : list Z) :
  exists t, ds = (strip_trailing_zeros ds ++ repeat 0 t)%list.
Proof.
  unfold strip_trailing_zeros.
  destruct (drop_zeros_decomp (rev ds)) as [t E].
  exists t. rewrite <- (rev_involutive ds), E at 1.
  rewrite rev_app_distr, rev_repeat. reflexivity.
Qed.

End DigitLemmas.

(** ** Powers of ten and of two in the rationals *)

Section PowerLemmas.

Lemma ten_not_0 : ~ (10 # 1 == 0)%Q.
Proof. discriminate. Qed.

Lemma two_not_0 : ~ (2 # 1 == 0)%Q.
Proof. discriminate. Qed.

Lemma pow10_pos (x : Z) : (0 < (10 # 1) ^ x)%Q.
Proof. now apply Qpower_0_lt. Qed.

Lemma pow2_pos (x : Z) : (0 < (2 # 1) ^ x)%Q.
Proof. now apply Qpower_0_lt. Qed.

Lemma pow10_inject (n : Z) : 0 <= n -> (inject_Z (10 ^ n) == (10 # 1) ^ n)%Q.
Proof. intros H. now rewrite Zpower_Qpower. Qed.

Lemma pow2_inject (n : Z) : 0 <= n -> (inject_Z (2 ^ n) == (2 # 1) ^ n)%Q.
Proof. intros H. now rewrite Zpower_Qpower. Qed.

Lemma pow10_le (a b : Z) : a <= b -> ((10 # 1) ^ a <= (10 # 1) ^ b)%Q.
Proof. intros H. apply Qpower_le_compat_l; [exact H | discriminate]. Qed.

Lemma pow10_lt_inv (a b : Z) : ((10 # 1) ^ a < (10 # 1) ^ b)%Q -> a < b.
Proof. intros H. apply (Qpower_lt_compat_l_inv _ _ _ H). reflexivity. Qed.

Lemma pow2_le (a b : Z) : a <= b -> ((2 # 1) ^ a <= (2 # 1) ^ b)%Q.
Proof. intros H. apply Qpower_le_compat_l; [exact H | discriminate]. Qed.

Lemma pow2_lt_inv (a b : Z) : ((2 # 1) ^ a < (2 # 1) ^ b)%Q -> a < b.
Proof. intros H. apply (Qpower_lt_compat_l_inv _ _ _ H). reflexivity. Qed.

End PowerLemmas.

(** ** [normalise] keeps the value *)

Section NormaliseLemmas.

Lemma exponent_of_bounds (m x : Z) :
  0 < m ->
  ((10 # 1) ^ exponent_of m x <= inject_Z m * (10 # 1) ^ x
   /\ inject_Z m * (10 # 1) ^ x < (10 # 1) ^ (exponent_of m x + 1))%Q.
Proof.
  intros Hm. unfold exponent_of.
  destruct (to_digits_length m Hm) as [Hlo Hhi].
  set (L := Z.of_nat (List.length (to_digits m))) in *.
  assert (HL : 1 <= L).
  { destruct (Z_le_gt_dec 1 L) as [|Hgt]; [assumption|].
    assert (L = 0) by lia. rewrite H in Hhi. cbn in Hhi. lia. }
  split.
  - replace (x + L - 1) with ((L - 1) + x) by lia.
    rewrite Qpower_plus by apply ten_not_0.
    apply Qmult_le_compat_r; [|apply Qlt_le_weak, pow10_pos].
    rewrite <- pow10_inject by lia. now rewrite <- Zle_Qle.
  - replace (x + L - 1 + 1) with (L + x) by lia.
    rewrite Qpower_plus by apply ten_not_0.
    apply Qmult_lt_compat_r; [apply pow10_pos|].
    rewrite <- pow10_inject by lia. now rewrite <- Zlt_Qlt.
Qed.

Lemma normalise_zero (neg : bool) (x : Z) :
  BigNumber.normalise neg 0 x = BigNumber.zero neg.
Proof. reflexivity. Qed.

Lemma normalise_spec (neg : bool) (m x : Z) :
  0 < m ->
  BigNumber.MIN_EXP <= exponent_of m x <= BigNumber.MAX_EXP ->
  exists c,
    BigNumber.normalise neg m x = BFinite neg c (exponent_of m x) /\
    (BigNumber.magnitude (BFinite neg c (exponent_of m x))
     == inject_Z m * (10 # 1) ^ x)%Q.
Proof.
  intros Hm [Hlo Hhi]. unfold BigNumber.normalise. fold (exponent_of m x).
  destruct (Z.eqb_spec m 0); [lia|].
  destruct (Z.ltb_spec BigNumber.MAX_EXP (exponent_of m x)); [lia|].
  destruct (Z.ltb_spec (exponent_of m x) BigNumber.MIN_EXP); [lia|].
  eexists. split; [reflexivity|].
  destruct (strip_trailing_zeros_decomp (to_digits m)) as [t E].
  set (c := strip_trailing_zeros (to_digits m)) in *.
  destruct (to_digits_spec m) as [Hv _]; [lia|].
  assert (Hc : m = BigNumber.coefficient c * 10 ^ Z.of_nat t).
  { rewrite <- Hv at 1. rewrite E, of_digits_app, of_digits_repeat_zero, repeat_length.
    unfold BigNumber.coefficient. lia. }
  assert (Hu : BigNumber.unit_exponent c (exponent_of m x) = x + Z.of_nat t).
  { unfold BigNumber.unit_exponent, exponent_of.
    rewrite E at 1. rewrite length_app, repeat_length. lia. }
  unfold BigNumber.magnitude. rewrite Hu, Hc at 1.
  rewrite inject_Z_mult, pow10_inject by lia.
  rewrite Z.add_comm, Qpower_plus by apply ten_not_0.
  ring.
Qed.

(** When the value lies within the exponent range, [normalise] gives the
    finite decimal with that value. *)
Lemma normalise_magnitude (neg : bool) (m x lo hi : Z) :
  0 < m ->
  ((10 # 1) ^ lo <= inject_Z m * (10 # 1) ^ x)%Q ->
  (inject_Z m * (10 # 1) ^ x < (10 # 1) ^ hi)%Q ->
  BigNumber.MIN_EXP <= lo -> hi <= BigNumber.MAX_EXP + 1 ->
  exists c e,
    BigNumber.normalise neg m x = BFinite neg c e /\
    (BigNumber.magnitude (BFinite neg c e) == inject_Z m * (10 # 1) ^ x)%Q.
Proof.
  intros Hm Hlo Hhi Hmin Hmax.
  destruct (exponent_of_bounds m x Hm) as [Hb1 Hb2].
  assert (lo < exponent_of m x + 1)
    by (apply pow10_lt_inv; eapply Qle_lt_trans; eauto).
  assert (exponent_of m x < hi)
    by (apply pow10_lt_inv; eapply Qle_lt_trans; eauto).
  destruct (normalise_spec neg m x Hm) as [c [E Hv]]; [lia|].
  exists c, (exponent_of m x). auto.
Qed.

End NormaliseLemmas.

(** ** C6: rounding to a scale *)

Section RoundLemmas.

Lemma digits_ok_canonical (x : BigNumber) (neg : bool) (c : list Z) (e : Z) :
  Invariant.canonical x = true -> x = BFinite neg c e -> digits_ok c.
Proof.
  intros H ->. cbn in H.
  repeat (apply andb_true_iff in H; destruct H as [H ?]).
  apply Forall_forall. intros d Hd.
  rewrite forallb_forall in H. specialize (H d Hd).
  unfold Invariant.is_decimal_digit in H. lia.
Qed.

(** Keeping [sd] of the digits and adding one when the next digit is 5 or
    more is the division of the coefficient by the dropped power of ten,
    rounded half up. *)
Lemma round_carry (c : list Z) (sd : Z) :
  digits_ok c -> 0 <= sd < Z.of_nat (List.length c) ->
  (if 5 <=? nth (Z.to_nat sd) c 0
   then of_digits (firstn (Z.to_nat sd) c) + 1
   else of_digits (firstn (Z.to_nat sd) c))
  = (2 * of_digits c + 10 ^ (Z.of_nat (List.length c) - sd))
    / (2 * 10 ^ (Z.of_nat (List.length c) - sd)).
Proof.
  intros Hok Hsd.
  assert (Hk : (Z.to_nat sd < List.length c)%nat) by lia.
  destruct (nth_split c 0 Hk) as [l1 [l2 [E Hl1]]].
  set (rd := nth (Z.to_nat sd) c 0) in *.
  assert (Hfirst : firstn (Z.to_nat sd) c = l1).
  { rewrite E, <- Hl1, firstn_app, firstn_all, Nat.sub_diag. cbn. apply app_nil_r. }
  rewrite Hfirst.
  assert (Hok' : digits_ok l1 /\ 0 <= rd <= 9 /\ digits_ok l2).
  { unfold digits_ok in Hok. rewrite E in Hok. apply Forall_app in Hok.
    destruct Hok as [H1 H2]. inversion H2 as [|? ? Hd Hrest]. auto. }
  destruct Hok' as [Hok1 [Hrd Hok2]].
  pose proof (of_digits_bound _ Hok2) as HR.
  assert (Hlen : Z.of_nat (List.length c) - sd = Z.succ (Z.of_nat (List.length l2))).
  { rewrite E at 1. rewrite length_app. cbn [List.length]. lia. }
  rewrite Hlen, Z.pow_succ_r by lia.
  assert (Hc : of_digits c
               = of_digits l1 * (10 * 10 ^ Z.of_nat (List.length l2))
                 + rd * 10 ^ Z.of_nat (List.length l2) + of_digits l2).
  { rewrite E at 1. rewrite of_digits_app, of_digits_cons. cbn [List.length].
    rewrite Nat2Z.inj_succ, Z.pow_succ_r by lia. ring. }
  rewrite Hc.
  set (P := 10 ^ Z.of_nat (List.length l2)) in *.
  set (R := of_digits l2) in *. set (K := of_digits l1) in *.
  assert (HP : 0 < P) by (apply Z.pow_pos_nonneg; lia).
  destruct (Z.leb_spec 5 rd).
  - apply Z.div_unique with (r := 2 * rd * P + 2 * R - 10 * P); [nia | ring].
  - apply Z.div_unique with (r := 2 * rd * P + 2 * R + 10 * P); [nia | ring].
Qed.

Lemma round_nothing_kept (c : list Z) (sd : Z) :
  digits_ok c -> sd < 0 ->
  0 = (2 * of_digits c + 10 ^ (Z.of_nat (List.length c) - sd))
      / (2 * 10 ^ (Z.of_nat (List.length c) - sd)).
Proof.
  intros Hok Hsd. pose proof (of_digits_bound _ Hok) as Hb.
  set (L := Z.of_nat (List.length c)) in *.
  assert (HL : 0 <= L) by (unfold L; lia).
  assert (Hp : 10 * 10 ^ L <= 10 ^ (L - sd)).
  { rewrite <- Z.pow_succ_r by lia. apply Z.pow_le_mono_r; lia. }
  symmetry. apply Z.div_small. lia.
Qed.

(** The half-up quotient by a power of ten as a floor in the rationals. *)
Lemma half_up_floor (m d : Z) :
  0 < d ->
  Qfloor (inject_Z m * (10 # 1) ^ (- d) + (1 # 2))
  = (2 * m + 10 ^ d) / (2 * 10 ^ d).
Proof.
  intros Hd. rewrite Zdiv_Qdiv. apply Qfloor_comp.
  rewrite Qpower_opp, <- pow10_inject by lia.
  rewrite !inject_Z_mult, !inject_Z_plus, !inject_Z_mult.
  assert (Hp : ~ (inject_Z (10 ^ d) == 0)%Q).
  { rewrite pow10_inject by lia. apply Qpower_not_0. discriminate. }
  change (inject_Z 2) with (2 # 1)%Q. field. exact Hp.
Qed.

End RoundLemmas.

Section RoundTheorem.
Context {lib : Library}.

Lemma floor_plus_half (n : Z) : Qfloor (inject_Z n + (1 # 2)) = n.
Proof.
  assert (E : (inject_Z n + (1 # 2) == (2 * n + 1) # 2)%Q).
  { unfold Qeq, Qplus, inject_Z. cbn [Qnum Qden]. rewrite Pos2Z.inj_mul. lia. }
  rewrite (Qfloor_comp _ _ E). unfold Qfloor.
  symmetry. apply Z.div_unique with (r := 1); lia.
Qed.

Lemma of_digits_head_bound (d : Z) (ds : list Z) :
  1 <= d -> digits_ok ds -> 10 ^ Z.of_nat (List.length ds) <= of_digits (d :: ds).
Proof.
  intros Hd Hok. rewrite of_digits_cons.
  pose proof (of_digits_bound _ Hok).
  assert (0 < 10 ^ Z.of_nat (List.length ds)) by (apply Z.pow_pos_nonneg; lia).
  nia.
Qed.

Lemma digits_ok_firstn (k : nat) (c : list Z) : digits_ok c -> digits_ok (firstn k c).
Proof.
  intros H. apply Forall_forall. intros d Hd.
  apply (proj1 (Forall_forall _ _) H).
  rewrite <- (firstn_skipn k c). apply in_or_app. now left.
Qed.

Lemma new_finite (neg : bool) (c : list Z) (e : Z) :
  ZanNumber.new (ABigNumber (BFinite neg c e)) = Ok {| value := BFinite neg c e |}.
Proof. reflexivity. Qed.

Lemma canonical_parts (neg : bool) (c : list Z) (e : Z) :
  Invariant.canonical (BFinite neg c e) = true ->
  digits_ok c /\ BigNumber.MIN_EXP <= e <= BigNumber.MAX_EXP /\
  (c = [0] \/ exists d ds, c = d :: ds /\ 1 <= d).
Proof.
  intros H. pose proof (digits_ok_canonical _ neg c e H eq_refl) as Hok.
  cbn in H. repeat (apply andb_true_iff in H; destruct H as [H ?]).
  split; [exact Hok|]. split; [lia|].
  destruct c as [|d ds]; [discriminate|].
  inversion Hok as [|? ? Hd _]; subst.
  destruct (Z.eq_dec d 0) as [->|Hnz].
  - destruct ds; [now left|]. cbn in H0. discriminate.
  - right. exists d, ds. split; [reflexivity|lia].
Qed.

Lemma magnitude_scaled (neg : bool) (c : list Z) (e scale : Z) :
  (BigNumber.magnitude (BFinite neg c e) * (10 # 1) ^ scale
   == inject_Z (of_digits c) * (10 # 1) ^ (BigNumber.unit_exponent c e + scale))%Q.
Proof.
  unfold BigNumber.magnitude, BigNumber.coefficient.
  rewrite Qpower_plus by apply ten_not_0. ring.
Qed.

(** Rounding an integer number of units changes nothing. *)
Lemma round_half_up_integer (q : Q) (scale n : Z) :
  (q * (10 # 1) ^ scale == inject_Z n)%Q -> (round_half_up q scale == q)%Q.
Proof.
  intros H. unfold round_half_up.
  rewrite (Qfloor_comp _ _ (Qplus_comp _ _ H _ _ (Qeq_refl (1 # 2)))).
  rewrite floor_plus_half, <- H.
  field. apply Qpower_not_0. discriminate.
Qed.

Lemma round_general (this : ZanNumber) (scale : Z) :
  Invariant.canonical (value this) = true ->
  0 <= scale <= BigNumber.MAX ->
  Invariant.exponent (value this) < BigNumber.MAX_EXP ->
  exists r,
    ZanNumber.round this (Some scale) = Ok r /\
    BigNumber.is_neg (value r) = BigNumber.is_neg (value this) /\
    (BigNumber.magnitude (value r)
     == round_half_up (BigNumber.magnitude (value this)) scale)%Q.
Proof.
  intros Hz Hs He. destruct this as [x]. cbn [value] in *.
  destruct x as [| |neg c e]; try discriminate Hz.
  destruct (canonical_parts _ _ _ Hz) as [Hok [Hrange Hhead]].
  cbn [Invariant.exponent] in He.
  unfold ZanNumber.round, ZanNumber.scale_or_default, BigNumber.decimalPlaces.
  destruct (Z.ltb_spec scale 0); [lia|].
  destruct (Z.ltb_spec BigNumber.MAX scale); [lia|].
  cbn [orb bind value]. unfold BigNumber.round.
  set (L := Z.of_nat (List.length c)).
  set (sd := scale + e + 1).
  assert (Hue : BigNumber.unit_exponent c e + scale = sd - L)
    by (unfold BigNumber.unit_exponent, sd, L; lia).
  destruct (Z.leb_spec L sd) as [Hkeep|Hcut].
  - (* nothing to drop *)
    rewrite new_finite. eexists. split; [reflexivity|]. split; [reflexivity|].
    cbn [value]. symmetry.
    apply round_half_up_integer with (n := of_digits c * 10 ^ (sd - L)).
    rewrite magnitude_scaled, Hue, inject_Z_mult, pow10_inject by lia. reflexivity.
  - (* digits are dropped *)
    set (m' := if 5 <=? (if sd <? 0 then 0 else nth (Z.to_nat sd) c 0)
               then of_digits (firstn (Z.to_nat sd) c) + 1
               else of_digits (firstn (Z.to_nat sd) c)).
    replace (e - sd + 1) with (- scale) by (unfold sd; lia).
    assert (Hm' : m' = Qfloor (BigNumber.magnitude (BFinite neg c e) * (10 # 1) ^ scale
                               + (1 # 2))).
    { rewrite (Qfloor_comp _ _ (Qplus_comp _ _ (magnitude_scaled neg c e scale) _ _
                                   (Qeq_refl (1 # 2)))).
      rewrite Hue. replace (sd - L) with (- (L - sd)) by lia.
      rewrite half_up_floor by lia. unfold m'.
      destruct (Z.ltb_spec sd 0) as [Hneg|Hpos].
      - replace (Z.to_nat sd) with 0%nat by lia. cbn [firstn].
        change (5 <=? 0) with false. cbv iota.
        change (of_digits []) with 0. apply round_nothing_kept; assumption.
      - apply round_carry; [assumption | fold L; lia]. }
    assert (Hkept : 0 <= of_digits (firstn (Z.to_nat sd) c)
                    < 10 ^ Z.of_nat (Z.to_nat sd)).
    { pose proof (of_digits_bound _ (digits_ok_firstn (Z.to_nat sd) c Hok)) as Hb.
      rewrite length_firstn in Hb.
      replace (Init.Nat.min (Z.to_nat sd) (List.length c)) with (Z.to_nat sd) in Hb
        by (unfold L in Hcut; lia).
      exact Hb. }
    assert (Hm'ub : 0 <= m' <= 10 ^ Z.of_nat (Z.to_nat sd)).
    { unfold m'. destruct (5 <=? _); lia. }
    destruct (Z.eq_dec m' 0) as [Hzero|Hnz].
    + rewrite Hzero, normalise_zero. unfold BigNumber.zero. rewrite new_finite.
      eexists. split; [reflexivity|]. split; [reflexivity|].
      cbn [value]. unfold round_half_up. rewrite <- Hm', Hzero.
      change (BigNumber.magnitude (BFinite neg [0] 0)) with (inject_Z 0 * (10 # 1) ^ 0)%Q.
      unfold Qdiv. change (inject_Z 0) with 0%Q. rewrite !Qmult_0_l. reflexivity.
    + assert (Hlow : 10 ^ (Z.max sd 1 - 1) <= m').
      { destruct (Z_le_gt_dec sd 0) as [Hle|Hgt].
        - replace (Z.max sd 1 - 1) with 0 by lia. cbn. lia.
        - replace (Z.max sd 1 - 1) with (sd - 1) by lia.
          destruct Hhead as [->|[d [ds [-> Hd]]]].
          + cbn [List.length] in L. unfold L in Hcut. lia.
          + assert (Hfn : firstn (Z.to_nat sd) (d :: ds)
                          = d :: firstn (Z.to_nat (sd - 1)) ds).
            { replace (Z.to_nat sd) with (S (Z.to_nat (sd - 1))) by lia.
              reflexivity. }
            assert (Hok2 : digits_ok (firstn (Z.to_nat (sd - 1)) ds)).
            { apply digits_ok_firstn. inversion Hok; assumption. }
            pose proof (of_digits_head_bound d _ Hd Hok2) as Hb.
            rewrite length_firstn in Hb.
            replace (Z.of_nat (Init.Nat.min (Z.to_nat (sd - 1)) (List.length ds)))
              with (sd - 1) in Hb
              by (unfold L in Hcut; cbn [List.length] in Hcut; lia).
            unfold m'. rewrite Hfn. destruct (5 <=? _); lia. }
      assert (Hpos : 0 < m') by lia.
      destruct (normalise_magnitude neg m' (- scale)
                  (Z.max sd 1 - 1 - scale) (Z.of_nat (Z.to_nat sd) + 1 - scale) Hpos)
        as [c' [e' [E Hv]]].
      * replace (Z.max sd 1 - 1 - scale) with ((Z.max sd 1 - 1) + - scale) by lia.
        rewrite Qpower_plus by apply ten_not_0.
        apply Qmult_le_compat_r; [|apply Qlt_le_weak, pow10_pos].
        rewrite <- pow10_inject by lia. now rewrite <- Zle_Qle.
      * replace (Z.of_nat (Z.to_nat sd) + 1 - scale)
          with ((Z.of_nat (Z.to_nat sd) + 1) + - scale) by lia.
        rewrite Qpower_plus by apply ten_not_0.
        apply Qmult_lt_compat_r; [apply pow10_pos|].
        rewrite <- pow10_inject by lia. rewrite <- Zlt_Qlt.
        rewrite Z.pow_add_r, Z.pow_1_r by lia. lia.
      * unfold BigNumber.MIN_EXP, BigNumber.MAX in *. unfold sd. lia.
      * unfold BigNumber.MAX_EXP in *. unfold sd. lia.
      * rewrite E, new_finite. eexists. split; [reflexivity|]. split; [reflexivity|].
        cbn [value]. rewrite Hv. unfold round_half_up. rewrite <- Hm'.
        rewrite Qpower_opp. reflexivity.
Qed.


End RoundTheorem.

(** C6. [round(scale)] keeps the sign and rounds the magnitude to [scale]
    decimal places with a half going up, that is half away from zero:
    the magnitude becomes [floor (|v| * 10^scale + 1/2) / 10^scale].  So
    104.45 gives 104.5, 104.44 gives 104.4 and -104.45 gives -104.5 at scale
    1.  (The hypotheses: the value is in the form in which the library keeps
    finite values, the scale is one that [decimalPlaces] accepts, and a
    carry out of the first digit stays within the exponent range.) *)
Theorem round_is_half_away_from_zero `{lib : Library} (this : ZanNumber) (scale : Z) :
  Invariant.canonical (value this) = true ->
  0 <= scale <= BigNumber.MAX ->
  Invariant.exponent (value this) < BigNumber.MAX_EXP ->
  (exists r,
      ZanNumber.round this (Some scale) = Ok r /\
      BigNumber.is_neg (value r) = BigNumber.is_neg (value this) /\
      (BigNumber.magnitude (value r)
       == round_half_up (BigNumber.magnitude (value this)) scale)%Q) /\
  (z <- ZanNumber.new (AString "104.45") ;;
   r <- ZanNumber.round z (Some 1) ;; Ok (ZanNumber.toString r)) = Ok "104.5" /\
  (z <- ZanNumber.new (AString "104.44") ;;
   r <- ZanNumber.round z (Some 1) ;; Ok (ZanNumber.toString r)) = Ok "104.4" /\
  (z <- ZanNumber.new (AString "-104.45") ;;
   r <- ZanNumber.round z (Some 1) ;; Ok (ZanNumber.toString r)) = Ok "-104.5".
Proof.
  intros Hz Hs He. split; [now apply round_general|].
  repeat split.
Qed.

Lemma round_is_half_away_from_zero_witness :
  exists r,
    @ZanNumber.round default_library minus_104_45 (Some 1) = Ok r /\
    BigNumber.is_neg (value r) = true /\
    (BigNumber.magnitude (value r)
     == round_half_up (BigNumber.magnitude (value minus_104_45)) 1)%Q.
Proof.
  refine (proj1 (@round_is_half_away_from_zero default_library minus_104_45 1 _ _ _)).
  - reflexivity.
  - unfold BigNumber.MAX. lia.
  - cbn. unfold BigNumber.MAX_EXP. lia.
Defined.

(** ** Numbers: the nearest number to a rational *)

Section NumberLemmas.

Lemma Q_scale_lt (A B t u : Q) :
  (0 < t -> 0 < u -> u * t == 1 -> (A * t < B <-> A < u * B))%Q.
Proof.
  intros Ht Hu E. split; intros H.
  - assert (H1 : (A * t * u < B * u)%Q) by (apply Qmult_lt_compat_r; assumption).
    assert (E1 : (A * t * u == A)%Q)
      by (rewrite <- Qmult_assoc, (Qmult_comm t u), E; ring).
    rewrite E1 in H1. rewrite (Qmult_comm u B). exact H1.
  - assert (H1 : (A * t < u * B * t)%Q) by (apply Qmult_lt_compat_r; assumption).
    assert (E1 : (u * B * t == B)%Q)
      by (rewrite (Qmult_comm u B), <- Qmult_assoc, E; ring).
    rewrite E1 in H1. exact H1.
Qed.

Lemma Q_scale_eq (A B M t u : Q) :
  (u * t == 1 -> A == M * u * B -> A * t == M * B)%Q.
Proof.
  intros E H. rewrite H.
  transitivity (M * B * (u * t))%Q; [ring | rewrite E; ring].
Qed.

Lemma inject_Z_pos (q : Z) : 0 < q -> (0 < inject_Z q)%Q.
Proof. intros H. now rewrite (Zlt_Qlt 0 q) in H. Qed.

Lemma pow2_cancel (k : Z) : ((2 # 1) ^ k * (2 # 1) ^ (- k) == 1)%Q.
Proof.
  rewrite <- Qpower_plus by apply two_not_0.
  replace (k + - k) with 0 by lia. reflexivity.
Qed.

(** Comparing the two parts of [scale2 p q k] compares [p] with [2^k * q]. *)
Lemma scale2_lt (p q k : Z) :
  0 < q ->
  let '(n, d) := JsNumber.scale2 p q k in
  0 < d /\ (n < d <-> (inject_Z p < (2 # 1) ^ k * inject_Z q)%Q).
Proof.
  intros Hq. unfold JsNumber.scale2.
  destruct (Z.leb_spec 0 k) as [Hk|Hk].
  - assert (0 < 2 ^ k) by (apply Z.pow_pos_nonneg; lia).
    split; [nia|].
    rewrite Zlt_Qlt, inject_Z_mult, pow2_inject by lia.
    rewrite (Qmult_comm (inject_Z q)). reflexivity.
  - split; [lia|].
    rewrite Zlt_Qlt, inject_Z_mult, pow2_inject by lia.
    apply Q_scale_lt; [apply pow2_pos | apply pow2_pos | apply pow2_cancel].
Qed.

(** When [p / q] is the integer multiple [M * 2^k], [scale2 p q k] divides
    exactly. *)
Lemma scale2_exact (p q k M : Z) :
  0 < q ->
  (inject_Z p == inject_Z M * (2 # 1) ^ k * inject_Z q)%Q ->
  let '(n, d) := JsNumber.scale2 p q k in 0 < d /\ n = M * d.
Proof.
  intros Hq E. unfold JsNumber.scale2.
  destruct (Z.leb_spec 0 k) as [Hk|Hk].
  - assert (0 < 2 ^ k) by (apply Z.pow_pos_nonneg; lia).
    split; [nia|].
    apply inject_Z_injective.
    rewrite E, !inject_Z_mult, pow2_inject by lia. ring.
  - split; [lia|].
    apply inject_Z_injective.
    rewrite !inject_Z_mult, pow2_inject by lia.
    apply (Q_scale_eq _ _ _ _ _ (pow2_cancel k)). exact E.
Qed.

Lemma ilog2_spec (p q : Z) :
  0 < p -> 0 < q ->
  ((2 # 1) ^ JsNumber.ilog2 p q * inject_Z q <= inject_Z p
   /\ inject_Z p < (2 # 1) ^ (JsNumber.ilog2 p q + 1) * inject_Z q)%Q.
Proof.
  intros Hp Hq. unfold JsNumber.ilog2.
  destruct (Z.log2_spec p Hp) as [Hp1 Hp2].
  destruct (Z.log2_spec q Hq) as [Hq1 Hq2].
  pose proof (Z.log2_nonneg p) as Hlp. pose proof (Z.log2_nonneg q) as Hlq.
  set (lp := Z.log2 p) in *. set (lq := Z.log2 q) in *.
  pose proof (scale2_lt p q (lp - lq) Hq) as Hs.
  destruct (JsNumber.scale2 p q (lp - lq)) as [n dd].
  destruct Hs as [Hdd Hs].
  assert (Hq' := inject_Z_pos q Hq).
  (* p < 2^(lp - lq + 1) * q  and  2^(lp - lq - 1) * q < p *)
  assert (Hup : (inject_Z p < (2 # 1) ^ (lp - lq + 1) * inject_Z q)%Q).
  { apply Qlt_le_trans with (inject_Z (2 ^ Z.succ lp)); [now rewrite <- Zlt_Qlt|].
    rewrite pow2_inject by lia.
    replace (Z.succ lp) with ((lp - lq + 1) + lq) by lia.
    rewrite Qpower_plus by apply two_not_0.
    apply Qmult_le_l; [apply pow2_pos|].
    rewrite <- pow2_inject by lia. now rewrite <- Zle_Qle. }
  assert (Hdown : ((2 # 1) ^ (lp - lq - 1) * inject_Z q < inject_Z p)%Q).
  { apply Qlt_le_trans with (inject_Z (2 ^ lp)); [|now rewrite <- Zle_Qle].
    rewrite pow2_inject by lia.
    replace lp with ((lp - lq - 1) + Z.succ lq) at 2 by lia.
    rewrite Qpower_plus by apply two_not_0.
    apply Qmult_lt_l; [apply pow2_pos|].
    rewrite <- pow2_inject by lia. now rewrite <- Zlt_Qlt. }
  destruct (Z.ltb_spec n dd) as [Hlt|Hge].
  - split; [now apply Qlt_le_weak|].
    replace (lp - lq - 1 + 1) with (lp - lq) by lia. now apply Hs.
  - split; [|exact Hup].
    apply Qnot_lt_le. intros Hc. apply Hs in Hc. lia.
Qed.

Lemma pow2_bracket_unique (k k' : Z) (P y : Q) :
  (0 < y)%Q ->
  ((2 # 1) ^ k * y <= P)%Q -> (P < (2 # 1) ^ (k + 1) * y)%Q ->
  ((2 # 1) ^ k' * y <= P)%Q -> (P < (2 # 1) ^ (k' + 1) * y)%Q ->
  k = k'.
Proof.
  intros Hy H1 H2 H3 H4.
  assert (Hmono : forall a b, ((2 # 1) ^ a * y <= P)%Q ->
                              (P < (2 # 1) ^ (b + 1) * y)%Q -> a <= b).
  { intros a b Ha Hb.
    destruct (Z_le_gt_dec a b) as [|Hgt]; [assumption|exfalso].
    assert (Hle : ((2 # 1) ^ (b + 1) * y <= (2 # 1) ^ a * y)%Q).
    { apply Qmult_le_compat_r; [apply pow2_le; lia | now apply Qlt_le_weak]. }
    apply (Qlt_irrefl P).
    eapply Qlt_le_trans; [exact Hb|]. eapply Qle_trans; [exact Hle | exact Ha]. }
  pose proof (Hmono k k' H1 H4). pose proof (Hmono k' k H3 H2). lia.
Qed.

End NumberLemmas.

Section NearestLemmas.

Lemma Qnum_den (r : Q) : (inject_Z (Qnum r) == r * inject_Z (Zpos (Qden r)))%Q.
Proof.
  destruct r as [a b]. unfold Qeq, Qmult, inject_Z. cbn [Qnum Qden].
  rewrite Pos.mul_1_r. lia.
Qed.

Lemma wf_number_parts (neg : bool) (M E : Z) :
  JsNumber.wf_number (Finite neg M E) = true ->
  0 <= M < 2 ^ 53 /\ -1074 <= E <= 971 /\ (2 ^ 52 <= M \/ E = -1074).
Proof.
  unfold JsNumber.wf_number, JsNumber.prec, JsNumber.emin, JsNumber.emax.
  change (53 - 1) with 52. intros H.
  repeat (apply andb_true_iff in H; destruct H as [H ?]).
  apply orb_true_iff in H0. lia.
Qed.

(** A rational that is exactly a binary64 magnitude is read as that number. *)
Lemma nearest_exact (neg neg' : bool) (M E : Z) (x : Q) :
  JsNumber.wf_number (Finite neg' M E) = true ->
  (x == JsNumber.magnitude M E)%Q ->
  JsNumber.nearest neg x = Finite neg M E.
Proof.
  intros Hwf Hx. destruct (wf_number_parts _ _ _ Hwf) as [HM [HE Hnorm]].
  unfold JsNumber.nearest.
  assert (Hpq : (inject_Z (Qnum (Qred x))
                 == inject_Z M * (2 # 1) ^ E * inject_Z (Zpos (Qden (Qred x))))%Q).
  { rewrite (Qnum_den (Qred x)).
    apply Qmult_comp; [|reflexivity].
    rewrite (Qred_correct x). exact Hx. }
  set (p := Qnum (Qred x)) in *. set (q := Zpos (Qden (Qred x))) in *.
  assert (Hq : 0 < q) by (unfold q; lia).
  assert (Hq' := inject_Z_pos q Hq).
  destruct (Z.eq_dec M 0) as [HM0|HM0].
  - subst M. assert (p = 0).
    { apply inject_Z_injective. rewrite Hpq. ring. }
    destruct (Z.leb_spec p 0); [|lia].
    assert (E = -1074) by lia. subst E. reflexivity.
  - assert (HMpos : 0 < M) by lia.
    assert (Hp : 0 < p).
    { rewrite Zlt_Qlt, Hpq.
      apply Qmult_lt_0_compat; [|assumption].
      apply Qmult_lt_0_compat; [now apply inject_Z_pos | apply pow2_pos]. }
    destruct (Z.leb_spec p 0); [lia|].
    destruct (Z.log2_spec M HMpos) as [HL1 HL2].
    pose proof (Z.log2_nonneg M) as HL0.
    assert (Hlog : JsNumber.ilog2 p q = Z.log2 M + E).
    { destruct (ilog2_spec p q Hp Hq) as [H1 H2].
      apply (pow2_bracket_unique _ _ (inject_Z p) (inject_Z q) Hq' H1 H2).
      - rewrite Hpq, Qpower_plus by apply two_not_0.
        apply Qmult_le_compat_r; [|now apply Qlt_le_weak].
        apply Qmult_le_compat_r; [|apply Qlt_le_weak, pow2_pos].
        rewrite <- pow2_inject by lia. now rewrite <- Zle_Qle.
      - rewrite Hpq. replace (Z.log2 M + E + 1) with (Z.succ (Z.log2 M) + E) by lia.
        rewrite Qpower_plus by apply two_not_0.
        apply Qmult_lt_compat_r; [assumption|].
        apply Qmult_lt_compat_r; [apply pow2_pos|].
        rewrite <- pow2_inject by lia. now rewrite <- Zlt_Qlt. }
    assert (He : Z.max (JsNumber.ilog2 p q - (JsNumber.prec - 1)) JsNumber.emin = E).
    { rewrite Hlog. unfold JsNumber.prec, JsNumber.emin.
      destruct Hnorm as [Hn|Hs].
      - assert (Z.log2 M = 52) by (apply Z.log2_unique; lia). lia.
      - assert (Z.log2 M < 53) by (apply Z.log2_lt_pow2; lia). lia. }
    rewrite He.
    pose proof (scale2_exact p q E M Hq Hpq) as Hs.
    destruct (JsNumber.scale2 p q E) as [n d]. destruct Hs as [Hd ->].
    rewrite Z.div_mul, Z.mod_mul by lia.
    destruct (Z.ltb_spec d (2 * 0)); [lia|].
    destruct (Z.eqb_spec d (2 * 0)); [lia|].
    cbn [orb andb].
    unfold JsNumber.prec, JsNumber.emax.
    destruct (Z.eqb_spec M (2 ^ 53)); [lia|].
    destruct (Z.ltb_spec 971 E); [lia|]. reflexivity.
Qed.

(** [nearest] looks at the value only. *)
Lemma nearest_ext (neg : bool) (x y : Q) :
  (x == y)%Q -> JsNumber.nearest neg x = JsNumber.nearest neg y.
Proof. intros H. unfold JsNumber.nearest. now rewrite (Qred_complete _ _ H). Qed.

Lemma nearest_sign (neg : bool) (x : Q) :
  JsNumber.nearest neg x = with_sign neg (JsNumber.nearest false x).
Proof.
  unfold JsNumber.nearest.
  destruct (_ <=? 0); [reflexivity|].
  destruct (JsNumber.scale2 _ _ _) as [n d].
  destruct (if _ =? _ then _ else _) as [m2 e2].
  destruct (_ <? e2); reflexivity.
Qed.

End NearestLemmas.

Section RoundToInteger.

(** An integral number stands for an integer. *)
Lemma integer_magnitude (neg : bool) (m e : Z) :
  JsNumber.Number_isInteger (Finite neg m e) = true -> 0 <= m ->
  exists k, 0 <= k /\ (JsNumber.magnitude m e == inject_Z k)%Q.
Proof.
  unfold JsNumber.Number_isInteger, JsNumber.magnitude. intros H Hm.
  apply orb_true_iff in H. destruct H as [H|H].
  - apply Z.leb_le in H. exists (m * 2 ^ e). split.
    + apply Z.mul_nonneg_nonneg; [lia | apply Z.pow_nonneg; lia].
    + rewrite inject_Z_mult, pow2_inject by lia. reflexivity.
  - apply Z.eqb_eq in H.
    destruct (Z.leb_spec 0 e) as [He|He].
    + exists (m * 2 ^ e). split.
      * apply Z.mul_nonneg_nonneg; [lia | apply Z.pow_nonneg; lia].
      * rewrite inject_Z_mult, pow2_inject by lia. reflexivity.
    + assert (Hp : 0 < 2 ^ (- e)) by (apply Z.pow_pos_nonneg; lia).
      exists (m / 2 ^ (- e)). split; [apply Z.div_pos; lia|].
      assert (Hm2 : m = m / 2 ^ (- e) * 2 ^ (- e)).
      { pose proof (Z.div_mod m (2 ^ (- e))). lia. }
      rewrite Hm2 at 1. rewrite inject_Z_mult, pow2_inject by lia.
      rewrite <- Qmult_assoc, (Qmult_comm _ ((2 # 1) ^ e)), pow2_cancel. ring.
Qed.

(** Every integer below [2^53] is a number. *)
Lemma integer_representable (a : Z) :
  0 <= a < 2 ^ 53 ->
  exists M E,
    JsNumber.wf_number (Finite false M E) = true /\
    (JsNumber.magnitude M E == inject_Z a)%Q /\
    JsNumber.Number_isInteger (Finite false M E) = true.
Proof.
  intros Ha. destruct (Z.eq_dec a 0) as [->|Hnz].
  - exists 0, (-1074). repeat split.
  - assert (Hpos : 0 < a) by lia.
    destruct (Z.log2_spec a Hpos) as [H1 H2].
    pose proof (Z.log2_nonneg a) as H0.
    assert (Hl : Z.log2 a < 53) by (apply Z.log2_lt_pow2; lia).
    set (l := Z.log2 a) in *.
    assert (Hp : 0 < 2 ^ (52 - l)) by (apply Z.pow_pos_nonneg; lia).
    assert (Hsplit : 2 ^ 52 = 2 ^ l * 2 ^ (52 - l)).
    { rewrite <- Z.pow_add_r by lia. f_equal. lia. }
    assert (Hsplit' : 2 ^ 53 = 2 ^ Z.succ l * 2 ^ (52 - l)).
    { rewrite <- Z.pow_add_r by lia. f_equal. lia. }
    exists (a * 2 ^ (52 - l)), (l - 52). split; [|split].
    + unfold JsNumber.wf_number, JsNumber.prec, JsNumber.emin, JsNumber.emax.
      change (53 - 1) with 52.
      repeat (apply andb_true_iff; split); try apply orb_true_iff;
        try (apply Z.leb_le); try (apply Z.ltb_lt); try lia; try nia.
    + unfold JsNumber.magnitude. rewrite inject_Z_mult, pow2_inject by lia.
      replace (l - 52) with (- (52 - l)) by lia.
      rewrite <- Qmult_assoc, pow2_cancel. ring.
    + unfold JsNumber.Number_isInteger. apply orb_true_iff. right.
      replace (- (l - 52)) with (52 - l) by lia.
      rewrite Z.mod_mul by lia. reflexivity.
Qed.

Lemma to_Z_integer (neg : bool) (M E a : Z) :
  JsNumber.Number_isInteger (Finite neg M E) = true ->
  (JsNumber.magnitude M E == inject_Z a)%Q ->
  JsNumber.to_Z (Finite neg M E) = Some (if neg then - a else a).
Proof.
  intros Hi Hv. unfold JsNumber.to_Z. rewrite Hi. f_equal.
  unfold JsNumber.to_Q. destruct neg.
  - assert (E1 : (- JsNumber.magnitude M E == inject_Z (- a))%Q)
      by (rewrite Hv, inject_Z_opp; reflexivity).
    rewrite (Qfloor_comp _ _ E1). apply Qfloor_Z.
  - rewrite (Qfloor_comp _ _ Hv). apply Qfloor_Z.
Qed.

(** [Math.round] gives [floor (x + 1/2)]. *)
Lemma to_Z_Math_round (neg : bool) (m e : Z) :
  JsNumber.wf_number (Finite neg m e) = true ->
  JsNumber.to_Z (JsNumber.Math_round (Finite neg m e))
  = Some (Qfloor (JsNumber.to_Q (Finite neg m e) + (1 # 2))).
Proof.
  intros Hwf. destruct (wf_number_parts _ _ _ Hwf) as [Hm [He Hnorm]].
  unfold JsNumber.Math_round.
  destruct (JsNumber.Number_isInteger (Finite neg m e)) eqn:Hi.
  - destruct (integer_magnitude neg m e Hi (proj1 Hm)) as [k [Hk Hv]].
    rewrite (to_Z_integer neg m e k Hi Hv). f_equal.
    unfold JsNumber.to_Q. destruct neg.
    + assert (E1 : (- JsNumber.magnitude m e + (1 # 2) == inject_Z (- k) + (1 # 2))%Q)
        by (rewrite Hv, inject_Z_opp; reflexivity).
      rewrite (Qfloor_comp _ _ E1). now rewrite floor_plus_half.
    + assert (E1 : (JsNumber.magnitude m e + (1 # 2) == inject_Z k + (1 # 2))%Q)
        by (rewrite Hv; reflexivity).
      rewrite (Qfloor_comp _ _ E1). now rewrite floor_plus_half.
  - (* not an integer: the exponent is negative and the magnitude below 2^52 *)
    assert (Heneg : e < 0).
    { unfold JsNumber.Number_isInteger in Hi. apply orb_false_iff in Hi.
      destruct Hi as [Hi _]. apply Z.leb_gt in Hi. exact Hi. }
    assert (Hmag : (0 <= JsNumber.magnitude m e)%Q /\
                   (JsNumber.magnitude m e <= inject_Z (2 ^ 52) - (1 # 2))%Q).
    { unfold JsNumber.magnitude. split.
      - apply Qmult_le_0_compat; [now rewrite <- (Zle_Qle 0) | apply Qlt_le_weak, pow2_pos].
      - apply Qle_trans with (inject_Z (2 ^ 53 - 1) * (2 # 1) ^ (-1))%Q.
        + apply Qle_trans with (inject_Z m * (2 # 1) ^ (-1))%Q.
          * rewrite !(Qmult_comm (inject_Z m)).
            apply Qmult_le_compat_r; [apply pow2_le; lia|].
            now rewrite <- (Zle_Qle 0).
          * apply Qmult_le_compat_r; [|discriminate].
            rewrite <- Zle_Qle. lia.
        + unfold Qle. vm_compute. discriminate. }
    set (v := JsNumber.to_Q (Finite neg m e)).
    set (z := Qfloor (v + (1 # 2))).
    assert (Hz : (if neg then - Z.abs z else Z.abs z) = z /\ Z.abs z < 2 ^ 53).
    { unfold z, v, JsNumber.to_Q. destruct Hmag as [Hlo Hhi]. destruct neg.
      - assert (H1 : Qfloor (- JsNumber.magnitude m e + (1 # 2)) <= Qfloor (inject_Z 0 + (1 # 2))).
        { apply Qfloor_resp_le. apply Qplus_le_l. change (inject_Z 0) with (- 0)%Q.
          now apply Qopp_le_compat. }
        assert (H2 : Qfloor (inject_Z (- 2 ^ 52) + (1 # 2))
                     <= Qfloor (- JsNumber.magnitude m e + (1 # 2))).
        { apply Qfloor_resp_le. apply Qplus_le_l. rewrite inject_Z_opp.
          apply Qopp_le_compat. eapply Qle_trans; [exact Hhi|].
          unfold Qle. vm_compute. discriminate. }
        rewrite floor_plus_half in H1, H2. split; [lia|].
        change (2 ^ 52) with 4503599627370496 in H2.
        change (2 ^ 53) with 9007199254740992. lia.
      - assert (H1 : Qfloor (inject_Z 0 + (1 # 2)) <= Qfloor (JsNumber.magnitude m e + (1 # 2))).
        { apply Qfloor_resp_le. apply Qplus_le_l. exact Hlo. }
        assert (H2 : Qfloor (JsNumber.magnitude m e + (1 # 2))
                     <= Qfloor (inject_Z (2 ^ 52) + (1 # 2))).
        { apply Qfloor_resp_le. apply Qplus_le_l. eapply Qle_trans; [exact Hhi|].
          unfold Qle. vm_compute. discriminate. }
        rewrite floor_plus_half in H1, H2. split; [lia|].
        change (2 ^ 52) with 4503599627370496 in H2.
        change (2 ^ 53) with 9007199254740992. lia. }
    destruct Hz as [Hsign Hbound].
    destruct (integer_representable (Z.abs z)) as [M' [E' [Hwf' [Hv' Hi']]]]; [lia|].
    rewrite (nearest_exact neg false M' E' _ Hwf' (Qeq_sym _ _ Hv')).
    assert (Hi'' : JsNumber.Number_isInteger (Finite neg M' E') = true) by exact Hi'.
    rewrite (to_Z_integer neg M' E' (Z.abs z) Hi'' Hv'). now rewrite Hsign.
Qed.

End RoundToInteger.

(** ** C7: [toCents] *)

Section ToCents.

Lemma hundred : BigNumber.ofNumber (num 100) = BFinite false [1] 2.
Proof. reflexivity. Qed.

Lemma magnitude_zero (neg : bool) : (BigNumber.magnitude (BigNumber.zero neg) == 0)%Q.
Proof. reflexivity. Qed.

(** The bounds of the binary64 magnitudes, in powers of ten. *)
Lemma number_magnitude_bounds (neg : bool) (M E : Z) :
  JsNumber.wf_number (Finite neg M E) = true -> 0 < M ->
  ((10 # 1) ^ (-400) <= JsNumber.magnitude M E)%Q /\
  (JsNumber.magnitude M E < (10 # 1) ^ 400)%Q.
Proof.
  intros Hwf HM. destruct (wf_number_parts _ _ _ Hwf) as [Hm [He _]].
  unfold JsNumber.magnitude. split.
  - apply Qle_trans with ((2 # 1) ^ (-1074))%Q; [unfold Qle; vm_compute; discriminate|].
    apply Qle_trans with (inject_Z 1 * (2 # 1) ^ E)%Q.
    + rewrite Qmult_1_l. apply pow2_le. lia.
    + apply Qmult_le_compat_r; [|apply Qlt_le_weak, pow2_pos].
      rewrite <- Zle_Qle. lia.
  - apply Qlt_le_trans with (inject_Z (2 ^ 53) * (2 # 1) ^ E)%Q.
    + apply Qmult_lt_compat_r; [apply pow2_pos|]. now rewrite <- Zlt_Qlt.
    + apply Qle_trans with (inject_Z (2 ^ 53) * (2 # 1) ^ 971)%Q.
      * apply Qmult_le_l; [reflexivity|]. apply pow2_le. lia.
      * unfold Qle. vm_compute. discriminate.
Qed.

Lemma times_hundred (neg : bool) (c : list Z) (e M E : Z) :
  Invariant.canonical (BFinite neg c e) = true ->
  JsNumber.wf_number (Finite false M E) = true ->
  (BigNumber.magnitude (BFinite neg c e) * (100 # 1) == JsNumber.magnitude M E)%Q ->
  BigNumber.toNumber (BigNumber.times (BFinite neg c e) (BFinite false [1] 2))
  = Finite neg M E.
Proof.
  intros Hcan Hwf Hv.
  destruct (canonical_parts _ _ _ Hcan) as [Hok [Hrange Hhead]].
  unfold BigNumber.times. rewrite xorb_false_r.
  destruct Hhead as [->|[d [ds [-> Hd]]]].
  - (* zero *)
    cbn [BigNumber.isZero orb]. unfold BigNumber.toNumber.
    apply (nearest_exact neg false M E _ Hwf).
    rewrite <- Hv. reflexivity.
  - assert (Hnz : BigNumber.isZero (BFinite neg (d :: ds) e) = false).
    { cbn. destruct d; try reflexivity. lia. }
    rewrite Hnz. cbn [BigNumber.isZero orb].
    change (BigNumber.coefficient [1]) with 1.
    change (BigNumber.unit_exponent [1] 2) with 2.
    set (co := BigNumber.coefficient (d :: ds)) in *.
    set (ue := BigNumber.unit_exponent (d :: ds) e) in *.
    assert (Hco : 0 < co * 1).
    { unfold co, BigNumber.coefficient.
      assert (Hds : digits_ok ds) by (inversion Hok; assumption).
      pose proof (of_digits_head_bound d ds Hd Hds).
      assert (0 < 10 ^ Z.of_nat (List.length ds)) by (apply Z.pow_pos_nonneg; lia).
      lia. }
    assert (Hval : (inject_Z (co * 1) * (10 # 1) ^ (ue + 2) == JsNumber.magnitude M E)%Q).
    { rewrite <- Hv. unfold BigNumber.magnitude. fold co. fold ue.
      rewrite Z.mul_1_r, Qpower_plus by apply ten_not_0.
      change ((10 # 1) ^ 2)%Q with (100 # 1)%Q. ring. }
    assert (HM : 0 < M).
    { destruct (wf_number_parts _ _ _ Hwf) as [HM0 _].
      destruct (Z.eq_dec M 0) as [->|]; [|lia]. exfalso.
      unfold JsNumber.magnitude in Hval. rewrite Qmult_0_l in Hval.
      apply (Qlt_irrefl 0). rewrite <- Hval at 2.
      apply Qmult_lt_0_compat; [now apply inject_Z_pos | apply pow10_pos]. }
    destruct (number_magnitude_bounds false M E Hwf HM) as [Hlo Hhi].
    rewrite <- Hval in Hlo, Hhi.
    destruct (normalise_magnitude neg (co * 1) (ue + 2) (-400) 400 Hco Hlo Hhi)
      as [c' [e' [En Hm]]];
      [unfold BigNumber.MIN_EXP; lia | unfold BigNumber.MAX_EXP; lia |].
    rewrite En. unfold BigNumber.toNumber.
    apply (nearest_exact neg false M E _ Hwf).
    rewrite Hm. exact Hval.
Qed.

End ToCents.

(** C7, the claim refuted: -0.015 USD is read from its string; 100 times it
    is the exact half -3/2; [toCents] gives -1, where rounding half away from
    zero and rounding half to even both give -2. *)
Lemma toCents_negative_tie_goes_up :
  @Money.new default_library (AString "-0.015") CurrencyEnum.USD = Ok minus_0_015_usd /\
  (Qvalue (value (_value minus_0_015_usd)) * (100 # 1) == - (3 # 2))%Q /\
  Money.toCents minus_0_015_usd = num (-1) /\
  JsNumber.to_Z (Money.toCents minus_0_015_usd) = Some (-1) /\
  round_half_away_from_zero (- (3 # 2)) = -2 /\
  round_half_to_even (- (3 # 2)) = -2.
Proof. repeat split. Qed.

(** The passage through a native number can cross a half: 100 times
    0.0049999999999999999999 is below one half, and the nearest integer is
    0; the native number nearest to it is 0.5, which [Math.round] takes
    to 1. *)
Lemma toCents_rounds_the_native_number :
  exists m,
    @Money.new default_library (AString "0.0049999999999999999999") CurrencyEnum.USD = Ok m /\
    (Qvalue (value (_value m)) * (100 # 1) < 1 # 2)%Q /\
    Qfloor (Qvalue (value (_value m)) * (100 # 1) + (1 # 2)) = 0 /\
    JsNumber.to_Z (Money.toCents m) = Some 1.
Proof.
  eexists. split; [vm_compute; reflexivity|].
  split; [vm_compute; reflexivity|]. split; vm_compute; reflexivity.
Qed.

(** ** C8: [fromCents] and [toCents] *)

Section CentsLemmas.

Lemma to_digits_head (m : Z) :
  0 < m -> exists d ds, to_digits m = d :: ds /\ 1 <= d.
Proof.
  intros Hm.
  destruct (to_digits_spec m) as [Hv [Hok [Hne Hlow]]]; [lia|].
  specialize (Hlow Hm).
  destruct (to_digits m) as [|d0 ds0]; [contradiction|].
  exists d0, ds0. split; [reflexivity|].
  inversion Hok as [|? ? Hr Hok0].
  destruct (Z.eq_dec d0 0) as [Hz|]; [|lia]. exfalso.
  rewrite of_digits_cons, Hz in Hv. pose proof (of_digits_bound _ Hok0) as Hb.
  cbn [List.length] in Hlow.
  replace (Z.of_nat (S (List.length ds0)) - 1) with (Z.of_nat (List.length ds0)) in Hlow by lia.
  lia.
Qed.

(** The first digit that [normalise] keeps is not zero. *)
Lemma normalise_not_zero (neg : bool) (m x : Z) :
  0 < m ->
  BigNumber.MIN_EXP <= exponent_of m x <= BigNumber.MAX_EXP ->
  BigNumber.isZero (BigNumber.normalise neg m x) = false.
Proof.
  intros Hm [Hlo Hhi]. unfold BigNumber.normalise. fold (exponent_of m x).
  destruct (Z.eqb_spec m 0); [lia|].
  destruct (Z.ltb_spec BigNumber.MAX_EXP (exponent_of m x)); [lia|].
  destruct (Z.ltb_spec (exponent_of m x) BigNumber.MIN_EXP); [lia|].
  destruct (to_digits_head m Hm) as [d0 [ds0 [Hd Hd0]]].
  destruct (strip_trailing_zeros_decomp (to_digits m)) as [t Hdec].
  rewrite Hd in *.
  destruct (strip_trailing_zeros (d0 :: ds0)) as [|d ds] eqn:Hs.
  - reflexivity.
  - cbn [app] in Hdec. inversion Hdec as [[Hdd Hrest]].
    cbn. destruct d; try reflexivity. lia.
Qed.

Lemma normalise_in_range (neg : bool) (m x lo hi : Z) :
  0 < m ->
  ((10 # 1) ^ lo <= inject_Z m * (10 # 1) ^ x)%Q ->
  (inject_Z m * (10 # 1) ^ x < (10 # 1) ^ hi)%Q ->
  BigNumber.MIN_EXP <= lo -> hi <= BigNumber.MAX_EXP + 1 ->
  exists c e,
    BigNumber.normalise neg m x = BFinite neg c e /\
    (BigNumber.magnitude (BFinite neg c e) == inject_Z m * (10 # 1) ^ x)%Q /\
    BigNumber.isZero (BFinite neg c e) = false.
Proof.
  intros Hm Hlo Hhi Hmin Hmax.
  destruct (exponent_of_bounds m x Hm) as [Hb1 Hb2].
  assert (lo < exponent_of m x + 1)
    by (apply pow10_lt_inv; eapply Qle_lt_trans; eauto).
  assert (exponent_of m x < hi)
    by (apply pow10_lt_inv; eapply Qle_lt_trans; eauto).
  destruct (normalise_spec neg m x Hm) as [c [E Hv]]; [lia|].
  exists c, (exponent_of m x). split; [exact E|]. split; [exact Hv|].
  rewrite <- E. apply normalise_not_zero; [assumption|lia].
Qed.

(** *** The digits of an integral number *)

Lemma nearest_false_sign (x : Q) (s : bool) (m e : Z) :
  JsNumber.nearest false x = Finite s m e -> s = false.
Proof.
  rewrite nearest_sign. destruct (JsNumber.nearest false x); cbn; congruence.
Qed.

Lemma reads_back_nearest (M E s x : Z) :
  JsNumber.reads_back M E s x = true ->
  JsNumber.nearest false (JsNumber.decimal s x) = Finite false M E.
Proof.
  unfold JsNumber.reads_back.
  destruct (JsNumber.nearest false (JsNumber.decimal s x)) as [| |sg m' e'] eqn:En;
    try discriminate.
  intros H. apply andb_true_iff in H. destruct H as [H1 H2].
  apply Z.eqb_eq in H1, H2. subst.
  now rewrite (nearest_false_sign _ _ _ _ En).
Qed.

Lemma reads_back_exact (M E s x : Z) :
  JsNumber.wf_number (Finite false M E) = true ->
  (JsNumber.decimal s x == JsNumber.magnitude M E)%Q ->
  JsNumber.reads_back M E s x = true.
Proof.
  intros Hwf Hv. unfold JsNumber.reads_back.
  rewrite (nearest_exact false false M E _ Hwf Hv), !Z.eqb_refl. reflexivity.
Qed.

Lemma candidate_spec (M E x s : Z) :
  JsNumber.candidate M E x = Some s ->
  JsNumber.reads_back M E s x = true /\
  Qfloor (JsNumber.magnitude M E / (10 # 1) ^ x) <= s
  <= Qfloor (JsNumber.magnitude M E / (10 # 1) ^ x) + 1.
Proof.
  unfold JsNumber.candidate.
  set (lo := Qfloor (JsNumber.magnitude M E / (10 # 1) ^ x)).
  destruct (JsNumber.reads_back M E lo x) eqn:Hlo;
    destruct (JsNumber.reads_back M E (lo + 1) x) eqn:Hhi; try discriminate.
  - destruct (_ ?= _)%Q; [destruct (Z.even lo)| |];
      intros H; inversion H; subst; split; (assumption || lia).
  - intros H; inversion H; subst; split; (assumption || lia).
  - intros H; inversion H; subst; split; (assumption || lia).
Qed.

Lemma candidate_exact (M E x k : Z) :
  JsNumber.wf_number (Finite false M E) = true ->
  (JsNumber.magnitude M E / (10 # 1) ^ x == inject_Z k)%Q ->
  JsNumber.candidate M E x <> None.
Proof.
  intros Hwf Hk. unfold JsNumber.candidate.
  rewrite (Qfloor_comp _ _ Hk), Qfloor_Z.
  assert (Hrb : JsNumber.reads_back M E k x = true).
  { apply reads_back_exact; [assumption|].
    unfold JsNumber.decimal. rewrite <- Hk. field. apply Qpower_not_0. discriminate. }
  rewrite Hrb.
  destruct (JsNumber.reads_back M E (k + 1) x); [|discriminate].
  destruct (_ ?= _)%Q; [destruct (Z.even k)| |]; discriminate.
Qed.


(** The decimal that [String(v)] shows for an integral number [v]: it has no
    fraction digits, reads back as [v], and is not much larger. *)
Lemma shortest_from_integer (M E k : Z) :
  JsNumber.wf_number (Finite false M E) = true ->
  (JsNumber.magnitude M E == inject_Z k)%Q ->
  forall (fuel : nat) (x : Z),
    0 <= x -> x - Z.min E 0 <= Z.of_nat fuel ->
    let '(s, x') := JsNumber.shortest_from fuel M E x in
    0 <= x' <= x /\ JsNumber.reads_back M E s x' = true /\
    Qfloor (JsNumber.magnitude M E / (10 # 1) ^ x') <= s
    <= Qfloor (JsNumber.magnitude M E / (10 # 1) ^ x') + 1.
Proof.
  intros Hwf Hk.
  assert (Hk0 : (JsNumber.magnitude M E / (10 # 1) ^ 0 == inject_Z k)%Q).
  { rewrite <- Hk. change ((10 # 1) ^ 0)%Q with 1%Q. field. }
  induction fuel as [|fuel IH]; intros x Hx Hfuel; cbn [JsNumber.shortest_from].
  - assert (Hmin : Z.min E 0 = 0) by lia. rewrite Hmin.
    rewrite (Qfloor_comp _ _ Hk0), Qfloor_Z.
    split; [lia|]. split; [|lia].
    apply reads_back_exact; [assumption|].
    unfold JsNumber.decimal. rewrite Hk. change ((10 # 1) ^ 0)%Q with 1%Q. ring.
  - destruct (JsNumber.candidate M E x) as [s|] eqn:Hc.
    + destruct (candidate_spec _ _ _ _ Hc) as [Hrb Hs]. split; [lia|]. auto.
    + assert (Hx0 : x <> 0).
      { intros ->. now apply (candidate_exact M E 0 k Hwf Hk0). }
      specialize (IH (x - 1)).
      destruct (JsNumber.shortest_from fuel M E (x - 1)) as [s x'].
      destruct IH as [Hx' Hrest]; [lia | lia |]. split; [lia | exact Hrest].
Qed.

Lemma hundred_magnitude : (BigNumber.magnitude one_hundred == 100 # 1)%Q.
Proof. reflexivity. Qed.

Lemma magnitude_coefficient_pos (neg : bool) (c : list Z) (e : Z) :
  (0 < BigNumber.magnitude (BFinite neg c e))%Q -> 0 < BigNumber.coefficient c.
Proof.
  unfold BigNumber.magnitude. intros H.
  destruct (Z_lt_le_dec 0 (BigNumber.coefficient c)) as [|Hle]; [assumption|exfalso].
  apply (Qlt_irrefl 0). eapply Qlt_le_trans; [exact H|].
  rewrite <- (Qmult_0_l ((10 # 1) ^ BigNumber.unit_exponent c e)).
  apply Qmult_le_compat_r; [|apply Qlt_le_weak, pow10_pos].
  now rewrite <- (Zle_Qle _ 0).
Qed.

(** Dividing an integer decimal by 100 with at least two decimal places, and
    multiplying back, gives a decimal of the same value. *)
Lemma divide_times_hundred (neg : bool) (s x dp : Z) :
  0 < s -> 0 <= x -> 2 <= dp ->
  (inject_Z s * (10 # 1) ^ x < (10 # 1) ^ 402)%Q ->
  exists cq eq ct et,
    BigNumber.dividedBy dp (BigNumber.normalise neg s x) one_hundred
    = BFinite neg cq eq /\
    BigNumber.times (BFinite neg cq eq) one_hundred = BFinite neg ct et /\
    (BigNumber.magnitude (BFinite neg ct et) == inject_Z s * (10 # 1) ^ x)%Q.
Proof.
  intros Hs Hx Hdp Hhi.
  set (D := (inject_Z s * (10 # 1) ^ x)%Q) in *.
  assert (HD1 : (1 <= D)%Q).
  { unfold D. apply Qle_trans with (inject_Z 1 * (10 # 1) ^ 0)%Q; [discriminate|].
    apply Qle_trans with (inject_Z s * (10 # 1) ^ 0)%Q.
    - apply Qmult_le_compat_r; [rewrite <- Zle_Qle; lia | discriminate].
    - apply Qmult_le_l; [now apply inject_Z_pos|]. apply pow10_le. lia. }
  (* the decimal itself *)
  destruct (normalise_in_range neg s x 0 402 Hs) as [cb [eb [Eb [Hb Hbz]]]];
    [exact HD1 | exact Hhi | unfold BigNumber.MIN_EXP; lia
     | unfold BigNumber.MAX_EXP; lia |].
  fold D in Hb. rewrite Eb.
  (* the quotient *)
  unfold BigNumber.dividedBy, one_hundred. rewrite Hbz, xorb_false_r.
  fold one_hundred.
  cbn [BigNumber.isZero andb].
  set (mq := s * 10 ^ (x + dp - 2)).
  assert (Hmq : Qfloor (BigNumber.magnitude (BFinite neg cb eb)
                        / BigNumber.magnitude one_hundred
                        * (10 # 1) ^ dp + (1 # 2)) = mq).
  { assert (E1 : (BigNumber.magnitude (BFinite neg cb eb)
                  / BigNumber.magnitude one_hundred
                  * (10 # 1) ^ dp + (1 # 2) == inject_Z mq + (1 # 2))%Q).
    { apply Qplus_comp; [|reflexivity].
      rewrite Hb, hundred_magnitude. unfold D, mq.
      rewrite inject_Z_mult, pow10_inject by lia.
      replace (x + dp - 2) with (x + (dp + -2)) by lia.
      rewrite !Qpower_plus by apply ten_not_0.
      change ((10 # 1) ^ (-2))%Q with (/ (100 # 1))%Q. field. }
    rewrite (Qfloor_comp _ _ E1). apply floor_plus_half. }
  rewrite Hmq.
  assert (Hmqpos : 0 < mq).
  { unfold mq. apply Z.mul_pos_pos; [lia | apply Z.pow_pos_nonneg; lia]. }
  assert (Hqv : (inject_Z mq * (10 # 1) ^ (- dp) == D / (100 # 1))%Q).
  { unfold D, mq. rewrite inject_Z_mult, pow10_inject by lia.
    replace (x + dp - 2) with (x + (dp + -2)) by lia.
    rewrite !Qpower_plus by apply ten_not_0.
    change ((10 # 1) ^ (-2))%Q with (/ (100 # 1))%Q.
    rewrite Qpower_opp. field. apply Qpower_not_0. discriminate. }
  destruct (normalise_in_range neg mq (- dp) (-2) 400 Hmqpos) as [cq [eq [Eq [Hq Hqz]]]].
  { rewrite Hqv. change ((10 # 1) ^ (-2))%Q with (1 / (100 # 1))%Q.
    apply Qmult_le_compat_r; [exact HD1 | discriminate]. }
  { rewrite Hqv. apply Qlt_le_trans with ((10 # 1) ^ 402 / (100 # 1))%Q.
    - apply Qmult_lt_compat_r; [reflexivity | exact Hhi].
    - unfold Qle. vm_compute. discriminate. }
  { unfold BigNumber.MIN_EXP. lia. }
  { unfold BigNumber.MAX_EXP. lia. }
  rewrite Hqv in Hq.
  (* the product *)
  assert (Htimes : BigNumber.times (BFinite neg cq eq) one_hundred
                   = BigNumber.normalise neg (BigNumber.coefficient cq * 1)
                       (BigNumber.unit_exponent cq eq + 2)).
  { unfold BigNumber.times, one_hundred. rewrite Hqz, xorb_false_r. reflexivity. }
  assert (Hcq : 0 < BigNumber.coefficient cq * 1).
  { rewrite Z.mul_1_r. apply (magnitude_coefficient_pos neg cq eq).
    rewrite Hq. apply Qlt_le_trans with (1 / (100 # 1))%Q; [reflexivity|].
    apply Qmult_le_compat_r; [exact HD1 | discriminate]. }
  assert (Htv : (inject_Z (BigNumber.coefficient cq * 1)
                 * (10 # 1) ^ (BigNumber.unit_exponent cq eq + 2) == D)%Q).
  { rewrite Z.mul_1_r, Qpower_plus by apply ten_not_0.
    unfold BigNumber.magnitude in Hq. rewrite Qmult_assoc, Hq.
    change ((10 # 1) ^ 2)%Q with (100 # 1)%Q. field. }
  destruct (normalise_in_range neg (BigNumber.coefficient cq * 1)
              (BigNumber.unit_exponent cq eq + 2) 0 402 Hcq)
    as [ct [et [Et [Ht _]]]].
  { rewrite Htv. exact HD1. }
  { rewrite Htv. exact Hhi. }
  { unfold BigNumber.MIN_EXP. lia. }
  { unfold BigNumber.MAX_EXP. lia. }
  exists cq, eq, ct, et. split; [exact Eq|]. split; [now rewrite Htimes|].
  rewrite Ht. exact Htv.
Qed.


Lemma integer_positive (M E k : Z) :
  0 < M -> (JsNumber.magnitude M E == inject_Z k)%Q -> 0 < k.
Proof.
  intros HM Hk. rewrite Zlt_Qlt, <- Hk. unfold JsNumber.magnitude.
  apply Qmult_lt_0_compat; [now apply inject_Z_pos | apply pow2_pos].
Qed.

(** What [new BigNumber(v)] is for a positive integral number [v]. *)
Lemma ofNumber_integer (neg : bool) (M E : Z) :
  JsNumber.wf_number (Finite neg M E) = true ->
  JsNumber.Number_isInteger (Finite neg M E) = true ->
  0 < M ->
  exists s x,
    BigNumber.ofNumber (Finite neg M E) = BigNumber.normalise neg s x /\
    0 < s /\ 0 <= x /\
    JsNumber.nearest false (JsNumber.decimal s x) = Finite false M E /\
    (inject_Z s * (10 # 1) ^ x < (10 # 1) ^ 402)%Q.
Proof.
  intros Hwf Hint HM.
  assert (Hwf' : JsNumber.wf_number (Finite false M E) = true) by exact Hwf.
  destruct (wf_number_parts _ _ _ Hwf) as [HM' _].
  destruct (integer_magnitude neg M E Hint (proj1 HM')) as [k [_ Hk]].
  pose proof (integer_positive M E k HM Hk) as Hkpos.
  destruct (number_magnitude_bounds false M E Hwf' HM) as [_ Hmag].
  unfold BigNumber.ofNumber.
  destruct (JsNumber.is_int32 M E).
  - exists k, 0. rewrite (Qfloor_comp _ _ Hk), Qfloor_Z.
    assert (Hd : (JsNumber.decimal k 0 == JsNumber.magnitude M E)%Q).
    { unfold JsNumber.decimal. rewrite Hk. change ((10 # 1) ^ 0)%Q with 1%Q. ring. }
    split; [reflexivity|]. split; [lia|]. split; [lia|]. split.
    + apply (nearest_exact false false M E _ Hwf' Hd).
    + fold (JsNumber.decimal k 0). rewrite Hd.
      eapply Qlt_trans; [exact Hmag|]. reflexivity.
  - unfold JsNumber.shortest_digits.
    rewrite (Qfloor_comp _ _ Hk), Qfloor_Z.
    set (x0 := Z.of_nat (List.length (to_digits (k + 1)))).
    assert (Hx0 : 0 <= x0) by (unfold x0; lia).
    pose proof (shortest_from_integer M E k Hwf' Hk
                  (Z.to_nat (x0 - Z.min E 0)) x0 Hx0) as Hsf.
    destruct (JsNumber.shortest_from (Z.to_nat (x0 - Z.min E 0)) M E x0) as [s x].
    destruct Hsf as [Hx [Hrb Hs]]; [lia|].
    pose proof (reads_back_nearest _ _ _ _ Hrb) as Hnear.
    set (lo := Qfloor (JsNumber.magnitude M E / (10 # 1) ^ x)) in *.
    assert (Hlo : 0 <= lo).
    { unfold lo. change 0 with (Qfloor (inject_Z 0)). apply Qfloor_resp_le.
      apply Qle_shift_div_l; [apply pow10_pos|]. rewrite Qmult_0_l.
      rewrite Hk. rewrite <- (Zle_Qle 0). lia. }
    assert (Hspos : 0 < s).
    { destruct (Z.eq_dec s 0) as [->|]; [exfalso|lia].
      assert (Hz : (JsNumber.decimal 0 x == JsNumber.magnitude 0 (-1074))%Q)
        by (unfold JsNumber.decimal, JsNumber.magnitude; ring).
      rewrite (nearest_exact false false 0 (-1074) _ eq_refl Hz) in Hnear.
      inversion Hnear. lia. }
    exists s, x. split; [reflexivity|]. split; [exact Hspos|]. split; [lia|].
    split; [exact Hnear|].
    (* s * 10^x <= magnitude + 10^x <= 11 * magnitude + 10 *)
    assert (H1 : (inject_Z s <= JsNumber.magnitude M E / (10 # 1) ^ x + 1)%Q).
    { apply Qle_trans with (inject_Z (lo + 1)); [rewrite <- Zle_Qle; lia|].
      rewrite inject_Z_plus. apply Qplus_le_l. apply Qfloor_le. }
    assert (H2 : (inject_Z s * (10 # 1) ^ x <= JsNumber.magnitude M E + (10 # 1) ^ x)%Q).
    { apply Qle_trans with ((JsNumber.magnitude M E / (10 # 1) ^ x + 1) * (10 # 1) ^ x)%Q.
      - apply Qmult_le_compat_r; [exact H1 | apply Qlt_le_weak, pow10_pos].
      - apply Qle_lteq. right. field. apply Qpower_not_0. discriminate. }
    assert (H3 : ((10 # 1) ^ x <= (10 # 1) * (JsNumber.magnitude M E + 1))%Q).
    { apply Qle_trans with ((10 # 1) ^ x0)%Q; [apply pow10_le; lia|].
      destruct (to_digits_length (k + 1)) as [Hd1 _]; [lia|]. fold x0 in Hd1.
      assert (Hx01 : 1 <= x0).
      { destruct (Z_le_gt_dec 1 x0); [assumption|exfalso].
        assert (x0 = 0) by lia.
        destruct (to_digits_spec (k + 1)) as [_ [_ [Hne _]]]; [lia|].
        unfold x0 in H. destruct (to_digits (k + 1)); [contradiction|].
        cbn [List.length] in H. lia. }
      replace x0 with (1 + (x0 - 1)) by lia.
      rewrite Qpower_plus by apply ten_not_0.
      change ((10 # 1) ^ 1)%Q with (10 # 1)%Q.
      apply Qmult_le_l; [reflexivity|].
      rewrite <- pow10_inject by lia. rewrite Hk.
      change 1%Q with (inject_Z 1). rewrite <- inject_Z_plus, <- Zle_Qle. exact Hd1. }
    eapply Qle_lt_trans; [exact H2|].
    apply Qle_lt_trans
      with (JsNumber.magnitude M E + (10 # 1) * (JsNumber.magnitude M E + 1))%Q.
    { apply Qplus_le_r. exact H3. }
    apply Qlt_le_trans with ((10 # 1) ^ 400 + (10 # 1) * ((10 # 1) ^ 400 + 1))%Q.
    { apply Qplus_lt_le_compat; [exact Hmag|].
      apply Qmult_le_l; [reflexivity|]. apply Qplus_le_l. now apply Qlt_le_weak. }
    unfold Qle. vm_compute. discriminate.
Qed.

End CentsLemmas.

(** C8, amended.  With at least two configured decimal places (the default
    is 20), a recognized currency, and [cents] a number: for an integral [cents],
    [fromCents] returns a Money whose [toCents] is [cents] again; for any
    other number (a fraction, NaN, an infinity) it throws the invalid-cents
    error. *)
Theorem fromCents_toCents `{lib : Library} (cents : number) (c : option string) :
  2 <= DECIMAL_PLACES ->
  isValidCurrencyCode (MoneyFactory.or_USD c) = true ->
  JsNumber.wf_number cents = true ->
  if JsNumber.Number_isInteger cents
  then exists m, MoneyFactory.fromCents cents c = Ok m /\ Money.toCents m = cents
  else throws_with InvalidCents (MoneyFactory.fromCents cents c).
Proof.
  intros Hdp Hcode Hwf.
  destruct (JsNumber.Number_isInteger cents) eqn:Hint.
  - destruct cents as [| |neg M E]; try discriminate Hint.
    unfold MoneyFactory.fromCents. rewrite (validate_valid _ Hcode), Hint.
    cbn [bind negb JsNumber.isFinite orb].
    change (BigNumber.ofNumber (num 100)) with one_hundred.
    destruct (wf_number_parts _ _ _ Hwf) as [HM [HE Hnorm]].
    destruct (Z.eq_dec M 0) as [HM0|HM0].
    + assert (E = -1074) by lia. subst M E.
      eexists. split.
      * apply new_money_finite; [destruct neg; reflexivity | exact Hcode].
      * destruct neg; reflexivity.
    + destruct (ofNumber_integer neg M E Hwf Hint) as [s [x [Eo [Hs [Hx [Hnear Hhi]]]]]];
        [lia|].
      destruct (divide_times_hundred neg s x DECIMAL_PLACES Hs Hx Hdp Hhi)
        as [cq [eq [ct [et [Ed [Et Hv]]]]]].
      rewrite Eo, Ed. eexists. split.
      * apply new_money_finite; [reflexivity | exact Hcode].
      * unfold Money.toCents, ZanNumber.toBigNumber. cbn [_value value].
        change (BigNumber.ofNumber (num 100)) with one_hundred.
        rewrite Et. unfold BigNumber.toNumber.
        rewrite (nearest_ext neg _ _ Hv), nearest_sign.
        fold (JsNumber.decimal s x). rewrite Hnear. cbn [with_sign].
        unfold JsNumber.Math_round. now rewrite Hint.
  - unfold MoneyFactory.fromCents. rewrite (validate_valid _ Hcode), Hint.
    cbn [bind negb orb]. eexists. split; reflexivity.
Qed.

Lemma fromCents_toCents_witness :
  exists m,
    @MoneyFactory.fromCents default_library (num 150) (Some CurrencyEnum.USD) = Ok m /\
    Money.toCents m = num 150.
Proof.
  refine (@fromCents_toCents default_library (num 150) (Some CurrencyEnum.USD) _ _ _).
  - cbn. lia.
  - reflexivity.
  - reflexivity.
Defined.

(** C8, the claim refuted: the division by 100 in [fromCents] is rounded to
    the configured number of decimal places.  With the library configured to
    one decimal place, [fromCents(155)] keeps 1.6 (1.55 with its half
    rounded up), whose [toCents] is 160. *)
Lemma fromCents_toCents_needs_two_places :
  exists m,
    JsNumber.Number_isInteger (num 155) = true /\
    @MoneyFactory.fromCents one_place_library (num 155) (Some CurrencyEnum.USD) = Ok m /\
    Money.toBigNumber m = BFinite false [1; 6] 0 /\
    Money.toCents m = num 160 /\
    Money.toCents m <> num 155 /\
    JsNumber.to_Z (Money.toCents m) = Some 160 /\
    JsNumber.to_Z (num 155) = Some 155.
Proof.
  eexists. split; [reflexivity|]. split; [vm_compute; reflexivity|].
  repeat split. vm_compute. discriminate.
Qed.

(** ** The class invariants

    What the constructors establish about the value they keep. *)

Section CanonicalForm.

Lemma drop_zeros_head (ds : list Z) (d : Z) (rest : list Z) :
  drop_zeros ds = d :: rest -> d <> 0.
Proof.
  induction ds as [|d0 ds IH]; [discriminate|].
  cbn [drop_zeros]. destruct d0; try (intros H; inversion H; subst; discriminate).
  exact IH.
Qed.

Lemma drop_zeros_ok (ds : list Z) : digits_ok ds -> digits_ok (drop_zeros ds).
Proof.
  induction 1 as [|d ds Hd Hds IH]; [constructor|].
  cbn [drop_zeros]. destruct d; try (constructor; assumption). exact IH.
Qed.

Lemma strip_trailing_zeros_ok (ds : list Z) :
  digits_ok ds -> digits_ok (strip_trailing_zeros ds).
Proof.
  intros H. unfold strip_trailing_zeros. apply Forall_rev, drop_zeros_ok, Forall_rev, H.
Qed.

Lemma strip_trailing_zeros_last (ds : list Z) :
  strip_trailing_zeros ds <> [] -> last (strip_trailing_zeros ds) 0 <> 0.
Proof.
  unfold strip_trailing_zeros.
  destruct (drop_zeros (rev ds)) as [|d rest] eqn:E; [intros H; now elim H|].
  intros _. cbn [rev]. rewrite last_last. exact (drop_zeros_head _ _ _ E).
Qed.

(** Stripping trailing zeros keeps a first digit that is not zero. *)
Lemma strip_trailing_zeros_head (d : Z) (ds : list Z) :
  d <> 0 -> exists ds', strip_trailing_zeros (d :: ds) = d :: ds'.
Proof.
  intros Hd. destruct (strip_trailing_zeros_decomp (d :: ds)) as [t E].
  destruct (strip_trailing_zeros (d :: ds)) as [|d' ds'].
  - destruct t; [discriminate|]. cbn in E. inversion E. lia.
  - cbn [app] in E. inversion E. now exists ds'.
Qed.

Lemma canonical_intro (neg : bool) (d : Z) (ds : list Z) (e : Z) :
  digits_ok (d :: ds) -> d <> 0 -> last (d :: ds) 0 <> 0 ->
  BigNumber.MIN_EXP <= e <= BigNumber.MAX_EXP ->
  Invariant.canonical (BFinite neg (d :: ds) e) = true.
Proof.
  intros Hok Hd Hlast He. unfold Invariant.canonical.
  apply andb_true_iff; split;
    [apply andb_true_iff; split; [apply andb_true_iff; split|]|].
  - apply forallb_forall. intros y Hy.
    pose proof (proj1 (Forall_forall _ _) Hok y Hy) as Hy'. cbv beta in Hy'.
    unfold Invariant.is_decimal_digit.
    apply andb_true_iff. split; apply Z.leb_le; lia.
  - apply Z.leb_le. lia.
  - apply Z.leb_le. lia.
  - assert (Hnz : negb (d =? 0) && negb (last (d :: ds) 0 =? 0) = true).
    { apply andb_true_iff. split; apply negb_true_iff, Z.eqb_neq; assumption. }
    destruct d; [contradiction | |]; destruct ds; exact Hnz.
Qed.

Lemma canonical_zero (neg : bool) : Invariant.canonical (BigNumber.zero neg) = true.
Proof. reflexivity. Qed.

(** [normalise] gives the library's form. *)
Lemma normalise_canonical (neg : bool) (m x : Z) :
  0 <= m ->
  BigNumber.isFinite (BigNumber.normalise neg m x) = true ->
  Invariant.canonical (BigNumber.normalise neg m x) = true.
Proof.
  intros Hm. unfold BigNumber.normalise.
  destruct (Z.eqb_spec m 0); [intros _; apply canonical_zero|].
  destruct (Z.ltb_spec BigNumber.MAX_EXP (x + Z.of_nat (List.length (to_digits m)) - 1));
    [discriminate|].
  destruct (Z.ltb_spec (x + Z.of_nat (List.length (to_digits m)) - 1) BigNumber.MIN_EXP);
    [intros _; apply canonical_zero|].
  intros _.
  destruct (to_digits_head m) as [d [ds [Hd Hd1]]]; [lia|].
  destruct (to_digits_spec m Hm) as [_ [Hok _]].
  rewrite Hd in *.
  destruct (strip_trailing_zeros_head d ds) as [ds' Hs]; [lia|].
  pose proof (strip_trailing_zeros_ok _ Hok) as Hok'.
  pose proof (strip_trailing_zeros_last (d :: ds)) as Hlast.
  rewrite Hs in *.
  apply canonical_intro; [assumption | lia | apply Hlast; discriminate | lia].
Qed.

Lemma ofDigits_canonical (neg : bool) (str : list Z) (e : Z) :
  digits_ok str ->
  BigNumber.isFinite (BigNumber.ofDigits neg str e) = true ->
  Invariant.canonical (BigNumber.ofDigits neg str e) = true.
Proof.
  intros Hok. unfold BigNumber.ofDigits.
  pose proof (drop_zeros_ok _ Hok) as Hok1.
  destruct (drop_zeros str) as [|d rest] eqn:Htail.
  - intros _. reflexivity.
  - pose proof (drop_zeros_head _ _ _ Htail) as Hd.
    destruct (strip_trailing_zeros_head d rest Hd) as [ds' Hs].
    pose proof (strip_trailing_zeros_ok _ Hok1) as Hok2.
    pose proof (strip_trailing_zeros_last (d :: rest)) as Hlast.
    rewrite Hs in *. cbn [is_nil].
    destruct (Z.ltb_spec BigNumber.MAX_EXP
                (e - Z.of_nat (List.length str - List.length (d :: rest)) - 1));
      [discriminate|].
    destruct (Z.ltb_spec (e - Z.of_nat (List.length str - List.length (d :: rest)) - 1)
                BigNumber.MIN_EXP); [intros _; apply canonical_zero|].
    intros _.
    apply canonical_intro; [assumption | assumption | apply Hlast; discriminate | lia].
Qed.

Lemma span_digits_are_digits (cs ds rest : list ascii) :
  span_digits cs = (ds, rest) -> digits_ok (digits_of_chars ds).
Proof.
  revert ds rest. induction cs as [|ch cs IH]; intros ds rest H; cbn [span_digits] in H.
  - inversion H. constructor.
  - destruct (is_digit ch) eqn:Hd.
    + destruct (span_digits cs) as [ds' rest'] eqn:E. inversion H; subst.
      cbn [digits_of_chars map]. constructor; [|exact (IH _ _ eq_refl)].
      unfold is_digit in Hd. apply andb_true_iff in Hd. destruct Hd as [H1 H2].
      apply Nat.leb_le in H1, H2. unfold digit_of_ascii. lia.
    + inversion H. constructor.
Qed.

(** The decimal branch of the string constructor gives NaN, an infinity or a
    value in the library's form. *)
Lemma ofDecimal_canonical (cs : list ascii) :
  BigNumber.isFinite (BigNumber.ofDecimal cs) = true ->
  Invariant.canonical (BigNumber.ofDecimal cs) = true.
Proof.
  unfold BigNumber.ofDecimal, BigNumber.read_mantissa.
  destruct (BigNumber.strip_minus cs) as [neg cs1].
  destruct (span_digits cs1) as [ip r1] eqn:Hip.
  pose proof (span_digits_are_digits _ _ _ Hip) as Hok1.
  assert (Hgoal : forall fp rest, digits_ok (digits_of_chars fp) ->
            BigNumber.isFinite
              match BigNumber.read_exponent rest with
              | Some ex => BigNumber.ofDigits neg (digits_of_chars (ip ++ fp))
                             (Z.of_nat (List.length ip) + ex)
              | None => BNaN
              end = true ->
            Invariant.canonical
              match BigNumber.read_exponent rest with
              | Some ex => BigNumber.ofDigits neg (digits_of_chars (ip ++ fp))
                             (Z.of_nat (List.length ip) + ex)
              | None => BNaN
              end = true).
  { intros fp rest Hok2. destruct (BigNumber.read_exponent rest); [|discriminate].
    apply ofDigits_canonical. unfold digits_of_chars. rewrite map_app.
    apply Forall_app. split; assumption. }
  destruct r1 as [|ch r2].
  - destruct (is_nil ip); [discriminate|]. apply Hgoal. constructor.
  - destruct (Ascii.eqb ch ".") eqn:Edot.
    + apply Ascii.eqb_eq in Edot. subst ch.
      destruct (span_digits r2) as [fp r3] eqn:Hfp.
      destruct (is_nil ip && is_nil fp); [discriminate|].
      apply Hgoal. exact (span_digits_are_digits _ _ _ Hfp).
    + assert (Hother : forall A (a b : A),
                 match ch with "."%char => a | _ => b end = b).
      { intros A a b. destruct ch as [[] [] [] [] [] [] [] []];
          try reflexivity; discriminate Edot. }
      rewrite Hother. destruct (is_nil ip); [discriminate|].
      apply Hgoal. constructor.
Qed.

End CanonicalForm.

Section NumberDigits.

Lemma magnitude_nonneg (m e : Z) : 0 <= m -> (0 <= JsNumber.magnitude m e)%Q.
Proof.
  intros Hm. unfold JsNumber.magnitude.
  apply Qmult_le_0_compat; [now rewrite <- (Zle_Qle 0) | apply Qlt_le_weak, pow2_pos].
Qed.

Lemma floor_scaled_nonneg (m e x : Z) :
  0 <= m -> 0 <= Qfloor (JsNumber.magnitude m e / (10 # 1) ^ x).
Proof.
  intros Hm. change 0 with (Qfloor (inject_Z 0)). apply Qfloor_resp_le.
  apply Qle_shift_div_l; [apply pow10_pos|]. rewrite Qmult_0_l.
  now apply magnitude_nonneg.
Qed.

(** Where the search for the digits ends. *)
Lemma shortest_from_bounds (m e : Z) :
  0 <= m ->
  forall (fuel : nat) (x : Z),
    let '(s, x') := JsNumber.shortest_from fuel m e x in
    0 <= s <= Qfloor (JsNumber.magnitude m e / (10 # 1) ^ x') + 1 /\
    Z.min (x - Z.of_nat fuel) (Z.min e 0) <= x' <= Z.max x (Z.min e 0).
Proof.
  intros Hm. induction fuel as [|fuel IH]; intros x; cbn [JsNumber.shortest_from].
  - pose proof (floor_scaled_nonneg m e (Z.min e 0) Hm). lia.
  - destruct (JsNumber.candidate m e x) as [s|] eqn:Hc.
    + destruct (candidate_spec _ _ _ _ Hc) as [_ Hs].
      pose proof (floor_scaled_nonneg m e x Hm). lia.
    + specialize (IH (x - 1)).
      destruct (JsNumber.shortest_from fuel m e (x - 1)) as [s x']. lia.
Qed.

(** The decimal of [String(v)] is not much larger than [v], and has at most
    1074 fraction digits. *)
Lemma shortest_digits_bounds (M E : Z) :
  JsNumber.wf_number (Finite false M E) = true -> 0 < M ->
  let '(s, x) := JsNumber.shortest_digits M E in
  0 <= s /\ -1074 <= x /\ (inject_Z s * (10 # 1) ^ x < (10 # 1) ^ 402)%Q.
Proof.
  intros Hwf HM. destruct (wf_number_parts _ _ _ Hwf) as [HM' [HE _]].
  destruct (number_magnitude_bounds false M E Hwf HM) as [_ Hmag].
  unfold JsNumber.shortest_digits.
  set (k := Qfloor (JsNumber.magnitude M E)).
  assert (Hk : 0 <= k).
  { unfold k. change 0 with (Qfloor (inject_Z 0)). apply Qfloor_resp_le.
    apply magnitude_nonneg. lia. }
  set (x0 := Z.of_nat (List.length (to_digits (k + 1)))).
  destruct (to_digits_length (k + 1)) as [Hd1 _]; [lia|]. fold x0 in Hd1.
  assert (Hx01 : 1 <= x0).
  { destruct (to_digits_head (k + 1)) as [d [ds [Hd _]]]; [lia|].
    unfold x0. rewrite Hd. cbn [List.length]. lia. }
  pose proof (shortest_from_bounds M E (proj1 HM') (Z.to_nat (x0 - Z.min E 0)) x0) as Hsf.
  destruct (JsNumber.shortest_from (Z.to_nat (x0 - Z.min E 0)) M E x0) as [s x].
  destruct Hsf as [Hs Hx].
  split; [lia|]. split; [lia|].
  set (lo := Qfloor (JsNumber.magnitude M E / (10 # 1) ^ x)) in *.
  assert (H1 : (inject_Z s <= JsNumber.magnitude M E / (10 # 1) ^ x + 1)%Q).
  { apply Qle_trans with (inject_Z (lo + 1)); [rewrite <- Zle_Qle; lia|].
    rewrite inject_Z_plus. apply Qplus_le_l. apply Qfloor_le. }
  assert (H2 : (inject_Z s * (10 # 1) ^ x <= JsNumber.magnitude M E + (10 # 1) ^ x)%Q).
  { apply Qle_trans with ((JsNumber.magnitude M E / (10 # 1) ^ x + 1) * (10 # 1) ^ x)%Q.
    - apply Qmult_le_compat_r; [exact H1 | apply Qlt_le_weak, pow10_pos].
    - apply Qle_lteq. right. field. apply Qpower_not_0. discriminate. }
  assert (H3 : ((10 # 1) ^ x <= (10 # 1) * (JsNumber.magnitude M E + 1))%Q).
  { apply Qle_trans with ((10 # 1) ^ x0)%Q; [apply pow10_le; lia|].
    replace x0 with (1 + (x0 - 1)) by lia.
    rewrite Qpower_plus by apply ten_not_0.
    change ((10 # 1) ^ 1)%Q with (10 # 1)%Q.
    apply Qmult_le_l; [reflexivity|].
    rewrite <- pow10_inject by lia.
    apply Qle_trans with (inject_Z (k + 1)); [now rewrite <- Zle_Qle|].
    rewrite inject_Z_plus. apply Qplus_le_l. apply Qfloor_le. }
  eapply Qle_lt_trans; [exact H2|].
  apply Qle_lt_trans
    with (JsNumber.magnitude M E + (10 # 1) * (JsNumber.magnitude M E + 1))%Q.
  { apply Qplus_le_r. exact H3. }
  apply Qlt_le_trans with ((10 # 1) ^ 400 + (10 # 1) * ((10 # 1) ^ 400 + 1))%Q.
  { apply Qplus_lt_le_compat; [exact Hmag|].
    apply Qmult_le_l; [reflexivity|]. apply Qplus_le_l. now apply Qlt_le_weak. }
  unfold Qle. vm_compute. discriminate.
Qed.

Lemma is_int32_zero (e : Z) : JsNumber.is_int32 0 e = true.
Proof.
  unfold JsNumber.is_int32, JsNumber.Number_isInteger.
  rewrite Zmod_0_l, orb_true_r.
  assert (E0 : (JsNumber.magnitude 0 e == inject_Z 0)%Q)
    by (unfold JsNumber.magnitude; ring).
  rewrite (Qfloor_comp _ _ E0). reflexivity.
Qed.

End NumberDigits.

Section Constructors.
Context {lib : Library}.

(** A native number that is finite becomes a finite decimal. *)
Lemma ofNumber_finite (neg : bool) (M E : Z) :
  JsNumber.wf_number (Finite neg M E) = true ->
  BigNumber.isFinite (BigNumber.ofNumber (Finite neg M E)) = true.
Proof.
  intros Hwf. destruct (wf_number_parts _ _ _ Hwf) as [HM _].
  cbn [BigNumber.ofNumber].
  destruct (Z.eq_dec M 0) as [->|HM0].
  { rewrite is_int32_zero.
    assert (E0 : (JsNumber.magnitude 0 E == inject_Z 0)%Q)
      by (unfold JsNumber.magnitude; ring).
    rewrite (Qfloor_comp _ _ E0). reflexivity. }
  destruct (JsNumber.is_int32 M E) eqn:Hint.
  - unfold JsNumber.is_int32 in Hint. apply andb_true_iff in Hint.
    destruct Hint as [_ Hk]. apply Z.ltb_lt in Hk.
    pose proof (floor_scaled_nonneg M E 0 (proj1 HM)) as Hk0.
    assert (E1 : (JsNumber.magnitude M E / (10 # 1) ^ 0 == JsNumber.magnitude M E)%Q)
      by (change ((10 # 1) ^ 0)%Q with 1%Q; field).
    rewrite (Qfloor_comp _ _ E1) in Hk0.
    set (k := Qfloor (JsNumber.magnitude M E)) in *.
    destruct (Z.eq_dec k 0) as [->|Hk1]; [reflexivity|].
    destruct (normalise_in_range neg k 0 0 10) as [c [e [Hn _]]];
      try (unfold BigNumber.MIN_EXP, BigNumber.MAX_EXP; lia).
    + change ((10 # 1) ^ 0)%Q with 1%Q. rewrite Qmult_1_r.
      change 1%Q with (inject_Z 1). rewrite <- Zle_Qle. lia.
    + change ((10 # 1) ^ 0)%Q with 1%Q. rewrite Qmult_1_r.
      change ((10 # 1) ^ 10)%Q with (inject_Z (10 ^ 10)).
      rewrite <- Zlt_Qlt. lia.
    + rewrite Hn. reflexivity.
  - pose proof (shortest_digits_bounds M E) as Hsd.
    destruct (JsNumber.shortest_digits M E) as [s x].
    destruct Hsd as [Hs [Hx Hhi]]; [exact Hwf | lia |].
    destruct (Z.eq_dec s 0) as [->|Hs1]; [reflexivity|].
    destruct (normalise_in_range neg s x (-1074) 402) as [c [e [Hn _]]];
      try (unfold BigNumber.MIN_EXP, BigNumber.MAX_EXP; lia).
    + apply Qle_trans with ((10 # 1) ^ x)%Q; [apply pow10_le; lia|].
      rewrite <- (Qmult_1_l ((10 # 1) ^ x)) at 1.
      apply Qmult_le_compat_r; [|apply Qlt_le_weak, pow10_pos].
      change 1%Q with (inject_Z 1). rewrite <- Zle_Qle. lia.
    + exact Hhi.
    + rewrite Hn. reflexivity.
Qed.

Lemma ofNumber_canonical (neg : bool) (M E : Z) :
  JsNumber.wf_number (Finite neg M E) = true ->
  Invariant.canonical (BigNumber.ofNumber (Finite neg M E)) = true.
Proof.
  intros Hwf. pose proof (ofNumber_finite neg M E Hwf) as Hfin.
  destruct (wf_number_parts _ _ _ Hwf) as [HM _].
  cbn [BigNumber.ofNumber] in *.
  destruct (JsNumber.is_int32 M E).
  - apply normalise_canonical; [|exact Hfin].
    pose proof (floor_scaled_nonneg M E 0 (proj1 HM)) as Hk0.
    assert (E1 : (JsNumber.magnitude M E / (10 # 1) ^ 0 == JsNumber.magnitude M E)%Q)
      by (change ((10 # 1) ^ 0)%Q with 1%Q; field).
    now rewrite (Qfloor_comp _ _ E1) in Hk0.
  - unfold JsNumber.shortest_digits in *.
    set (fuel := Z.to_nat _) in *. set (x0 := Z.of_nat _) in *.
    pose proof (shortest_from_bounds M E (proj1 HM) fuel x0) as Hsf.
    destruct (JsNumber.shortest_from fuel M E x0) as [s x].
    apply normalise_canonical; [lia | exact Hfin].
Qed.

(** The class invariant: a constructed [ZanNumber] holds a finite value. *)
Lemma new_zan_invariant (v : any) (z : ZanNumber) :
  match v with ANumber n => JsNumber.wf_number n = true | _ => True end ->
  ZanNumber.new v = Ok z -> Invariant.zan z = true.
Proof.
  unfold ZanNumber.new, Invariant.zan.
  destruct v as [| |b|n|s|b|z'|m|d|]; try discriminate.
  - intros Hwf. destruct n as [|neg|neg M E]; cbn; try discriminate.
    intros H. inversion H. cbn [value]. now apply ofNumber_finite.
  - intros _. destruct (BigNumber.ofString parseNumeric s) eqn:E; cbn; try discriminate.
    intros H. inversion H. reflexivity.
  - intros _. destruct b; cbn; try discriminate.
    intros H. inversion H. reflexivity.
Qed.

(** A constructed [Money] holds a finite value and a recognized currency. *)
Lemma new_money_invariant (v : any) (code : string) (m : Money) :
  match v with ANumber n => JsNumber.wf_number n = true | _ => True end ->
  Money.new v code = Ok m -> Invariant.money m = true.
Proof.
  intros Hv. unfold Money.new, validateCurrencyCode, Invariant.money.
  destruct (isValidCurrencyCode code) eqn:Hc; cbn; [|discriminate].
  destruct (ZanNumber.new v) as [z|] eqn:Hz; cbn; [|discriminate].
  intros H. injection H as <-.
  apply andb_true_iff. split; [exact (new_zan_invariant v z Hv Hz) | exact Hc].
Qed.

(** A number, or a string in the decimal grammar, is kept in the canonical
    form. *)
Lemma new_zan_canonical (v : any) (z : ZanNumber) :
  match v with
  | ANumber n => JsNumber.wf_number n = true
  | AString s => BigNumber.isNumeric (list_ascii_of_string s) = true
  | ABigNumber b => Invariant.canonical b = true
  | _ => True
  end ->
  ZanNumber.new v = Ok z -> Invariant.canonical (value z) = true.
Proof.
  intros Hv Hnew.
  assert (Hfin : Invariant.zan z = true).
  { apply (new_zan_invariant v z); [|exact Hnew]. destruct v; auto. }
  unfold Invariant.zan in Hfin. revert Hnew. unfold ZanNumber.new.
  destruct v as [| |b|n|s|b|z'|m|d|]; try discriminate.
  - destruct n as [|neg|neg M E]; cbn; try discriminate.
    intros H. inversion H. cbn [value]. now apply ofNumber_canonical.
  - unfold BigNumber.ofString. rewrite Hv.
    destruct (BigNumber.isNaN _ || negb _); [discriminate|].
    intros H. inversion H as [Hz]. rewrite <- Hz in Hfin. cbn [value] in *.
    now apply ofDecimal_canonical.
  - destruct (BigNumber.isNaN _ || negb _); [discriminate|].
    intros H. inversion H. exact Hv.
Qed.

End Constructors.

(** * Further properties of the code *)

(** ** What the constructors and the factory return *)

Section Outcomes.
Context {lib : Library}.

Lemma bind_ok {A B} (r : result A) (k : A -> result B) (b : B) :
  bind r k = Ok b -> exists a, r = Ok a /\ k a = Ok b.
Proof. destruct r as [a|msg]; simpl; [eauto | discriminate]. Qed.

Lemma validate_ok (code : string) (u : unit) :
  validateCurrencyCode code = Ok u -> isValidCurrencyCode code = true.
Proof.
  unfold validateCurrencyCode. destruct (isValidCurrencyCode code); [reflexivity|discriminate].
Qed.

(** [new Money(bigNumber, code)] returns only finite values with a
    recognized code, and keeps both as given. *)
Lemma new_money_ok (b : BigNumber) (code : string) (m : Money) :
  Money.new (ABigNumber b) code = Ok m ->
  m = {| _value := {| value := b |}; currencyCode := code |} /\
  BigNumber.isFinite b = true /\ isValidCurrencyCode code = true.
Proof.
  unfold Money.new. intros H.
  apply bind_ok in H. destruct H as [u [Hu H]]. apply validate_ok in Hu.
  apply bind_ok in H. destruct H as [z [Hz H]].
  destruct b; try discriminate Hz. injection Hz as <-. injection H as <-. auto.
Qed.

Lemma new_money_valid (b : BigNumber) (code : string) (m : Money) :
  Money.new (ABigNumber b) code = Ok m ->
  currencyCode m = code /\ Invariant.money m = true.
Proof.
  intros H. destruct (new_money_ok _ _ _ H) as [-> [Hb Hc]].
  split; [reflexivity|]. unfold Invariant.money, Invariant.zan. cbn [_value value currencyCode].
  now rewrite Hb, Hc.
Qed.

End Outcomes.

(** ** Rounding to a scale *)

Section Scale.
Context {lib : Library}.

Lemma new_zan_ok (b : BigNumber) (z : ZanNumber) :
  ZanNumber.new (ABigNumber b) = Ok z -> z = {| value := b |} /\ BigNumber.isFinite b = true.
Proof. destruct b; try discriminate. intros H. injection H as <-. auto. Qed.

Lemma strip_trailing_zeros_length (ds : list Z) :
  (List.length (strip_trailing_zeros ds) <= List.length ds)%nat.
Proof.
  destruct (strip_trailing_zeros_decomp ds) as [t H].
  rewrite H at 2. rewrite length_app. lia.
Qed.

(** What [decimalPlaces(dp, ROUND_HALF_UP)] returns has no digit beyond the
    [dp]-th place. *)
Lemma decimalPlaces_shape (x : BigNumber) (dp : Z) (neg : bool) (c : list Z) (e : Z) :
  BigNumber.decimalPlaces x dp = Ok (BFinite neg c e) ->
  0 <= dp <= BigNumber.MAX /\ Z.of_nat (List.length c) <= dp + e + 1.
Proof.
  unfold BigNumber.decimalPlaces.
  destruct (dp <? 0) eqn:E1; [discriminate|].
  destruct (BigNumber.MAX <? dp) eqn:E2; [discriminate|].
  apply Z.ltb_ge in E1, E2. cbn [orb].
  destruct x as [|neg0|neg0 c0 e0]; try discriminate.
  unfold BigNumber.round.
  destruct (Z.of_nat (List.length c0) <=? dp + e0 + 1) eqn:E3.
  - apply Z.leb_le in E3. intros H. injection H as <- <- <-. lia.
  - replace (e0 - (dp + e0 + 1) + 1) with (- dp) by lia.
    unfold BigNumber.normalise, BigNumber.zero.
    destruct (_ =? 0); [intros H; injection H as <- <- <-; cbn; lia|].
    destruct (BigNumber.MAX_EXP <? _); [discriminate|].
    destruct (_ <? BigNumber.MIN_EXP); intros H; injection H as <- <- <-; [cbn; lia|].
    split; [lia|].
    match goal with |- context [to_digits ?m] =>
      pose proof (strip_trailing_zeros_length (to_digits m)) end.
    lia.
Qed.

Lemma decimalPlaces_again (x : BigNumber) (dp : Z) (r : BigNumber) :
  BigNumber.decimalPlaces x dp = Ok r -> BigNumber.decimalPlaces r dp = Ok r.
Proof.
  intros H. destruct r as [|neg|neg c e].
  - unfold BigNumber.decimalPlaces in *.
    destruct ((dp <? 0) || (BigNumber.MAX <? dp)); [discriminate | reflexivity].
  - unfold BigNumber.decimalPlaces in *.
    destruct ((dp <? 0) || (BigNumber.MAX <? dp)); [discriminate | reflexivity].
  - destruct (decimalPlaces_shape _ _ _ _ _ H) as [Hdp Hlen].
    unfold BigNumber.decimalPlaces, BigNumber.round.
    destruct (dp <? 0) eqn:E1; [apply Z.ltb_lt in E1; lia|].
    destruct (BigNumber.MAX <? dp) eqn:E2; [apply Z.ltb_lt in E2; lia|].
    cbn [orb].
    destruct (Z.of_nat (List.length c) <=? dp + e + 1) eqn:E3; [reflexivity|].
    apply Z.leb_gt in E3. lia.
Qed.

(** A finite value with no digit beyond the [dp]-th place is a whole number
    of units of that place. *)
Lemma whole_units (neg : bool) (c : list Z) (e dp : Z) :
  Z.of_nat (List.length c) <= dp + e + 1 ->
  exists n, (Qvalue (BFinite neg c e) * (10 # 1) ^ dp == inject_Z n)%Q.
Proof.
  intros Hlen.
  set (k := BigNumber.unit_exponent c e + dp).
  assert (Hk : 0 <= k) by (unfold k, BigNumber.unit_exponent; lia).
  assert (Hmag : (BigNumber.magnitude (BFinite neg c e) * (10 # 1) ^ dp
                  == inject_Z (of_digits c * 10 ^ k))%Q).
  { rewrite magnitude_scaled. fold k. rewrite inject_Z_mult, pow10_inject by exact Hk.
    reflexivity. }
  unfold Qvalue. cbn [BigNumber.is_neg]. destruct neg.
  - exists (- (of_digits c * 10 ^ k)). rewrite inject_Z_opp, <- Hmag. ring.
  - exists (of_digits c * 10 ^ k). exact Hmag.
Qed.

End Scale.

(** X1. A constructor that returns has checked its argument: the value kept
    by a [ZanNumber] is finite, and a [Money] keeps a finite value and the
    recognized currency code it was given.  (A number argument is a binary64
    number.) *)
Theorem constructors_keep_the_invariant `{lib : Library} (v : any) (code : string) :
  match v with ANumber n => JsNumber.wf_number n = true | _ => True end ->
  (forall z, ZanNumber.new v = Ok z ->
     BigNumber.isFinite (ZanNumber.toBigNumber z) = true) /\
  (forall m, Money.new v code = Ok m ->
     BigNumber.isFinite (Money.toBigNumber m) = true /\
     isValidCurrencyCode (Money.getCurrencyCode m) = true /\
     Money.getCurrencyCode m = code).
Proof.
  intros Hv. split.
  - intros z Hz. exact (new_zan_invariant v z Hv Hz).
  - intros m Hm. pose proof (new_money_invariant v code m Hv Hm) as Hinv.
    unfold Invariant.money, Invariant.zan in Hinv.
    apply andb_true_iff in Hinv. destruct Hinv as [Hfin Hcode].
    repeat split; try assumption.
    unfold Money.new in Hm.
    apply bind_ok in Hm. destruct Hm as [u [_ Hm]].
    apply bind_ok in Hm. destruct Hm as [z [_ Hm]].
    injection Hm as <-. reflexivity.
Qed.

Lemma constructors_keep_the_invariant_witness :
  exists m,
    @Money.new default_library (ANumber (num 15)) "EUR" = Ok m /\
    BigNumber.isFinite (Money.toBigNumber m) = true /\
    isValidCurrencyCode (Money.getCurrencyCode m) = true /\
    Money.getCurrencyCode m = "EUR".
Proof.
  exists {| _value := {| value := BFinite false [1; 5] 1 |}; currencyCode := "EUR" |}.
  split; [reflexivity|].
  apply (proj2 (@constructors_keep_the_invariant default_library
                  (ANumber (num 15)) "EUR" eq_refl)).
  reflexivity.
Defined.

(** X2. The factory functions that take a currency code check it before
    they look at the value: with a code that is not recognized each of them,
    like the constructor, throws the invalid-currency error whatever the
    value is.  [fromMoneyDto] checks the amount first. *)
Theorem currency_is_checked_first `{lib : Library} (c : option string) :
  isValidCurrencyCode (MoneyFactory.or_USD c) = false ->
  let error := Throw ("Invalid currency code: " ++ MoneyFactory.or_USD c) in
  (forall v, Money.new v (MoneyFactory.or_USD c) = error) /\
  (forall v, MoneyFactory.fromNumber v c = error) /\
  (forall s, MoneyFactory.fromString s c = error) /\
  (forall v, MoneyFactory.fromAnyOrThrow v c = error) /\
  MoneyFactory.zero c = error /\
  (forall n, MoneyFactory.fromCents n c = error) /\
  (forall a,
     MoneyFactory.fromMoneyDto {| amount := a; currency := MoneyFactory.or_USD c |}
     = if BigNumber.isFinite (BigNumber.ofString parseNumeric a) then error
       else Throw MoneyFactory.invalidStringFormatError).
Proof.
  intros H error.
  unfold Money.new, MoneyFactory.fromNumber, MoneyFactory.fromString,
    MoneyFactory.fromAnyOrThrow, MoneyFactory.zero, MoneyFactory.fromCents,
    MoneyFactory.fromMoneyDto.
  cbn [amount currency]. unfold Money.new.
  rewrite (validate_invalid _ H). cbn [bind]. fold error.
  repeat split; try reflexivity.
  intros a. destruct (BigNumber.ofString parseNumeric a); reflexivity.
Qed.

Lemma currency_is_checked_first_witness :
  @MoneyFactory.fromNumber default_library NaN (Some "usd")
  = Throw "Invalid currency code: usd".
Proof.
  exact (proj1 (proj2 (@currency_is_checked_first default_library (Some "usd") eq_refl)) NaN).
Defined.

Section Operations.
Context {lib : Library}.

Lemma zan_round_ok (this : ZanNumber) (scale : option Z) (r : ZanNumber) :
  ZanNumber.round this scale = Ok r ->
  BigNumber.decimalPlaces (value this) (ZanNumber.scale_or_default scale) = Ok (value r)
  /\ BigNumber.isFinite (value r) = true.
Proof.
  unfold ZanNumber.round. intros H.
  apply bind_ok in H. destruct H as [b [Hb H]].
  destruct (new_zan_ok _ _ H) as [-> Hfin]. auto.
Qed.

Lemma zan_multiplyAndRound_ok (this : ZanNumber) (n : number) (scale : option Z)
    (r : ZanNumber) :
  ZanNumber.multiplyAndRound this n scale = Ok r ->
  BigNumber.decimalPlaces (BigNumber.times (value this) (BigNumber.ofNumber n))
    (ZanNumber.scale_or_default scale) = Ok (value r)
  /\ BigNumber.isFinite (value r) = true.
Proof.
  unfold ZanNumber.multiplyAndRound. intros H.
  apply bind_ok in H. destruct H as [b [Hb H]].
  destruct (new_zan_ok _ _ H) as [-> Hfin]. auto.
Qed.

Lemma zan_divideAndRound_ok (this : ZanNumber) (n : number) (scale : option Z)
    (r : ZanNumber) :
  ZanNumber.divideAndRound this n scale = Ok r ->
  BigNumber.isZero (BigNumber.ofNumber n) = false /\
  BigNumber.decimalPlaces
    (BigNumber.dividedBy DECIMAL_PLACES (value this) (BigNumber.ofNumber n))
    (ZanNumber.scale_or_default scale) = Ok (value r)
  /\ BigNumber.isFinite (value r) = true.
Proof.
  unfold ZanNumber.divideAndRound.
  destruct (BigNumber.isZero (BigNumber.ofNumber n)); [discriminate|]. intros H.
  apply bind_ok in H. destruct H as [b [Hb H]].
  destruct (new_zan_ok _ _ H) as [-> Hfin]. auto.
Qed.

(** A [Money] method that wraps a [ZanNumber] result. *)
Lemma money_wrap_ok (this : Money) (step : result ZanNumber) (r : Money) :
  (z <- step ;; Money.new (ABigNumber (ZanNumber.toBigNumber z)) (currencyCode this)) = Ok r ->
  exists z, step = Ok z /\ r = {| _value := z; currencyCode := currencyCode this |} /\
            BigNumber.isFinite (value z) = true /\
            isValidCurrencyCode (currencyCode this) = true.
Proof.
  intros H. apply bind_ok in H. destruct H as [z [Hz H]].
  destruct (new_money_ok _ _ _ H) as [-> [Hfin Hc]].
  exists z. destruct z. auto.
Qed.

Lemma money_wrap_valid (this : Money) (step : result ZanNumber) (r : Money) :
  (z <- step ;; Money.new (ABigNumber (ZanNumber.toBigNumber z)) (currencyCode this)) = Ok r ->
  currencyCode r = currencyCode this /\ Invariant.money r = true.
Proof.
  intros H. destruct (money_wrap_ok _ _ _ H) as [z [_ [-> [Hfin Hc]]]].
  split; [reflexivity|]. unfold Invariant.money, Invariant.zan. cbn [_value currencyCode].
  now rewrite Hfin, Hc.
Qed.

End Operations.

(** X3. The arithmetic of [Money] stays in the receiver's currency: what
    [add], [subtract], [multiplyAndRound], [divideAndRound] and [round]
    return has the currency code of [this], a recognized one, and a finite
    value. *)
Theorem operations_keep_the_currency `{lib : Library}
    (this other r : Money) (n : number) (scale : option Z) :
  Money.add this other = Ok r \/ Money.subtract this other = Ok r \/
  Money.multiplyAndRound this n scale = Ok r \/
  Money.divideAndRound this n scale = Ok r \/
  Money.round this scale = Ok r ->
  Money.getCurrencyCode r = Money.getCurrencyCode this /\
  isValidCurrencyCode (Money.getCurrencyCode r) = true /\
  BigNumber.isFinite (Money.toBigNumber r) = true.
Proof.
  intros H.
  assert (Hr : currencyCode r = currencyCode this /\ Invariant.money r = true).
  { unfold Money.add, Money.subtract, Money.multiplyAndRound, Money.divideAndRound,
      Money.round in H.
    destruct H as [H|[H|[H|[H|H]]]].
    - destruct (negb _); [discriminate|]. exact (money_wrap_valid _ _ _ H).
    - destruct (negb _); [discriminate|]. exact (money_wrap_valid _ _ _ H).
    - exact (money_wrap_valid _ _ _ H).
    - exact (money_wrap_valid _ _ _ H).
    - exact (money_wrap_valid _ _ _ H). }
  destruct Hr as [Hc Hinv]. unfold Invariant.money, Invariant.zan in Hinv.
  apply andb_true_iff in Hinv. destruct Hinv as [Hfin Hcode].
  unfold Money.getCurrencyCode, Money.toBigNumber, ZanNumber.toBigNumber. auto.
Qed.

Lemma operations_keep_the_currency_witness :
  exists r,
    @Money.multiplyAndRound default_library eur_one (num 3) (Some 2) = Ok r /\
    Money.getCurrencyCode r = "EUR" /\
    isValidCurrencyCode (Money.getCurrencyCode r) = true /\
    BigNumber.isFinite (Money.toBigNumber r) = true.
Proof.
  exists {| _value := {| value := BFinite false [3] 0 |}; currencyCode := "EUR" |}.
  split; [reflexivity|].
  apply (@operations_keep_the_currency default_library eur_one eur_one _ (num 3) (Some 2)).
  right. right. left. reflexivity.
Defined.

Section Aggregates.
Context {lib : Library}.

Lemma check_currencies_spec (message currency : string) (rest : list Money) :
  Money.check_currencies message currency rest
  = if forallb (fun a => String.eqb (currencyCode a) currency) rest
    then Ok tt else Throw message.
Proof.
  induction rest as [|a rest IH]; [reflexivity|].
  cbn [Money.check_currencies forallb].
  destruct (String.eqb (currencyCode a) currency); [exact IH | reflexivity].
Qed.

End Aggregates.

(** X4. The static [sum], [min] and [max] accept any number of operands of
    one currency: when some operand after the first has another currency
    code than the first, they throw their currency-mismatch errors;
    otherwise what they return has the first operand's currency code, a
    recognized one, and a finite value. *)
Theorem aggregates_need_one_currency `{lib : Library} (first : Money) (rest : list Money) :
  if forallb (fun a => String.eqb (currencyCode a) (currencyCode first)) rest
  then
    forall r,
      Money.Static.sum (first :: rest) = Ok r \/
      Money.Static.min (first :: rest) = Ok r \/
      Money.Static.max (first :: rest) = Ok r ->
      Money.getCurrencyCode r = Money.getCurrencyCode first /\
      isValidCurrencyCode (Money.getCurrencyCode r) = true /\
      BigNumber.isFinite (Money.toBigNumber r) = true
  else
    Money.Static.sum (first :: rest) = Throw Money.sumError /\
    Money.Static.min (first :: rest) = Throw Money.comparementError /\
    Money.Static.max (first :: rest) = Throw Money.comparementError.
Proof.
  unfold Money.Static.sum, Money.Static.min, Money.Static.max.
  rewrite !check_currencies_spec.
  destruct (forallb _ rest); [|repeat split].
  cbn [bind]. intros r H.
  assert (Hr : currencyCode r = currencyCode first /\ Invariant.money r = true)
    by (destruct H as [H|[H|H]]; exact (money_wrap_valid _ _ _ H)).
  destruct Hr as [Hc Hinv]. unfold Invariant.money, Invariant.zan in Hinv.
  apply andb_true_iff in Hinv. destruct Hinv as [Hfin Hcode].
  unfold Money.getCurrencyCode, Money.toBigNumber, ZanNumber.toBigNumber. auto.
Qed.

(** X5. Rounding is idempotent: what [round(scale)] returned, [round(scale)]
    returns unchanged, for [ZanNumber] and for [Money], with a given or a
    defaulted scale. *)
Theorem rounding_twice_is_rounding_once `{lib : Library} (scale : option Z) :
  (forall this r : ZanNumber,
     ZanNumber.round this scale = Ok r -> ZanNumber.round r scale = Ok r) /\
  (forall this r : Money,
     Money.round this scale = Ok r -> Money.round r scale = Ok r).
Proof.
  assert (Hzan : forall (sc : option Z) (this r : ZanNumber),
             ZanNumber.round this sc = Ok r -> ZanNumber.round r sc = Ok r).
  { intros sc this r H. destruct (zan_round_ok _ _ _ H) as [Hdp Hfin].
    unfold ZanNumber.round. rewrite (decimalPlaces_again _ _ _ Hdp). cbn [bind].
    destruct r as [b]. cbn [value] in *. now apply new_zan_finite. }
  split; [exact (Hzan scale)|].
  intros this r H. unfold Money.round in *.
  destruct (money_wrap_ok _ _ _ H) as [z [Hz [-> [Hfin Hc]]]].
  cbn [_value currencyCode]. rewrite (Hzan _ _ _ Hz). cbn [bind].
  unfold ZanNumber.toBigNumber. destruct z as [b]. cbn [value] in *.
  now apply new_money_finite.
Qed.

Lemma rounding_twice_is_rounding_once_witness :
  exists r,
    @ZanNumber.round default_library minus_104_45 (Some 1) = Ok r /\
    @ZanNumber.round default_library r (Some 1) = Ok r.
Proof.
  exists {| value := BFinite true [1; 0; 4; 5] 2 |}.
  split; [reflexivity|].
  apply (proj1 (@rounding_twice_is_rounding_once default_library (Some 1)) minus_104_45).
  reflexivity.
Defined.

(** X6. What [round], [multiplyAndRound] and [divideAndRound] return, on
    [ZanNumber] and on [Money], has no digit beyond the [scale]-th decimal
    place: its value is a whole number of units of [10^-scale]. *)
Theorem rounded_results_are_whole_units `{lib : Library} (n : number) (scale : option Z) :
  (forall this r : ZanNumber,
     ZanNumber.round this scale = Ok r \/
     ZanNumber.multiplyAndRound this n scale = Ok r \/
     ZanNumber.divideAndRound this n scale = Ok r ->
     exists k, (Qvalue (ZanNumber.toBigNumber r)
                * (10 # 1) ^ ZanNumber.scale_or_default scale == inject_Z k)%Q) /\
  (forall this r : Money,
     Money.round this scale = Ok r \/
     Money.multiplyAndRound this n scale = Ok r \/
     Money.divideAndRound this n scale = Ok r ->
     exists k, (Qvalue (Money.toBigNumber r)
                * (10 # 1) ^ ZanNumber.scale_or_default scale == inject_Z k)%Q).
Proof.
  assert (Hzan : forall (sc : option Z) (this r : ZanNumber),
             ZanNumber.round this sc = Ok r \/
             ZanNumber.multiplyAndRound this n sc = Ok r \/
             ZanNumber.divideAndRound this n sc = Ok r ->
             exists k, (Qvalue (value r)
                        * (10 # 1) ^ ZanNumber.scale_or_default sc == inject_Z k)%Q).
  { intros sc this r H.
    assert (Hdp : exists x, BigNumber.decimalPlaces x (ZanNumber.scale_or_default sc)
                            = Ok (value r) /\ BigNumber.isFinite (value r) = true).
    { destruct H as [H|[H|H]].
      - destruct (zan_round_ok _ _ _ H); eauto.
      - destruct (zan_multiplyAndRound_ok _ _ _ _ H); eauto.
      - destruct (zan_divideAndRound_ok _ _ _ _ H) as [_ []]; eauto. }
    destruct Hdp as [x [Hdp Hfin]].
    destruct (value r) as [|neg|neg c e]; try discriminate Hfin.
    destruct (decimalPlaces_shape _ _ _ _ _ Hdp) as [_ Hlen].
    now apply whole_units. }
  split; [exact (Hzan scale)|].
  intros this r H. unfold Money.round, Money.multiplyAndRound, Money.divideAndRound in H.
  unfold Money.toBigNumber, ZanNumber.toBigNumber.
  assert (Hs : ZanNumber.scale_or_default (Some (ZanNumber.scale_or_default scale))
               = ZanNumber.scale_or_default scale) by reflexivity.
  rewrite <- Hs.
  destruct H as [H|[H|H]];
    destruct (money_wrap_ok _ _ _ H) as [z [Hz [-> _]]]; cbn [_value];
    apply (Hzan _ (_value this) z); auto.
Qed.

Lemma rounded_results_are_whole_units_witness :
  exists r k,
    @Money.divideAndRound default_library usd_one (num 3) (Some 2) = Ok r /\
    (Qvalue (Money.toBigNumber r) * (10 # 1) ^ 2 == inject_Z k)%Q.
Proof.
  exists {| _value := {| value := BFinite false [3; 3] (-1) |}; currencyCode := "USD" |}.
  destruct (proj2 (@rounded_results_are_whole_units default_library (num 3) (Some 2))
              usd_one
              {| _value := {| value := BFinite false [3; 3] (-1) |}; currencyCode := "USD" |})
    as [k Hk].
  - right. right. vm_compute. reflexivity.
  - exists k. split; [vm_compute; reflexivity | exact Hk].
Defined.

(** ** From a number to a decimal and back *)

Section NumberRoundTrip.

Lemma five_not_0 : ~ (5 # 1 == 0)%Q.
Proof. discriminate. Qed.

(** The decimal expansion of a binary64 number ends: it has at most
    [- e] fraction digits. *)
Lemma exact_expansion (M E : Z) :
  exists k, (JsNumber.magnitude M E / (10 # 1) ^ Z.min E 0 == inject_Z k)%Q.
Proof.
  unfold JsNumber.magnitude. destruct (Z_le_gt_dec 0 E) as [HE|HE].
  - exists (M * 2 ^ E). rewrite Z.min_r by lia.
    rewrite inject_Z_mult, pow2_inject by lia.
    change ((10 # 1) ^ 0)%Q with 1%Q. field.
  - exists (M * 5 ^ (- E)). rewrite Z.min_l by lia.
    rewrite inject_Z_mult. rewrite Zpower_Qpower by lia.
    change (inject_Z 5) with (5 # 1)%Q.
    assert (H10 : ((10 # 1) ^ E == (2 # 1) ^ E * (5 # 1) ^ E)%Q)
      by (rewrite <- Qmult_power; reflexivity).
    rewrite H10, Qpower_opp.
    field. split; apply Qpower_not_0; discriminate.
Qed.

(** The digits that the search ends with read back as the number. *)
Lemma shortest_from_reads_back (M E : Z) :
  JsNumber.wf_number (Finite false M E) = true ->
  forall (fuel : nat) (x : Z),
    let '(s, x') := JsNumber.shortest_from fuel M E x in
    JsNumber.nearest false (JsNumber.decimal s x') = Finite false M E.
Proof.
  intros Hwf. induction fuel as [|fuel IH]; intros x; cbn [JsNumber.shortest_from].
  - destruct (exact_expansion M E) as [k Hk].
    rewrite (Qfloor_comp _ _ Hk), Qfloor_Z.
    apply (nearest_exact false false M E _ Hwf).
    unfold JsNumber.decimal. rewrite <- Hk. field. apply Qpower_not_0. discriminate.
  - destruct (JsNumber.candidate M E x) as [s|] eqn:Hc.
    + destruct (candidate_spec _ _ _ _ Hc) as [Hrb _].
      now apply reads_back_nearest.
    + apply IH.
Qed.

(** [new BigNumber(v)] for a positive binary64 number [v]: a decimal
    [s * 10^x] that reads back as [v]. *)
Lemma ofNumber_decimal (neg : bool) (M E : Z) :
  JsNumber.wf_number (Finite neg M E) = true -> 0 < M ->
  exists s x,
    BigNumber.ofNumber (Finite neg M E) = BigNumber.normalise neg s x /\
    0 < s /\ -1074 <= x /\
    JsNumber.nearest false (JsNumber.decimal s x) = Finite false M E /\
    (inject_Z s * (10 # 1) ^ x < (10 # 1) ^ 402)%Q.
Proof.
  intros Hwf HM.
  assert (Hwf' : JsNumber.wf_number (Finite false M E) = true) by exact Hwf.
  destruct (wf_number_parts _ _ _ Hwf) as [HM' _].
  assert (Hpos : forall s x,
             0 <= s -> JsNumber.nearest false (JsNumber.decimal s x) = Finite false M E ->
             0 < s).
  { intros s x Hs Hnear. destruct (Z.eq_dec s 0) as [->|]; [exfalso|lia].
    assert (Hz : (JsNumber.decimal 0 x == JsNumber.magnitude 0 (-1074))%Q)
      by (unfold JsNumber.decimal, JsNumber.magnitude; ring).
    rewrite (nearest_exact false false 0 (-1074) _ eq_refl Hz) in Hnear.
    inversion Hnear. lia. }
  cbn [BigNumber.ofNumber].
  destruct (JsNumber.is_int32 M E) eqn:Hint.
  - unfold JsNumber.is_int32 in Hint. apply andb_true_iff in Hint.
    destruct Hint as [Hint _].
    destruct (integer_magnitude false M E Hint (proj1 HM')) as [k [Hk0 Hk]].
    destruct (number_magnitude_bounds false M E Hwf' HM) as [_ Hmag].
    rewrite (Qfloor_comp _ _ Hk), Qfloor_Z.
    assert (Hd : (JsNumber.decimal k 0 == JsNumber.magnitude M E)%Q).
    { unfold JsNumber.decimal. rewrite Hk. change ((10 # 1) ^ 0)%Q with 1%Q. ring. }
    pose proof (nearest_exact false false M E _ Hwf' Hd) as Hnear.
    exists k, 0. split; [reflexivity|]. split; [exact (Hpos k 0 Hk0 Hnear)|].
    split; [lia|]. split; [exact Hnear|].
    fold (JsNumber.decimal k 0). rewrite Hd.
    eapply Qlt_trans; [exact Hmag|]. reflexivity.
  - pose proof (shortest_digits_bounds M E Hwf' HM) as Hb.
    unfold JsNumber.shortest_digits in *.
    set (fuel := Z.to_nat _) in *. set (x0 := Z.of_nat _) in *.
    pose proof (shortest_from_reads_back M E Hwf' fuel x0) as Hnear.
    destruct (JsNumber.shortest_from fuel M E x0) as [s x].
    destruct Hb as [Hs [Hx Hhi]].
    exists s, x. split; [reflexivity|]. split; [exact (Hpos s x Hs Hnear)|]. auto.
Qed.

(** A decimal made from a number gives the number back. *)
Lemma toNumber_ofNumber (v : number) :
  JsNumber.wf_number v = true ->
  BigNumber.toNumber (BigNumber.ofNumber v) = v.
Proof.
  destruct v as [|neg|neg M E]; try reflexivity. intros Hwf.
  destruct (wf_number_parts _ _ _ Hwf) as [HM [HE Hn]].
  destruct (Z.eq_dec M 0) as [->|HM0].
  - assert (E = -1074) by lia. subst E. destruct neg; reflexivity.
  - destruct (ofNumber_decimal neg M E Hwf) as [s [x [Ho [Hs [Hx [Hnear Hhi]]]]]]; [lia|].
    destruct (normalise_in_range neg s x (-1074) 402) as [c [e [Hn' [Hmag _]]]];
      try (unfold BigNumber.MIN_EXP, BigNumber.MAX_EXP; lia); try assumption.
    + apply Qle_trans with ((10 # 1) ^ x)%Q; [apply pow10_le; lia|].
      rewrite <- (Qmult_1_l ((10 # 1) ^ x)) at 1.
      apply Qmult_le_compat_r; [|apply Qlt_le_weak, pow10_pos].
      change 1%Q with (inject_Z 1). rewrite <- Zle_Qle. lia.
    + rewrite Ho, Hn'. unfold BigNumber.toNumber.
      rewrite (nearest_ext neg _ _ Hmag), nearest_sign.
      fold (JsNumber.decimal s x). rewrite Hnear. reflexivity.
Qed.

End NumberRoundTrip.

(** X7. [fromNumber] accepts exactly the finite numbers, and keeps them
    exactly: for a finite binary64 number [v] and a recognized currency
    code, given or defaulted, it returns a Money in that currency whose
    [toNumber()] is [v] again; for NaN and the infinities it throws its
    invalid-number error.  [fromAnyOrThrow] on a number does the same. *)
Theorem fromNumber_toNumber `{lib : Library} (v : number) (c : option string) :
  JsNumber.wf_number v = true ->
  isValidCurrencyCode (MoneyFactory.or_USD c) = true ->
  MoneyFactory.fromAnyOrThrow (ANumber v) c = MoneyFactory.fromNumber v c /\
  if JsNumber.isFinite v
  then exists m,
         MoneyFactory.fromNumber v c = Ok m /\
         Money.toNumber m = v /\
         Money.getCurrencyCode m = MoneyFactory.or_USD c
  else MoneyFactory.fromNumber v c = Throw "Invalid Money number value".
Proof.
  intros Hwf Hc. split.
  - unfold MoneyFactory.fromAnyOrThrow. rewrite (validate_valid _ Hc). reflexivity.
  - unfold MoneyFactory.fromNumber. rewrite (validate_valid _ Hc). cbn [bind].
    destruct v as [|neg|neg M E]; try reflexivity.
    cbn [JsNumber.isNaN JsNumber.isFinite negb orb].
    pose proof (ofNumber_finite neg M E Hwf) as Hfin.
    rewrite (new_money_finite _ _ Hfin Hc). eexists. split; [reflexivity|].
    split; [|reflexivity].
    unfold Money.toNumber, ZanNumber.toNumber. cbn [_value value].
    now apply toNumber_ofNumber.
Qed.

Lemma fromNumber_toNumber_witness :
  exists m,
    @MoneyFactory.fromNumber default_library (Finite false 7205759403792794 (-56)) None
    = Ok m /\
    Money.toNumber m = Finite false 7205759403792794 (-56) /\
    Money.getCurrencyCode m = "USD".
Proof.
  exact (proj2 (@fromNumber_toNumber default_library
                  (Finite false 7205759403792794 (-56)) None eq_refl eq_refl)).
Defined.

Section Division.
Context {lib : Library}.

(** The decimal of a number is zero only for the two zeros. *)
Lemma ofNumber_isZero (d : number) :
  JsNumber.wf_number d = true ->
  BigNumber.isZero (BigNumber.ofNumber d)
  = match d with Finite _ 0 _ => true | _ => false end.
Proof.
  destruct d as [|neg|neg M E]; try reflexivity. intros Hwf.
  destruct (wf_number_parts _ _ _ Hwf) as [HM _].
  destruct (Z.eq_dec M 0) as [->|HM0].
  - cbn [BigNumber.ofNumber]. rewrite is_int32_zero.
    assert (E0 : (JsNumber.magnitude 0 E == inject_Z 0)%Q)
      by (unfold JsNumber.magnitude; ring).
    rewrite (Qfloor_comp _ _ E0). reflexivity.
  - destruct (ofNumber_decimal neg M E Hwf) as [s [x [Ho [Hs [Hx [_ Hhi]]]]]]; [lia|].
    destruct (normalise_in_range neg s x (-1074) 402) as [c [e [Hn [_ Hz]]]];
      try (unfold BigNumber.MIN_EXP, BigNumber.MAX_EXP; lia); try assumption.
    + apply Qle_trans with ((10 # 1) ^ x)%Q; [apply pow10_le; lia|].
      rewrite <- (Qmult_1_l ((10 # 1) ^ x)) at 1.
      apply Qmult_le_compat_r; [|apply Qlt_le_weak, pow10_pos].
      change 1%Q with (inject_Z 1). rewrite <- Zle_Qle. lia.
    + rewrite Ho, Hn, Hz. destruct M; [contradiction | reflexivity | reflexivity].
Qed.

Lemma new_zan_not_division (b : BigNumber) :
  ZanNumber.new (ABigNumber b) <> Throw "Division by zero".
Proof. destruct b; discriminate. Qed.

Lemma rounded_not_division (x : BigNumber) (dp : Z) :
  (rounded <- BigNumber.decimalPlaces x dp ;; ZanNumber.new (ABigNumber rounded))
  <> Throw "Division by zero".
Proof.
  unfold BigNumber.decimalPlaces.
  destruct ((dp <? 0) || (BigNumber.MAX <? dp)); [discriminate|].
  destruct x; cbn [bind]; apply new_zan_not_division.
Qed.

End Division.

(** X8. [divide] and [divideAndRound] throw their division-by-zero error
    exactly when the divisor is one of the two zeros; for every other
    divisor, NaN and the infinities included, the library's quotient goes to
    the constructor, so that a failure then is another error. *)
Theorem division_by_zero `{lib : Library}
    (this : ZanNumber) (m : Money) (d : number) (scale : option Z) :
  JsNumber.wf_number d = true ->
  if match d with Finite _ 0 _ => true | _ => false end
  then
    ZanNumber.divide this d = Throw "Division by zero" /\
    ZanNumber.divideAndRound this d scale = Throw "Division by zero" /\
    Money.divideAndRound m d scale = Throw "Division by zero"
  else
    ZanNumber.divide this d
    = ZanNumber.new (ABigNumber (BigNumber.dividedBy DECIMAL_PLACES
                                   (ZanNumber.toBigNumber this) (BigNumber.ofNumber d))) /\
    ZanNumber.divide this d <> Throw "Division by zero" /\
    ZanNumber.divideAndRound this d scale <> Throw "Division by zero" /\
    Money.divideAndRound m d scale <> Throw "Division by zero".
Proof.
  intros Hwf. pose proof (ofNumber_isZero d Hwf) as Hz.
  unfold Money.divideAndRound, ZanNumber.divideAndRound, ZanNumber.divide.
  rewrite Hz.
  destruct (match d with Finite _ 0 _ => true | _ => false end).
  - repeat split.
  - split; [reflexivity|]. split; [apply new_zan_not_division|].
    split; [apply rounded_not_division|].
    intros H.
    destruct (rounded <- _ ;; ZanNumber.new (ABigNumber rounded)) as [z|msg] eqn:Hq.
    + cbn [bind] in H. unfold Money.new in H.
      destruct (isValidCurrencyCode (currencyCode m)) eqn:Hc.
      * rewrite (validate_valid _ Hc) in H. cbn [bind] in H.
        destruct (ZanNumber.new (ABigNumber (ZanNumber.toBigNumber z))) eqn:Hn;
          cbn [bind] in H; [discriminate H|].
        injection H as ->. exact (new_zan_not_division _ Hn).
      * rewrite (validate_invalid _ Hc) in H. discriminate H.
    + cbn [bind] in H. injection H as ->.
      exact (rounded_not_division _ _ Hq).
Qed.

Lemma division_by_zero_witness :
  @ZanNumber.divide default_library minus_104_45 (Finite true 0 (-1074))
  = Throw "Division by zero" /\
  @ZanNumber.divideAndRound default_library minus_104_45 (Finite true 0 (-1074)) None
  = Throw "Division by zero" /\
  @Money.divideAndRound default_library usd_one (Finite true 0 (-1074)) None
  = Throw "Division by zero".
Proof.
  exact (@division_by_zero default_library minus_104_45 usd_one
           (Finite true 0 (-1074)) None eq_refl).
Defined.

(** ** The order of the values *)

Section Order.

Lemma of_digits_last_pos (ds : list Z) :
  digits_ok ds -> ds <> [] -> last ds 0 <> 0 -> 0 < of_digits ds.
Proof.
  intros Hok Hne Hlast.
  destruct (exists_last Hne) as [front [l Hl]]. subst ds.
  rewrite last_last in Hlast.
  rewrite of_digits_app. change (of_digits [l]) with l.
  apply Forall_app in Hok. destruct Hok as [Hf Hl].
  pose proof (of_digits_bound front Hf) as Hb.
  inversion Hl as [|? ? Hl0 _]. cbn [List.length]. nia.
Qed.

Lemma no_trailing_zero_tail (d : Z) (ds : list Z) :
  no_trailing_zero (d :: ds) -> no_trailing_zero ds.
Proof.
  unfold no_trailing_zero. intros H Hne. destruct ds as [|d' ds']; [contradiction|].
  apply H. discriminate.
Qed.

(** The digit-by-digit comparison orders the two fractions [0.xc] and
    [0.yc]. *)
Lemma compare_digits_spec (a : bool) (xc : list Z) :
  forall yc : list Z,
    digits_ok xc -> digits_ok yc -> no_trailing_zero xc -> no_trailing_zero yc ->
    BigNumber.compare_digits a xc yc
    = match of_digits xc * 10 ^ Z.of_nat (List.length yc)
            ?= of_digits yc * 10 ^ Z.of_nat (List.length xc) with
      | Eq => 0
      | Lt => BigNumber.flip a false
      | Gt => BigNumber.flip a true
      end.
Proof.
  induction xc as [|x xs IH]; intros yc Hx Hy Hxl Hyl.
  - destruct yc as [|y ys]; [reflexivity|].
    cbn [BigNumber.compare_digits].
    pose proof (of_digits_last_pos (y :: ys) Hy ltac:(discriminate) (Hyl ltac:(discriminate))).
    change (of_digits []) with 0. cbn [List.length].
    rewrite Z.mul_0_l, Z.pow_0_r, Z.mul_1_r.
    destruct (Z.compare_spec 0 (of_digits (y :: ys))); [lia | reflexivity | lia].
  - destruct yc as [|y ys].
    + cbn [BigNumber.compare_digits].
      pose proof (of_digits_last_pos (x :: xs) Hx ltac:(discriminate) (Hxl ltac:(discriminate))).
      change (of_digits []) with 0. cbn [List.length].
      rewrite Z.mul_0_l, Z.pow_0_r, Z.mul_1_r.
      destruct (Z.compare_spec (of_digits (x :: xs)) 0); [lia | lia | reflexivity].
    + cbn [BigNumber.compare_digits].
      inversion Hx as [|? ? Hx0 Hxs]. inversion Hy as [|? ? Hy0 Hys]. subst.
      pose proof (of_digits_bound xs Hxs) as Hp.
      pose proof (of_digits_bound ys Hys) as Hq.
      rewrite !of_digits_cons. cbn [List.length]. rewrite !Nat2Z.inj_succ, !Z.pow_succ_r by lia.
      set (A := 10 ^ Z.of_nat (List.length xs)) in *.
      set (B := 10 ^ Z.of_nat (List.length ys)) in *.
      set (p := of_digits xs) in *. set (q := of_digits ys) in *.
      assert (HA : 0 < A) by (unfold A; apply Z.pow_pos_nonneg; lia).
      assert (HB : 0 < B) by (unfold B; apply Z.pow_pos_nonneg; lia).
      destruct (Z.eqb_spec x y) as [->|Hne].
      * rewrite (IH ys Hxs Hys (no_trailing_zero_tail _ _ Hxl) (no_trailing_zero_tail _ _ Hyl)).
        fold A B p q.
        destruct (Z.compare_spec (p * B) (q * A));
          destruct (Z.compare_spec ((y * A + p) * (10 * B)) ((y * B + q) * (10 * A)));
          try reflexivity; exfalso; nia.
      * destruct (Z.ltb_spec y x).
        -- assert (Hlt : (y * B + q) * (10 * A) < (x * A + p) * (10 * B)).
           { assert (y + 1 <= x) by lia.
             assert ((y * B + q) * A < (y + 1) * (A * B)) by nia.
             assert ((y + 1) * (A * B) <= x * (A * B)) by (apply Z.mul_le_mono_nonneg_r; nia).
             nia. }
           destruct (Z.compare_spec ((x * A + p) * (10 * B)) ((y * B + q) * (10 * A)));
             try reflexivity; exfalso; lia.
        -- assert (Hlt : (x * A + p) * (10 * B) < (y * B + q) * (10 * A)).
           { assert (x + 1 <= y) by lia.
             assert ((x * A + p) * B < (x + 1) * (A * B)) by nia.
             assert ((x + 1) * (A * B) <= y * (A * B)) by (apply Z.mul_le_mono_nonneg_r; nia).
             nia. }
           destruct (Z.compare_spec ((x * A + p) * (10 * B)) ((y * B + q) * (10 * A)));
             try reflexivity; exfalso; lia.
Qed.

End Order.

Section CompareValues.

Lemma Qcompare_scale (a b : Z) (t : Q) :
  (0 < t)%Q -> (inject_Z a * t ?= inject_Z b * t)%Q = (a ?= b).
Proof.
  intros Ht. destruct (Z.compare_spec a b) as [->|Hlt|Hgt].
  - apply Qeq_alt. reflexivity.
  - apply Qlt_alt. apply Qmult_lt_compat_r; [exact Ht | now rewrite <- Zlt_Qlt].
  - apply Qgt_alt. apply Qmult_lt_compat_r; [exact Ht | now rewrite <- Zlt_Qlt].
Qed.

Lemma Qcompare_lt (p q : Q) : (p < q)%Q -> Qcompare p q = Lt.
Proof. intros H. now apply Qlt_alt. Qed.

Lemma Qcompare_gt (p q : Q) : (q < p)%Q -> Qcompare p q = Gt.
Proof. intros H. now apply Qgt_alt. Qed.

Lemma Qcompare_eq (p q : Q) : (p == q)%Q -> Qcompare p q = Eq.
Proof. intros H. now apply Qeq_alt. Qed.

Lemma Qcompare_opp (p q : Q) : (- p ?= - q)%Q = (q ?= p)%Q.
Proof.
  destruct (q ?= p)%Q eqn:E.
  - apply Qeq_alt in E. apply Qeq_alt. now rewrite E.
  - apply Qlt_alt in E. apply Qlt_alt. now apply Qopp_lt_compat.
  - apply Qgt_alt in E. apply Qgt_alt. now apply Qopp_lt_compat.
Qed.

(** A canonical value is zero, or its first digit is not zero and its
    magnitude lies in the decade of its exponent. *)
Lemma canonical_cases (neg : bool) (c : list Z) (e : Z) :
  Invariant.canonical (BFinite neg c e) = true ->
  (c = [0] /\ e = 0) \/
  (BigNumber.isZero (BFinite neg c e) = false /\
   digits_ok c /\ no_trailing_zero c /\
   ((10 # 1) ^ e <= BigNumber.magnitude (BFinite neg c e))%Q /\
   (BigNumber.magnitude (BFinite neg c e) < (10 # 1) ^ (e + 1))%Q).
Proof.
  intros Hcan. destruct (canonical_parts _ _ _ Hcan) as [Hok [He Hc]].
  cbn [Invariant.canonical] in Hcan.
  apply andb_true_iff in Hcan. destruct Hcan as [_ Hshape].
  destruct Hc as [->|[d [ds [-> Hd]]]].
  - left. split; [reflexivity|]. now apply Z.eqb_eq in Hshape.
  - right.
    assert (Hshape' : negb (d =? 0) && negb (last (d :: ds) 0 =? 0) = true).
    { destruct d as [|p|p]; [lia| |lia]. destruct p; exact Hshape. }
    apply andb_true_iff in Hshape'. destruct Hshape' as [_ Hlast].
    apply negb_true_iff, Z.eqb_neq in Hlast.
    split; [destruct d; [lia|reflexivity|reflexivity]|].
    split; [exact Hok|]. split; [intros _; exact Hlast|].
    inversion Hok as [|? ? Hd0 Hds]. subst.
    pose proof (of_digits_head_bound d ds Hd Hds) as Hlo.
    pose proof (of_digits_bound (d :: ds) Hok) as Hhi.
    unfold BigNumber.magnitude, BigNumber.coefficient, BigNumber.unit_exponent.
    cbn [List.length] in *. rewrite Nat2Z.inj_succ in *.
    set (n := Z.of_nat (List.length ds)) in *.
    assert (Hn : 0 <= n) by (unfold n; lia).
    set (u := e - Z.succ n + 1).
    assert (E1 : ((10 # 1) ^ e == (10 # 1) ^ n * (10 # 1) ^ u)%Q).
    { rewrite <- Qpower_plus by apply ten_not_0.
      replace (n + u) with e by (unfold u; lia). reflexivity. }
    assert (E2 : ((10 # 1) ^ (e + 1) == (10 # 1) ^ Z.succ n * (10 # 1) ^ u)%Q).
    { rewrite <- Qpower_plus by apply ten_not_0.
      replace (Z.succ n + u) with (e + 1) by (unfold u; lia). reflexivity. }
    split.
    + rewrite E1.
      apply Qmult_le_compat_r; [|apply Qlt_le_weak, pow10_pos].
      rewrite <- pow10_inject by exact Hn. now rewrite <- Zle_Qle.
    + rewrite E2.
      apply Qmult_lt_compat_r; [apply pow10_pos|].
      rewrite <- pow10_inject by lia. rewrite <- Zlt_Qlt. lia.
Qed.

(** With equal exponents the magnitudes compare as the digits do. *)
Lemma compare_same_exponent (xn yn : bool) (xc yc : list Z) (e : Z) :
  (BigNumber.magnitude (BFinite xn xc e) ?= BigNumber.magnitude (BFinite yn yc e))%Q
  = (of_digits xc * 10 ^ Z.of_nat (List.length yc)
     ?= of_digits yc * 10 ^ Z.of_nat (List.length xc)).
Proof.
  unfold BigNumber.magnitude, BigNumber.coefficient, BigNumber.unit_exponent.
  set (lx := Z.of_nat (List.length xc)). set (ly := Z.of_nat (List.length yc)).
  assert (Hlx : 0 <= lx) by (unfold lx; lia).
  assert (Hly : 0 <= ly) by (unfold ly; lia).
  set (t := ((10 # 1) ^ (e + 1 - lx - ly))%Q).
  assert (Ex : (inject_Z (of_digits xc) * (10 # 1) ^ (e - lx + 1)
                == inject_Z (of_digits xc * 10 ^ ly) * t)%Q).
  { unfold t. rewrite inject_Z_mult, pow10_inject by exact Hly.
    rewrite <- Qmult_assoc, <- Qpower_plus by apply ten_not_0.
    replace (ly + (e + 1 - lx - ly)) with (e - lx + 1) by lia. reflexivity. }
  assert (Ey : (inject_Z (of_digits yc) * (10 # 1) ^ (e - ly + 1)
                == inject_Z (of_digits yc * 10 ^ lx) * t)%Q).
  { unfold t. rewrite inject_Z_mult, pow10_inject by exact Hlx.
    rewrite <- Qmult_assoc, <- Qpower_plus by apply ten_not_0.
    replace (lx + (e + 1 - lx - ly)) with (e - ly + 1) by lia. reflexivity. }
  rewrite Ex, Ey. apply Qcompare_scale. apply pow10_pos.
Qed.

(** [compare] on two canonical values that are not zero and have the same
    sign [a]. *)
Lemma compare_magnitudes (a xn yn : bool) (xc yc : list Z) (k l : Z) :
  Invariant.canonical (BFinite xn xc k) = true ->
  Invariant.canonical (BFinite yn yc l) = true ->
  BigNumber.isZero (BFinite xn xc k) = false ->
  BigNumber.isZero (BFinite yn yc l) = false ->
  (if negb (k =? l) then BigNumber.flip a (l <? k)
   else BigNumber.compare_digits a xc yc)
  = match (BigNumber.magnitude (BFinite xn xc k)
           ?= BigNumber.magnitude (BFinite yn yc l))%Q with
    | Eq => 0
    | Lt => BigNumber.flip a false
    | Gt => BigNumber.flip a true
    end.
Proof.
  intros Hx Hy Zx Zy.
  destruct (canonical_cases _ _ _ Hx) as [[-> _]|[_ [Hxok [Hxl [Hxlo Hxhi]]]]];
    [discriminate Zx|].
  destruct (canonical_cases _ _ _ Hy) as [[-> _]|[_ [Hyok [Hyl [Hylo Hyhi]]]]];
    [discriminate Zy|].
  destruct (Z.eqb_spec k l) as [->|Hne]; cbn [negb].
  - rewrite compare_same_exponent. now apply compare_digits_spec.
  - destruct (Z.ltb_spec l k) as [Hlk|Hkl].
    + assert (Hgt : (BigNumber.magnitude (BFinite yn yc l)
                     < BigNumber.magnitude (BFinite xn xc k))%Q).
      { eapply Qlt_le_trans; [exact Hyhi|]. eapply Qle_trans; [|exact Hxlo].
        apply pow10_le. lia. }
      now rewrite (Qcompare_gt _ _ Hgt).
    + assert (Hlt : (BigNumber.magnitude (BFinite xn xc k)
                     < BigNumber.magnitude (BFinite yn yc l))%Q).
      { eapply Qlt_le_trans; [exact Hxhi|]. eapply Qle_trans; [|exact Hylo].
        apply pow10_le. lia. }
      now rewrite (Qcompare_lt _ _ Hlt).
Qed.

Lemma Qvalue_zero (neg : bool) : (Qvalue (BigNumber.zero neg) == 0)%Q.
Proof. destruct neg; reflexivity. Qed.

Lemma magnitude_pos (neg : bool) (c : list Z) (e : Z) :
  Invariant.canonical (BFinite neg c e) = true ->
  BigNumber.isZero (BFinite neg c e) = false ->
  (0 < BigNumber.magnitude (BFinite neg c e))%Q.
Proof.
  intros Hcan Hz.
  destruct (canonical_cases _ _ _ Hcan) as [[-> _]|[_ [_ [_ [Hlo _]]]]];
    [discriminate Hz|].
  eapply Qlt_le_trans; [apply (pow10_pos e) | exact Hlo].
Qed.

(** The library's [compare] orders canonical values as the rationals they
    stand for. *)
Lemma compare_spec (x y : BigNumber) :
  Invariant.canonical x = true -> Invariant.canonical y = true ->
  BigNumber.compare x y = Some (sign_of (Qvalue x ?= Qvalue y)%Q).
Proof.
  intros Hx Hy.
  destruct x as [|xn|xn xc k]; try discriminate Hx.
  destruct y as [|yn|yn yc l]; try discriminate Hy.
  unfold BigNumber.compare.
  destruct (BigNumber.isZero (BFinite xn xc k)) eqn:Zx;
    destruct (BigNumber.isZero (BFinite yn yc l)) eqn:Zy; cbn [orb].
  - destruct (canonical_cases _ _ _ Hx) as [[-> ->]|[Zx' _]]; [|congruence].
    destruct (canonical_cases _ _ _ Hy) as [[-> ->]|[Zy' _]]; [|congruence].
    destruct xn, yn; reflexivity.
  - destruct (canonical_cases _ _ _ Hx) as [[-> ->]|[Zx' _]]; [|congruence].
    pose proof (magnitude_pos _ _ _ Hy Zy) as Hpos.
    change (BFinite xn [0] 0) with (BigNumber.zero xn). rewrite (Qvalue_zero xn).
    unfold Qvalue. cbn [BigNumber.is_neg].
    f_equal. destruct yn; cbn [BigNumber.sign].
    + assert (H : (- BigNumber.magnitude (BFinite true yc l) < 0)%Q).
      { rewrite <- (Qopp_involutive 0). apply Qopp_lt_compat. exact Hpos. }
      now rewrite (Qcompare_gt _ _ H).
    + now rewrite (Qcompare_lt _ _ Hpos).
  - destruct (canonical_cases _ _ _ Hy) as [[-> ->]|[Zy' _]]; [|congruence].
    pose proof (magnitude_pos _ _ _ Hx Zx) as Hpos.
    change (BFinite yn [0] 0) with (BigNumber.zero yn). rewrite (Qvalue_zero yn).
    unfold Qvalue. cbn [BigNumber.is_neg].
    f_equal. destruct xn; cbn [BigNumber.sign].
    + assert (H : (- BigNumber.magnitude (BFinite true xc k) < 0)%Q).
      { rewrite <- (Qopp_involutive 0). apply Qopp_lt_compat. exact Hpos. }
      now rewrite (Qcompare_lt _ _ H).
    + now rewrite (Qcompare_gt _ _ Hpos).
  - pose proof (magnitude_pos _ _ _ Hx Zx) as Hxpos.
    pose proof (magnitude_pos _ _ _ Hy Zy) as Hypos.
    pose proof (compare_magnitudes xn xn yn xc yc k l Hx Hy Zx Zy) as Hcmp.
    unfold Qvalue. cbn [BigNumber.is_neg].
    destruct xn, yn; cbn [BigNumber.sign Z.eqb negb Z.ltb Z.compare Pos.compare] in *.
    + change (-1 =? -1) with true. change (-1 <? 0) with true. cbn [negb].
      rewrite Qcompare_opp.
      destruct (Z.eqb_spec k l) as [->|Hne]; cbn [negb] in *.
      * rewrite Hcmp, <- (Qcompare_antisym (BigNumber.magnitude (BFinite true xc _))).
        destruct (_ ?= _)%Q; reflexivity.
      * rewrite Hcmp, <- (Qcompare_antisym (BigNumber.magnitude (BFinite true xc _))).
        destruct (_ ?= _)%Q; reflexivity.
    + change (-1 =? 1) with false. cbn [negb]. f_equal.
      assert (H : (- BigNumber.magnitude (BFinite true xc k)
                   < BigNumber.magnitude (BFinite false yc l))%Q).
      { apply Qlt_trans with 0%Q; [|exact Hypos].
        rewrite <- (Qopp_involutive 0). apply Qopp_lt_compat. exact Hxpos. }
      now rewrite (Qcompare_lt _ _ H).
    + change (1 =? -1) with false. cbn [negb]. f_equal.
      assert (H : (- BigNumber.magnitude (BFinite true yc l)
                   < BigNumber.magnitude (BFinite false xc k))%Q).
      { apply Qlt_trans with 0%Q; [|exact Hxpos].
        rewrite <- (Qopp_involutive 0). apply Qopp_lt_compat. exact Hypos. }
      now rewrite (Qcompare_gt _ _ H).
    + change (1 =? 1) with true. change (1 <? 0) with false. cbn [negb].
      destruct (Z.eqb_spec k l) as [->|Hne]; cbn [negb] in *.
      * rewrite Hcmp. destruct (_ ?= _)%Q; reflexivity.
      * rewrite Hcmp. destruct (_ ?= _)%Q; reflexivity.
Qed.

End CompareValues.

Section ComparisonMethods.
Context {lib : Library}.

Lemma Qle_bool_compare (x y : Q) :
  Qle_bool x y = match (x ?= y)%Q with Gt => false | _ => true end.
Proof.
  destruct (x ?= y)%Q eqn:E.
  - apply Qle_bool_iff. apply Qeq_alt in E. rewrite E. apply Qle_refl.
  - apply Qle_bool_iff. apply Qlt_alt in E. now apply Qlt_le_weak.
  - destruct (Qle_bool x y) eqn:B; [|reflexivity].
    apply Qle_bool_iff in B. apply Qgt_alt in E. exfalso.
    exact (Qlt_irrefl _ (Qle_lt_trans _ _ _ B E)).
Qed.

Lemma Qeq_bool_compare (x y : Q) :
  Qeq_bool x y = match (x ?= y)%Q with Eq => true | _ => false end.
Proof.
  destruct (x ?= y)%Q eqn:E.
  - apply Qeq_bool_iff. now apply Qeq_alt.
  - destruct (Qeq_bool x y) eqn:B; [|reflexivity].
    apply Qeq_bool_iff in B. apply Qlt_alt in E. rewrite B in E.
    exfalso. exact (Qlt_irrefl _ E).
  - destruct (Qeq_bool x y) eqn:B; [|reflexivity].
    apply Qeq_bool_iff in B. apply Qgt_alt in E. rewrite B in E.
    exfalso. exact (Qlt_irrefl _ E).
Qed.

(** The five comparisons of the library on canonical values. *)
Lemma comparisons_spec (x y : BigNumber) :
  Invariant.canonical x = true -> Invariant.canonical y = true ->
  BigNumber.isLessThan x y = negb (Qle_bool (Qvalue y) (Qvalue x)) /\
  BigNumber.isLessThanOrEqualTo x y = Qle_bool (Qvalue x) (Qvalue y) /\
  BigNumber.isGreaterThan x y = negb (Qle_bool (Qvalue x) (Qvalue y)) /\
  BigNumber.isGreaterThanOrEqualTo x y = Qle_bool (Qvalue y) (Qvalue x) /\
  BigNumber.isEqualTo x y = Qeq_bool (Qvalue x) (Qvalue y).
Proof.
  intros Hx Hy.
  unfold BigNumber.isLessThan, BigNumber.isLessThanOrEqualTo, BigNumber.isGreaterThan,
    BigNumber.isGreaterThanOrEqualTo, BigNumber.isEqualTo.
  rewrite (compare_spec x y Hx Hy).
  rewrite !Qle_bool_compare, Qeq_bool_compare.
  rewrite <- (Qcompare_antisym (Qvalue x) (Qvalue y)).
  destruct (Qvalue x ?= Qvalue y)%Q; repeat split.
Qed.

End ComparisonMethods.

(** X9. The comparisons decide the order of the values: for two Money of one
    currency, [isLessThan], [isLessThanOrEqual], [isGreaterThan],
    [isGreaterThanOrEqual] and [isEqual] return whether the rational that
    [this] stands for is below, at most, above, at least, or equal to the
    one of [other].  The same holds for a [ZanNumber] and an argument that
    is a [ZanNumber] or that the constructor accepts. *)
Theorem comparisons_follow_the_values `{lib : Library} :
  (forall a b : Money,
     Invariant.canonical (Money.toBigNumber a) = true ->
     Invariant.canonical (Money.toBigNumber b) = true ->
     Money.getCurrencyCode a = Money.getCurrencyCode b ->
     let x := Qvalue (Money.toBigNumber a) in
     let y := Qvalue (Money.toBigNumber b) in
     Money.isLessThan a b = Ok (negb (Qle_bool y x)) /\
     Money.isLessThanOrEqual a b = Ok (Qle_bool x y) /\
     Money.isGreaterThan a b = Ok (negb (Qle_bool x y)) /\
     Money.isGreaterThanOrEqual a b = Ok (Qle_bool y x) /\
     Money.isEqual a (AMoney b) = Ok (Qeq_bool x y)) /\
  (forall (this data : ZanNumber) (other : any),
     Invariant.canonical (ZanNumber.toBigNumber this) = true ->
     Invariant.canonical (ZanNumber.toBigNumber data) = true ->
     other = AZanNumber data \/ ZanNumber.new other = Ok data ->
     let x := Qvalue (ZanNumber.toBigNumber this) in
     let y := Qvalue (ZanNumber.toBigNumber data) in
     ZanNumber.isLessThan this other = Ok (negb (Qle_bool y x)) /\
     ZanNumber.isLessThanOrEqual this other = Ok (Qle_bool x y) /\
     ZanNumber.isGreaterThan this other = Ok (negb (Qle_bool x y)) /\
     ZanNumber.isGreaterThanOrEqual this other = Ok (Qle_bool y x) /\
     ZanNumber.isEqual this other = Ok (Qeq_bool x y)).
Proof.
  assert (Hzan : forall (this data : ZanNumber) (other : any),
             Invariant.canonical (value this) = true ->
             Invariant.canonical (value data) = true ->
             ZanNumber.createValueForComparisonOperations other = Ok data ->
             ZanNumber.isLessThan this other
             = Ok (negb (Qle_bool (Qvalue (value data)) (Qvalue (value this)))) /\
             ZanNumber.isLessThanOrEqual this other
             = Ok (Qle_bool (Qvalue (value this)) (Qvalue (value data))) /\
             ZanNumber.isGreaterThan this other
             = Ok (negb (Qle_bool (Qvalue (value this)) (Qvalue (value data)))) /\
             ZanNumber.isGreaterThanOrEqual this other
             = Ok (Qle_bool (Qvalue (value data)) (Qvalue (value this))) /\
             ZanNumber.isEqual this other
             = Ok (Qeq_bool (Qvalue (value this)) (Qvalue (value data)))).
  { intros this data other Hx Hy Hdata.
    unfold ZanNumber.isLessThan, ZanNumber.isLessThanOrEqual, ZanNumber.isGreaterThan,
      ZanNumber.isGreaterThanOrEqual, ZanNumber.isEqual.
    rewrite Hdata. cbn [bind].
    destruct (comparisons_spec _ _ Hx Hy) as [-> [-> [-> [-> ->]]]].
    repeat split. }
  split.
  - intros a b Ha Hb Hc x y.
    unfold Money.getCurrencyCode in Hc.
    unfold Money.isLessThan, Money.isLessThanOrEqual, Money.isGreaterThan,
      Money.isGreaterThanOrEqual, Money.isEqual.
    rewrite Hc, String.eqb_refl. cbn [negb].
    exact (Hzan (_value a) (_value b) (AZanNumber (_value b)) Ha Hb eq_refl).
  - intros this data other Hx Hy Hother x y.
    apply (Hzan this data other Hx Hy).
    destruct Hother as [->|Hnew]; [reflexivity|].
    destruct other; try exact Hnew. discriminate Hnew.
Qed.

Lemma comparisons_follow_the_values_witness :
  @ZanNumber.isLessThan default_library minus_104_45 (ANumber (num 3)) = Ok true /\
  @ZanNumber.isEqual default_library minus_104_45 (ANumber (num 3)) = Ok false.
Proof.
  destruct (proj2 (@comparisons_follow_the_values default_library)
              minus_104_45 {| value := BFinite false [3] 0 |} (ANumber (num 3))
              eq_refl eq_refl (or_intror eq_refl))
    as [Hlt [_ [_ [_ Heq]]]].
  split; [exact Hlt | exact Heq].
Defined.

Section EqualValues.

Lemma flip_not_0 (a gt : bool) : BigNumber.flip a gt <> 0.
Proof. unfold BigNumber.flip. destruct (xorb gt a); discriminate. Qed.

Lemma compare_digits_0 (a : bool) (xc : list Z) :
  forall yc, BigNumber.compare_digits a xc yc = 0 -> xc = yc.
Proof.
  induction xc as [|x xs IH]; intros [|y ys]; cbn [BigNumber.compare_digits]; intros H.
  - reflexivity.
  - now apply flip_not_0 in H.
  - now apply flip_not_0 in H.
  - destruct (Z.eqb_spec x y) as [->|Hne].
    + f_equal. now apply IH.
    + now apply flip_not_0 in H.
Qed.

(** Canonical values that compare as equal are the same, up to the sign of
    zero. *)
Lemma isEqualTo_canonical (x y : BigNumber) :
  Invariant.canonical x = true -> Invariant.canonical y = true ->
  BigNumber.isEqualTo x y = true ->
  x = y \/ exists xn yn, x = BigNumber.zero xn /\ y = BigNumber.zero yn.
Proof.
  intros Hx Hy.
  destruct x as [|xn|xn xc k]; try discriminate Hx.
  destruct y as [|yn|yn yc l]; try discriminate Hy.
  unfold BigNumber.isEqualTo, BigNumber.compare.
  destruct (BigNumber.isZero (BFinite xn xc k)) eqn:Zx;
    destruct (BigNumber.isZero (BFinite yn yc l)) eqn:Zy; cbn [orb].
  - intros _. right.
    destruct (canonical_cases _ _ _ Hx) as [[-> ->]|[Zx' _]]; [|congruence].
    destruct (canonical_cases _ _ _ Hy) as [[-> ->]|[Zy' _]]; [|congruence].
    now exists xn, yn.
  - destruct yn; discriminate.
  - destruct xn; discriminate.
  - destruct xn, yn; cbn [BigNumber.is_neg BigNumber.sign]; try discriminate.
    + change (-1 =? -1) with true. cbn [negb].
      destruct (Z.eqb_spec k l) as [->|Hne]; cbn [negb].
      * destruct (BigNumber.compare_digits _ xc yc) eqn:Hd; try discriminate.
        intros _. left. now rewrite (compare_digits_0 _ _ _ Hd).
      * destruct (BigNumber.flip _ _) eqn:Hf; try discriminate.
        now apply flip_not_0 in Hf.
    + change (1 =? 1) with true. cbn [negb].
      destruct (Z.eqb_spec k l) as [->|Hne]; cbn [negb].
      * destruct (BigNumber.compare_digits _ xc yc) eqn:Hd; try discriminate.
        intros _. left. now rewrite (compare_digits_0 _ _ _ Hd).
      * destruct (BigNumber.flip _ _) eqn:Hf; try discriminate.
        now apply flip_not_0 in Hf.
Qed.

End EqualValues.

(** X10. Equal Money look the same: when [a.isEqual(b)] holds for two Money
    with canonical values, they have the same currency code and print the
    same amount, so that their transfer records are equal. *)
Theorem equal_money_print_the_same `{lib : Library} (a b : Money) :
  Invariant.canonical (Money.toBigNumber a) = true ->
  Invariant.canonical (Money.toBigNumber b) = true ->
  Money.isEqual a (AMoney b) = Ok true ->
  Money.getCurrencyCode a = Money.getCurrencyCode b /\
  Money.toString a = Money.toString b /\
  Money.toMoneyDto a = Money.toMoneyDto b.
Proof.
  intros Ha Hb. unfold Money.isEqual.
  destruct (String.eqb_spec (currencyCode a) (currencyCode b)) as [Hc|Hc];
    [|discriminate].
  unfold ZanNumber.isEqual. cbn [ZanNumber.createValueForComparisonOperations bind].
  intros H. injection H as H.
  assert (Hs : Money.toString a = Money.toString b).
  { unfold Money.toString, ZanNumber.toString.
    unfold Money.toBigNumber, ZanNumber.toBigNumber in Ha, Hb.
    destruct (isEqualTo_canonical _ _ Ha Hb H) as [->|[xn [yn [-> ->]]]]; [reflexivity|].
    destruct xn, yn; reflexivity. }
  split; [exact Hc|]. split; [exact Hs|].
  unfold Money.toMoneyDto. unfold Money.toString in Hs. now rewrite Hs, Hc.
Qed.

Lemma equal_money_print_the_same_witness :
  Money.toString {| _value := {| value := BigNumber.zero true |}; currencyCode := "USD" |}
  = Money.toString {| _value := {| value := BigNumber.zero false |}; currencyCode := "USD" |}.
Proof.
  exact (proj1 (proj2 (@equal_money_print_the_same default_library
                         {| _value := {| value := BigNumber.zero true |}; currencyCode := "USD" |}
                         {| _value := {| value := BigNumber.zero false |}; currencyCode := "USD" |}
                         eq_refl eq_refl eq_refl))).
Defined.

Section Extremes.
Context {lib : Library}.

Lemma Qle_bool_false (x y : Q) : Qle_bool x y = false -> (y <= x)%Q.
Proof.
  intros H. apply Qlt_le_weak, Qnot_le_lt. intros Hle.
  apply Qle_bool_iff in Hle. congruence.
Qed.

(** [this.min(other)] and [this.max(other)] of [ZanNumber], once the
    argument is a [ZanNumber]. *)
Lemma zan_min_max (this data : ZanNumber) (other : any) :
  Invariant.canonical (value this) = true ->
  Invariant.canonical (value data) = true ->
  ZanNumber.createValueForComparisonOperations other = Ok data ->
  exists lo hi,
    ZanNumber.min this other = Ok lo /\ ZanNumber.max this other = Ok hi /\
    (lo = this \/ lo = data) /\ (hi = this \/ hi = data) /\
    (Qvalue (value lo) <= Qvalue (value this))%Q /\
    (Qvalue (value lo) <= Qvalue (value data))%Q /\
    (Qvalue (value this) <= Qvalue (value hi))%Q /\
    (Qvalue (value data) <= Qvalue (value hi))%Q.
Proof.
  intros Hx Hy Hdata.
  unfold ZanNumber.min, ZanNumber.max, ZanNumber.isLessThan, ZanNumber.isGreaterThan.
  rewrite Hdata. cbn [bind ZanNumber.createValueForComparisonOperations].
  destruct (comparisons_spec _ _ Hx Hy) as [-> [_ [-> _]]].
  destruct (Qle_bool (Qvalue (value data)) (Qvalue (value this))) eqn:E1;
    destruct (Qle_bool (Qvalue (value this)) (Qvalue (value data))) eqn:E2;
    cbn [negb]; do 2 eexists; (split; [reflexivity|]); (split; [reflexivity|]);
    try apply Qle_bool_iff in E1; try apply Qle_bool_iff in E2;
    try apply Qle_bool_false in E1; try apply Qle_bool_false in E2;
    repeat split; auto using Qle_refl.
Qed.

(** [BigNumber.min] and [BigNumber.max] of canonical values: one of the
    arguments, below (above) all of them. *)
Lemma min_spec (rest : list BigNumber) :
  forall x : BigNumber,
    Invariant.canonical x = true ->
    Forall (fun y => Invariant.canonical y = true) rest ->
    Invariant.canonical (BigNumber.min (x :: rest)) = true /\
    In (BigNumber.min (x :: rest)) (x :: rest) /\
    Forall (fun y => (Qvalue (BigNumber.min (x :: rest)) <= Qvalue y)%Q) (x :: rest).
Proof.
  induction rest as [|y ys IH]; intros x Hx Hrest.
  - cbn. repeat split; auto using Qle_refl.
  - inversion Hrest as [|? ? Hy Hys]. subst.
    assert (Hstep : exists x',
               BigNumber.min (x :: y :: ys) = BigNumber.min (x' :: ys) /\
               (x' = x \/ x' = y) /\
               (Qvalue x' <= Qvalue x)%Q /\ (Qvalue x' <= Qvalue y)%Q).
    { unfold BigNumber.min, BigNumber.maxOrMin. cbn [fold_left].
      assert (Hn : BigNumber.isNaN y = false) by (destruct y; (discriminate || reflexivity)).
      rewrite Hn, (compare_spec x y Hx Hy).
      destruct (Qvalue x ?= Qvalue y)%Q eqn:E; cbn [sign_of].
      - apply Qeq_alt in E.
        destruct ((0 =? 1) || ((0 =? 0) && (BigNumber.sign (BigNumber.is_neg x) =? 1)));
          eexists; (split; [reflexivity|]); rewrite ?E; auto using Qle_refl.
      - apply Qlt_alt in E. cbn. eexists. split; [reflexivity|].
        split; [auto|]. split; [apply Qle_refl | now apply Qlt_le_weak].
      - apply Qgt_alt in E. cbn. eexists. split; [reflexivity|].
        split; [auto|]. split; [now apply Qlt_le_weak | apply Qle_refl]. }
    destruct Hstep as [x' [-> [Hx' [Hlx Hly]]]].
    assert (Hcx' : Invariant.canonical x' = true) by (destruct Hx'; subst; assumption).
    destruct (IH x' Hcx' Hys) as [Hc [Hin Hall]].
    split; [exact Hc|]. split.
    + destruct Hin as [<-|Hin]; [destruct Hx' as [->| ->]; cbn; auto|].
      right. right. exact Hin.
    + inversion Hall as [|? ? Hr Hrs]. subst.
      constructor; [eapply Qle_trans; eassumption|].
      constructor; [eapply Qle_trans; eassumption | exact Hrs].
Qed.

Lemma max_spec (rest : list BigNumber) :
  forall x : BigNumber,
    Invariant.canonical x = true ->
    Forall (fun y => Invariant.canonical y = true) rest ->
    Invariant.canonical (BigNumber.max (x :: rest)) = true /\
    In (BigNumber.max (x :: rest)) (x :: rest) /\
    Forall (fun y => (Qvalue y <= Qvalue (BigNumber.max (x :: rest)))%Q) (x :: rest).
Proof.
  induction rest as [|y ys IH]; intros x Hx Hrest.
  - cbn. repeat split; auto using Qle_refl.
  - inversion Hrest as [|? ? Hy Hys]. subst.
    assert (Hstep : exists x',
               BigNumber.max (x :: y :: ys) = BigNumber.max (x' :: ys) /\
               (x' = x \/ x' = y) /\
               (Qvalue x <= Qvalue x')%Q /\ (Qvalue y <= Qvalue x')%Q).
    { unfold BigNumber.max, BigNumber.maxOrMin. cbn [fold_left].
      assert (Hn : BigNumber.isNaN y = false) by (destruct y; (discriminate || reflexivity)).
      rewrite Hn, (compare_spec x y Hx Hy).
      destruct (Qvalue x ?= Qvalue y)%Q eqn:E; cbn [sign_of].
      - apply Qeq_alt in E.
        destruct ((0 =? -1) || ((0 =? 0) && (BigNumber.sign (BigNumber.is_neg x) =? -1)));
          eexists; (split; [reflexivity|]); rewrite ?E; auto using Qle_refl.
      - apply Qlt_alt in E. cbn. eexists. split; [reflexivity|].
        split; [auto|]. split; [now apply Qlt_le_weak | apply Qle_refl].
      - apply Qgt_alt in E. cbn. eexists. split; [reflexivity|].
        split; [auto|]. split; [apply Qle_refl | now apply Qlt_le_weak]. }
    destruct Hstep as [x' [-> [Hx' [Hlx Hly]]]].
    assert (Hcx' : Invariant.canonical x' = true) by (destruct Hx'; subst; assumption).
    destruct (IH x' Hcx' Hys) as [Hc [Hin Hall]].
    split; [exact Hc|]. split.
    + destruct Hin as [<-|Hin]; [destruct Hx' as [->| ->]; cbn; auto|].
      right. right. exact Hin.
    + inversion Hall as [|? ? Hr Hrs]. subst.
      constructor; [eapply Qle_trans; eassumption|].
      constructor; [eapply Qle_trans; eassumption | exact Hrs].
Qed.

End Extremes.

(** X11. The instance [min] and [max] pick by value: for two Money of one
    currency [min] returns one of the two whose value is at most both
    values, and [max] one whose value is at least both; so do [min] and
    [max] of [ZanNumber], for an argument that is a [ZanNumber] or that the
    constructor accepts (it is then compared, and returned, as a
    [ZanNumber]). *)
Theorem min_max_pick_by_value `{lib : Library} :
  (forall a b : Money,
     Invariant.canonical (Money.toBigNumber a) = true ->
     Invariant.canonical (Money.toBigNumber b) = true ->
     Money.getCurrencyCode a = Money.getCurrencyCode b ->
     exists lo hi,
       Money.min a b = Ok lo /\ Money.max a b = Ok hi /\
       (lo = a \/ lo = b) /\ (hi = a \/ hi = b) /\
       (Qvalue (Money.toBigNumber lo) <= Qvalue (Money.toBigNumber a))%Q /\
       (Qvalue (Money.toBigNumber lo) <= Qvalue (Money.toBigNumber b))%Q /\
       (Qvalue (Money.toBigNumber a) <= Qvalue (Money.toBigNumber hi))%Q /\
       (Qvalue (Money.toBigNumber b) <= Qvalue (Money.toBigNumber hi))%Q) /\
  (forall (this data : ZanNumber) (other : any),
     Invariant.canonical (ZanNumber.toBigNumber this) = true ->
     Invariant.canonical (ZanNumber.toBigNumber data) = true ->
     other = AZanNumber data \/ ZanNumber.new other = Ok data ->
     exists lo hi,
       ZanNumber.min this other = Ok lo /\ ZanNumber.max this other = Ok hi /\
       (lo = this \/ lo = data) /\ (hi = this \/ hi = data) /\
       (Qvalue (ZanNumber.toBigNumber lo) <= Qvalue (ZanNumber.toBigNumber this))%Q /\
       (Qvalue (ZanNumber.toBigNumber lo) <= Qvalue (ZanNumber.toBigNumber data))%Q /\
       (Qvalue (ZanNumber.toBigNumber this) <= Qvalue (ZanNumber.toBigNumber hi))%Q /\
       (Qvalue (ZanNumber.toBigNumber data) <= Qvalue (ZanNumber.toBigNumber hi))%Q).
Proof.
  split.
  - intros a b Ha Hb Hc.
    unfold Money.getCurrencyCode in Hc.
    unfold Money.toBigNumber, ZanNumber.toBigNumber in *.
    unfold Money.min, Money.max, Money.isLessThan, Money.isGreaterThan,
      ZanNumber.isLessThan, ZanNumber.isGreaterThan.
    rewrite Hc, String.eqb_refl.
    cbn [negb bind ZanNumber.createValueForComparisonOperations].
    destruct (comparisons_spec _ _ Ha Hb) as [-> [_ [-> _]]].
    destruct (Qle_bool (Qvalue (value (_value b))) (Qvalue (value (_value a)))) eqn:E1;
      destruct (Qle_bool (Qvalue (value (_value a))) (Qvalue (value (_value b)))) eqn:E2;
      cbn [negb]; do 2 eexists; (split; [reflexivity|]); (split; [reflexivity|]);
      try apply Qle_bool_iff in E1; try apply Qle_bool_iff in E2;
      try apply Qle_bool_false in E1; try apply Qle_bool_false in E2;
      repeat split; auto using Qle_refl.
  - intros this data other Hx Hy Hother.
    apply zan_min_max; try assumption.
    destruct Hother as [->|Hnew]; [reflexivity|].
    destruct other; try exact Hnew. discriminate Hnew.
Qed.

Lemma min_max_pick_by_value_witness :
  exists lo hi,
    @ZanNumber.min default_library minus_104_45 (ANumber (num 3)) = Ok lo /\
    @ZanNumber.max default_library minus_104_45 (ANumber (num 3)) = Ok hi /\
    (Qvalue (ZanNumber.toBigNumber lo) <= Qvalue (ZanNumber.toBigNumber hi))%Q.
Proof.
  destruct (proj2 (@min_max_pick_by_value default_library)
              minus_104_45 {| value := BFinite false [3] 0 |} (ANumber (num 3))
              eq_refl eq_refl (or_intror eq_refl))
    as [lo [hi [Hlo [Hhi [_ [_ [Hle [_ [Hge _]]]]]]]]].
  exists lo, hi. split; [exact Hlo|]. split; [exact Hhi|].
  eapply Qle_trans; eassumption.
Defined.

Section StaticExtremes.
Context {lib : Library}.

Lemma check_currencies_same (message currency : string) (rest : list Money) :
  Forall (fun m => currencyCode m = currency) rest ->
  Money.check_currencies message currency rest = Ok tt.
Proof.
  induction 1 as [|m rest Hm _ IH]; [reflexivity|].
  cbn [Money.check_currencies]. rewrite Hm, String.eqb_refl. exact IH.
Qed.

Lemma Forall_map_canonical (args : list Money) :
  Forall (fun m => Invariant.canonical (Money.toBigNumber m) = true) args ->
  Forall (fun y => Invariant.canonical y = true) (map value (map _value args)).
Proof.
  induction 1; cbn [map]; constructor; assumption.
Qed.

End StaticExtremes.

(** X12. The static [Money.min] and [Money.max] of one or more Money of one
    recognized currency return a Money in that currency whose value is the
    value of one of the operands, at most (for [min]) or at least (for
    [max]) the value of every operand. *)
Theorem static_min_max_by_value `{lib : Library} (first : Money) (rest : list Money) :
  Forall (fun m => Invariant.canonical (Money.toBigNumber m) = true) (first :: rest) ->
  Forall (fun m => Money.getCurrencyCode m = Money.getCurrencyCode first) rest ->
  isValidCurrencyCode (Money.getCurrencyCode first) = true ->
  exists lo hi,
    Money.Static.min (first :: rest) = Ok lo /\
    Money.Static.max (first :: rest) = Ok hi /\
    Money.getCurrencyCode lo = Money.getCurrencyCode first /\
    Money.getCurrencyCode hi = Money.getCurrencyCode first /\
    In (Money.toBigNumber lo) (map Money.toBigNumber (first :: rest)) /\
    In (Money.toBigNumber hi) (map Money.toBigNumber (first :: rest)) /\
    Forall (fun m =>
              (Qvalue (Money.toBigNumber lo) <= Qvalue (Money.toBigNumber m))%Q /\
              (Qvalue (Money.toBigNumber m) <= Qvalue (Money.toBigNumber hi))%Q)
      (first :: rest).
Proof.
  intros Hcan Hcur Hvalid.
  unfold Money.getCurrencyCode in *.
  pose proof (Forall_map_canonical _ Hcan) as Hvals.
  cbn [map] in Hvals. inversion Hvals as [|? ? Hx Hrest]. subst.
  destruct (min_spec _ _ Hx Hrest) as [Hcmin [Hinmin Hallmin]].
  destruct (max_spec _ _ Hx Hrest) as [Hcmax [Hinmax Hallmax]].
  destruct (canonical_finite _ Hcmin) as [_ Hfmin].
  destruct (canonical_finite _ Hcmax) as [_ Hfmax].
  unfold Money.Static.min, Money.Static.max.
  rewrite !(check_currencies_same _ _ _ Hcur). cbn [bind].
  unfold ZanNumber.Static.min, ZanNumber.Static.max. cbn [map].
  rewrite (new_zan_finite _ Hfmin), (new_zan_finite _ Hfmax). cbn [bind].
  unfold ZanNumber.toBigNumber. cbn [value].
  rewrite (new_money_finite _ _ Hfmin Hvalid), (new_money_finite _ _ Hfmax Hvalid).
  do 2 eexists. split; [reflexivity|]. split; [reflexivity|].
  split; [reflexivity|]. split; [reflexivity|].
  assert (Hmap : map Money.toBigNumber (first :: rest)
                 = value (_value first) :: map value (map _value rest))
    by (cbn [map]; now rewrite map_map).
  change (Money.toBigNumber first :: map Money.toBigNumber rest)
    with (map Money.toBigNumber (first :: rest)).
  split; [rewrite Hmap; exact Hinmin|]. split; [rewrite Hmap; exact Hinmax|].
  apply Forall_forall. intros m Hm. rewrite Forall_forall in Hallmin, Hallmax.
  assert (Hin : In (Money.toBigNumber m)
                  (value (_value first) :: map value (map _value rest)))
    by (rewrite <- Hmap; now apply in_map).
  split; [exact (Hallmin _ Hin) | exact (Hallmax _ Hin)].
Qed.

Lemma static_min_max_by_value_witness :
  exists lo hi,
    @Money.Static.min default_library [usd_one; minus_0_015_usd] = Ok lo /\
    @Money.Static.max default_library [usd_one; minus_0_015_usd] = Ok hi /\
    Money.toBigNumber lo = Money.toBigNumber minus_0_015_usd /\
    Money.toBigNumber hi = Money.toBigNumber usd_one.
Proof.
  destruct (@static_min_max_by_value default_library usd_one [minus_0_015_usd])
    as [lo [hi [Hlo [Hhi _]]]].
  - repeat constructor.
  - repeat constructor.
  - reflexivity.
  - exists lo, hi. split; [exact Hlo|]. split; [exact Hhi|].
    vm_compute in Hlo, Hhi. injection Hlo as <-. injection Hhi as <-.
    split; reflexivity.
Defined.

(** ** Exact arithmetic *)

Section Sums.

Lemma in_range_parts (neg : bool) (c : list Z) (e : Z) :
  in_range (BFinite neg c e) = true ->
  Invariant.canonical (BFinite neg c e) = true /\
  e < BigNumber.MAX_EXP /\ BigNumber.MIN_EXP <= BigNumber.unit_exponent c e.
Proof.
  unfold in_range. intros H.
  apply andb_true_iff in H. destruct H as [H H3].
  apply andb_true_iff in H. destruct H as [H1 H2].
  apply Z.ltb_lt in H2. apply Z.leb_le in H3. auto.
Qed.

Lemma in_range_negated (x : BigNumber) :
  in_range x = true -> in_range (BigNumber.negated x) = true.
Proof. destruct x as [| |neg c e]; auto. Qed.

Lemma Qvalue_negated (x : BigNumber) :
  (Qvalue (BigNumber.negated x) == - Qvalue x)%Q.
Proof.
  destruct x as [|neg|neg c e]; unfold Qvalue; cbn [BigNumber.negated BigNumber.is_neg].
  - reflexivity.
  - destruct neg; reflexivity.
  - change (BigNumber.magnitude (BFinite (negb neg) c e))
      with (BigNumber.magnitude (BFinite neg c e)).
    destruct neg; cbn [negb]; ring.
Qed.

Lemma Qvalue_signed (neg : bool) (c : list Z) (e : Z) :
  Qvalue (BFinite neg c e)
  = if neg then (- BigNumber.magnitude (BFinite neg c e))%Q
    else BigNumber.magnitude (BFinite neg c e).
Proof. reflexivity. Qed.

(** The aligned coefficients stand for the two magnitudes. *)
Lemma align_spec (xn yn : bool) (xc yc : list Z) (xe ye : Z) :
  let '(mx, my, k) := BigNumber.align xc xe yc ye in
  (inject_Z mx * (10 # 1) ^ k == BigNumber.magnitude (BFinite xn xc xe))%Q /\
  (inject_Z my * (10 # 1) ^ k == BigNumber.magnitude (BFinite yn yc ye))%Q /\
  k = Z.min (BigNumber.unit_exponent xc xe) (BigNumber.unit_exponent yc ye).
Proof.
  unfold BigNumber.align, BigNumber.magnitude.
  set (kx := BigNumber.unit_exponent xc xe). set (ky := BigNumber.unit_exponent yc ye).
  set (k := Z.min kx ky).
  assert (H : forall m kk, k <= kk ->
            (inject_Z (m * 10 ^ (kk - k)) * (10 # 1) ^ k == inject_Z m * (10 # 1) ^ kk)%Q).
  { intros m kk Hk. rewrite inject_Z_mult, pow10_inject by lia.
    rewrite <- Qmult_assoc, <- Qpower_plus by apply ten_not_0.
    replace (kk - k + k) with kk by lia. reflexivity. }
  split; [apply H; unfold k; lia|]. split; [apply H; unfold k; lia | reflexivity].
Qed.

Lemma scaled_pos (m k : Z) : (0 < inject_Z m * (10 # 1) ^ k)%Q -> 0 < m.
Proof.
  intros H. destruct (Z_lt_le_dec 0 m) as [|Hle]; [assumption|exfalso].
  apply (Qlt_irrefl 0). eapply Qlt_le_trans; [exact H|].
  rewrite <- (Qmult_0_l ((10 # 1) ^ k)).
  apply Qmult_le_compat_r; [|apply Qlt_le_weak, pow10_pos].
  now rewrite <- (Zle_Qle _ 0).
Qed.

Lemma unit_le_scaled (m k : Z) : 0 < m -> ((10 # 1) ^ k <= inject_Z m * (10 # 1) ^ k)%Q.
Proof.
  intros Hm. rewrite <- (Qmult_1_l ((10 # 1) ^ k)) at 1.
  apply Qmult_le_compat_r; [|apply Qlt_le_weak, pow10_pos].
  change 1%Q with (inject_Z 1). rewrite <- Zle_Qle. lia.
Qed.

Lemma canonical_zero_form (neg : bool) (c : list Z) (e : Z) :
  Invariant.canonical (BFinite neg c e) = true ->
  BigNumber.isZero (BFinite neg c e) = true ->
  BFinite neg c e = BigNumber.zero neg.
Proof.
  intros Hcan Hz.
  destruct (canonical_cases _ _ _ Hcan) as [[-> ->]|[Hz' _]]; [reflexivity|congruence].
Qed.

(** What [normalise] gives for a positive coefficient in range. *)
Lemma normalise_value (neg : bool) (m x : Z) (q : Q) :
  (inject_Z m * (10 # 1) ^ x == q)%Q ->
  0 < m ->
  ((10 # 1) ^ BigNumber.MIN_EXP <= q)%Q ->
  (q < (10 # 1) ^ (BigNumber.MAX_EXP + 1))%Q ->
  Invariant.canonical (BigNumber.normalise neg m x) = true /\
  BigNumber.is_neg (BigNumber.normalise neg m x) = neg /\
  (BigNumber.magnitude (BigNumber.normalise neg m x) == q)%Q.
Proof.
  intros Hq Hm Hlo Hhi.
  destruct (normalise_in_range neg m x BigNumber.MIN_EXP (BigNumber.MAX_EXP + 1))
    as [c [e [Hn [Hmag _]]]]; try lia; try (rewrite Hq; assumption).
  split.
  - apply normalise_canonical; [lia|]. now rewrite Hn.
  - rewrite Hn. split; [reflexivity|]. now rewrite Hmag.
Qed.

End Sums.

Section SameSign.

Lemma Qvalue_of_parts (r : BigNumber) (a : bool) (q : Q) :
  BigNumber.is_neg r = a -> (BigNumber.magnitude r == q)%Q ->
  (Qvalue r == if a then - q else q)%Q.
Proof. intros Hs Hq. unfold Qvalue. rewrite Hs. destruct a; now rewrite Hq. Qed.

Lemma pow10_double (e1 e2 : Z) :
  e1 < BigNumber.MAX_EXP -> e2 < BigNumber.MAX_EXP ->
  ((10 # 1) ^ (e1 + 1) + (10 # 1) ^ (e2 + 1) <= (10 # 1) ^ (BigNumber.MAX_EXP + 1))%Q.
Proof.
  intros H1 H2.
  apply Qle_trans with ((10 # 1) ^ BigNumber.MAX_EXP + (10 # 1) ^ BigNumber.MAX_EXP)%Q.
  - apply Qplus_le_compat; apply pow10_le; lia.
  - rewrite Qpower_plus by apply ten_not_0. change ((10 # 1) ^ 1)%Q with (10 # 1)%Q.
    generalize (pow10_pos BigNumber.MAX_EXP).
    generalize ((10 # 1) ^ BigNumber.MAX_EXP)%Q. intros t Ht.
    apply Qle_trans with ((2 # 1) * t)%Q; [apply Qle_lteq; right; ring|].
    rewrite (Qmult_comm t). apply Qmult_le_compat_r; [discriminate | now apply Qlt_le_weak].
Qed.

(** [x + y] for two values of one sign. *)
Lemma add_same_spec (x y : BigNumber) :
  in_range x = true -> in_range y = true ->
  BigNumber.is_neg x = BigNumber.is_neg y ->
  Invariant.canonical (BigNumber.add_same x y) = true /\
  (Qvalue (BigNumber.add_same x y) == Qvalue x + Qvalue y)%Q.
Proof.
  intros Hx Hy Hs.
  destruct x as [|xn|a xc xe]; try discriminate Hx.
  destruct y as [|yn|yn yc ye]; try discriminate Hy.
  cbn [BigNumber.is_neg] in Hs. subst yn.
  destruct (in_range_parts _ _ _ Hx) as [Hcx [Hxe Hxk]].
  destruct (in_range_parts _ _ _ Hy) as [Hcy [Hye Hyk]].
  unfold BigNumber.add_same.
  destruct (BigNumber.isZero (BFinite a xc xe)) eqn:Zx;
    destruct (BigNumber.isZero (BFinite a yc ye)) eqn:Zy; cbn [orb negb].
  - rewrite (canonical_zero_form _ _ _ Hcx Zx), (canonical_zero_form _ _ _ Hcy Zy).
    split; [reflexivity|]. rewrite !Qvalue_zero. reflexivity.
  - split; [exact Hcy|].
    rewrite (canonical_zero_form _ _ _ Hcx Zx), Qvalue_zero. ring.
  - split; [exact Hcx|].
    rewrite (canonical_zero_form _ _ _ Hcy Zy), Qvalue_zero. ring.
  - pose proof (align_spec a a xc yc xe ye) as Hal.
    destruct (BigNumber.align xc xe yc ye) as [[mx my] k].
    destruct Hal as [Hmx [Hmy Hk]].
    destruct (canonical_cases _ _ _ Hcx) as [[-> _]|[_ [_ [_ [Hxlo Hxhi]]]]];
      [discriminate Zx|].
    destruct (canonical_cases _ _ _ Hcy) as [[-> _]|[_ [_ [_ [Hylo Hyhi]]]]];
      [discriminate Zy|].
    destruct (canonical_parts _ _ _ Hcx) as [_ [Hxr _]].
    pose proof (magnitude_pos _ _ _ Hcx Zx) as Hxpos.
    pose proof (magnitude_pos _ _ _ Hcy Zy) as Hypos.
    assert (Hmxpos : 0 < mx) by (apply (scaled_pos mx k); now rewrite Hmx).
    assert (Hmypos : 0 < my) by (apply (scaled_pos my k); now rewrite Hmy).
    set (q := (BigNumber.magnitude (BFinite a xc xe)
               + BigNumber.magnitude (BFinite a yc ye))%Q).
    assert (Hq : (inject_Z (mx + my) * (10 # 1) ^ k == q)%Q).
    { unfold q. rewrite <- Hmx, <- Hmy, inject_Z_plus. ring. }
    destruct (normalise_value a (mx + my) k q Hq) as [Hc [Hn Hm]]; [lia| | |].
    + apply Qle_trans with ((10 # 1) ^ xe)%Q; [apply pow10_le; lia|].
      apply Qle_trans with (BigNumber.magnitude (BFinite a xc xe)); [exact Hxlo|].
      unfold q. rewrite <- (Qplus_0_r (BigNumber.magnitude (BFinite a xc xe))) at 1.
      apply Qplus_le_r. now apply Qlt_le_weak.
    + eapply Qlt_le_trans; [|apply (pow10_double xe ye Hxe Hye)].
      unfold q. apply Qplus_lt_le_compat; [exact Hxhi | now apply Qlt_le_weak].
    + split; [exact Hc|].
      rewrite (Qvalue_of_parts _ a q Hn Hm), !Qvalue_signed. unfold q.
      destruct a; ring.
Qed.

(** [x - y] for two values of one sign. *)
Lemma sub_same_spec (x y : BigNumber) :
  in_range x = true -> in_range y = true ->
  BigNumber.is_neg x = BigNumber.is_neg y ->
  Invariant.canonical (BigNumber.sub_same x y) = true /\
  (Qvalue (BigNumber.sub_same x y) == Qvalue x - Qvalue y)%Q.
Proof.
  intros Hx Hy Hs.
  destruct x as [|xn|a xc xe]; try discriminate Hx.
  destruct y as [|yn|yn yc ye]; try discriminate Hy.
  cbn [BigNumber.is_neg] in Hs. subst yn.
  destruct (in_range_parts _ _ _ Hx) as [Hcx [Hxe Hxk]].
  destruct (in_range_parts _ _ _ Hy) as [Hcy [Hye Hyk]].
  unfold BigNumber.sub_same.
  destruct (BigNumber.isZero (BFinite a xc xe)) eqn:Zx;
    destruct (BigNumber.isZero (BFinite a yc ye)) eqn:Zy; cbn [orb negb].
  - rewrite (canonical_zero_form _ _ _ Hcx Zx), (canonical_zero_form _ _ _ Hcy Zy).
    split; [reflexivity|]. rewrite !Qvalue_zero. reflexivity.
  - split; [exact Hcy|].
    rewrite Qvalue_negated, (canonical_zero_form _ _ _ Hcx Zx), Qvalue_zero. ring.
  - split; [exact Hcx|].
    rewrite (canonical_zero_form _ _ _ Hcy Zy), Qvalue_zero. ring.
  - pose proof (align_spec a a xc yc xe ye) as Hal.
    destruct (BigNumber.align xc xe yc ye) as [[mx my] k].
    destruct Hal as [Hmx [Hmy Hk]].
    destruct (canonical_cases _ _ _ Hcx) as [[-> _]|[_ [_ [_ [Hxlo Hxhi]]]]];
      [discriminate Zx|].
    destruct (canonical_cases _ _ _ Hcy) as [[-> _]|[_ [_ [_ [Hylo Hyhi]]]]];
      [discriminate Zy|].
    pose proof (magnitude_pos _ _ _ Hcx Zx) as Hxpos.
    pose proof (magnitude_pos _ _ _ Hcy Zy) as Hypos.
    assert (Hmxpos : 0 < mx) by (apply (scaled_pos mx k); now rewrite Hmx).
    assert (Hmypos : 0 < my) by (apply (scaled_pos my k); now rewrite Hmy).
    rewrite !Qvalue_signed.
    destruct (Z.eqb_spec mx my) as [Heq|Hne].
    + split; [reflexivity|]. rewrite Qvalue_zero.
      destruct a; rewrite <- Hmx, <- Hmy, Heq; ring.
    + assert (Hmin : BigNumber.MIN_EXP <= k) by lia.
      destruct (Z.ltb_spec mx my) as [Hlt|Hge].
      * set (q := (BigNumber.magnitude (BFinite a yc ye)
                   - BigNumber.magnitude (BFinite a xc xe))%Q).
        assert (Hq : (inject_Z (my - mx) * (10 # 1) ^ k == q)%Q).
        { unfold q. rewrite <- Hmx, <- Hmy. unfold Z.sub.
          rewrite inject_Z_plus, inject_Z_opp. ring. }
        destruct (normalise_value (negb a) (my - mx) k q Hq) as [Hc [Hn Hm]]; [lia| | |].
        -- rewrite <- Hq. eapply Qle_trans; [|apply unit_le_scaled; lia].
           apply pow10_le. lia.
        -- apply Qlt_trans with (BigNumber.magnitude (BFinite a yc ye)).
           ++ unfold q. rewrite <- (Qplus_0_r (BigNumber.magnitude (BFinite a yc ye))) at 2.
              unfold Qminus. apply Qplus_lt_r.
              rewrite <- (Qopp_involutive 0). apply Qopp_lt_compat. exact Hxpos.
           ++ eapply Qlt_le_trans; [exact Hyhi|]. apply pow10_le. lia.
        -- split; [exact Hc|].
           rewrite (Qvalue_of_parts _ (negb a) q Hn Hm). unfold q.
           destruct a; cbn [negb]; ring.
      * set (q := (BigNumber.magnitude (BFinite a xc xe)
                   - BigNumber.magnitude (BFinite a yc ye))%Q).
        assert (Hq : (inject_Z (mx - my) * (10 # 1) ^ k == q)%Q).
        { unfold q. rewrite <- Hmx, <- Hmy. unfold Z.sub.
          rewrite inject_Z_plus, inject_Z_opp. ring. }
        destruct (normalise_value a (mx - my) k q Hq) as [Hc [Hn Hm]]; [lia| | |].
        -- rewrite <- Hq. eapply Qle_trans; [|apply unit_le_scaled; lia].
           apply pow10_le. lia.
        -- apply Qlt_trans with (BigNumber.magnitude (BFinite a xc xe)).
           ++ unfold q. rewrite <- (Qplus_0_r (BigNumber.magnitude (BFinite a xc xe))) at 2.
              unfold Qminus. apply Qplus_lt_r.
              rewrite <- (Qopp_involutive 0). apply Qopp_lt_compat. exact Hypos.
           ++ eapply Qlt_le_trans; [exact Hxhi|]. apply pow10_le. lia.
        -- split; [exact Hc|].
           rewrite (Qvalue_of_parts _ a q Hn Hm). unfold q.
           destruct a; ring.
Qed.

(** The library's [plus] and [minus] are exact. *)
Lemma plus_minus_spec (x y : BigNumber) :
  in_range x = true -> in_range y = true ->
  Invariant.canonical (BigNumber.plus x y) = true /\
  (Qvalue (BigNumber.plus x y) == Qvalue x + Qvalue y)%Q /\
  Invariant.canonical (BigNumber.minus x y) = true /\
  (Qvalue (BigNumber.minus x y) == Qvalue x - Qvalue y)%Q.
Proof.
  intros Hx Hy.
  pose proof (in_range_negated y Hy) as Hny.
  pose proof (Qvalue_negated y) as Hvn.
  destruct x as [|xn|xn xc xe]; try discriminate Hx.
  destruct y as [|yn|yn yc ye]; try discriminate Hy.
  unfold BigNumber.plus, BigNumber.minus. cbn [BigNumber.is_neg].
  destruct (xorb xn yn) eqn:Hxor.
  - assert (Hs : BigNumber.is_neg (BFinite xn xc xe)
                 = BigNumber.is_neg (BigNumber.negated (BFinite yn yc ye)))
      by (destruct xn, yn; (discriminate Hxor || reflexivity)).
    destruct (sub_same_spec _ _ Hx Hny Hs) as [Hc1 Hv1].
    destruct (add_same_spec _ _ Hx Hny Hs) as [Hc2 Hv2].
    split; [exact Hc1|]. split; [rewrite Hv1, Hvn; ring|].
    split; [exact Hc2|]. rewrite Hv2, Hvn. ring.
  - assert (Hs : BigNumber.is_neg (BFinite xn xc xe) = BigNumber.is_neg (BFinite yn yc ye))
      by (destruct xn, yn; (discriminate Hxor || reflexivity)).
    destruct (add_same_spec _ _ Hx Hy Hs) as [Hc1 Hv1].
    destruct (sub_same_spec _ _ Hx Hy Hs) as [Hc2 Hv2].
    auto.
Qed.

End SameSign.

(** X13. Addition and subtraction are exact: for two Money of one recognized
    currency, with values away from the ends of the library's default
    exponent range (-1e7 to 1e7), [add] returns a Money whose value is the
    sum of the two rationals and [subtract] one whose value is their
    difference, both in canonical form; likewise [add] and [subtract] of
    [ZanNumber]. *)
Theorem add_and_subtract_are_exact `{lib : Library} :
  (forall a b : Money,
     in_range (Money.toBigNumber a) = true ->
     in_range (Money.toBigNumber b) = true ->
     Money.getCurrencyCode a = Money.getCurrencyCode b ->
     isValidCurrencyCode (Money.getCurrencyCode a) = true ->
     exists s d,
       Money.add a b = Ok s /\ Money.subtract a b = Ok d /\
       (Qvalue (Money.toBigNumber s)
        == Qvalue (Money.toBigNumber a) + Qvalue (Money.toBigNumber b))%Q /\
       (Qvalue (Money.toBigNumber d)
        == Qvalue (Money.toBigNumber a) - Qvalue (Money.toBigNumber b))%Q /\
       Invariant.canonical (Money.toBigNumber s) = true /\
       Invariant.canonical (Money.toBigNumber d) = true) /\
  (forall x y : ZanNumber,
     in_range (ZanNumber.toBigNumber x) = true ->
     in_range (ZanNumber.toBigNumber y) = true ->
     exists s d,
       ZanNumber.add x y = Ok s /\ ZanNumber.subtract x y = Ok d /\
       (Qvalue (ZanNumber.toBigNumber s)
        == Qvalue (ZanNumber.toBigNumber x) + Qvalue (ZanNumber.toBigNumber y))%Q /\
       (Qvalue (ZanNumber.toBigNumber d)
        == Qvalue (ZanNumber.toBigNumber x) - Qvalue (ZanNumber.toBigNumber y))%Q /\
       Invariant.canonical (ZanNumber.toBigNumber s) = true /\
       Invariant.canonical (ZanNumber.toBigNumber d) = true).
Proof.
  split.
  - intros a b Ha Hb Hc Hvalid.
    unfold Money.getCurrencyCode in *.
    unfold Money.toBigNumber, ZanNumber.toBigNumber in *.
    destruct (plus_minus_spec _ _ Ha Hb) as [Hcp [Hvp [Hcm Hvm]]].
    destruct (canonical_finite _ Hcp) as [_ Hfp].
    destruct (canonical_finite _ Hcm) as [_ Hfm].
    unfold Money.add, Money.subtract, ZanNumber.add, ZanNumber.subtract.
    rewrite Hc, String.eqb_refl. cbn [negb].
    rewrite (new_zan_finite _ Hfp), (new_zan_finite _ Hfm). cbn [bind].
    unfold ZanNumber.toBigNumber. cbn [value]. rewrite <- Hc.
    rewrite (new_money_finite _ _ Hfp Hvalid), (new_money_finite _ _ Hfm Hvalid).
    do 2 eexists. split; [reflexivity|]. split; [reflexivity|]. cbn [_value value]. auto.
  - intros x y Hx Hy. unfold ZanNumber.toBigNumber in *.
    destruct (plus_minus_spec _ _ Hx Hy) as [Hcp [Hvp [Hcm Hvm]]].
    destruct (canonical_finite _ Hcp) as [_ Hfp].
    destruct (canonical_finite _ Hcm) as [_ Hfm].
    unfold ZanNumber.add, ZanNumber.subtract.
    rewrite (new_zan_finite _ Hfp), (new_zan_finite _ Hfm).
    do 2 eexists. split; [reflexivity|]. split; [reflexivity|]. cbn [value]. auto.
Qed.

Lemma add_and_subtract_are_exact_witness :
  exists s d,
    @Money.add default_library usd_one minus_0_015_usd = Ok s /\
    @Money.subtract default_library usd_one minus_0_015_usd = Ok d /\
    (Qvalue (Money.toBigNumber s) == 985 # 1000)%Q /\
    (Qvalue (Money.toBigNumber d) == 1015 # 1000)%Q.
Proof.
  destruct (proj1 (@add_and_subtract_are_exact default_library)
              usd_one minus_0_015_usd eq_refl eq_refl eq_refl eq_refl)
    as [s [d [Hs [Hd [Hvs [Hvd _]]]]]].
  exists s, d. split; [exact Hs|]. split; [exact Hd|].
  split; [rewrite Hvs | rewrite Hvd]; reflexivity.
Defined.

Section RepeatedAdd.
Context {lib : Library}.

Lemma plus_not_finite (x y : BigNumber) :
  BigNumber.isFinite x = false -> BigNumber.isFinite (BigNumber.plus x y) = false.
Proof.
  destruct x as [|xn|xn xc xe]; [reflexivity| |discriminate]. intros _.
  destruct y as [|yn|yn yc ye]; [reflexivity| |];
    unfold BigNumber.plus; cbn [BigNumber.is_neg BigNumber.negated];
    destruct (xorb xn _); reflexivity.
Qed.

Lemma sum_not_finite (rest : list BigNumber) :
  forall x, BigNumber.isFinite x = false ->
            BigNumber.isFinite (fold_left BigNumber.plus rest x) = false.
Proof.
  induction rest as [|y ys IH]; intros x Hx; [exact Hx|].
  cbn [fold_left]. apply IH. now apply plus_not_finite.
Qed.

Lemma add_step_throw (rest : list Money) (msg : string) :
  fold_left (fun acc b => a <- acc ;; Money.add a b) rest (Throw msg) = Throw msg.
Proof. induction rest as [|b rest IH]; [reflexivity|]. cbn [fold_left bind]. exact IH. Qed.

(** When a chain of [add] returns. *)
Lemma add_chain (rest : list Money) :
  forall (acc r : Money),
    BigNumber.isFinite (value (_value acc)) = true ->
    isValidCurrencyCode (currencyCode acc) = true ->
    (fold_left (fun acc b => a <- acc ;; Money.add a b) rest (Ok acc) = Ok r <->
     forallb (fun b => String.eqb (currencyCode b) (currencyCode acc)) rest = true /\
     BigNumber.isFinite
       (fold_left BigNumber.plus (map value (map _value rest)) (value (_value acc))) = true /\
     r = {| _value := {| value := fold_left BigNumber.plus (map value (map _value rest))
                                    (value (_value acc)) |};
            currencyCode := currencyCode acc |}).
Proof.
  induction rest as [|b rest IH]; intros acc r Hfin Hvalid.
  - cbn [fold_left map forallb]. destruct acc as [[v] c]. cbn [_value value currencyCode] in *.
    split.
    + intros H. injection H as <-. auto.
    + intros [_ [_ ->]]. reflexivity.
  - cbn [fold_left map forallb bind].
    unfold Money.add at 2.
    rewrite (String.eqb_sym (currencyCode b)).
    destruct (String.eqb_spec (currencyCode acc) (currencyCode b)) as [Hc|Hc]; cbn [negb].
    + unfold ZanNumber.add.
      destruct (BigNumber.isFinite (BigNumber.plus (value (_value acc)) (value (_value b))))
        eqn:Hp.
      * rewrite (new_zan_finite _ Hp). cbn [bind]. unfold ZanNumber.toBigNumber. cbn [value].
        rewrite (new_money_finite _ _ Hp Hvalid).
        rewrite (IH {| _value := {| value := BigNumber.plus (value (_value acc))
                                                 (value (_value b)) |};
                       currencyCode := currencyCode acc |} r Hp Hvalid).
        cbn [_value value currencyCode andb]. tauto.
      * assert (Hthrow : ZanNumber.new (ABigNumber (BigNumber.plus (value (_value acc))
                                                      (value (_value b))))
                         = Throw "Invalid ZanNumber BigNumber value: must be finite and not NaN").
        { destruct (BigNumber.plus _ _); (discriminate Hp || reflexivity). }
        rewrite Hthrow. cbn [bind]. rewrite add_step_throw.
        rewrite (sum_not_finite _ _ Hp). cbn [andb].
        split; [discriminate | intros [_ [H _]]; discriminate H].
    + rewrite add_step_throw. cbn [andb].
      split; [discriminate | intros [H _]; discriminate H].
Qed.

End RepeatedAdd.

(** X14. The static [sum] is a chain of [add]: for a first operand that
    satisfies the class invariant, [Money.sum(first, ...rest)] returns [r]
    exactly when [first.add(rest[0]).add(rest[1])...] returns [r]. *)
Theorem sum_is_repeated_add `{lib : Library} (first : Money) (rest : list Money) (r : Money) :
  Invariant.money first = true ->
  Money.Static.sum (first :: rest) = Ok r <->
  fold_left (fun acc b => a <- acc ;; Money.add a b) rest (Ok first) = Ok r.
Proof.
  intros Hinv. unfold Invariant.money, Invariant.zan in Hinv.
  apply andb_true_iff in Hinv. destruct Hinv as [Hfin Hvalid].
  rewrite (add_chain rest first r Hfin Hvalid).
  unfold Money.Static.sum. rewrite check_currencies_spec.
  destruct (forallb _ rest); cbn [bind]; [|split; [discriminate | intros [H _]; discriminate H]].
  unfold ZanNumber.Static.sum, BigNumber.sum. cbn [map].
  set (total := fold_left BigNumber.plus (map value (map _value rest)) (value (_value first))).
  destruct (BigNumber.isFinite total) eqn:Ht.
  - rewrite (new_zan_finite _ Ht). cbn [bind]. unfold ZanNumber.toBigNumber. cbn [value].
    rewrite (new_money_finite _ _ Ht Hvalid).
    split.
    + intros H. injection H as <-. auto.
    + intros [_ [_ ->]]. reflexivity.
  - assert (Hthrow : ZanNumber.new (ABigNumber total)
                     = Throw "Invalid ZanNumber BigNumber value: must be finite and not NaN")
      by (destruct total; (discriminate Ht || reflexivity)).
    rewrite Hthrow. cbn [bind].
    split; [discriminate | intros [_ [H _]]; discriminate H].
Qed.

Lemma sum_is_repeated_add_witness :
  @Money.Static.sum default_library [usd_one; minus_0_015_usd; usd_one]
  = Ok {| _value := {| value := BFinite false [1; 9; 8; 5] 0 |}; currencyCode := "USD" |}.
Proof.
  apply (proj2 (@sum_is_repeated_add default_library usd_one [minus_0_015_usd; usd_one]
                  {| _value := {| value := BFinite false [1; 9; 8; 5] 0 |};
                     currencyCode := "USD" |} eq_refl)).
  reflexivity.
Defined.

Section Products.

Lemma Qmult_le_both (a b c d : Q) :
  (0 <= a -> 0 <= c -> a <= b -> c <= d -> a * c <= b * d)%Q.
Proof.
  intros Ha Hc Hab Hcd. apply Qle_trans with (b * c)%Q.
  - now apply Qmult_le_compat_r.
  - rewrite !(Qmult_comm b). apply Qmult_le_compat_r; [assumption|].
    now apply Qle_trans with a.
Qed.

Lemma Qmult_lt_both (a b c d : Q) :
  (0 < a -> 0 < c -> a < b -> c < d -> a * c < b * d)%Q.
Proof.
  intros Ha Hc Hab Hcd. apply Qlt_trans with (b * c)%Q.
  - now apply Qmult_lt_compat_r.
  - rewrite !(Qmult_comm b). apply Qmult_lt_compat_r; [|assumption].
    now apply Qlt_trans with a.
Qed.

(** The exponent of a canonical value whose magnitude is below a power of
    ten. *)
Lemma exponent_below (r : BigNumber) (hi : Z) :
  Invariant.canonical r = true -> 0 < hi ->
  (BigNumber.magnitude r < (10 # 1) ^ hi)%Q ->
  Invariant.exponent r < hi.
Proof.
  intros Hc Hhi Hm. destruct r as [| |neg c e]; try discriminate Hc.
  cbn [Invariant.exponent].
  destruct (canonical_cases _ _ _ Hc) as [[_ ->]|[_ [_ [_ [Hlo _]]]]]; [exact Hhi|].
  apply pow10_lt_inv. eapply Qle_lt_trans; eassumption.
Qed.

Lemma exponent_above (neg : bool) (c : list Z) (e lo : Z) :
  Invariant.canonical (BFinite neg c e) = true ->
  BigNumber.isZero (BFinite neg c e) = false ->
  ((10 # 1) ^ lo <= BigNumber.magnitude (BFinite neg c e))%Q ->
  lo <= e.
Proof.
  intros Hc Hz Hm.
  destruct (canonical_cases _ _ _ Hc) as [[-> _]|[_ [_ [_ [_ Hhi]]]]]; [discriminate Hz|].
  assert (lo < e + 1); [|lia].
  apply pow10_lt_inv. eapply Qle_lt_trans; eassumption.
Qed.

(** The library's [times] is exact. *)
Lemma times_spec (x y : BigNumber) :
  Invariant.canonical x = true -> Invariant.canonical y = true ->
  BigNumber.MIN_EXP <= Invariant.exponent x + Invariant.exponent y ->
  Invariant.exponent x + Invariant.exponent y + 1 <= BigNumber.MAX_EXP ->
  Invariant.canonical (BigNumber.times x y) = true /\
  BigNumber.is_neg (BigNumber.times x y) = xorb (BigNumber.is_neg x) (BigNumber.is_neg y) /\
  (BigNumber.magnitude (BigNumber.times x y)
   == BigNumber.magnitude x * BigNumber.magnitude y)%Q /\
  Invariant.exponent (BigNumber.times x y)
  <= Z.max 0 (Invariant.exponent x + Invariant.exponent y + 1).
Proof.
  intros Hcx Hcy Hlo Hhi.
  destruct x as [|xn|xn xc xe]; try discriminate Hcx.
  destruct y as [|yn|yn yc ye]; try discriminate Hcy.
  cbn [Invariant.exponent BigNumber.is_neg] in *.
  unfold BigNumber.times.
  destruct (BigNumber.isZero (BFinite xn xc xe)) eqn:Zx.
  { cbn [orb]. split; [reflexivity|]. split; [reflexivity|].
    rewrite (canonical_zero_form _ _ _ Hcx Zx), !magnitude_zero.
    split; [ring | cbn [Invariant.exponent BigNumber.zero]; lia]. }
  destruct (BigNumber.isZero (BFinite yn yc ye)) eqn:Zy.
  { cbn [orb]. split; [reflexivity|]. split; [reflexivity|].
    rewrite (canonical_zero_form _ _ _ Hcy Zy), !magnitude_zero.
    split; [ring | cbn [Invariant.exponent BigNumber.zero]; lia]. }
  cbn [orb].
  destruct (canonical_cases _ _ _ Hcx) as [[-> _]|[_ [_ [_ [Hxlo Hxhi]]]]];
    [discriminate Zx|].
  destruct (canonical_cases _ _ _ Hcy) as [[-> _]|[_ [_ [_ [Hylo Hyhi]]]]];
    [discriminate Zy|].
  pose proof (magnitude_pos _ _ _ Hcx Zx) as Hxpos.
  pose proof (magnitude_pos _ _ _ Hcy Zy) as Hypos.
  set (q := (BigNumber.magnitude (BFinite xn xc xe)
             * BigNumber.magnitude (BFinite yn yc ye))%Q).
  assert (Hq : (inject_Z (BigNumber.coefficient xc * BigNumber.coefficient yc)
                * (10 # 1) ^ (BigNumber.unit_exponent xc xe + BigNumber.unit_exponent yc ye)
                == q)%Q).
  { unfold q, BigNumber.magnitude.
    rewrite inject_Z_mult, Qpower_plus by apply ten_not_0. ring. }
  assert (Hqpos : (0 < q)%Q).
  { unfold q. rewrite <- (Qmult_0_l (BigNumber.magnitude (BFinite yn yc ye))).
    now apply Qmult_lt_compat_r. }
  assert (Hqlo : ((10 # 1) ^ (xe + ye) <= q)%Q).
  { rewrite Qpower_plus by apply ten_not_0. unfold q.
    apply Qmult_le_both; try assumption; apply Qlt_le_weak, pow10_pos. }
  assert (Hqhi : (q < (10 # 1) ^ (xe + ye + 2))%Q).
  { replace (xe + ye + 2) with ((xe + 1) + (ye + 1)) by lia.
    rewrite Qpower_plus by apply ten_not_0. unfold q.
    now apply Qmult_lt_both. }
  destruct (normalise_value (xorb xn yn) _ _ q Hq) as [Hc [Hn Hm]].
  - apply (scaled_pos _ (BigNumber.unit_exponent xc xe + BigNumber.unit_exponent yc ye)).
    now rewrite Hq.
  - eapply Qle_trans; [|exact Hqlo]. apply pow10_le. lia.
  - eapply Qlt_le_trans; [exact Hqhi|]. apply pow10_le. lia.
  - split; [exact Hc|]. split; [exact Hn|]. split; [exact Hm|].
    assert (Invariant.exponent
              (BigNumber.normalise (xorb xn yn)
                 (BigNumber.coefficient xc * BigNumber.coefficient yc)
                 (BigNumber.unit_exponent xc xe + BigNumber.unit_exponent yc ye))
            < Z.max 1 (xe + ye + 2)); [|lia].
    apply exponent_below; [exact Hc | lia |].
    rewrite Hm. eapply Qlt_le_trans; [exact Hqhi|]. apply pow10_le. lia.
Qed.

(** The exponent of the decimal of a finite number. *)
Lemma ofNumber_exponent (neg : bool) (M E : Z) :
  JsNumber.wf_number (Finite neg M E) = true ->
  BigNumber.is_neg (BigNumber.ofNumber (Finite neg M E)) = neg /\
  -1075 <= Invariant.exponent (BigNumber.ofNumber (Finite neg M E)) <= 402.
Proof.
  intros Hwf. destruct (wf_number_parts _ _ _ Hwf) as [HM _].
  pose proof (ofNumber_canonical neg M E Hwf) as Hcan.
  destruct (Z.eq_dec M 0) as [->|HM0].
  - cbn [BigNumber.ofNumber]. rewrite is_int32_zero.
    assert (E0 : (JsNumber.magnitude 0 E == inject_Z 0)%Q)
      by (unfold JsNumber.magnitude; ring).
    rewrite (Qfloor_comp _ _ E0). cbn. split; [reflexivity | lia].
  - destruct (ofNumber_decimal neg M E Hwf) as [s [x [Ho [Hs [Hx [_ Hhi]]]]]]; [lia|].
    destruct (normalise_in_range neg s x (-1074) 402) as [c [e [Hn [Hmag Hz]]]];
      try (unfold BigNumber.MIN_EXP, BigNumber.MAX_EXP; lia); try assumption.
    { eapply Qle_trans; [|apply unit_le_scaled; exact Hs]. apply pow10_le. lia. }
    rewrite Ho, Hn in *. split; [reflexivity|]. cbn [Invariant.exponent].
    split.
    + assert (-1074 <= e); [|lia].
      apply (exponent_above neg c e (-1074) Hcan Hz). rewrite Hmag.
      eapply Qle_trans; [|apply unit_le_scaled; exact Hs]. apply pow10_le. lia.
    + assert (Invariant.exponent (BFinite neg c e) < 402); [|cbn in *; lia].
      apply exponent_below; [exact Hcan | lia |]. now rewrite Hmag.
Qed.

End Products.

Section Quotients.

Lemma pow10_le_1 (dp : Z) : 0 <= dp -> ((10 # 1) ^ (- dp) <= 1)%Q.
Proof. intros H. change 1%Q with ((10 # 1) ^ 0)%Q. apply pow10_le. lia. Qed.

Lemma round_half_up_zero (q : Q) (dp : Z) :
  (q == 0)%Q -> (round_half_up q dp == 0)%Q.
Proof.
  intros Hq. unfold round_half_up.
  assert (E : (q * (10 # 1) ^ dp + (1 # 2) == 1 # 2)%Q) by (rewrite Hq; ring).
  rewrite (Qfloor_comp _ _ E). change (Qfloor (1 # 2)) with 0.
  unfold Qdiv. change (inject_Z 0) with 0%Q. ring.
Qed.

(** The library's [dividedBy] rounds the quotient to [dp] places, a half
    going up. *)
Lemma dividedBy_spec (dp : Z) (x y : BigNumber) :
  Invariant.canonical x = true -> Invariant.canonical y = true ->
  BigNumber.isZero y = false ->
  0 <= dp <= BigNumber.MAX ->
  BigNumber.MIN_EXP <= Invariant.exponent x - Invariant.exponent y - 1 ->
  Invariant.exponent x - Invariant.exponent y + 2 <= BigNumber.MAX_EXP ->
  Invariant.canonical (BigNumber.dividedBy dp x y) = true /\
  BigNumber.is_neg (BigNumber.dividedBy dp x y)
  = xorb (BigNumber.is_neg x) (BigNumber.is_neg y) /\
  (BigNumber.magnitude (BigNumber.dividedBy dp x y)
   == round_half_up (BigNumber.magnitude x / BigNumber.magnitude y) dp)%Q /\
  Invariant.exponent (BigNumber.dividedBy dp x y)
  <= Z.max 0 (Invariant.exponent x - Invariant.exponent y + 1).
Proof.
  intros Hcx Hcy Zy Hdp Hlo Hhi.
  destruct x as [|xn|xn xc xe]; try discriminate Hcx.
  destruct y as [|yn|yn yc ye]; try discriminate Hcy.
  cbn [Invariant.exponent BigNumber.is_neg] in *.
  pose proof (magnitude_pos _ _ _ Hcy Zy) as Hypos.
  assert (Hyne : ~ (BigNumber.magnitude (BFinite yn yc ye) == 0)%Q).
  { intros H. rewrite H in Hypos. exact (Qlt_irrefl _ Hypos). }
  unfold BigNumber.dividedBy. rewrite Zy, andb_false_r.
  destruct (BigNumber.isZero (BFinite xn xc xe)) eqn:Zx.
  { split; [reflexivity|]. split; [reflexivity|]. split.
    - rewrite magnitude_zero. symmetry. apply round_half_up_zero.
      rewrite (canonical_zero_form _ _ _ Hcx Zx), magnitude_zero.
      unfold Qdiv. ring.
    - cbn [Invariant.exponent BigNumber.zero]. lia. }
  destruct (canonical_cases _ _ _ Hcx) as [[-> _]|[_ [_ [_ [Hxlo Hxhi]]]]];
    [discriminate Zx|].
  destruct (canonical_cases _ _ _ Hcy) as [[-> _]|[_ [_ [_ [Hylo Hyhi]]]]];
    [discriminate Zy|].
  pose proof (magnitude_pos _ _ _ Hcx Zx) as Hxpos.
  set (q := (BigNumber.magnitude (BFinite xn xc xe)
             / BigNumber.magnitude (BFinite yn yc ye))%Q).
  assert (Hqpos : (0 < q)%Q).
  { unfold q. apply Qlt_shift_div_l; [exact Hypos|]. now rewrite Qmult_0_l. }
  set (H := Z.max 0 (xe - ye + 1)).
  assert (Hqhi : (q < (10 # 1) ^ H)%Q).
  { apply Qlt_le_trans with ((10 # 1) ^ (xe - ye + 1))%Q; [|apply pow10_le; unfold H; lia].
    unfold q. apply Qlt_shift_div_r; [exact Hypos|].
    eapply Qlt_le_trans; [exact Hxhi|].
    replace (xe + 1) with ((xe - ye + 1) + ye) by lia.
    rewrite Qpower_plus by apply ten_not_0.
    rewrite !(Qmult_comm ((10 # 1) ^ (xe - ye + 1))).
    apply Qmult_le_compat_r; [exact Hylo | apply Qlt_le_weak, pow10_pos]. }
  fold q. unfold round_half_up.
  set (m := Qfloor (q * (10 # 1) ^ dp + (1 # 2))).
  assert (Hm0 : 0 <= m).
  { unfold m. change 0 with (Qfloor (inject_Z 0)). apply Qfloor_resp_le.
    apply Qle_trans with (0 + 0)%Q; [discriminate|].
    apply Qplus_le_compat; [|discriminate].
    apply Qmult_le_0_compat; apply Qlt_le_weak; [exact Hqpos | apply pow10_pos]. }
  assert (Hval : (inject_Z m * (10 # 1) ^ (- dp) == inject_Z m / (10 # 1) ^ dp)%Q).
  { rewrite Qpower_opp. reflexivity. }
  destruct (Z.eq_dec m 0) as [Hz|Hnz].
  { rewrite Hz, normalise_zero. split; [reflexivity|]. split; [reflexivity|]. split.
    - rewrite magnitude_zero. unfold Qdiv. change (inject_Z 0) with 0%Q. ring.
    - cbn [Invariant.exponent BigNumber.zero]. lia. }
  assert (Hup : (inject_Z m / (10 # 1) ^ dp < (10 # 1) ^ (H + 1))%Q).
  { rewrite <- Hval.
    apply Qle_lt_trans with (q + (1 # 2))%Q.
    - apply Qle_trans with ((q * (10 # 1) ^ dp + (1 # 2)) * (10 # 1) ^ (- dp))%Q.
      + apply Qmult_le_compat_r; [apply Qfloor_le | apply Qlt_le_weak, pow10_pos].
      + rewrite Qmult_plus_distr_l, <- Qmult_assoc, <- Qpower_plus by apply ten_not_0.
        replace (dp + - dp) with 0 by lia. change ((10 # 1) ^ 0)%Q with 1%Q.
        rewrite Qmult_1_r. apply Qplus_le_r.
        rewrite <- (Qmult_1_r (1 # 2)) at 2. rewrite !(Qmult_comm (1 # 2)).
        apply Qmult_le_compat_r; [apply pow10_le_1; lia | discriminate].
    - rewrite Qpower_plus by apply ten_not_0. change ((10 # 1) ^ 1)%Q with (10 # 1)%Q.
      assert (H1 : (1 <= (10 # 1) ^ H)%Q)
        by (change 1%Q with ((10 # 1) ^ 0)%Q; apply pow10_le; unfold H; lia).
      revert Hqhi H1. generalize ((10 # 1) ^ H)%Q. intros t Hqt Ht.
      apply Qlt_le_trans with (t + t)%Q.
      + apply Qplus_lt_le_compat; [exact Hqt|].
        apply Qle_trans with 1%Q; [discriminate | exact Ht].
      + apply Qle_trans with (t * (2 # 1))%Q; [apply Qle_lteq; right; ring|].
        rewrite !(Qmult_comm t). apply Qmult_le_compat_r; [discriminate|].
        apply Qle_trans with 1%Q; [discriminate | exact Ht]. }
  destruct (normalise_value (xorb xn yn) m (- dp) (inject_Z m / (10 # 1) ^ dp) Hval)
    as [Hc [Hn Hmag]]; [lia| | |].
  - rewrite <- Hval.
    destruct (Z_le_gt_dec BigNumber.MIN_EXP (- dp)) as [Hsmall|Hbig].
    + eapply Qle_trans; [|apply unit_le_scaled; lia]. now apply pow10_le.
    + set (L := xe - ye - 1) in *.
      assert (HqL : ((10 # 1) ^ L <= q)%Q).
      { unfold q. apply Qle_shift_div_l; [exact Hypos|].
        eapply Qle_trans; [|exact Hxlo].
        assert (Exe : xe = L + (ye + 1)) by (unfold L; lia).
        rewrite Exe at 1. rewrite Qpower_plus by apply ten_not_0.
        rewrite !(Qmult_comm ((10 # 1) ^ L)).
        apply Qmult_le_compat_r; [apply Qlt_le_weak, Hyhi | apply Qlt_le_weak, pow10_pos]. }
      assert (HmL : 10 ^ (L + dp) <= m).
      { unfold m. rewrite <- (Qfloor_Z (10 ^ (L + dp))). apply Qfloor_resp_le.
        rewrite pow10_inject by lia. rewrite Qpower_plus by apply ten_not_0.
        apply Qle_trans with (q * (10 # 1) ^ dp + 0)%Q.
        - rewrite Qplus_0_r.
          apply Qmult_le_compat_r; [exact HqL | apply Qlt_le_weak, pow10_pos].
        - apply Qplus_le_r. discriminate. }
      apply Qle_trans with ((10 # 1) ^ L)%Q; [now apply pow10_le|].
      apply Qle_trans with (inject_Z (10 ^ (L + dp)) * (10 # 1) ^ (- dp))%Q.
      * rewrite pow10_inject by lia. rewrite <- Qpower_plus by apply ten_not_0.
        replace (L + dp + - dp) with L by lia. apply Qle_refl.
      * apply Qmult_le_compat_r; [|apply Qlt_le_weak, pow10_pos].
        now rewrite <- Zle_Qle.
  - eapply Qlt_le_trans; [exact Hup|]. apply pow10_le.
    unfold H, BigNumber.MAX_EXP in *. lia.
  - split; [exact Hc|]. split; [exact Hn|]. split; [exact Hmag|].
    assert (Invariant.exponent (BigNumber.normalise (xorb xn yn) m (- dp)) < H + 1); [|lia].
    apply exponent_below; [exact Hc | unfold H; lia |]. now rewrite Hmag.
Qed.

End Quotients.

(** X15. [multiplyAndRound] multiplies exactly and rounds once: for a Money
    with a canonical value away from the ends of the library's default
    exponent range (-1e7 to 1e7), a
    finite multiplier and a scale in the library's range, the result has the
    product's sign, and its magnitude is the product of the value and of the
    decimal that the library reads the multiplier as, rounded to [scale]
    places, a half going up.  [Money] returns what [ZanNumber] computes, in
    the receiver's currency. *)
Theorem multiplyAndRound_value `{lib : Library}
    (this : Money) (multiplier : number) (scale : option Z) :
  Invariant.canonical (Money.toBigNumber this) = true ->
  BigNumber.MIN_EXP + 2000 <= Invariant.exponent (Money.toBigNumber this)
  <= BigNumber.MAX_EXP - 2000 ->
  isValidCurrencyCode (Money.getCurrencyCode this) = true ->
  JsNumber.wf_number multiplier = true ->
  JsNumber.isFinite multiplier = true ->
  0 <= ZanNumber.scale_or_default scale <= BigNumber.MAX ->
  exists r,
    Money.multiplyAndRound this multiplier scale = Ok r /\
    ZanNumber.multiplyAndRound (_value this) multiplier scale = Ok (_value r) /\
    Money.getCurrencyCode r = Money.getCurrencyCode this /\
    BigNumber.is_neg (Money.toBigNumber r)
    = xorb (BigNumber.is_neg (Money.toBigNumber this))
        (BigNumber.is_neg (BigNumber.ofNumber multiplier)) /\
    (BigNumber.magnitude (Money.toBigNumber r)
     == round_half_up
          (BigNumber.magnitude (Money.toBigNumber this)
           * BigNumber.magnitude (BigNumber.ofNumber multiplier))
          (ZanNumber.scale_or_default scale))%Q.
Proof.
  unfold Money.toBigNumber, Money.getCurrencyCode, ZanNumber.toBigNumber.
  intros Hcan Hexp Hvalid Hwf Hfin Hscale.
  destruct multiplier as [| |neg M E]; try discriminate Hfin.
  pose proof (ofNumber_canonical neg M E Hwf) as Hcf.
  destruct (ofNumber_exponent neg M E Hwf) as [_ Hef].
  set (f := BigNumber.ofNumber (Finite neg M E)) in *.
  destruct (times_spec (value (_value this)) f Hcan Hcf) as [Hcp [Hsp [Hmp Hep]]];
    [unfold BigNumber.MIN_EXP, BigNumber.MAX_EXP in *; lia
    |unfold BigNumber.MIN_EXP, BigNumber.MAX_EXP in *; lia|].
  destruct (round_general {| value := BigNumber.times (value (_value this)) f |}
              (ZanNumber.scale_or_default scale) Hcp Hscale)
    as [r [Hr [Hsr Hmr]]].
  { cbn [value]. unfold BigNumber.MIN_EXP, BigNumber.MAX_EXP in *. lia. }
  cbn [value] in Hsr, Hmr.
  assert (Hzan : forall sc, ZanNumber.scale_or_default sc = ZanNumber.scale_or_default scale ->
                            ZanNumber.multiplyAndRound (_value this) (Finite neg M E) sc = Ok r).
  { intros sc Hsc. unfold ZanNumber.multiplyAndRound. rewrite Hsc. exact Hr. }
  assert (Hfr : BigNumber.isFinite (value r) = true).
  { unfold ZanNumber.round in Hr. apply bind_ok in Hr. destruct Hr as [b [_ Hb]].
    destruct (new_zan_ok _ _ Hb) as [-> Hfb]. exact Hfb. }
  exists {| _value := r; currencyCode := currencyCode this |}.
  split.
  - unfold Money.multiplyAndRound. rewrite (Hzan (Some (ZanNumber.scale_or_default scale)) eq_refl). cbn [bind].
    unfold ZanNumber.toBigNumber. destruct r as [b]. cbn [value] in *.
    now apply new_money_finite.
  - cbn [_value currencyCode]. split; [apply Hzan; reflexivity|].
    split; [reflexivity|]. split; [rewrite Hsr; exact Hsp|].
    rewrite Hmr. unfold round_half_up.
    assert (E1 : (BigNumber.magnitude (BigNumber.times (value (_value this)) f)
                  * (10 # 1) ^ ZanNumber.scale_or_default scale + (1 # 2)
                  == BigNumber.magnitude (value (_value this)) * BigNumber.magnitude f
                     * (10 # 1) ^ ZanNumber.scale_or_default scale + (1 # 2))%Q)
      by now rewrite Hmp.
    now rewrite (Qfloor_comp _ _ E1).
Qed.

Lemma multiplyAndRound_value_witness :
  exists r,
    @Money.multiplyAndRound default_library minus_0_015_usd
      (Finite false 7205759403792794 (-56)) (Some 3) = Ok r /\
    BigNumber.is_neg (Money.toBigNumber r) = true /\
    (BigNumber.magnitude (Money.toBigNumber r) == 2 # 1000)%Q.
Proof.
  destruct (@multiplyAndRound_value default_library minus_0_015_usd
              (Finite false 7205759403792794 (-56)) (Some 3))
    as [r [Hr [_ [_ [Hs Hm]]]]]; try reflexivity.
  - vm_compute. split; discriminate.
  - vm_compute. split; discriminate.
  - exists r. split; [exact Hr|]. split; [exact Hs|]. rewrite Hm. reflexivity.
Defined.

(** X16. [divideAndRound] rounds twice: the library first rounds the
    quotient to the configured [DECIMAL_PLACES], and the result is then
    rounded to [scale] places, a half going up both times.  For a Money with
    a canonical value away from the ends of the library's default exponent
    range (-1e7 to 1e7), a finite
    divider that is not zero and a scale in the library's range, the result
    has the quotient's sign and that magnitude. *)
Theorem divideAndRound_value `{lib : Library}
    (this : Money) (divider : number) (scale : option Z) :
  Invariant.canonical (Money.toBigNumber this) = true ->
  BigNumber.MIN_EXP + 2000 <= Invariant.exponent (Money.toBigNumber this)
  <= BigNumber.MAX_EXP - 2000 ->
  isValidCurrencyCode (Money.getCurrencyCode this) = true ->
  JsNumber.wf_number divider = true ->
  JsNumber.isFinite divider = true ->
  BigNumber.isZero (BigNumber.ofNumber divider) = false ->
  0 <= DECIMAL_PLACES <= BigNumber.MAX ->
  0 <= ZanNumber.scale_or_default scale <= BigNumber.MAX ->
  exists r,
    Money.divideAndRound this divider scale = Ok r /\
    ZanNumber.divideAndRound (_value this) divider scale = Ok (_value r) /\
    Money.getCurrencyCode r = Money.getCurrencyCode this /\
    BigNumber.is_neg (Money.toBigNumber r)
    = xorb (BigNumber.is_neg (Money.toBigNumber this))
        (BigNumber.is_neg (BigNumber.ofNumber divider)) /\
    (BigNumber.magnitude (Money.toBigNumber r)
     == round_half_up
          (round_half_up
             (BigNumber.magnitude (Money.toBigNumber this)
              / BigNumber.magnitude (BigNumber.ofNumber divider))
             DECIMAL_PLACES)
          (ZanNumber.scale_or_default scale))%Q.
Proof.
  unfold Money.toBigNumber, Money.getCurrencyCode, ZanNumber.toBigNumber.
  intros Hcan Hexp Hvalid Hwf Hfin Hnz Hdp Hscale.
  destruct divider as [| |neg M E]; try discriminate Hfin.
  pose proof (ofNumber_canonical neg M E Hwf) as Hcf.
  destruct (ofNumber_exponent neg M E Hwf) as [_ Hef].
  set (f := BigNumber.ofNumber (Finite neg M E)) in *.
  destruct (dividedBy_spec DECIMAL_PLACES (value (_value this)) f Hcan Hcf Hnz Hdp)
    as [Hcq [Hsq [Hmq Heq]]];
    [unfold BigNumber.MIN_EXP, BigNumber.MAX_EXP in *; lia
    |unfold BigNumber.MIN_EXP, BigNumber.MAX_EXP in *; lia|].
  destruct (round_general
              {| value := BigNumber.dividedBy DECIMAL_PLACES (value (_value this)) f |}
              (ZanNumber.scale_or_default scale) Hcq Hscale)
    as [r [Hr [Hsr Hmr]]].
  { cbn [value]. unfold BigNumber.MIN_EXP, BigNumber.MAX_EXP in *. lia. }
  cbn [value] in Hsr, Hmr.
  assert (Hzan : forall sc, ZanNumber.scale_or_default sc = ZanNumber.scale_or_default scale ->
                            ZanNumber.divideAndRound (_value this) (Finite neg M E) sc = Ok r).
  { intros sc Hsc. unfold ZanNumber.divideAndRound. fold f. rewrite Hnz, Hsc. exact Hr. }
  assert (Hfr : BigNumber.isFinite (value r) = true).
  { unfold ZanNumber.round in Hr. apply bind_ok in Hr. destruct Hr as [b [_ Hb]].
    destruct (new_zan_ok _ _ Hb) as [-> Hfb]. exact Hfb. }
  exists {| _value := r; currencyCode := currencyCode this |}.
  split.
  - unfold Money.divideAndRound. rewrite (Hzan (Some (ZanNumber.scale_or_default scale)) eq_refl). cbn [bind].
    unfold ZanNumber.toBigNumber. destruct r as [b]. cbn [value] in *.
    now apply new_money_finite.
  - cbn [_value currencyCode]. split; [apply Hzan; reflexivity|].
    split; [reflexivity|]. split; [rewrite Hsr; exact Hsq|].
    rewrite Hmr. unfold round_half_up at 1 3.
    assert (E1 : (BigNumber.magnitude
                    (BigNumber.dividedBy DECIMAL_PLACES (value (_value this)) f)
                  * (10 # 1) ^ ZanNumber.scale_or_default scale + (1 # 2)
                  == round_half_up
                       (BigNumber.magnitude (value (_value this)) / BigNumber.magnitude f)
                       DECIMAL_PLACES
                     * (10 # 1) ^ ZanNumber.scale_or_default scale + (1 # 2))%Q)
      by now rewrite Hmq.
    now rewrite (Qfloor_comp _ _ E1).
Qed.

Lemma divideAndRound_value_witness :
  exists r,
    @Money.divideAndRound default_library usd_one (num 3) (Some 2) = Ok r /\
    (BigNumber.magnitude (Money.toBigNumber r) == 33 # 100)%Q.
Proof.
  destruct (@divideAndRound_value default_library usd_one (num 3) (Some 2))
    as [r [Hr [_ [_ [_ Hm]]]]]; try reflexivity.
  - vm_compute. split; discriminate.
  - vm_compute. split; discriminate.
  - vm_compute. split; discriminate.
  - exists r. split; [exact Hr|]. rewrite Hm. vm_compute. reflexivity.
Defined.

(** ** Printing and reading *)

Section DigitCharacters.
Local Open Scope list_scope.

Lemma digit_cases (d : Z) :
  0 <= d <= 9 ->
  d = 0 \/ d = 1 \/ d = 2 \/ d = 3 \/ d = 4 \/ d = 5 \/ d = 6 \/ d = 7 \/ d = 8 \/ d = 9.
Proof. lia. Qed.

Lemma ascii_of_digit_spec (d : Z) :
  0 <= d <= 9 ->
  is_digit (ascii_of_digit d) = true /\
  digit_of_ascii (ascii_of_digit d) = d /\
  ascii_of_digit d <> "-"%char /\ ascii_of_digit d <> "."%char.
Proof.
  intros H.
  destruct (digit_cases d H) as [->|[->|[->|[->|[->|[->|[->|[->|[->| ->]]]]]]]]];
    repeat split; (reflexivity || discriminate).
Qed.

Lemma digits_of_chars_of_digits (ds : list Z) :
  digits_ok ds -> digits_of_chars (chars_of_digits ds) = ds.
Proof.
  unfold digits_of_chars, chars_of_digits.
  induction 1 as [|d ds Hd _ IH]; [reflexivity|].
  cbn [map]. destruct (ascii_of_digit_spec d Hd) as [_ [-> _]]. now rewrite IH.
Qed.

Lemma span_digits_chars (ds : list Z) (rest : list ascii) :
  digits_ok ds ->
  span_digits (chars_of_digits ds ++ rest)
  = (chars_of_digits ds ++ fst (span_digits rest), snd (span_digits rest)).
Proof.
  unfold chars_of_digits. induction 1 as [|d ds Hd _ IH].
  - cbn [map app]. now destruct (span_digits rest).
  - cbn [map app span_digits].
    destruct (ascii_of_digit_spec d Hd) as [-> _]. now rewrite IH.
Qed.

Lemma chars_of_digits_length (ds : list Z) :
  List.length (chars_of_digits ds) = List.length ds.
Proof. apply length_map. Qed.

Lemma zeros_chars (n : Z) : BigNumber.zeros n = chars_of_digits (repeat 0 (Z.to_nat n)).
Proof. unfold BigNumber.zeros, chars_of_digits. now rewrite map_repeat. Qed.

Lemma digits_ok_repeat (k : nat) : digits_ok (repeat 0 k).
Proof. apply Forall_forall. intros x Hx. apply repeat_spec in Hx. lia. Qed.

Lemma digits_ok_app (a b : list Z) : digits_ok a -> digits_ok b -> digits_ok (a ++ b).
Proof. intros. now apply Forall_app. Qed.

Lemma drop_zeros_repeat (k : nat) (c : list Z) :
  drop_zeros (repeat 0 k ++ c) = drop_zeros c.
Proof. induction k as [|k IH]; [reflexivity | exact IH]. Qed.

Lemma drop_zeros_nonzero (d : Z) (ds : list Z) : d <> 0 -> drop_zeros (d :: ds) = d :: ds.
Proof. intros H. destruct d; [contradiction | reflexivity | reflexivity]. Qed.

Lemma strip_trailing_zeros_padded (c : list Z) (k : nat) :
  c <> [] -> last c 0 <> 0 -> strip_trailing_zeros (c ++ repeat 0 k) = c.
Proof.
  intros Hne Hlast. unfold strip_trailing_zeros.
  rewrite rev_app_distr, rev_repeat, drop_zeros_repeat.
  destruct (exists_last Hne) as [front [l ->]].
  rewrite last_last in Hlast.
  rewrite rev_app_distr. cbn [rev app].
  rewrite (drop_zeros_nonzero l _ Hlast).
  change (l :: rev front) with ([l] ++ rev front).
  rewrite rev_app_distr, rev_involutive. reflexivity.
Qed.

(** The end of the string constructor on the digits of a canonical value
    between zeros. *)
Lemma ofDigits_padded (neg : bool) (d : Z) (ds : list Z) (k1 k2 : nat) (e : Z) :
  d <> 0 -> last (d :: ds) 0 <> 0 ->
  BigNumber.MIN_EXP <= e <= BigNumber.MAX_EXP ->
  BigNumber.ofDigits neg (repeat 0 k1 ++ (d :: ds) ++ repeat 0 k2) (e + 1 + Z.of_nat k1)
  = BFinite neg (d :: ds) e.
Proof.
  intros Hd Hlast He. unfold BigNumber.ofDigits.
  rewrite drop_zeros_repeat.
  change ((d :: ds) ++ repeat 0 k2) with (d :: (ds ++ repeat 0 k2)).
  rewrite (drop_zeros_nonzero d _ Hd).
  change (d :: (ds ++ repeat 0 k2)) with ((d :: ds) ++ repeat 0 k2).
  rewrite (strip_trailing_zeros_padded (d :: ds) k2 ltac:(discriminate) Hlast).
  cbn [is_nil].
  rewrite length_app, repeat_length.
  set (L := List.length ((d :: ds) ++ repeat 0 k2)).
  replace (Z.of_nat (k1 + L - L)) with (Z.of_nat k1) by lia.
  replace (e + 1 + Z.of_nat k1 - Z.of_nat k1 - 1) with e by lia.
  destruct (Z.ltb_spec BigNumber.MAX_EXP e); [lia|].
  destruct (Z.ltb_spec e BigNumber.MIN_EXP); [lia|]. reflexivity.
Qed.

End DigitCharacters.

Section Reading.
Local Open Scope list_scope.

Lemma chars_not_nil (I : list Z) : I <> [] -> is_nil (chars_of_digits I) = false.
Proof. destruct I; [contradiction | reflexivity]. Qed.

Lemma read_mantissa_int (I : list Z) (rest : list ascii) :
  digits_ok I -> I <> [] -> after_mantissa rest ->
  BigNumber.read_mantissa (chars_of_digits I ++ rest) = Some (chars_of_digits I, [], rest).
Proof.
  intros HI Hne Hrest. unfold BigNumber.read_mantissa.
  rewrite (span_digits_chars I rest HI).
  destruct Hrest as [->|[tl ->]]; cbn [span_digits is_digit fst snd];
    rewrite app_nil_r, (chars_not_nil I Hne); reflexivity.
Qed.

Lemma read_mantissa_frac (I F : list Z) (rest : list ascii) :
  digits_ok I -> digits_ok F -> I <> [] -> after_mantissa rest ->
  BigNumber.read_mantissa (chars_of_digits I ++ "."%char :: chars_of_digits F ++ rest)
  = Some (chars_of_digits I, chars_of_digits F, rest).
Proof.
  intros HI HF Hne Hrest. unfold BigNumber.read_mantissa.
  rewrite (span_digits_chars I _ HI).
  change (span_digits ("."%char :: chars_of_digits F ++ rest))
    with (@nil ascii, "."%char :: chars_of_digits F ++ rest).
  cbn [fst snd]. rewrite app_nil_r.
  rewrite (span_digits_chars F rest HF).
  destruct Hrest as [->|[tl ->]]; cbn [span_digits is_digit fst snd];
    rewrite app_nil_r, (chars_not_nil I Hne); reflexivity.
Qed.

Lemma span_digits_all (ds : list Z) :
  digits_ok ds -> span_digits (chars_of_digits ds) = (chars_of_digits ds, []).
Proof.
  intros H. rewrite <- (app_nil_r (chars_of_digits ds)) at 1.
  rewrite (span_digits_chars ds [] H). cbn [span_digits fst snd]. now rewrite app_nil_r.
Qed.

Lemma read_digits (n : Z) (neg : bool) :
  0 <= n ->
  (let '(ds, r2) := span_digits (chars_of_digits (to_digits n)) in
   if is_nil ds || negb (is_nil r2) then None
   else Some (if neg then - of_digits (digits_of_chars ds)
              else of_digits (digits_of_chars ds)))
  = Some (if neg then - n else n).
Proof.
  intros Hn. destruct (to_digits_spec n Hn) as [Hv [Hok [Hne _]]].
  rewrite (span_digits_all _ Hok), (chars_not_nil _ Hne). cbn [is_nil negb orb].
  now rewrite (digits_of_chars_of_digits _ Hok), Hv.
Qed.

(** The exponent part that [toExponential] writes is read as the
    exponent. *)
Lemma read_exponent_written (e : Z) :
  BigNumber.read_exponent
    ((if e <? 0 then ["e"%char] else ["e"; "+"]%char) ++ chars_of_Z e)
  = Some e.
Proof.
  unfold chars_of_Z. destruct (Z.ltb_spec e 0) as [Hneg|Hpos].
  - cbn [app BigNumber.read_exponent].
    change (BigNumber.is_exp_mark "e") with true. cbv iota.
    rewrite (read_digits (- e) true) by lia. f_equal. lia.
  - cbn [app BigNumber.read_exponent].
    change (BigNumber.is_exp_mark "e") with true. cbv iota.
    now rewrite (read_digits e false) by lia.
Qed.

End Reading.

Section PrintThenRead.
Local Open Scope list_scope.

Lemma after_mantissa_nil : after_mantissa [].
Proof. now left. Qed.

Lemma after_mantissa_exponent (e : Z) :
  after_mantissa ((if e <? 0 then ["e"%char] else ["e"; "+"]%char) ++ chars_of_Z e).
Proof. right. destruct (e <? 0); cbn [app]; eauto. Qed.

Lemma ofDigits_exact (neg : bool) (d : Z) (ds : list Z) (e : Z) :
  d <> 0 -> last (d :: ds) 0 <> 0 ->
  BigNumber.MIN_EXP <= e <= BigNumber.MAX_EXP ->
  BigNumber.ofDigits neg (d :: ds) (e + 1) = BFinite neg (d :: ds) e.
Proof.
  intros Hd Hl He.
  pose proof (ofDigits_padded neg d ds 0 0 e Hd Hl He) as H.
  cbn [repeat app] in H. rewrite app_nil_r in H.
  replace (e + 1 + Z.of_nat 0) with (e + 1) in H by lia. exact H.
Qed.

(** Reading what [render] wrote gives the digits and the exponent back. *)
Lemma read_rendered (neg : bool) (d : Z) (ds : list Z) (e : Z) :
  digits_ok (d :: ds) -> d <> 0 -> last (d :: ds) 0 <> 0 ->
  BigNumber.MIN_EXP <= e <= BigNumber.MAX_EXP ->
  exists ip fp rest ex,
    BigNumber.read_mantissa (BigNumber.render (d :: ds) e) = Some (ip, fp, rest) /\
    BigNumber.read_exponent rest = Some ex /\
    BigNumber.ofDigits neg (digits_of_chars (ip ++ fp)) (Z.of_nat (List.length ip) + ex)
    = BFinite neg (d :: ds) e.
Proof.
  intros Hok Hd Hl He.
  inversion Hok as [|? ? Hd0 Hds]. subst.
  assert (Hone : digits_ok [d]) by (constructor; [assumption | constructor]).
  unfold BigNumber.render.
  destruct ((e <=? BigNumber.TO_EXP_NEG) || (BigNumber.TO_EXP_POS <=? e)).
  - (* exponential notation *)
    unfold BigNumber.toExponential.
    set (expo := (if e <? 0 then ["e"%char] else ["e"; "+"]%char) ++ chars_of_Z e).
    pose proof (after_mantissa_exponent e) as Hexp. fold expo in Hexp.
    pose proof (read_exponent_written e) as Hre. fold expo in Hre.
    destruct ds as [|d2 ds'].
    + change (chars_of_digits [d]) with (chars_of_digits [d] ++ []) at 1.
      cbn [chars_of_digits map app].
      change (ascii_of_digit d :: expo) with (chars_of_digits [d] ++ expo).
      exists (chars_of_digits [d]), [], expo, e.
      split; [exact (read_mantissa_int [d] expo Hone ltac:(discriminate) Hexp)|].
      split; [exact Hre|].
      rewrite app_nil_r, (digits_of_chars_of_digits _ Hone).
      cbn [chars_of_digits map List.length].
      replace (Z.of_nat 1 + e) with (e + 1) by lia. now apply ofDigits_exact.
    + change (chars_of_digits (d :: d2 :: ds'))
        with (ascii_of_digit d :: chars_of_digits (d2 :: ds')).
      cbn [chars_of_digits map]. cbn [app].
      change (ascii_of_digit d :: "."%char :: (ascii_of_digit d2 :: map ascii_of_digit ds') ++ expo)
        with (chars_of_digits [d] ++ "."%char :: chars_of_digits (d2 :: ds') ++ expo).
      exists (chars_of_digits [d]), (chars_of_digits (d2 :: ds')), expo, e.
      split; [exact (read_mantissa_frac [d] (d2 :: ds') expo Hone Hds
                       ltac:(discriminate) Hexp)|].
      split; [exact Hre|].
      unfold chars_of_digits. rewrite <- map_app. fold (chars_of_digits ([d] ++ d2 :: ds')).
      cbn [app]. rewrite (digits_of_chars_of_digits _ Hok).
      cbn [map List.length].
      replace (Z.of_nat 1 + e) with (e + 1) by lia. now apply ofDigits_exact.
  - (* plain notation *)
    unfold BigNumber.toFixedPoint. rewrite chars_of_digits_length.
    set (c := d :: ds) in *. set (len := Z.of_nat (List.length c)).
    assert (Hlen : 1 <= len) by (unfold len, c; cbn [List.length]; lia).
    destruct (Z.ltb_spec e 0) as [Hneg|Hnn].
    + rewrite zeros_chars.
      change ("0"%char :: "."%char :: chars_of_digits (repeat 0 (Z.to_nat (- e - 1)))
                ++ chars_of_digits c)
        with (chars_of_digits [0] ++ "."%char
                :: chars_of_digits (repeat 0 (Z.to_nat (- e - 1))) ++ chars_of_digits c).
      unfold chars_of_digits at 2 3. rewrite <- map_app.
      fold (chars_of_digits (repeat 0 (Z.to_nat (- e - 1)) ++ c)).
      rewrite <- (app_nil_r (chars_of_digits (repeat 0 (Z.to_nat (- e - 1)) ++ c))).
      assert (Hf : digits_ok (repeat 0 (Z.to_nat (- e - 1)) ++ c))
        by (apply digits_ok_app; [apply digits_ok_repeat | exact Hok]).
      assert (Hz : digits_ok [0]) by (constructor; [lia | constructor]).
      exists (chars_of_digits [0]), (chars_of_digits (repeat 0 (Z.to_nat (- e - 1)) ++ c)), [], 0.
      split; [apply read_mantissa_frac;
              (assumption || discriminate || apply after_mantissa_nil)|].
      split; [reflexivity|].
      unfold chars_of_digits. rewrite <- map_app.
      fold (chars_of_digits ([0] ++ repeat 0 (Z.to_nat (- e - 1)) ++ c)).
      rewrite digits_of_chars_of_digits by (apply digits_ok_app; assumption).
      cbn [map List.length].
      change ([0] ++ repeat 0 (Z.to_nat (- e - 1)) ++ c)
        with (repeat 0 (S (Z.to_nat (- e - 1))) ++ c).
      pose proof (ofDigits_padded neg d ds (S (Z.to_nat (- e - 1))) 0 e Hd Hl He) as H.
      cbn [repeat] in H. rewrite app_nil_r in H. fold c in H.
      replace (e + 1 + Z.of_nat (S (Z.to_nat (- e - 1)))) with (Z.of_nat 1 + 0) in H by lia.
      exact H.
    + destruct (Z.ltb_spec len (e + 1)) as [Hint|Hfrac].
      * rewrite zeros_chars. unfold chars_of_digits. rewrite <- map_app.
        fold (chars_of_digits (c ++ repeat 0 (Z.to_nat (e + 1 - len)))).
        set (k2 := Z.to_nat (e + 1 - len)).
        assert (Hi : digits_ok (c ++ repeat 0 k2))
          by (apply digits_ok_app; [exact Hok | apply digits_ok_repeat]).
        rewrite <- (app_nil_r (chars_of_digits (c ++ repeat 0 k2))).
        exists (chars_of_digits (c ++ repeat 0 k2)), [], [], 0.
        split; [apply read_mantissa_int;
                [exact Hi | unfold c; discriminate | apply after_mantissa_nil]|].
        split; [reflexivity|].
        rewrite app_nil_r, (digits_of_chars_of_digits _ Hi), chars_of_digits_length.
        pose proof (ofDigits_padded neg d ds 0 k2 e Hd Hl He) as H.
        cbn [repeat] in H. change ([] ++ (d :: ds) ++ repeat 0 k2) with (c ++ repeat 0 k2) in H.
        replace (e + 1 + Z.of_nat 0)
          with (Z.of_nat (List.length (c ++ repeat 0 k2)) + 0) in H; [exact H|].
        rewrite length_app, repeat_length. unfold k2, len in *. lia.
      * destruct (Z.ltb_spec (e + 1) len) as [Hcut|Hall].
        -- set (n := Z.to_nat (e + 1)).
           unfold chars_of_digits. rewrite firstn_map, skipn_map.
           fold (chars_of_digits (firstn n c)). fold (chars_of_digits (skipn n c)).
           rewrite <- (app_nil_r (chars_of_digits (skipn n c))).
           assert (HI : digits_ok (firstn n c)) by now apply digits_ok_firstn.
           assert (HF : digits_ok (skipn n c)).
           { unfold digits_ok. apply Forall_forall. intros x Hx.
             pose proof Hok as Hall. unfold digits_ok in Hall.
             rewrite Forall_forall in Hall.
             apply Hall. rewrite <- (firstn_skipn n c). apply in_or_app. now right. }
           exists (chars_of_digits (firstn n c)), (chars_of_digits (skipn n c)), [], 0.
           split; [apply read_mantissa_frac; try assumption; [|apply after_mantissa_nil]|].
           { unfold c, n. replace (Z.to_nat (e + 1)) with (S (Z.to_nat e)) by lia.
             discriminate. }
           split; [reflexivity|].
           unfold chars_of_digits. rewrite <- map_app, firstn_skipn.
           fold (chars_of_digits c). rewrite (digits_of_chars_of_digits _ Hok).
           rewrite length_map, length_firstn.
           replace (Z.of_nat (Init.Nat.min n (List.length c)) + 0) with (e + 1)
             by (unfold n, len in *; lia).
           unfold c. now apply ofDigits_exact.
        -- rewrite <- (app_nil_r (chars_of_digits c)).
           exists (chars_of_digits c), [], [], 0.
           split; [apply read_mantissa_int;
                   [exact Hok | unfold c; discriminate | apply after_mantissa_nil]|].
           split; [reflexivity|].
           rewrite app_nil_r, (digits_of_chars_of_digits _ Hok), chars_of_digits_length.
           replace (Z.of_nat (List.length c) + 0) with (e + 1) by (unfold len in *; lia).
           unfold c. now apply ofDigits_exact.
Qed.

End PrintThenRead.

Section RoundTrip.
Local Open Scope list_scope.

Lemma strip_minus_digit (d : Z) (tl : list ascii) :
  0 <= d <= 9 ->
  BigNumber.strip_minus (ascii_of_digit d :: tl) = (false, ascii_of_digit d :: tl).
Proof.
  intros H.
  destruct (digit_cases d H) as [->|[->|[->|[->|[->|[->|[->|[->|[->| ->]]]]]]]]];
    reflexivity.
Qed.

(** A printed value starts with a digit. *)
Lemma render_head (d : Z) (ds : list Z) (e : Z) :
  0 <= d <= 9 ->
  exists d' tl, 0 <= d' <= 9 /\ BigNumber.render (d :: ds) e = ascii_of_digit d' :: tl.
Proof.
  intros Hd. unfold BigNumber.render.
  destruct ((e <=? BigNumber.TO_EXP_NEG) || (BigNumber.TO_EXP_POS <=? e)).
  - unfold BigNumber.toExponential, chars_of_digits. cbn [map].
    destruct (map ascii_of_digit ds); cbn [app]; eauto.
  - unfold BigNumber.toFixedPoint, chars_of_digits. cbn [map].
    destruct (Z.ltb_spec e 0) as [Hneg|Hnn];
      [exists 0; eexists; split; [lia | reflexivity]|].
    destruct (_ <? e + 1); [cbn [app]; eauto|].
    destruct (e + 1 <? _); [|eauto].
    replace (Z.to_nat (e + 1)) with (S (Z.to_nat e)) by lia.
    cbn [firstn app]. eauto.
Qed.

(** What a canonical value prints as, the string constructor reads as the
    same value; only the sign of a negative zero, which is not printed, is
    lost. *)
Lemma ofString_toString (fallback : string -> BigNumber) (x : BigNumber) :
  Invariant.canonical x = true ->
  BigNumber.ofString fallback (BigNumber.toString x)
  = if BigNumber.isZero x then BigNumber.zero false else x.
Proof.
  intros Hcan. destruct x as [| |neg c e]; try discriminate Hcan.
  destruct (canonical_cases _ _ _ Hcan) as [[-> ->]|[Hz [Hok [Hnt _]]]].
  { destruct neg; reflexivity. }
  rewrite Hz. destruct (canonical_parts _ _ _ Hcan) as [_ [He Hhead]].
  destruct Hhead as [->|[d [ds [-> Hd]]]]; [discriminate Hz|].
  assert (Hd0 : d <> 0) by lia.
  pose proof (Hnt ltac:(discriminate)) as Hlast.
  inversion Hok as [|? ? Hdr _]. subst.
  destruct (read_rendered neg d ds e Hok Hd0 Hlast He)
    as [ip [fp [rest [ex [Hrm [Hre Hof]]]]]].
  destruct (render_head d ds e Hdr) as [d' [tl [Hd' Hhd]]].
  unfold BigNumber.toString, BigNumber.ofString. rewrite Hz, andb_true_r.
  rewrite list_ascii_of_string_of_list_ascii.
  unfold BigNumber.isNumeric, BigNumber.ofDecimal.
  destruct neg.
  - cbn [BigNumber.strip_minus]. rewrite Hrm, Hre. exact Hof.
  - rewrite Hhd, (strip_minus_digit d' tl Hd'), <- Hhd, Hrm, Hre. exact Hof.
Qed.

End RoundTrip.

(** X17. A Money survives its transfer record: for a Money with a canonical
    value and a recognized currency, [fromMoneyDto(m.toMoneyDto())] returns
    a Money with the same value and currency, whether the amount was printed
    in plain or in exponential notation; so does [fromString] on
    [m.toString()].  Only a negative zero comes back as zero. *)
Theorem money_survives_its_record `{lib : Library} (m : Money) :
  Invariant.canonical (Money.toBigNumber m) = true ->
  isValidCurrencyCode (Money.getCurrencyCode m) = true ->
  let back :=
    {| _value := {| value := if BigNumber.isZero (Money.toBigNumber m)
                             then BigNumber.zero false else Money.toBigNumber m |};
       currencyCode := Money.getCurrencyCode m |} in
  MoneyFactory.fromMoneyDto (Money.toMoneyDto m) = Ok back /\
  MoneyFactory.fromString (Money.toString m) (Some (Money.getCurrencyCode m)) = Ok back /\
  (BigNumber.isZero (Money.toBigNumber m) = false -> back = m).
Proof.
  intros Hcan Hvalid back.
  unfold Money.toBigNumber, Money.getCurrencyCode, ZanNumber.toBigNumber in *.
  pose proof (ofString_toString parseNumeric _ Hcan) as Hback.
  assert (Hfin : BigNumber.isFinite (value (_value back)) = true).
  { unfold back. cbn [_value value].
    destruct (BigNumber.isZero _); [reflexivity|]. now destruct (canonical_finite _ Hcan). }
  assert (Hnan : BigNumber.isNaN (value (_value back)) = false)
    by (destruct (value (_value back)); (discriminate Hfin || reflexivity)).
  unfold back in Hfin, Hnan. cbn [_value value] in Hfin, Hnan.
  split; [|split].
  - unfold MoneyFactory.fromMoneyDto, Money.toMoneyDto. cbn [amount currency].
    unfold ZanNumber.toString. rewrite Hback, Hnan, Hfin. cbn [negb orb].
    now apply new_money_finite.
  - unfold MoneyFactory.fromString, Money.toString, ZanNumber.toString.
    cbn [MoneyFactory.or_USD]. rewrite (validate_valid _ Hvalid). cbn [bind].
    rewrite Hback, Hnan, Hfin. cbn [negb orb].
    now apply new_money_finite.
  - intros Hz. unfold back. rewrite Hz. destruct m as [[v] c]. reflexivity.
Qed.

Lemma money_survives_its_record_witness :
  @MoneyFactory.fromMoneyDto default_library
    (Money.toMoneyDto
       {| _value := {| value := BFinite true [1; 2; 5] (-9) |}; currencyCode := "EUR" |})
  = Ok {| _value := {| value := BFinite true [1; 2; 5] (-9) |}; currencyCode := "EUR" |}.
Proof.
  exact (proj1 (@money_survives_its_record default_library
                  {| _value := {| value := BFinite true [1; 2; 5] (-9) |};
                     currencyCode := "EUR" |} eq_refl eq_refl)).
Defined.

Section RecordPattern.
Local Open Scope list_scope.

(** The pattern of [amount] on digits, an optional point and digits, and
    what follows. *)
Lemma amount_int (I : list Z) (rest : list ascii) :
  digits_ok I -> I <> [] -> after_mantissa rest ->
  (let '(ip, r1) := span_digits (chars_of_digits I ++ rest) in
   negb (is_nil ip) &&
   match r1 with
   | [] => true
   | "."%char :: r2 =>
       let '(fp, r3) := span_digits r2 in negb (is_nil fp) && is_nil r3
   | _ => false
   end) = is_nil rest.
Proof.
  intros HI Hne Hrest. rewrite (span_digits_chars I rest HI).
  destruct Hrest as [->|[tl ->]]; cbn [span_digits is_digit fst snd];
    rewrite app_nil_r, (chars_not_nil I Hne); reflexivity.
Qed.

Lemma amount_frac (I F : list Z) (rest : list ascii) :
  digits_ok I -> digits_ok F -> I <> [] -> F <> [] -> after_mantissa rest ->
  (let '(ip, r1) := span_digits (chars_of_digits I ++ "."%char :: chars_of_digits F ++ rest) in
   negb (is_nil ip) &&
   match r1 with
   | [] => true
   | "."%char :: r2 =>
       let '(fp, r3) := span_digits r2 in negb (is_nil fp) && is_nil r3
   | _ => false
   end) = is_nil rest.
Proof.
  intros HI HF Hne HneF Hrest. rewrite (span_digits_chars I _ HI).
  change (span_digits ("."%char :: chars_of_digits F ++ rest))
    with (@nil ascii, "."%char :: chars_of_digits F ++ rest).
  cbn [fst snd]. rewrite app_nil_r, (chars_not_nil I Hne).
  cbn [negb andb]. rewrite (span_digits_chars F rest HF).
  destruct Hrest as [->|[tl ->]]; cbn [span_digits is_digit fst snd];
    rewrite app_nil_r, (chars_not_nil F HneF); reflexivity.
Qed.

(** Which printed values have the form of a record's amount: those in
    plain notation. *)
Lemma rendered_amount (d : Z) (ds : list Z) (e : Z) :
  digits_ok (d :: ds) ->
  (let '(ip, r1) := span_digits (BigNumber.render (d :: ds) e) in
   negb (is_nil ip) &&
   match r1 with
   | [] => true
   | "."%char :: r2 =>
       let '(fp, r3) := span_digits r2 in negb (is_nil fp) && is_nil r3
   | _ => false
   end)
  = negb ((e <=? BigNumber.TO_EXP_NEG) || (BigNumber.TO_EXP_POS <=? e)).
Proof.
  intros Hok. inversion Hok as [|? ? Hd0 Hds]. subst.
  assert (Hone : digits_ok [d]) by (constructor; [assumption | constructor]).
  unfold BigNumber.render.
  destruct ((e <=? BigNumber.TO_EXP_NEG) || (BigNumber.TO_EXP_POS <=? e)); cbn [negb].
  - unfold BigNumber.toExponential.
    set (expo := (if e <? 0 then ["e"%char] else ["e"; "+"]%char) ++ chars_of_Z e).
    pose proof (after_mantissa_exponent e) as Hexp. fold expo in Hexp.
    assert (Hnil : is_nil expo = false) by (unfold expo; destruct (e <? 0); reflexivity).
    destruct ds as [|d2 ds'].
    + transitivity (is_nil expo); [|exact Hnil].
      exact (amount_int [d] expo Hone ltac:(discriminate) Hexp).
    + transitivity (is_nil expo); [|exact Hnil].
      exact (amount_frac [d] (d2 :: ds') expo Hone Hds ltac:(discriminate)
               ltac:(discriminate) Hexp).
  - unfold BigNumber.toFixedPoint. rewrite chars_of_digits_length.
    set (c := d :: ds) in *. set (len := Z.of_nat (List.length c)).
    assert (Hz : digits_ok [0]) by (constructor; [lia | constructor]).
    destruct (Z.ltb_spec e 0) as [Hneg|Hnn].
    + rewrite zeros_chars.
      assert (Hf : digits_ok (repeat 0 (Z.to_nat (- e - 1)) ++ c))
        by (apply digits_ok_app; [apply digits_ok_repeat | exact Hok]).
      pose proof (amount_frac [0] (repeat 0 (Z.to_nat (- e - 1)) ++ c) [] Hz Hf
                    ltac:(discriminate)) as H.
      unfold chars_of_digits in H at 2. rewrite map_app in H.
      rewrite app_nil_r in H. apply H; [|apply after_mantissa_nil].
      unfold c. destruct (repeat 0 (Z.to_nat (- e - 1))); discriminate.
    + destruct (Z.ltb_spec len (e + 1)) as [Hint|Hfrac].
      * rewrite zeros_chars.
        assert (Hi : digits_ok (c ++ repeat 0 (Z.to_nat (e + 1 - len))))
          by (apply digits_ok_app; [exact Hok | apply digits_ok_repeat]).
        pose proof (amount_int (c ++ repeat 0 (Z.to_nat (e + 1 - len))) [] Hi) as H.
        unfold chars_of_digits in H. rewrite map_app, app_nil_r in H.
        apply H; [unfold c; discriminate | apply after_mantissa_nil].
      * destruct (Z.ltb_spec (e + 1) len) as [Hcut|Hall].
        -- set (n := Z.to_nat (e + 1)).
           assert (HI : digits_ok (firstn n c)) by now apply digits_ok_firstn.
           assert (HF : digits_ok (skipn n c)).
           { unfold digits_ok. apply Forall_forall. intros x Hx.
             pose proof Hok as Hall. unfold digits_ok in Hall.
             rewrite Forall_forall in Hall.
             apply Hall. rewrite <- (firstn_skipn n c). apply in_or_app. now right. }
           pose proof (amount_frac (firstn n c) (skipn n c) [] HI HF) as H.
           unfold chars_of_digits in H. rewrite <- firstn_map, <- skipn_map, app_nil_r in H.
           apply H; [| |apply after_mantissa_nil].
           ++ unfold c, n. replace (Z.to_nat (e + 1)) with (S (Z.to_nat e)) by lia.
              discriminate.
           ++ intros Hs. apply (f_equal (@List.length Z)) in Hs.
              rewrite length_skipn in Hs. cbn [List.length] in Hs.
              unfold len, n in *. lia.
        -- pose proof (amount_int c [] Hok) as H. rewrite app_nil_r in H.
           apply H; [unfold c; discriminate | apply after_mantissa_nil].
Qed.

End RecordPattern.

(** X18. When [toMoneyDto] gives a valid record: for a Money with a
    canonical value, the amount of [m.toMoneyDto()] has the form that
    [MoneyDto] declares for it exactly when the value is printed in plain
    notation, that is when its exponent is above -7 and below 21. *)
Theorem toMoneyDto_matches_the_pattern `{lib : Library} (m : Money) :
  Invariant.canonical (Money.toBigNumber m) = true ->
  matches_amount (amount (Money.toMoneyDto m))
  = (BigNumber.TO_EXP_NEG <? Invariant.exponent (Money.toBigNumber m))
    && (Invariant.exponent (Money.toBigNumber m) <? BigNumber.TO_EXP_POS).
Proof.
  unfold Money.toBigNumber, ZanNumber.toBigNumber, Money.toMoneyDto, ZanNumber.toString.
  cbn [amount]. intros Hcan.
  destruct (value (_value m)) as [| |neg c e]; try discriminate Hcan.
  cbn [Invariant.exponent].
  destruct (canonical_cases _ _ _ Hcan) as [[-> ->]|[Hz [Hok _]]].
  { destruct neg; reflexivity. }
  destruct (canonical_parts _ _ _ Hcan) as [_ [_ Hhead]].
  destruct Hhead as [->|[d [ds [-> Hd]]]]; [discriminate Hz|].
  inversion Hok as [|? ? Hdr _]. subst.
  pose proof (rendered_amount d ds e Hok) as Hpat.
  destruct (render_head d ds e Hdr) as [d' [tl [Hd' Hhd]]].
  unfold matches_amount, BigNumber.toString. rewrite Hz, andb_true_r.
  rewrite list_ascii_of_string_of_list_ascii.
  assert (Hrange : negb ((e <=? BigNumber.TO_EXP_NEG) || (BigNumber.TO_EXP_POS <=? e))
                   = (BigNumber.TO_EXP_NEG <? e) && (e <? BigNumber.TO_EXP_POS)).
  { rewrite negb_orb, Z.leb_antisym, Z.leb_antisym, !negb_involutive. reflexivity. }
  rewrite <- Hrange, <- Hpat.
  destruct neg.
  - cbn [BigNumber.strip_minus]. reflexivity.
  - rewrite Hhd, (strip_minus_digit d' tl Hd'). reflexivity.
Qed.

Lemma toMoneyDto_matches_the_pattern_witness :
  matches_amount (amount (Money.toMoneyDto minus_0_015_usd)) = true /\
  matches_amount
    (amount (Money.toMoneyDto
               {| _value := {| value := BFinite false [1] (-7) |}; currencyCode := "USD" |}))
  = false.
Proof.
  split.
  - exact (@toMoneyDto_matches_the_pattern default_library minus_0_015_usd eq_refl).
  - exact (@toMoneyDto_matches_the_pattern default_library
             {| _value := {| value := BFinite false [1] (-7) |}; currencyCode := "USD" |}
             eq_refl).
Defined.

Section ReadingDecimals.
Local Open Scope list_scope.
Context {lib : Library}.

Lemma of_digits_leading_zeros (t : nat) (ds : list Z) :
  of_digits (repeat 0 t ++ ds) = of_digits ds.
Proof. rewrite of_digits_app, of_digits_repeat_zero. lia. Qed.

Lemma of_digits_trailing_zeros (ds : list Z) (t : nat) :
  of_digits (ds ++ repeat 0 t) = of_digits ds * 10 ^ Z.of_nat t.
Proof. rewrite of_digits_app, of_digits_repeat_zero, repeat_length. lia. Qed.

(** The value that the end of the string constructor gives to digits. *)
Lemma ofDigits_value (neg : bool) (str : list Z) (e0 : Z) :
  digits_ok str ->
  e0 <= BigNumber.MAX_EXP + 1 ->
  BigNumber.MIN_EXP <= e0 - Z.of_nat (List.length str) ->
  BigNumber.isFinite (BigNumber.ofDigits neg str e0) = true /\
  BigNumber.is_neg (BigNumber.ofDigits neg str e0) = neg /\
  (BigNumber.magnitude (BigNumber.ofDigits neg str e0)
   == inject_Z (of_digits str) * (10 # 1) ^ (e0 - Z.of_nat (List.length str)))%Q.
Proof.
  intros Hok Hhi Hlo. unfold BigNumber.ofDigits.
  destruct (drop_zeros_decomp str) as [t Ht].
  destruct (strip_trailing_zeros_decomp (drop_zeros str)) as [t2 Ht2].
  set (tail := drop_zeros str) in *. set (ds := strip_trailing_zeros tail) in *.
  assert (Hlen : List.length str = (t + (List.length ds + t2))%nat).
  { rewrite Ht, length_app, repeat_length, Ht2, length_app, repeat_length. reflexivity. }
  assert (Hltail : List.length tail = (List.length ds + t2)%nat).
  { rewrite Ht2, length_app, repeat_length. reflexivity. }
  assert (Hval : of_digits str = of_digits ds * 10 ^ Z.of_nat t2).
  { rewrite Ht, of_digits_leading_zeros, Ht2. apply of_digits_trailing_zeros. }
  destruct ds as [|d ds'] eqn:Eds; cbn [is_nil].
  - split; [reflexivity|]. split; [reflexivity|].
    rewrite magnitude_zero, Hval. change (of_digits []) with 0.
    rewrite Z.mul_0_l. change (inject_Z 0) with 0%Q. ring.
  - rewrite Hlen, Hltail.
    replace (Z.of_nat (t + (List.length (d :: ds') + t2) - (List.length (d :: ds') + t2)))
      with (Z.of_nat t) by lia.
    cbn [List.length] in *.
    destruct (Z.ltb_spec BigNumber.MAX_EXP (e0 - Z.of_nat t - 1)); [lia|].
    destruct (Z.ltb_spec (e0 - Z.of_nat t - 1) BigNumber.MIN_EXP); [lia|].
    split; [reflexivity|]. split; [reflexivity|].
    unfold BigNumber.magnitude, BigNumber.coefficient, BigNumber.unit_exponent.
    rewrite Hval, inject_Z_mult, pow10_inject by lia.
    rewrite <- Qmult_assoc, <- Qpower_plus by apply ten_not_0.
    cbn [List.length].
    replace (Z.of_nat t2 + (e0 - Z.of_nat (t + (S (List.length ds') + t2))))
      with (e0 - Z.of_nat t - 1 - Z.of_nat (S (List.length ds')) + 1) by lia.
    reflexivity.
Qed.

(** A string of the form of a record's amount is read as the number it
    writes. *)
Lemma ofString_written (str : string) :
  matches_amount str = true ->
  Z.of_nat (String.length str) <= BigNumber.MAX_EXP ->
  BigNumber.isFinite (BigNumber.ofString parseNumeric str) = true /\
  Invariant.canonical (BigNumber.ofString parseNumeric str) = true /\
  (Qvalue (BigNumber.ofString parseNumeric str) == written_value str)%Q.
Proof.
  intros Hpat Hlen.
  destruct (matches_amount_finite str Hpat Hlen) as [Hnum Hfin].
  split; [exact Hfin|].
  unfold BigNumber.ofString in *. rewrite Hnum in *.
  split; [now apply ofDecimal_canonical|].
  revert Hpat Hlen. clear Hnum Hfin.
  unfold matches_amount, written_value, BigNumber.ofDecimal, BigNumber.read_mantissa.
  rewrite <- (length_list_ascii_of_string str).
  generalize (list_ascii_of_string str) as cs. intros cs.
  destruct (BigNumber.strip_minus cs) as [neg cs1] eqn:Hm.
  pose proof (strip_minus_length _ _ _ Hm) as Hlen1.
  destruct (span_digits cs1) as [ip r1] eqn:Hip.
  pose proof (span_digits_length _ _ _ Hip) as Hlen2.
  pose proof (span_digits_are_digits _ _ _ Hip) as Hok1.
  intros H Hbound.
  apply andb_true_iff in H. destruct H as [Hnil H].
  assert (Hgoal : forall fp,
             digits_ok (digits_of_chars fp) ->
             (List.length ip + List.length fp <= List.length cs1)%nat ->
             (Qvalue (BigNumber.ofDigits neg (digits_of_chars (ip ++ fp))
                        (Z.of_nat (List.length ip) + 0))
              == if neg
                 then - (inject_Z (of_digits (digits_of_chars (ip ++ fp)))
                         / (10 # 1) ^ Z.of_nat (List.length fp))
                 else inject_Z (of_digits (digits_of_chars (ip ++ fp)))
                      / (10 # 1) ^ Z.of_nat (List.length fp))%Q).
  { intros fp Hok2 Hl.
    assert (Hok : digits_ok (digits_of_chars (ip ++ fp))).
    { unfold digits_of_chars. rewrite map_app. apply Forall_app. split; assumption. }
    assert (Hdl : List.length (digits_of_chars (ip ++ fp))
                  = (List.length ip + List.length fp)%nat).
    { unfold digits_of_chars. rewrite length_map, length_app. reflexivity. }
    destruct (ofDigits_value neg _ (Z.of_nat (List.length ip) + 0) Hok)
      as [_ [Hs Hv]];
      [unfold BigNumber.MAX_EXP in *; lia
      |rewrite Hdl; unfold BigNumber.MIN_EXP, BigNumber.MAX_EXP in *; lia|].
    rewrite (Qvalue_of_parts _ _ _ Hs Hv), Hdl.
    replace (Z.of_nat (List.length ip) + 0 - Z.of_nat (List.length ip + List.length fp))
      with (- Z.of_nat (List.length fp)) by lia.
    destruct neg; rewrite Qpower_opp; reflexivity. }
  destruct r1 as [|ch r2].
  - destruct (is_nil ip); [discriminate Hnil|].
    cbn [BigNumber.read_exponent]. apply Hgoal; [constructor | cbn [List.length]; lia].
  - destruct (Ascii.eqb ch ".") eqn:Edot.
    + apply Ascii.eqb_eq in Edot. subst ch.
      destruct (span_digits r2) as [fp r3] eqn:Hfp.
      pose proof (span_digits_length _ _ _ Hfp) as Hlen3.
      apply andb_true_iff in H. destruct H as [Hfpn Hr3].
      destruct r3; [|discriminate Hr3].
      destruct (is_nil ip); [discriminate Hnil|]. cbn [andb fst].
      cbn [BigNumber.read_exponent]. apply Hgoal.
      * exact (span_digits_are_digits _ _ _ Hfp).
      * cbn [List.length] in *. lia.
    + destruct ch as [[] [] [] [] [] [] [] []]; discriminate.
Qed.

End ReadingDecimals.

(** X19. Reading a decimal is exact: for a string of the form that
    [MoneyDto] declares for an amount (an optional minus, digits, optionally
    a point and digits; at most 1e7 characters) and a recognized currency,
    [fromString] and [fromMoneyDto] return the same Money, whose value is in
    canonical form and is exactly the number that the string writes. *)
Theorem reading_a_decimal_is_exact `{lib : Library} (str : string) (c : option string) :
  matches_amount str = true ->
  Z.of_nat (String.length str) <= BigNumber.MAX_EXP ->
  isValidCurrencyCode (MoneyFactory.or_USD c) = true ->
  exists m,
    MoneyFactory.fromString str c = Ok m /\
    MoneyFactory.fromMoneyDto {| amount := str; currency := MoneyFactory.or_USD c |} = Ok m /\
    Money.getCurrencyCode m = MoneyFactory.or_USD c /\
    Invariant.canonical (Money.toBigNumber m) = true /\
    (Qvalue (Money.toBigNumber m) == written_value str)%Q.
Proof.
  intros Hpat Hlen Hvalid.
  destruct (ofString_written str Hpat Hlen) as [Hfin [Hcan Hval]].
  assert (Hnan : BigNumber.isNaN (BigNumber.ofString parseNumeric str) = false)
    by (destruct (BigNumber.ofString parseNumeric str); (discriminate Hfin || reflexivity)).
  exists {| _value := {| value := BigNumber.ofString parseNumeric str |};
            currencyCode := MoneyFactory.or_USD c |}.
  split; [|split].
  - unfold MoneyFactory.fromString. rewrite (validate_valid _ Hvalid). cbn [bind].
    rewrite Hnan, Hfin. cbn [negb orb]. now apply new_money_finite.
  - unfold MoneyFactory.fromMoneyDto. cbn [amount currency].
    rewrite Hnan, Hfin. cbn [negb orb]. now apply new_money_finite.
  - unfold Money.getCurrencyCode, Money.toBigNumber, ZanNumber.toBigNumber.
    cbn [_value value currencyCode]. auto.
Qed.

Lemma reading_a_decimal_is_exact_witness :
  exists m,
    @MoneyFactory.fromString default_library "-0012.3400" None = Ok m /\
    Money.getCurrencyCode m = "USD" /\
    (Qvalue (Money.toBigNumber m) == - (1234 # 100))%Q.
Proof.
  destruct (@reading_a_decimal_is_exact default_library "-0012.3400" None)
    as [m [Hm [_ [Hc [_ Hv]]]]]; try reflexivity.
  - vm_compute. discriminate.
  - exists m. split; [exact Hm|]. split; [exact Hc|]. rewrite Hv. reflexivity.
Defined.

Section SafeIntegers.

(** A rational of at least [2^53] is not rounded to a number with a
    negative or zero exponent. *)
Lemma nearest_large (x : Q) (s : bool) (M E : Z) :
  (inject_Z (2 ^ 53) <= x)%Q ->
  JsNumber.nearest false x = Finite s M E -> 1 <= E.
Proof.
  intros Hx. unfold JsNumber.nearest.
  assert (Hpq : (inject_Z (Qnum (Qred x)) == x * inject_Z (Zpos (Qden (Qred x))))%Q).
  { rewrite (Qnum_den (Qred x)). apply Qmult_comp; [|reflexivity]. apply Qred_correct. }
  set (p := Qnum (Qred x)) in *. set (q := Zpos (Qden (Qred x))) in *.
  assert (Hq : 0 < q) by (unfold q; lia).
  assert (Hq' := inject_Z_pos q Hq).
  assert (Hlow : (inject_Z (2 ^ 53) * inject_Z q <= inject_Z p)%Q).
  { rewrite Hpq. apply Qmult_le_compat_r; [exact Hx | now apply Qlt_le_weak]. }
  assert (Hp : 0 < p).
  { rewrite <- inject_Z_mult, <- Zle_Qle in Hlow. nia. }
  destruct (Z.leb_spec p 0); [lia|].
  destruct (ilog2_spec p q Hp Hq) as [_ Hil].
  assert (Hilog : 53 <= JsNumber.ilog2 p q).
  { assert (53 < JsNumber.ilog2 p q + 1); [|lia].
    apply pow2_lt_inv.
    apply (Qmult_lt_r _ _ (inject_Z q) Hq').
    eapply Qle_lt_trans; [|exact Hil].
    rewrite <- (pow2_inject 53) by lia. exact Hlow. }
  set (e := Z.max (JsNumber.ilog2 p q - (JsNumber.prec - 1)) JsNumber.emin).
  assert (He : 1 <= e) by (unfold e, JsNumber.prec, JsNumber.emin; lia).
  destruct (JsNumber.scale2 p q e) as [n d].
  destruct (_ =? 2 ^ JsNumber.prec);
    match goal with |- context [JsNumber.emax <? ?e2] =>
      destruct (JsNumber.emax <? e2) end;
    intros Hres; inversion Hres; lia.
Qed.

(** The decimal of an integral number below [2^53] is the integer. *)
Lemma ofNumber_safe_integer (neg : bool) (M E k : Z) :
  JsNumber.wf_number (Finite neg M E) = true ->
  (JsNumber.magnitude M E == inject_Z k)%Q -> 0 < k < 2 ^ 53 ->
  Invariant.canonical (BigNumber.ofNumber (Finite neg M E)) = true /\
  BigNumber.is_neg (BigNumber.ofNumber (Finite neg M E)) = neg /\
  BigNumber.isZero (BigNumber.ofNumber (Finite neg M E)) = false /\
  (BigNumber.magnitude (BigNumber.ofNumber (Finite neg M E)) == inject_Z k)%Q.
Proof.
  intros Hwf Hk Hrange.
  assert (Hwf' : JsNumber.wf_number (Finite false M E) = true) by exact Hwf.
  destruct (wf_number_parts _ _ _ Hwf) as [HM [HE Hnorm]].
  assert (HMpos : 0 < M).
  { destruct (Z.eq_dec M 0) as [->|]; [exfalso|lia].
    assert (H0 : (inject_Z k == 0)%Q) by (rewrite <- Hk; unfold JsNumber.magnitude; ring).
    assert (k = 0) by (apply inject_Z_injective; exact H0). lia. }
  assert (Hint : JsNumber.Number_isInteger (Finite neg M E) = true).
  { cbn [JsNumber.Number_isInteger].
    destruct (Z.leb_spec 0 E) as [|Hneg]; [reflexivity|]. cbn [orb]. apply Z.eqb_eq.
    assert (HMk : M = k * 2 ^ (- E)).
    { apply inject_Z_injective. rewrite inject_Z_mult, pow2_inject by lia.
      rewrite <- Hk. unfold JsNumber.magnitude.
      rewrite <- Qmult_assoc, <- Qpower_plus by apply two_not_0.
      replace (E + - E) with 0 by lia. change ((2 # 1) ^ 0)%Q with 1%Q. ring. }
    rewrite HMk. apply Z.mod_mul. apply Z.pow_nonzero; lia. }
  pose proof (ofNumber_canonical neg M E Hwf) as Hcan.
  destruct (ofNumber_integer neg M E Hwf Hint HMpos) as [s [x [Ho [Hs [Hx [Hnear Hhi]]]]]].
  assert (Hn : s * 10 ^ x = k).
  { assert (Hdec : (JsNumber.decimal s x == inject_Z (s * 10 ^ x))%Q).
    { unfold JsNumber.decimal. now rewrite inject_Z_mult, pow10_inject. }
    rewrite (nearest_ext false _ _ Hdec) in Hnear.
    assert (Hnpos : 0 < s * 10 ^ x) by (apply Z.mul_pos_pos; [lia | apply Z.pow_pos_nonneg; lia]).
    destruct (Z_lt_le_dec (s * 10 ^ x) (2 ^ 53)) as [Hsmall|Hbig].
    - destruct (integer_representable (s * 10 ^ x)) as [M' [E' [Hwf2 [Hmag2 _]]]]; [lia|].
      rewrite (nearest_exact false false M' E' _ Hwf2 (Qeq_sym _ _ Hmag2)) in Hnear.
      injection Hnear as -> ->.
      apply inject_Z_injective. now rewrite <- Hmag2, Hk.
    - exfalso.
      assert (HE1 : 1 <= E).
      { apply (nearest_large (inject_Z (s * 10 ^ x)) false M E); [|exact Hnear].
        now rewrite <- Zle_Qle. }
      assert (HM52 : 2 ^ 52 <= M) by lia.
      assert (Hge : (inject_Z (2 ^ 53) <= JsNumber.magnitude M E)%Q).
      { unfold JsNumber.magnitude. rewrite <- pow2_inject by lia.
        rewrite <- inject_Z_mult, <- Zle_Qle.
        assert (2 ^ 1 <= 2 ^ E) by (apply Z.pow_le_mono_r; lia).
        change (2 ^ 53) with (2 ^ 52 * 2 ^ 1). apply Z.mul_le_mono_nonneg; lia. }
      rewrite Hk, <- Zle_Qle in Hge. lia. }
  assert (Hq : (inject_Z s * (10 # 1) ^ x == inject_Z k)%Q).
  { rewrite <- Hn, inject_Z_mult, pow10_inject by lia. reflexivity. }
  destruct (normalise_in_range neg s x 0 402) as [c [e [Hnorm' [Hmag Hz]]]];
    try (unfold BigNumber.MIN_EXP, BigNumber.MAX_EXP; lia); try assumption.
  { rewrite Hq. change ((10 # 1) ^ 0)%Q with (inject_Z 1). rewrite <- Zle_Qle. lia. }
  rewrite Ho, Hnorm' in *. split; [exact Hcan|]. split; [reflexivity|].
  split; [exact Hz|]. now rewrite Hmag.
Qed.

End SafeIntegers.

(** X20. [fromCents] makes hundredths: for an integral number of cents of
    magnitude below 2^53, a recognized currency and a library configured
    with at least two decimal places, it returns a Money in that currency
    whose value is in canonical form and is exactly the number of cents
    divided by 100. *)
Theorem fromCents_is_a_hundredth `{lib : Library} (cents : number) (c : option string) :
  JsNumber.wf_number cents = true ->
  JsNumber.Number_isInteger cents = true ->
  (Qabs (JsNumber.to_Q cents) < inject_Z (2 ^ 53))%Q ->
  2 <= DECIMAL_PLACES <= BigNumber.MAX ->
  isValidCurrencyCode (MoneyFactory.or_USD c) = true ->
  exists m,
    MoneyFactory.fromCents cents c = Ok m /\
    Money.getCurrencyCode m = MoneyFactory.or_USD c /\
    Invariant.canonical (Money.toBigNumber m) = true /\
    (Qvalue (Money.toBigNumber m) == JsNumber.to_Q cents / (100 # 1))%Q.
Proof.
  intros Hwf Hint Habs Hdp Hvalid.
  destruct cents as [| |neg M E]; try discriminate Hint.
  destruct (wf_number_parts _ _ _ Hwf) as [HM [HE Hnorm]].
  unfold MoneyFactory.fromCents. rewrite (validate_valid _ Hvalid), Hint.
  cbn [bind negb orb JsNumber.isFinite].
  change (BigNumber.ofNumber (num 100)) with one_hundred.
  unfold Money.getCurrencyCode, Money.toBigNumber, ZanNumber.toBigNumber.
  destruct (Z.eq_dec M 0) as [->|HM0].
  - assert (E = -1074) by lia. subst E.
    assert (Hq : BigNumber.dividedBy DECIMAL_PLACES
                   (BigNumber.ofNumber (Finite neg 0 (-1074))) one_hundred
                 = BigNumber.zero neg) by (destruct neg; reflexivity).
    rewrite Hq, (new_money_finite (BigNumber.zero neg) _ eq_refl Hvalid).
    eexists. split; [reflexivity|]. cbn [_value value currencyCode].
    split; [reflexivity|]. split; [reflexivity|].
    rewrite Qvalue_zero. destruct neg; reflexivity.
  - destruct (integer_magnitude neg M E Hint (proj1 HM)) as [k [Hk0 Hk]].
    assert (Hkpos : 0 < k) by (apply (integer_positive M E k); [lia | exact Hk]).
    assert (Hk53 : k < 2 ^ 53).
    { rewrite Zlt_Qlt. eapply Qle_lt_trans; [|exact Habs].
      rewrite <- Hk. cbn [JsNumber.to_Q].
      assert (Hpos : (0 <= JsNumber.magnitude M E)%Q) by (apply magnitude_nonneg; lia).
      destruct neg.
      - rewrite Qabs_opp, Qabs_pos by exact Hpos. apply Qle_refl.
      - rewrite Qabs_pos by exact Hpos. apply Qle_refl. }
    destruct (ofNumber_safe_integer neg M E k Hwf Hk (conj Hkpos Hk53))
      as [Hcx [Hsx [Hzx Hmx]]].
    destruct (ofNumber_exponent neg M E Hwf) as [_ Hex].
    set (x := BigNumber.ofNumber (Finite neg M E)) in *.
    destruct (dividedBy_spec DECIMAL_PLACES x one_hundred Hcx eq_refl eq_refl)
      as [Hcq [Hsq [Hmq _]]];
      [lia
      |change (Invariant.exponent one_hundred) with 2; unfold BigNumber.MIN_EXP; lia
      |change (Invariant.exponent one_hundred) with 2; unfold BigNumber.MAX_EXP; lia|].
    destruct (canonical_finite _ Hcq) as [_ Hfq].
    rewrite (new_money_finite _ _ Hfq Hvalid).
    eexists. split; [reflexivity|]. cbn [_value value currencyCode].
    split; [reflexivity|]. split; [exact Hcq|].
    assert (Hround : (round_half_up (BigNumber.magnitude x / BigNumber.magnitude one_hundred)
                        DECIMAL_PLACES
                      == inject_Z k / (100 # 1))%Q).
    { assert (Hten : ((10 # 1) ^ DECIMAL_PLACES
                      == (100 # 1) * inject_Z (10 ^ (DECIMAL_PLACES - 2)))%Q).
      { rewrite pow10_inject by lia.
        replace DECIMAL_PLACES with (2 + (DECIMAL_PLACES - 2)) at 1 by lia.
        rewrite Qpower_plus by apply ten_not_0. reflexivity. }
      assert (E1 : (BigNumber.magnitude x / BigNumber.magnitude one_hundred
                    * (10 # 1) ^ DECIMAL_PLACES + (1 # 2)
                    == inject_Z (k * 10 ^ (DECIMAL_PLACES - 2)) + (1 # 2))%Q).
      { rewrite Hmx, hundred_magnitude, Hten, inject_Z_mult. field. }
      unfold round_half_up.
      rewrite (Qfloor_comp _ _ E1), floor_plus_half, Hten, inject_Z_mult.
      field. intros H0. change 0%Q with (inject_Z 0) in H0.
      assert (10 ^ (DECIMAL_PLACES - 2) = 0) by (apply inject_Z_injective; exact H0).
      assert (0 < 10 ^ (DECIMAL_PLACES - 2)) by (apply Z.pow_pos_nonneg; lia). lia. }
    rewrite (Qvalue_of_parts _ _ _ Hsq (Qeq_trans _ _ _ Hmq Hround)), Hsx.
    cbn [BigNumber.is_neg one_hundred xorb JsNumber.to_Q].
    rewrite xorb_false_r. destruct neg; rewrite Hk; unfold Qdiv; ring.
Qed.

Lemma fromCents_is_a_hundredth_witness :
  exists m,
    @MoneyFactory.fromCents default_library (num (-12345)) (Some "EUR") = Ok m /\
    (Qvalue (Money.toBigNumber m) == - (12345 # 100))%Q.
Proof.
  destruct (@fromCents_is_a_hundredth default_library (num (-12345)) (Some "EUR"))
    as [m [Hm [_ [_ Hv]]]]; try reflexivity.
  - vm_compute. split; discriminate.
  - exists m. split; [exact Hm|]. rewrite Hv. reflexivity.
Defined.

(** X21. [multiply] is exact and [divide] rounds once: for a [ZanNumber]
    with a canonical value away from the ends of the library's default
    exponent range (-1e7 to 1e7) and a
    finite number [n], [multiply(n)] returns the product of the value and of
    the decimal that the library reads [n] as; when [n] is not zero,
    [divide(n)] returns their quotient rounded to the configured
    [DECIMAL_PLACES], a half going up, with the quotient's sign. *)
Theorem multiply_and_divide_values `{lib : Library} (this : ZanNumber) (n : number) :
  Invariant.canonical (ZanNumber.toBigNumber this) = true ->
  BigNumber.MIN_EXP + 2000 <= Invariant.exponent (ZanNumber.toBigNumber this)
  <= BigNumber.MAX_EXP - 2000 ->
  JsNumber.wf_number n = true ->
  JsNumber.isFinite n = true ->
  (exists p,
     ZanNumber.multiply this n = Ok p /\
     Invariant.canonical (ZanNumber.toBigNumber p) = true /\
     (Qvalue (ZanNumber.toBigNumber p)
      == Qvalue (ZanNumber.toBigNumber this) * Qvalue (BigNumber.ofNumber n))%Q) /\
  (BigNumber.isZero (BigNumber.ofNumber n) = false ->
   0 <= DECIMAL_PLACES <= BigNumber.MAX ->
   exists q,
     ZanNumber.divide this n = Ok q /\
     Invariant.canonical (ZanNumber.toBigNumber q) = true /\
     BigNumber.is_neg (ZanNumber.toBigNumber q)
     = xorb (BigNumber.is_neg (ZanNumber.toBigNumber this))
         (BigNumber.is_neg (BigNumber.ofNumber n)) /\
     (BigNumber.magnitude (ZanNumber.toBigNumber q)
      == round_half_up
           (BigNumber.magnitude (ZanNumber.toBigNumber this)
            / BigNumber.magnitude (BigNumber.ofNumber n))
           DECIMAL_PLACES)%Q).
Proof.
  unfold ZanNumber.toBigNumber. intros Hcan Hexp Hwf Hfin.
  destruct n as [| |neg M E]; try discriminate Hfin.
  pose proof (ofNumber_canonical neg M E Hwf) as Hcf.
  destruct (ofNumber_exponent neg M E Hwf) as [_ Hef].
  set (f := BigNumber.ofNumber (Finite neg M E)) in *.
  split.
  - destruct (times_spec (value this) f Hcan Hcf) as [Hcp [Hsp [Hmp _]]];
      [unfold BigNumber.MIN_EXP, BigNumber.MAX_EXP in *; lia
      |unfold BigNumber.MIN_EXP, BigNumber.MAX_EXP in *; lia|].
    destruct (canonical_finite _ Hcp) as [_ Hfp].
    unfold ZanNumber.multiply. fold f. rewrite (new_zan_finite _ Hfp).
    eexists. split; [reflexivity|]. cbn [value]. split; [exact Hcp|].
    rewrite (Qvalue_of_parts _ _ _ Hsp Hmp). unfold Qvalue.
    destruct (BigNumber.is_neg (value this)), (BigNumber.is_neg f); cbn [xorb]; ring.
  - intros Hnz Hdp.
    destruct (dividedBy_spec DECIMAL_PLACES (value this) f Hcan Hcf Hnz Hdp)
      as [Hcq [Hsq [Hmq _]]];
      [unfold BigNumber.MIN_EXP, BigNumber.MAX_EXP in *; lia
      |unfold BigNumber.MIN_EXP, BigNumber.MAX_EXP in *; lia|].
    destruct (canonical_finite _ Hcq) as [_ Hfq].
    unfold ZanNumber.divide. fold f. rewrite Hnz, (new_zan_finite _ Hfq).
    eexists. split; [reflexivity|]. cbn [value]. auto.
Qed.

Lemma multiply_and_divide_values_witness :
  exists p,
    @ZanNumber.multiply default_library minus_104_45 (Finite false 7205759403792794 (-56))
    = Ok p /\
    (Qvalue (ZanNumber.toBigNumber p) == - (10445 # 1000))%Q.
Proof.
  destruct (proj1 (@multiply_and_divide_values default_library minus_104_45
                     (Finite false 7205759403792794 (-56)) eq_refl
                     ltac:(vm_compute; split; discriminate) eq_refl eq_refl))
    as [p [Hp [_ Hv]]].
  exists p. split; [exact Hp|]. rewrite Hv. vm_compute. reflexivity.
Defined.

Section Neutral.

Lemma plus_zero (x : BigNumber) :
  Invariant.canonical x = true -> x <> BigNumber.zero true ->
  BigNumber.plus x (BigNumber.zero false) = x /\
  BigNumber.plus (BigNumber.zero false) x = x /\
  BigNumber.minus x (BigNumber.zero false) = x.
Proof.
  intros Hcan Hnz. destruct x as [| |neg c e]; try discriminate Hcan.
  destruct (canonical_cases _ _ _ Hcan) as [[-> ->]|[Hz _]].
  - destruct neg; [now contradiction Hnz | repeat split].
  - destruct (canonical_parts _ _ _ Hcan) as [_ [_ [->|[d [ds [-> Hd]]]]]];
      [discriminate Hz|].
    destruct d as [|p|p]; [lia| |lia].
    destruct neg; repeat split.
Qed.

End Neutral.

(** X22. Zero is neutral: for a Money [m] with a canonical value that is
    not a negative zero, in the recognized currency of [MoneyFactory.zero],
    adding the zero to [m], adding [m] to the zero and subtracting the zero
    from [m] all return [m]. *)
Theorem zero_is_neutral `{lib : Library} (m : Money) (c : option string) :
  Invariant.canonical (Money.toBigNumber m) = true ->
  Money.toBigNumber m <> BigNumber.zero true ->
  Money.getCurrencyCode m = MoneyFactory.or_USD c ->
  isValidCurrencyCode (MoneyFactory.or_USD c) = true ->
  exists z,
    MoneyFactory.zero c = Ok z /\
    Money.add m z = Ok m /\ Money.add z m = Ok m /\ Money.subtract m z = Ok m.
Proof.
  unfold Money.toBigNumber, Money.getCurrencyCode, ZanNumber.toBigNumber.
  intros Hcan Hnz Hc Hvalid.
  destruct (plus_zero _ Hcan Hnz) as [Hp1 [Hp2 Hm1]].
  destruct (canonical_finite _ Hcan) as [_ Hfin].
  exists {| _value := {| value := BigNumber.zero false |};
            currencyCode := MoneyFactory.or_USD c |}.
  destruct m as [[x] code]. cbn [_value value currencyCode] in *. subst code.
  split.
  - unfold MoneyFactory.zero, Money.new. rewrite (validate_valid _ Hvalid). reflexivity.
  - unfold Money.add, Money.subtract, ZanNumber.add, ZanNumber.subtract.
    cbn [_value value currencyCode]. rewrite String.eqb_refl. cbn [negb].
    rewrite Hp1, Hp2, Hm1, (new_zan_finite _ Hfin). cbn [bind].
    unfold ZanNumber.toBigNumber. cbn [value].
    rewrite (new_money_finite _ _ Hfin Hvalid). auto.
Qed.

Lemma zero_is_neutral_witness :
  exists z,
    @MoneyFactory.zero default_library None = Ok z /\
    @Money.add default_library minus_0_015_usd z = Ok minus_0_015_usd.
Proof.
  destruct (@zero_is_neutral default_library minus_0_015_usd None eq_refl
              ltac:(discriminate) eq_refl eq_refl) as [z [Hz [Ha _]]].
  exists z. split; [exact Hz | exact Ha].
Defined.

Section FitsTheScale.
Context {lib : Library}.

Lemma of_digits_last (front : list Z) (l : Z) :
  of_digits (front ++ [l]) = 10 * of_digits front + l.
Proof. rewrite of_digits_app. change (of_digits [l]) with l. cbn [List.length]. lia. Qed.

(** A canonical value that is a whole number of units of the [dp]-th place
    has no digit beyond that place. *)
Lemma whole_units_length (neg : bool) (c : list Z) (e dp n : Z) :
  Invariant.canonical (BFinite neg c e) = true -> 0 <= dp ->
  (Qvalue (BFinite neg c e) * (10 # 1) ^ dp == inject_Z n)%Q ->
  Z.of_nat (List.length c) <= dp + e + 1.
Proof.
  intros Hcan Hdp Hn.
  destruct (canonical_cases _ _ _ Hcan) as [[-> ->]|[_ [Hok [Hnt _]]]];
    [cbn [List.length]; lia|].
  destruct (Z_le_gt_dec (Z.of_nat (List.length c)) (dp + e + 1)) as [|Hgt];
    [assumption|exfalso].
  set (k := Z.of_nat (List.length c) - (dp + e + 1)) in *.
  assert (Hk : 1 <= k) by (unfold k; lia).
  assert (Hmag : exists n', (inject_Z (of_digits c) == inject_Z n' * (10 # 1) ^ k)%Q).
  { exists (if neg then - n else n).
    assert (Hm : (BigNumber.magnitude (BFinite neg c e) * (10 # 1) ^ dp
                  == inject_Z (if neg then - n else n))%Q).
    { unfold Qvalue in Hn. cbn [BigNumber.is_neg] in Hn.
      destruct neg; [rewrite inject_Z_opp, <- Hn; ring | exact Hn]. }
    rewrite <- Hm, magnitude_scaled.
    rewrite <- Qmult_assoc, <- Qpower_plus by apply ten_not_0.
    replace (BigNumber.unit_exponent c e + dp + k) with 0
      by (unfold k, BigNumber.unit_exponent; lia).
    change ((10 # 1) ^ 0)%Q with 1%Q. ring. }
  destruct Hmag as [n' Hn'].
  assert (Hdiv : of_digits c = n' * 10 ^ k).
  { apply inject_Z_injective. rewrite Hn', inject_Z_mult, pow10_inject by lia.
    reflexivity. }
  assert (Hc : c <> []).
  { intros ->. unfold k in Hk. cbn [List.length] in *.
    destruct (canonical_parts _ _ _ Hcan) as [_ [_ [H|[d [ds [H _]]]]]]; discriminate H. }
  destruct (exists_last Hc) as [front [l Hl]]. subst c.
  pose proof (Hnt Hc) as Hlast. rewrite last_last in Hlast.
  rewrite of_digits_last in Hdiv.
  unfold digits_ok in Hok. apply Forall_app in Hok. destruct Hok as [_ Hl].
  inversion Hl as [|? ? Hl0 _]. subst.
  replace k with (1 + (k - 1)) in Hdiv by lia.
  rewrite Z.pow_add_r, Z.pow_1_r in Hdiv by lia. lia.
Qed.

End FitsTheScale.

(** X23. [round] changes only what does not fit the scale: for a
    [ZanNumber] with a canonical value and a scale in the library's range,
    [round(scale)] returns the value unchanged exactly when the value is a
    whole number of units of [10^-scale]. *)
Theorem round_keeps_what_fits `{lib : Library} (this : ZanNumber) (scale : Z) :
  Invariant.canonical (ZanNumber.toBigNumber this) = true ->
  0 <= scale <= BigNumber.MAX ->
  ZanNumber.round this (Some scale) = Ok this <->
  exists n, (Qvalue (ZanNumber.toBigNumber this) * (10 # 1) ^ scale == inject_Z n)%Q.
Proof.
  unfold ZanNumber.toBigNumber. intros Hcan Hscale. split.
  - intros H. destruct (zan_round_ok _ _ _ H) as [Hdp _].
    destruct (value this) as [| |neg c e]; try discriminate Hcan.
    destruct (decimalPlaces_shape _ _ _ _ _ Hdp) as [_ Hlen].
    now apply whole_units.
  - intros [n Hn]. destruct this as [x]. cbn [value] in *.
    destruct x as [| |neg c e]; try discriminate Hcan.
    pose proof (whole_units_length neg c e scale n Hcan (proj1 Hscale) Hn) as Hlen.
    unfold ZanNumber.round, ZanNumber.scale_or_default, BigNumber.decimalPlaces.
    cbn [value].
    destruct (Z.ltb_spec scale 0); [lia|].
    destruct (Z.ltb_spec BigNumber.MAX scale); [lia|].
    cbn [orb bind]. unfold BigNumber.round.
    destruct (Z.leb_spec (Z.of_nat (List.length c)) (scale + e + 1)); [reflexivity | lia].
Qed.

Lemma round_keeps_what_fits_witness :
  @ZanNumber.round default_library minus_104_45 (Some 2) = Ok minus_104_45.
Proof.
  apply (proj2 (@round_keeps_what_fits default_library minus_104_45 2 eq_refl
                  ltac:(vm_compute; split; discriminate))).
  exists (-10445). vm_compute. reflexivity.
Defined.

(** X24. Whole cents come out as they are: when the value of a Money, in
    canonical form, is a whole number [n] of hundredths with [n] of
    magnitude below 2^53, [toCents] returns the number [n]. *)
Theorem toCents_of_whole_cents (m : Money) (n : Z) :
  Invariant.canonical (Money.toBigNumber m) = true ->
  (Qvalue (Money.toBigNumber m) * (100 # 1) == inject_Z n)%Q ->
  Z.abs n < 2 ^ 53 ->
  JsNumber.to_Z (Money.toCents m) = Some n.
Proof.
  unfold Money.toBigNumber, ZanNumber.toBigNumber.
  intros Hcan Hn Hrange. destruct m as [[x] code]. cbn [_value value] in *.
  destruct x as [| |neg c e]; try discriminate Hcan.
  assert (Hmag : (BigNumber.magnitude (BFinite neg c e) * (100 # 1)
                  == inject_Z (Z.abs n))%Q /\ n = if neg then - Z.abs n else Z.abs n).
  { unfold Qvalue in Hn. cbn [BigNumber.is_neg] in Hn.
    assert (Hpos : (0 <= BigNumber.magnitude (BFinite neg c e) * (100 # 1))%Q).
    { apply Qmult_le_0_compat; [|discriminate].
      unfold BigNumber.magnitude. apply Qmult_le_0_compat.
      - rewrite <- (Zle_Qle 0). unfold BigNumber.coefficient.
        destruct (canonical_parts _ _ _ Hcan) as [Hok _].
        now destruct (of_digits_bound c Hok).
      - apply Qlt_le_weak, pow10_pos. }
    destruct neg.
    - assert (E1 : (BigNumber.magnitude (BFinite true c e) * (100 # 1) == inject_Z (- n))%Q)
        by (rewrite inject_Z_opp, <- Hn; ring).
      rewrite E1 in Hpos. rewrite <- (Zle_Qle 0) in Hpos.
      rewrite E1. split; [apply inject_Z_injective|]; f_equal; lia.
    - rewrite Hn in Hpos. rewrite <- (Zle_Qle 0) in Hpos.
      rewrite Hn. split; [apply inject_Z_injective|]; f_equal; lia. }
  destruct Hmag as [Hmag Hsign].
  destruct (integer_representable (Z.abs n)) as [M [E [Hwf [HME _]]]]; [lia|].
  set (a := Z.abs n) in *. clearbody a.
  unfold Money.toCents, ZanNumber.toBigNumber. cbn [_value value].
  rewrite hundred.
  rewrite (times_hundred neg c e M E Hcan Hwf (Qeq_trans _ _ _ Hmag (Qeq_sym _ _ HME))).
  rewrite to_Z_Math_round by exact Hwf. f_equal.
  unfold JsNumber.to_Q.
  assert (E2 : ((if neg then - JsNumber.magnitude M E else JsNumber.magnitude M E) + (1 # 2)
                == inject_Z n + (1 # 2))%Q).
  { rewrite Hsign. destruct neg; rewrite HME, ?inject_Z_opp; reflexivity. }
  rewrite (Qfloor_comp _ _ E2). apply floor_plus_half.
Qed.

Lemma toCents_of_whole_cents_witness :
  JsNumber.to_Z
    (Money.toCents
       {| _value := {| value := BFinite true [1; 2; 3; 4] 1 |}; currencyCode := "USD" |})
  = Some (-1234).
Proof.
  apply (toCents_of_whole_cents
           {| _value := {| value := BFinite true [1; 2; 3; 4] 1 |}; currencyCode := "USD" |}
           (-1234) eq_refl).
  - vm_compute. reflexivity.
  - vm_compute. reflexivity.
Defined.

(** ** The canonical form is kept *)

Section CanonicalResults.
Context {lib : Library}.

Lemma canonical_negated (x : BigNumber) :
  Invariant.canonical x = true -> Invariant.canonical (BigNumber.negated x) = true.
Proof. destruct x as [| |neg c e]; auto. Qed.

Lemma coefficient_nonneg (neg : bool) (c : list Z) (e : Z) :
  Invariant.canonical (BFinite neg c e) = true -> 0 <= BigNumber.coefficient c.
Proof.
  intros H. destruct (canonical_parts _ _ _ H) as [Hok _].
  unfold BigNumber.coefficient. now destruct (of_digits_bound c Hok).
Qed.

Lemma align_nonneg (xn yn : bool) (xc yc : list Z) (xe ye : Z) :
  Invariant.canonical (BFinite xn xc xe) = true ->
  Invariant.canonical (BFinite yn yc ye) = true ->
  let '(mx, my, k) := BigNumber.align xc xe yc ye in 0 <= mx /\ 0 <= my.
Proof.
  intros Hx Hy. unfold BigNumber.align.
  pose proof (coefficient_nonneg _ _ _ Hx). pose proof (coefficient_nonneg _ _ _ Hy).
  split; apply Z.mul_nonneg_nonneg; try assumption; apply Z.pow_nonneg; lia.
Qed.

Lemma add_same_canonical (x y : BigNumber) :
  Invariant.canonical x = true -> Invariant.canonical y = true ->
  BigNumber.isFinite (BigNumber.add_same x y) = true ->
  Invariant.canonical (BigNumber.add_same x y) = true.
Proof.
  intros Hx Hy.
  destruct x as [| |a xc xe]; try discriminate Hx.
  destruct y as [| |yn yc ye]; try discriminate Hy.
  unfold BigNumber.add_same.
  destruct (BigNumber.isZero (BFinite a xc xe) || BigNumber.isZero (BFinite yn yc ye)).
  - intros _. destruct (negb _); [exact Hy|]. destruct (negb _); [exact Hx | reflexivity].
  - pose proof (align_nonneg a yn xc yc xe ye Hx Hy) as Hal.
    destruct (BigNumber.align xc xe yc ye) as [[mx my] k].
    apply normalise_canonical. lia.
Qed.

Lemma sub_same_canonical (x y : BigNumber) :
  Invariant.canonical x = true -> Invariant.canonical y = true ->
  BigNumber.isFinite (BigNumber.sub_same x y) = true ->
  Invariant.canonical (BigNumber.sub_same x y) = true.
Proof.
  intros Hx Hy.
  destruct x as [| |a xc xe]; try discriminate Hx.
  destruct y as [| |yn yc ye]; try discriminate Hy.
  unfold BigNumber.sub_same.
  destruct (BigNumber.isZero (BFinite a xc xe) || BigNumber.isZero (BFinite yn yc ye)).
  - intros _. destruct (negb _); [exact (canonical_negated _ Hy)|].
    destruct (negb _); [exact Hx | reflexivity].
  - pose proof (align_nonneg a yn xc yc xe ye Hx Hy) as Hal.
    destruct (BigNumber.align xc xe yc ye) as [[mx my] k].
    destruct (mx =? my); [reflexivity|].
    destruct (Z.ltb_spec mx my); apply normalise_canonical; lia.
Qed.

Lemma plus_minus_canonical (x y : BigNumber) :
  Invariant.canonical x = true -> Invariant.canonical y = true ->
  (BigNumber.isFinite (BigNumber.plus x y) = true ->
   Invariant.canonical (BigNumber.plus x y) = true) /\
  (BigNumber.isFinite (BigNumber.minus x y) = true ->
   Invariant.canonical (BigNumber.minus x y) = true).
Proof.
  intros Hx Hy. pose proof (canonical_negated y Hy) as Hny.
  destruct x as [| |xn xc xe]; try discriminate Hx.
  destruct y as [| |yn yc ye]; try discriminate Hy.
  unfold BigNumber.plus, BigNumber.minus.
  destruct (xorb _ _); split;
    (apply sub_same_canonical || apply add_same_canonical); assumption.
Qed.

Lemma times_canonical (x y : BigNumber) :
  Invariant.canonical x = true -> Invariant.canonical y = true ->
  BigNumber.isFinite (BigNumber.times x y) = true ->
  Invariant.canonical (BigNumber.times x y) = true.
Proof.
  intros Hx Hy.
  destruct x as [| |xn xc xe]; try discriminate Hx.
  destruct y as [| |yn yc ye]; try discriminate Hy.
  unfold BigNumber.times.
  destruct (_ || _); [reflexivity|].
  apply normalise_canonical.
  apply Z.mul_nonneg_nonneg; eapply coefficient_nonneg; eassumption.
Qed.

Lemma dividedBy_canonical (dp : Z) (x y : BigNumber) :
  Invariant.canonical x = true -> Invariant.canonical y = true ->
  BigNumber.isFinite (BigNumber.dividedBy dp x y) = true ->
  Invariant.canonical (BigNumber.dividedBy dp x y) = true.
Proof.
  intros Hx Hy.
  destruct x as [| |xn xc xe]; try discriminate Hx.
  destruct y as [| |yn yc ye]; try discriminate Hy.
  unfold BigNumber.dividedBy.
  destruct (BigNumber.isZero (BFinite xn xc xe)) eqn:Zx;
    destruct (BigNumber.isZero (BFinite yn yc ye)) eqn:Zy; cbn [andb];
    try discriminate; try reflexivity.
  apply normalise_canonical.
  pose proof (magnitude_pos _ _ _ Hx Zx) as Hxpos.
  pose proof (magnitude_pos _ _ _ Hy Zy) as Hypos.
  change 0 with (Qfloor (inject_Z 0)). apply Qfloor_resp_le.
  apply Qle_trans with (0 + 0)%Q; [discriminate|].
  apply Qplus_le_compat; [|discriminate].
  apply Qmult_le_0_compat; [|apply Qlt_le_weak, pow10_pos].
  apply Qlt_le_weak, Qlt_shift_div_l; [exact Hypos|]. now rewrite Qmult_0_l.
Qed.

Lemma decimalPlaces_canonical (x r : BigNumber) (dp : Z) :
  Invariant.canonical x = true ->
  BigNumber.decimalPlaces x dp = Ok r -> BigNumber.isFinite r = true ->
  Invariant.canonical r = true.
Proof.
  intros Hx. destruct x as [| |neg c e]; try discriminate Hx.
  unfold BigNumber.decimalPlaces.
  destruct (_ || _); [discriminate|]. intros H. injection H as <-.
  unfold BigNumber.round.
  destruct (_ <=? _); [intros _; exact Hx|].
  apply normalise_canonical.
  destruct (canonical_parts _ _ _ Hx) as [Hok _].
  pose proof (of_digits_bound _ (digits_ok_firstn (Z.to_nat (dp + e + 1)) c Hok)).
  destruct (5 <=? _); lia.
Qed.

Lemma sum_canonical (rest : list BigNumber) :
  forall x,
    Invariant.canonical x = true ->
    Forall (fun y => Invariant.canonical y = true) rest ->
    BigNumber.isFinite (fold_left BigNumber.plus rest x) = true ->
    Invariant.canonical (fold_left BigNumber.plus rest x) = true.
Proof.
  induction rest as [|y ys IH]; intros x Hx Hall Hfin; [exact Hx|].
  inversion Hall as [|? ? Hy Hys]. subst. cbn [fold_left] in *.
  apply IH; [|exact Hys | exact Hfin].
  apply (proj1 (plus_minus_canonical x y Hx Hy)).
  destruct (BigNumber.isFinite (BigNumber.plus x y)) eqn:E; [reflexivity|].
  now rewrite (sum_not_finite ys _ E) in Hfin.
Qed.

End CanonicalResults.

(** X25. The canonical form is an invariant of the arithmetic: when the
    operands hold canonical values (for a number argument: a finite
    binary64 number), whatever [add], [subtract], [multiplyAndRound],
    [divideAndRound] and [round] of [Money] and the static [sum], [min] and
    [max] return holds a canonical value again. *)
Theorem results_are_canonical `{lib : Library}
    (this other r : Money) (rest : list Money) (n : number) (scale : option Z) :
  Invariant.canonical (Money.toBigNumber this) = true ->
  Invariant.canonical (Money.toBigNumber other) = true ->
  Forall (fun m => Invariant.canonical (Money.toBigNumber m) = true) rest ->
  JsNumber.wf_number n = true -> JsNumber.isFinite n = true ->
  Money.add this other = Ok r \/ Money.subtract this other = Ok r \/
  Money.multiplyAndRound this n scale = Ok r \/
  Money.divideAndRound this n scale = Ok r \/
  Money.round this scale = Ok r \/
  Money.Static.sum (this :: rest) = Ok r \/
  Money.Static.min (this :: rest) = Ok r \/
  Money.Static.max (this :: rest) = Ok r ->
  Invariant.canonical (Money.toBigNumber r) = true.
Proof.
  unfold Money.toBigNumber, ZanNumber.toBigNumber.
  intros Hx Hy Hrest Hwf Hfin H.
  destruct n as [| |neg M E]; try discriminate Hfin.
  pose proof (ofNumber_canonical neg M E Hwf) as Hcf.
  pose proof (Forall_map_canonical rest Hrest) as Hvals.
  unfold Money.add, Money.subtract, Money.multiplyAndRound, Money.divideAndRound,
    Money.round, Money.Static.sum, Money.Static.min, Money.Static.max in H.
  destruct H as [H|[H|[H|[H|[H|[H|[H|H]]]]]]].
  - destruct (negb _); [discriminate|].
    destruct (money_wrap_ok _ _ _ H) as [z [Hz [-> _]]]. cbn [_value].
    unfold ZanNumber.add in Hz. destruct (new_zan_ok _ _ Hz) as [-> Hf].
    exact (proj1 (plus_minus_canonical _ _ Hx Hy) Hf).
  - destruct (negb _); [discriminate|].
    destruct (money_wrap_ok _ _ _ H) as [z [Hz [-> _]]]. cbn [_value].
    unfold ZanNumber.subtract in Hz. destruct (new_zan_ok _ _ Hz) as [-> Hf].
    exact (proj2 (plus_minus_canonical _ _ Hx Hy) Hf).
  - destruct (money_wrap_ok _ _ _ H) as [z [Hz [-> _]]]. cbn [_value].
    destruct (zan_multiplyAndRound_ok _ _ _ _ Hz) as [Hdp Hf].
    assert (Hp : BigNumber.isFinite
                   (BigNumber.times (value (_value this))
                      (BigNumber.ofNumber (Finite neg M E))) = true).
    { unfold BigNumber.decimalPlaces in Hdp. destruct (_ || _); [discriminate|].
      destruct (BigNumber.times _ _); [| |reflexivity];
        injection Hdp as Hv; rewrite <- Hv in Hf; discriminate Hf. }
    exact (decimalPlaces_canonical _ _ _ (times_canonical _ _ Hx Hcf Hp) Hdp Hf).
  - destruct (money_wrap_ok _ _ _ H) as [z [Hz [-> _]]]. cbn [_value].
    destruct (zan_divideAndRound_ok _ _ _ _ Hz) as [_ [Hdp Hf]].
    assert (Hq : BigNumber.isFinite
                   (BigNumber.dividedBy DECIMAL_PLACES (value (_value this))
                      (BigNumber.ofNumber (Finite neg M E))) = true).
    { unfold BigNumber.decimalPlaces in Hdp. destruct (_ || _); [discriminate|].
      destruct (BigNumber.dividedBy _ _ _); [| |reflexivity];
        injection Hdp as Hv; rewrite <- Hv in Hf; discriminate Hf. }
    exact (decimalPlaces_canonical _ _ _ (dividedBy_canonical _ _ _ Hx Hcf Hq) Hdp Hf).
  - destruct (money_wrap_ok _ _ _ H) as [z [Hz [-> _]]]. cbn [_value].
    destruct (zan_round_ok _ _ _ Hz) as [Hdp Hf].
    exact (decimalPlaces_canonical _ _ _ Hx Hdp Hf).
  - apply bind_ok in H. destruct H as [u [_ H]].
    destruct (money_wrap_ok _ _ _ H) as [z [Hz [-> _]]]. cbn [_value].
    unfold ZanNumber.Static.sum in Hz. destruct (new_zan_ok _ _ Hz) as [-> Hf].
    cbn [value map BigNumber.sum] in *. now apply sum_canonical.
  - apply bind_ok in H. destruct H as [u [_ H]].
    destruct (money_wrap_ok _ _ _ H) as [z [Hz [-> _]]]. cbn [_value].
    unfold ZanNumber.Static.min in Hz. destruct (new_zan_ok _ _ Hz) as [-> _].
    cbn [value map]. now destruct (min_spec _ _ Hx Hvals).
  - apply bind_ok in H. destruct H as [u [_ H]].
    destruct (money_wrap_ok _ _ _ H) as [z [Hz [-> _]]]. cbn [_value].
    unfold ZanNumber.Static.max in Hz. destruct (new_zan_ok _ _ Hz) as [-> _].
    cbn [value map]. now destruct (max_spec _ _ Hx Hvals).
Qed.

Lemma results_are_canonical_witness :
  Invariant.canonical
    (Money.toBigNumber
       {| _value := {| value := BFinite false [3; 3] (-1) |}; currencyCode := "USD" |})
  = true.
Proof.
  apply (@results_are_canonical default_library usd_one usd_one
           {| _value := {| value := BFinite false [3; 3] (-1) |}; currencyCode := "USD" |}
           [] (num 3) (Some 2) eq_refl eq_refl (Forall_nil _) eq_refl eq_refl).
  right. right. right. left. vm_compute. reflexivity.
Defined.

(** ** The nearest number lies between the numbers around the rational *)

Section NearestBetween.

Lemma wf_number_intro (neg : bool) (M E : Z) :
  0 <= M < 2 ^ 53 -> -1074 <= E <= 971 -> (2 ^ 52 <= M \/ E = -1074) ->
  JsNumber.wf_number (Finite neg M E) = true.
Proof.
  intros HM HE Hn.
  unfold JsNumber.wf_number, JsNumber.prec, JsNumber.emin, JsNumber.emax.
  change (53 - 1) with 52.
  repeat (apply andb_true_iff; split); try apply orb_true_iff;
    try (apply Z.leb_le); try (apply Z.ltb_lt); lia.
Qed.

(** Comparing the first part of [scale2 p q k] with a multiple of the second
    compares [p / q] with the multiple of [2^k]. *)
Lemma scale2_le (p q k T : Z) :
  0 < q ->
  let '(n, d) := JsNumber.scale2 p q k in
  0 < d /\
  (n <= T * d <-> (inject_Z p <= inject_Z T * (2 # 1) ^ k * inject_Z q)%Q) /\
  (T * d <= n <-> (inject_Z T * (2 # 1) ^ k * inject_Z q <= inject_Z p)%Q).
Proof.
  intros Hq. unfold JsNumber.scale2.
  assert (Hq' := inject_Z_pos q Hq).
  destruct (Z.leb_spec 0 k) as [Hk|Hk].
  - assert (0 < 2 ^ k) by (apply Z.pow_pos_nonneg; lia).
    split; [nia|].
    assert (E : (inject_Z (T * (q * 2 ^ k)) == inject_Z T * (2 # 1) ^ k * inject_Z q)%Q).
    { rewrite !inject_Z_mult, pow2_inject by lia. ring. }
    split; rewrite Zle_Qle, E; reflexivity.
  - assert (Hp : 0 < 2 ^ (- k)) by (apply Z.pow_pos_nonneg; lia).
    split; [lia|].
    assert (E : (inject_Z (p * 2 ^ (- k)) * (2 # 1) ^ k == inject_Z p)%Q).
    { rewrite inject_Z_mult, pow2_inject by lia.
      rewrite <- Qmult_assoc, (Qmult_comm _ ((2 # 1) ^ k)), pow2_cancel. ring. }
    assert (E2 : (inject_Z (T * q) * (2 # 1) ^ k == inject_Z T * (2 # 1) ^ k * inject_Z q)%Q).
    { rewrite inject_Z_mult. ring. }
    pose proof (pow2_pos k) as Hk2.
    split; rewrite Zle_Qle, <- E, <- E2; split; intros H0.
    + apply Qmult_le_compat_r; [exact H0 | now apply Qlt_le_weak].
    + now apply Qmult_le_r in H0.
    + apply Qmult_le_compat_r; [exact H0 | now apply Qlt_le_weak].
    + now apply Qmult_le_r in H0.
Qed.

Lemma pow2_split (a b : Z) : ((2 # 1) ^ (a + b) == (2 # 1) ^ a * (2 # 1) ^ b)%Q.
Proof. apply Qpower_plus. apply two_not_0. Qed.

(** A number with a larger exponent is a multiple of the smaller unit. *)
Lemma magnitude_rescale (M E e : Z) :
  e <= E ->
  (JsNumber.magnitude M E == inject_Z (M * 2 ^ (E - e)) * (2 # 1) ^ e)%Q.
Proof.
  intros H. unfold JsNumber.magnitude.
  rewrite inject_Z_mult, pow2_inject by lia.
  rewrite <- Qmult_assoc, <- pow2_split.
  replace (E - e + e) with E by lia. reflexivity.
Qed.

End NearestBetween.

Section NearestBounds.

Lemma nearest_between (x : Q) (A Ea B Eb : Z) :
  (0 <= x)%Q ->
  JsNumber.wf_number (Finite false A Ea) = true ->
  JsNumber.wf_number (Finite false B Eb) = true ->
  (JsNumber.magnitude A Ea <= x)%Q -> (x <= JsNumber.magnitude B Eb)%Q ->
  exists m e,
    JsNumber.nearest false x = Finite false m e /\
    JsNumber.wf_number (Finite false m e) = true /\
    (JsNumber.magnitude A Ea <= JsNumber.magnitude m e)%Q /\
    (JsNumber.magnitude m e <= JsNumber.magnitude B Eb)%Q.
Proof.
  intros Hx HwA HwB Hlo Hhi.
  destruct (wf_number_parts _ _ _ HwA) as [HA [HEa HnA]].
  destruct (wf_number_parts _ _ _ HwB) as [HB [HEb HnB]].
  unfold JsNumber.nearest.
  assert (Hpq : (inject_Z (Qnum (Qred x)) == x * inject_Z (Zpos (Qden (Qred x))))%Q).
  { rewrite (Qnum_den (Qred x)). apply Qmult_comp; [apply Qred_correct | reflexivity]. }
  set (p := Qnum (Qred x)) in *. set (q := Zpos (Qden (Qred x))) in *.
  assert (Hq : 0 < q) by (unfold q; lia).
  assert (Hq' := inject_Z_pos q Hq).
  destruct (Z.leb_spec p 0) as [Hp|Hp].
  - (* the rational is zero *)
    assert (Hx0 : (x <= 0)%Q).
    { apply Qmult_le_r with (z := inject_Z q); [exact Hq'|].
      rewrite Qmult_0_l, <- Hpq. change 0%Q with (inject_Z 0). now rewrite <- Zle_Qle. }
    assert (Hz : (JsNumber.magnitude 0 JsNumber.emin == 0)%Q)
      by (unfold JsNumber.magnitude; ring).
    exists 0, JsNumber.emin. split; [reflexivity|]. split; [reflexivity|].
    rewrite Hz. split.
    + eapply Qle_trans; [exact Hlo | exact Hx0].
    + eapply Qle_trans; [exact Hx | exact Hhi].
  - destruct (ilog2_spec p q Hp Hq) as [HL1 HL2].
    set (L := JsNumber.ilog2 p q) in *.
    unfold JsNumber.prec, JsNumber.emin, JsNumber.emax. change (53 - 1) with 52.
    set (e := Z.max (L - 52) (-1074)).
    assert (He : -1074 <= e /\ L - 52 <= e /\ (e = -1074 \/ e = L - 52)) by (unfold e; lia).
    clearbody e.
    assert (HxL1 : ((2 # 1) ^ L <= x)%Q).
    { apply Qmult_le_r with (z := inject_Z q); [exact Hq'|]. now rewrite <- Hpq. }
    assert (HxL2 : (x < (2 # 1) ^ (L + 1))%Q).
    { apply Qmult_lt_r with (z := inject_Z q); [exact Hq'|]. now rewrite <- Hpq. }
    destruct (JsNumber.scale2 p q e) as [n d] eqn:Esc.
    assert (Hs : forall T,
               0 < d /\
               (n <= T * d <-> (inject_Z p <= inject_Z T * (2 # 1) ^ e * inject_Z q)%Q) /\
               (T * d <= n <-> (inject_Z T * (2 # 1) ^ e * inject_Z q <= inject_Z p)%Q)).
    { intros T. pose proof (scale2_le p q e T Hq) as H. now rewrite Esc in H. }
    assert (Hd : 0 < d) by (destruct (Hs 0) as [H _]; exact H).
    assert (HleX : forall T, (inject_Z T * (2 # 1) ^ e <= x)%Q -> T * d <= n).
    { intros T H. apply (Hs T). rewrite Hpq.
      apply Qmult_le_compat_r; [exact H | now apply Qlt_le_weak]. }
    assert (HgeX : forall T, (x <= inject_Z T * (2 # 1) ^ e)%Q -> n <= T * d).
    { intros T H. apply (Hs T). rewrite Hpq.
      apply Qmult_le_compat_r; [exact H | now apply Qlt_le_weak]. }
    assert (HltX : forall T, (x < inject_Z T * (2 # 1) ^ e)%Q -> n < T * d).
    { intros T H. destruct (Z_lt_le_dec n (T * d)) as [|Hge]; [assumption|exfalso].
      apply (Hs T) in Hge. rewrite Hpq in Hge. apply Qmult_le_r in Hge; [|exact Hq'].
      exact (Qlt_not_le _ _ H Hge). }
    assert (F0 : 0 <= n).
    { change 0 with (0 * d). apply HleX. now rewrite Qmult_0_l. }
    assert (F1 : n < 2 ^ 53 * d).
    { apply HltX. eapply Qlt_le_trans; [exact HxL2|].
      rewrite pow2_inject by lia. rewrite <- pow2_split. apply pow2_le. lia. }
    assert (F2 : e = L - 52 -> 2 ^ 52 * d <= n).
    { intros ->. apply HleX. rewrite pow2_inject by lia. rewrite <- pow2_split.
      replace (52 + (L - 52)) with L by lia. exact HxL1. }
    pose proof (Z.div_mod n d ltac:(lia)) as Hdm.
    pose proof (Z.mod_pos_bound n d Hd) as Hr.
    set (m := n / d) in *. set (r := n mod d) in *.
    assert (Hm : 0 <= m < 2 ^ 53) by (change (2 ^ 53) with 9007199254740992 in *; nia).
    assert (Hm52 : e = L - 52 -> 2 ^ 52 <= m).
    { intros H. specialize (F2 H). change (2 ^ 52) with 4503599627370496 in *. nia. }
    set (m1 := if (d <? 2 * r) || (d =? 2 * r) && Z.odd m then m + 1 else m).
    assert (Hm1 : m <= m1 <= m + 1 /\ (m1 = m + 1 -> 0 < r)).
    { unfold m1. destruct (Z.ltb_spec d (2 * r)); cbn [orb]; [lia|].
      destruct (Z.eqb_spec d (2 * r)); cbn [andb]; [destruct (Z.odd m)|]; lia. }
    clearbody m1.
    (* the exponent of the upper number is not below [e] *)
    assert (HeB : e <= Eb).
    { destruct (Z_le_gt_dec e Eb) as [|Hgt]; [assumption|exfalso].
      assert (e = L - 52) by lia.
      apply (Qlt_irrefl x). eapply Qle_lt_trans; [exact Hhi|].
      eapply Qlt_le_trans; [|exact HxL1].
      unfold JsNumber.magnitude.
      apply Qlt_le_trans with (inject_Z (2 ^ 53) * (2 # 1) ^ Eb)%Q.
      - apply Qmult_lt_compat_r; [apply pow2_pos|]. now rewrite <- Zlt_Qlt.
      - rewrite pow2_inject by lia. rewrite <- pow2_split. apply pow2_le. lia. }
    set (T := B * 2 ^ (Eb - e)).
    pose proof (magnitude_rescale B Eb e HeB) as HBT. fold T in HBT.
    assert (HnT : n <= T * d) by (apply HgeX; now rewrite <- HBT).
    assert (Hm1T : m1 <= T) by nia.
    assert (Hup : (inject_Z m1 * (2 # 1) ^ e <= JsNumber.magnitude B Eb)%Q).
    { rewrite HBT. apply Qmult_le_compat_r; [|apply Qlt_le_weak, pow2_pos].
      now rewrite <- Zle_Qle. }
    assert (Hdown : (JsNumber.magnitude A Ea <= inject_Z m1 * (2 # 1) ^ e)%Q).
    { destruct (Z_le_gt_dec e Ea) as [HeA|HeA].
      - pose proof (magnitude_rescale A Ea e HeA) as HAS.
        set (S := A * 2 ^ (Ea - e)) in *.
        assert (S * d <= n) by (apply HleX; now rewrite <- HAS).
        assert (S <= m1) by nia.
        rewrite HAS. apply Qmult_le_compat_r; [|apply Qlt_le_weak, pow2_pos].
        now rewrite <- Zle_Qle.
      - assert (He' : e = L - 52) by lia. specialize (Hm52 He').
        apply Qle_trans with (inject_Z (2 ^ 52) * (2 # 1) ^ e)%Q.
        + unfold JsNumber.magnitude.
          apply Qle_trans with (inject_Z (2 ^ 53) * (2 # 1) ^ Ea)%Q.
          * apply Qmult_le_compat_r; [|apply Qlt_le_weak, pow2_pos].
            rewrite <- Zle_Qle. lia.
          * rewrite !pow2_inject by lia. rewrite <- !pow2_split. apply pow2_le. lia.
        + apply Qmult_le_compat_r; [|apply Qlt_le_weak, pow2_pos].
          rewrite <- Zle_Qle. lia. }
    assert (HT : T < 2 ^ 53 \/ e + 1 <= Eb).
    { destruct (Z.eq_dec e Eb) as [->|]; [left|right; lia].
      unfold T. rewrite Z.sub_diag, Z.mul_1_r. lia. }
    destruct (Z.eqb_spec m1 (2 ^ 53)) as [Hcarry|Hnocarry].
    + assert (e + 1 <= Eb) by (destruct HT; [lia | assumption]).
      destruct (Z.ltb_spec 971 (e + 1)); [lia|].
      exists (2 ^ 52), (e + 1). split; [reflexivity|].
      assert (E1 : (JsNumber.magnitude (2 ^ 52) (e + 1) == inject_Z m1 * (2 # 1) ^ e)%Q).
      { unfold JsNumber.magnitude. rewrite Hcarry, !pow2_inject by lia.
        rewrite <- !pow2_split. replace (52 + (e + 1)) with (53 + e) by lia. reflexivity. }
      split; [apply wf_number_intro; lia|]. rewrite E1. split; assumption.
    + destruct (Z.ltb_spec 971 e); [lia|].
      exists m1, e. split; [reflexivity|].
      split; [|split; assumption].
      apply wf_number_intro; [lia | lia |].
      destruct He as [_ [_ [He|He]]]; [right; exact He | left; specialize (Hm52 He); lia].
Qed.

(** Every half of an integer below [2^53] is a number. *)
Lemma half_representable (j : Z) :
  0 <= j < 2 ^ 53 ->
  exists M E,
    JsNumber.wf_number (Finite false M E) = true /\
    (JsNumber.magnitude M E == inject_Z j * (1 # 2))%Q.
Proof.
  intros Hj. destruct (Z.eq_dec j 0) as [->|Hnz].
  - exists 0, (-1074). split; [reflexivity|]. unfold JsNumber.magnitude. ring.
  - assert (Hpos : 0 < j) by lia.
    destruct (Z.log2_spec j Hpos) as [H1 H2].
    pose proof (Z.log2_nonneg j) as H0.
    assert (Hl : Z.log2 j < 53) by (apply Z.log2_lt_pow2; lia).
    set (l := Z.log2 j) in *.
    assert (Hp : 0 < 2 ^ (52 - l)) by (apply Z.pow_pos_nonneg; lia).
    assert (Hsplit : 2 ^ 52 = 2 ^ l * 2 ^ (52 - l)).
    { rewrite <- Z.pow_add_r by lia. f_equal. lia. }
    assert (Hsplit' : 2 ^ 53 = 2 ^ Z.succ l * 2 ^ (52 - l)).
    { rewrite <- Z.pow_add_r by lia. f_equal. lia. }
    exists (j * 2 ^ (52 - l)), (l - 53). split.
    + apply wf_number_intro; [nia | lia | left; nia].
    + unfold JsNumber.magnitude. rewrite inject_Z_mult, pow2_inject by lia.
      rewrite <- Qmult_assoc, <- pow2_split.
      replace (52 - l + (l - 53)) with (-1) by lia. reflexivity.
Qed.

(** Between two consecutive halves the nearest number stays. *)
Lemma nearest_around (y : Q) (j : Z) :
  (0 <= y)%Q -> 1 <= j < 2 ^ 53 ->
  (inject_Z (j - 2) * (1 # 2) <= y)%Q -> (y <= inject_Z j * (1 # 2))%Q ->
  exists m e,
    JsNumber.nearest false y = Finite false m e /\
    JsNumber.wf_number (Finite false m e) = true /\
    (inject_Z (j - 2) * (1 # 2) <= JsNumber.magnitude m e)%Q /\
    (JsNumber.magnitude m e <= inject_Z j * (1 # 2))%Q.
Proof.
  intros Hy Hj Hlo Hhi.
  destruct (half_representable (Z.max 0 (j - 2))) as [A [Ea [HwA HA]]]; [lia|].
  destruct (half_representable j) as [B [Eb [HwB HB]]]; [lia|].
  destruct (nearest_between y A Ea B Eb Hy HwA HwB) as [m [e [Hn [Hwf [H1 H2]]]]].
  - rewrite HA. destruct (Z.max_spec 0 (j - 2)) as [[_ ->]|[_ ->]]; [exact Hlo|].
    now rewrite Qmult_0_l.
  - now rewrite HB.
  - exists m, e. split; [exact Hn|]. split; [exact Hwf|]. split.
    + eapply Qle_trans; [|exact H1]. rewrite HA.
      apply Qmult_le_compat_r; [|discriminate]. rewrite <- Zle_Qle. lia.
    + now rewrite <- HB.
Qed.

End NearestBounds.

Section RoundedCents.

Lemma Qfloor_unique (q : Q) (k : Z) :
  (inject_Z k <= q)%Q -> (q < inject_Z (k + 1))%Q -> Qfloor q = k.
Proof.
  intros Hlo Hhi. apply Z.le_antisymm.
  - assert (Qfloor q < k + 1); [|lia].
    rewrite Zlt_Qlt. eapply Qle_lt_trans; [apply Qfloor_le | exact Hhi].
  - rewrite <- (Qfloor_Z k). now apply Qfloor_resp_le.
Qed.

Lemma Qeq_bool_comp (a b t : Q) : (a == b)%Q -> Qeq_bool a t = Qeq_bool b t.
Proof.
  intros H. destruct (Qeq_bool a t) eqn:Ea, (Qeq_bool b t) eqn:Eb; try reflexivity.
  - apply Qeq_bool_iff in Ea. apply Qeq_bool_neq in Eb. exfalso. apply Eb.
    now rewrite <- H.
  - apply Qeq_bool_iff in Eb. apply Qeq_bool_neq in Ea. exfalso. apply Ea.
    now rewrite H.
Qed.

(** [floor (f + 1/2)] for an [f] within a half of the integer [k]. *)
Lemma floor_of_bracket (f : Q) (k : Z) :
  (inject_Z k - (1 # 2) <= f)%Q -> (f <= inject_Z k + (1 # 2))%Q ->
  Qfloor (f + (1 # 2)) = if Qeq_bool f (inject_Z k + (1 # 2)) then k + 1 else k.
Proof.
  intros Hlo Hhi. destruct (Qeq_bool f (inject_Z k + (1 # 2))) eqn:E.
  - apply Qeq_bool_iff in E.
    assert (E1 : (f + (1 # 2) == inject_Z (k + 1))%Q).
    { rewrite E, inject_Z_plus. change (inject_Z 1) with 1%Q. ring. }
    rewrite (Qfloor_comp _ _ E1). apply Qfloor_Z.
  - apply Qeq_bool_neq in E. apply Qfloor_unique.
    + apply Qle_trans with (inject_Z k - (1 # 2) + (1 # 2))%Q;
        [apply Qle_lteq; right; ring | now apply Qplus_le_l].
    + rewrite inject_Z_plus. change (inject_Z 1) with 1%Q.
      apply Qlt_le_trans with (inject_Z k + (1 # 2) + (1 # 2))%Q;
        [|apply Qle_lteq; right; ring].
      apply Qplus_lt_l. apply Qle_lteq in Hhi. destruct Hhi; [assumption | contradiction].
Qed.

(** The halves around [floor (x + 1/2)], for [x] given by sign and
    magnitude. *)
Lemma hundredfold_bracket (y : Q) (neg : bool) :
  (0 <= y)%Q ->
  let k := Qfloor ((if neg then - y else y) + (1 # 2)) in
  let j := if neg then - 2 * k + 1 else 2 * k + 1 in
  1 <= j /\ (inject_Z (j - 2) * (1 # 2) <= y)%Q /\ (y <= inject_Z j * (1 # 2))%Q.
Proof.
  intros Hy k j.
  pose proof (Qfloor_le ((if neg then - y else y) + (1 # 2))) as H1.
  pose proof (Qlt_floor ((if neg then - y else y) + (1 # 2))) as H2.
  fold k in H1, H2. rewrite inject_Z_plus in H2. change (inject_Z 1) with 1%Q in H2.
  unfold j. destruct neg.
  - assert (Hk : k <= 0).
    { unfold k. change 0 with (Qfloor (1 # 2)). apply Qfloor_resp_le. lra. }
    split; [lia|].
    unfold Z.sub. rewrite !inject_Z_plus, !inject_Z_mult.
    rewrite ?inject_Z_opp.
    change (inject_Z (- 2)) with (- (2 # 1))%Q. change (inject_Z 1) with 1%Q.
    change (inject_Z 2) with (2 # 1)%Q. split; lra.
  - assert (Hk : 0 <= k).
    { unfold k. change 0 with (Qfloor (1 # 2)). apply Qfloor_resp_le. lra. }
    split; [lia|].
    unfold Z.sub. rewrite !inject_Z_plus, !inject_Z_mult.
    rewrite ?inject_Z_opp.
    change (inject_Z 2) with (2 # 1)%Q. change (inject_Z 1) with 1%Q.
    split; lra.
Qed.

End RoundedCents.

Section NearestError.

Lemma scale2_ratio (p q k : Z) :
  0 < q ->
  let '(n, d) := JsNumber.scale2 p q k in
  0 < d /\ (inject_Z n * (2 # 1) ^ k * inject_Z q == inject_Z p * inject_Z d)%Q.
Proof.
  intros Hq. unfold JsNumber.scale2.
  destruct (Z.leb_spec 0 k) as [Hk|Hk].
  - assert (0 < 2 ^ k) by (apply Z.pow_pos_nonneg; lia).
    split; [nia|]. rewrite inject_Z_mult, pow2_inject by lia. ring.
  - split; [lia|]. rewrite inject_Z_mult, pow2_inject by lia.
    transitivity (inject_Z p * inject_Z q * ((2 # 1) ^ k * (2 # 1) ^ (- k)))%Q; [ring|].
    rewrite pow2_cancel. ring.
Qed.

(** The nearest number is within half a unit of the last place: within
    [y / 2^53], or within [2^-1075] where the numbers are evenly spaced. *)
Lemma nearest_error (y : Q) (m e : Z) :
  (0 <= y)%Q ->
  JsNumber.nearest false y = Finite false m e ->
  (Qabs (JsNumber.magnitude m e - y) <= y * (2 # 1) ^ (-53) + (2 # 1) ^ (-1075))%Q.
Proof.
  intros Hy. unfold JsNumber.nearest.
  assert (Hpq : (inject_Z (Qnum (Qred y)) == y * inject_Z (Zpos (Qden (Qred y))))%Q).
  { rewrite (Qnum_den (Qred y)). apply Qmult_comp; [apply Qred_correct | reflexivity]. }
  set (p := Qnum (Qred y)) in *. set (q := Zpos (Qden (Qred y))) in *.
  assert (Hq : 0 < q) by (unfold q; lia).
  assert (Hq' := inject_Z_pos q Hq).
  pose proof (pow2_pos (-53)) as P53. pose proof (pow2_pos (-1075)) as P1075.
  destruct (Z.leb_spec p 0) as [Hp|Hp].
  - intros H. injection H as <- <-.
    assert (Hy0 : (y <= 0)%Q).
    { apply Qmult_le_r with (z := inject_Z q); [exact Hq'|].
      rewrite Qmult_0_l, <- Hpq. change 0%Q with (inject_Z 0). now rewrite <- Zle_Qle. }
    assert (Hz : (JsNumber.magnitude 0 JsNumber.emin - y == 0)%Q).
    { unfold JsNumber.magnitude. assert (y == 0)%Q by lra. rewrite H. ring. }
    rewrite Hz. change (Qabs 0) with 0%Q.
    assert (0 <= y * (2 # 1) ^ (-53))%Q by (apply Qmult_le_0_compat; lra). lra.
  - destruct (ilog2_spec p q Hp Hq) as [HL1 _].
    set (L := JsNumber.ilog2 p q) in *.
    unfold JsNumber.prec, JsNumber.emin, JsNumber.emax. change (53 - 1) with 52.
    set (e0 := Z.max (L - 52) (-1074)).
    assert (He : e0 = -1074 \/ e0 = L - 52) by (unfold e0; lia).
    clearbody e0.
    assert (HyL : ((2 # 1) ^ L <= y)%Q).
    { apply Qmult_le_r with (z := inject_Z q); [exact Hq'|]. now rewrite <- Hpq. }
    pose proof (scale2_ratio p q e0 Hq) as Hs.
    destruct (JsNumber.scale2 p q e0) as [n d]. destruct Hs as [Hd Hratio].
    assert (Hd' := inject_Z_pos d Hd).
    assert (Hn : (inject_Z n * (2 # 1) ^ e0 == y * inject_Z d)%Q).
    { apply Qmult_inj_r with (z := inject_Z q); [lra|].
      rewrite Hratio, Hpq. ring. }
    pose proof (Z.div_mod n d ltac:(lia)) as Hdm.
    pose proof (Z.mod_pos_bound n d Hd) as Hr.
    set (m0 := n / d) in *. set (r := n mod d) in *.
    set (m1 := if (d <? 2 * r) || (d =? 2 * r) && Z.odd m0 then m0 + 1 else m0).
    assert (Hm1 : - d <= 2 * (m1 * d - n) <= d).
    { unfold m1. destruct (Z.ltb_spec d (2 * r)); cbn [orb]; [nia|].
      destruct (Z.eqb_spec d (2 * r)); cbn [andb]; [destruct (Z.odd m0)|]; nia. }
    clearbody m1. intros H.
    (* the value of the result is [m1 * 2^e0] *)
    assert (Hval : (JsNumber.magnitude m e == inject_Z m1 * (2 # 1) ^ e0)%Q).
    { destruct (Z.eqb_spec m1 (2 ^ 53)) as [Hc|_].
      - destruct (971 <? e0 + 1); [discriminate H|].
        assert (Hm : m = 2 ^ 52) by congruence.
        assert (Hee : e = e0 + 1) by congruence.
        unfold JsNumber.magnitude. rewrite Hm, Hee, Hc, !pow2_inject by lia.
        rewrite <- !pow2_split. replace (52 + (e0 + 1)) with (53 + e0) by lia. reflexivity.
      - destruct (971 <? e0); [discriminate H|].
        assert (Hm : m = m1) by congruence.
        assert (Hee : e = e0) by congruence.
        now rewrite Hm, Hee. }
    clear H. rewrite Hval.
    (* half a unit *)
    pose proof (pow2_pos e0) as Pe.
    assert (Herr : (Qabs (inject_Z m1 * (2 # 1) ^ e0 - y) <= (2 # 1) ^ e0 * (1 # 2))%Q).
    { apply Qabs_Qle_condition.
      assert (H1 : (- inject_Z d <= (2 # 1) * (inject_Z m1 * inject_Z d - inject_Z n))%Q).
      { rewrite <- !inject_Z_mult, <- inject_Z_opp. unfold Qminus.
        rewrite <- inject_Z_opp, <- inject_Z_plus.
        change (2 # 1)%Q with (inject_Z 2). rewrite <- inject_Z_mult, <- Zle_Qle. lia. }
      assert (H2 : ((2 # 1) * (inject_Z m1 * inject_Z d - inject_Z n) <= inject_Z d)%Q).
      { rewrite <- !inject_Z_mult. unfold Qminus.
        rewrite <- inject_Z_opp, <- inject_Z_plus.
        change (2 # 1)%Q with (inject_Z 2). rewrite <- inject_Z_mult, <- Zle_Qle. lia. }
      assert (E : ((inject_Z m1 * (2 # 1) ^ e0 - y) * inject_Z d
                   == (inject_Z m1 * inject_Z d - inject_Z n) * (2 # 1) ^ e0)%Q).
      { transitivity (inject_Z m1 * inject_Z d * (2 # 1) ^ e0 - y * inject_Z d)%Q; [ring|].
        rewrite <- Hn. ring. }
      split.
      - apply Qmult_le_r with (z := inject_Z d); [exact Hd'|]. rewrite E.
        apply Qle_trans with (- inject_Z d * (1 # 2) * (2 # 1) ^ e0)%Q;
          [apply Qle_lteq; right; ring|].
        apply Qmult_le_compat_r; [lra | now apply Qlt_le_weak].
      - apply Qmult_le_r with (z := inject_Z d); [exact Hd'|]. rewrite E.
        apply Qle_trans with (inject_Z d * (1 # 2) * (2 # 1) ^ e0)%Q;
          [|apply Qle_lteq; right; ring].
        apply Qmult_le_compat_r; [lra | now apply Qlt_le_weak]. }
    eapply Qle_trans; [exact Herr|].
    assert (Hy53 : (0 <= y * (2 # 1) ^ (-53))%Q) by (apply Qmult_le_0_compat; lra).
    destruct He as [->| ->].
    + assert (E : ((2 # 1) ^ (-1074) * (1 # 2) == (2 # 1) ^ (-1075))%Q) by reflexivity.
      rewrite E. lra.
    + assert (E : ((2 # 1) ^ (L - 52) * (1 # 2) == (2 # 1) ^ L * (2 # 1) ^ (-53))%Q).
      { replace (L - 52) with (L + -53 + 1) by lia.
        rewrite !pow2_split. change ((2 # 1) ^ 1)%Q with (2 # 1)%Q. ring. }
      rewrite E.
      assert ((2 # 1) ^ L * (2 # 1) ^ (-53) <= y * (2 # 1) ^ (-53))%Q
        by (apply Qmult_le_compat_r; [exact HyL | lra]).
      lra.
Qed.

End NearestError.

Section CentsOfAnyValue.

(** The number nearest to a magnitude [y] stays within a half of
    [floor (x + 1/2)], where [x] is [y] with its sign. *)
Lemma nearest_near (y : Q) (neg : bool) :
  (0 <= y)%Q ->
  let k := Qfloor ((if neg then - y else y) + (1 # 2)) in
  Z.abs k < 2 ^ 52 ->
  exists m e,
    JsNumber.nearest false y = Finite false m e /\
    JsNumber.wf_number (Finite false m e) = true /\
    (inject_Z k - (1 # 2)
     <= (if neg then - JsNumber.magnitude m e else JsNumber.magnitude m e))%Q /\
    ((if neg then - JsNumber.magnitude m e else JsNumber.magnitude m e)
     <= inject_Z k + (1 # 2))%Q.
Proof.
  intros Hy k Hk.
  destruct (hundredfold_bracket y neg Hy) as [Hj [Hlo Hhi]]. fold k in Hj, Hlo, Hhi.
  set (j := if neg then - 2 * k + 1 else 2 * k + 1) in *.
  assert (Hj53 : j < 2 ^ 53).
  { unfold j. change (2 ^ 52) with 4503599627370496 in Hk.
    change (2 ^ 53) with 9007199254740992. destruct neg; lia. }
  destruct (nearest_around y j Hy (conj Hj Hj53) Hlo Hhi) as [m [e [Hn [Hwf [H1 H2]]]]].
  exists m, e. split; [exact Hn|]. split; [exact Hwf|].
  clear Hlo Hhi Hn Hwf Hj Hj53 Hk. clearbody k.
  revert H1 H2. unfold j, Z.sub. destruct neg;
    rewrite !inject_Z_plus, !inject_Z_mult, ?inject_Z_opp;
    change (inject_Z (- 2)) with (- (2 # 1))%Q; change (inject_Z 1) with 1%Q;
    change (inject_Z 2) with (2 # 1)%Q; intros H1 H2; split; lra.
Qed.

Lemma big_magnitude_nonneg (neg : bool) (c : list Z) (e : Z) :
  Invariant.canonical (BFinite neg c e) = true ->
  (0 <= BigNumber.magnitude (BFinite neg c e))%Q.
Proof.
  intros Hcan. unfold BigNumber.magnitude. apply Qmult_le_0_compat.
  - rewrite <- (Zle_Qle 0). unfold BigNumber.coefficient.
    destruct (canonical_parts _ _ _ Hcan) as [Hok _].
    now destruct (of_digits_bound c Hok).
  - apply Qlt_le_weak, pow10_pos.
Qed.

(** The number that [toCents] rounds: the nearest to the hundredfold. *)
Lemma hundredfold_number (neg : bool) (c : list Z) (e : Z) :
  Invariant.canonical (BFinite neg c e) = true ->
  (BigNumber.magnitude (BFinite neg c e) * (100 # 1) < (10 # 1) ^ 16)%Q ->
  BigNumber.toNumber (BigNumber.times (BFinite neg c e) one_hundred)
  = JsNumber.nearest neg (BigNumber.magnitude (BFinite neg c e) * (100 # 1)).
Proof.
  intros Hcan Hsmall.
  destruct (canonical_parts _ _ _ Hcan) as [_ [Hrange _]].
  assert (He : e <= 14).
  { destruct (canonical_cases _ _ _ Hcan) as [[_ ->]|[_ [_ [_ [Hlo _]]]]]; [lia|].
    assert (e + 2 < 16); [|lia]. apply pow10_lt_inv.
    eapply Qle_lt_trans; [|exact Hsmall].
    rewrite Qpower_plus by apply ten_not_0. change ((10 # 1) ^ 2)%Q with (100 # 1)%Q.
    apply Qmult_le_compat_r; [exact Hlo | discriminate]. }
  destruct (times_spec (BFinite neg c e) one_hundred Hcan eq_refl) as [Hcp [Hsp [Hmp _]]].
  { change (Invariant.exponent one_hundred) with 2. cbn [Invariant.exponent]. lia. }
  { change (Invariant.exponent one_hundred) with 2. cbn [Invariant.exponent].
    unfold BigNumber.MAX_EXP. lia. }
  destruct (BigNumber.times (BFinite neg c e) one_hundred) as [| |n' c' e'];
    try discriminate Hcp.
  cbn [BigNumber.is_neg] in Hsp. rewrite xorb_false_r in Hsp. subst n'.
  unfold BigNumber.toNumber. apply nearest_ext.
  rewrite Hmp, hundred_magnitude. reflexivity.
Qed.

Lemma native_image_error (x : Q) (m e : Z) :
  JsNumber.nearest false (Qabs x) = Finite false m e ->
  (Qabs (native_image x - x) <= Qabs x * (2 # 1) ^ (-53) + (2 # 1) ^ (-1075))%Q.
Proof.
  intros Hn. pose proof (nearest_error (Qabs x) m e (Qabs_nonneg x) Hn) as Herr.
  unfold native_image. rewrite Hn. cbn [JsNumber.to_Q].
  eapply Qle_trans; [|exact Herr]. apply Qle_lteq. right.
  destruct (Qle_bool 0 x) eqn:Hs.
  - apply Qle_bool_iff in Hs. now rewrite (Qabs_pos x Hs).
  - assert (Hneg : (x <= 0)%Q).
    { apply Qnot_lt_le. intros H. apply Qlt_le_weak in H. apply Qle_bool_iff in H.
      congruence. }
    rewrite (Qabs_neg x Hneg).
    rewrite <- (Qabs_opp (JsNumber.magnitude m e - - x)).
    apply Qabs_wd. ring.
Qed.

End CentsOfAnyValue.

(** C7, amended.  [toCents] rounds the native number nearest to 100 times
    the value to the nearest integer, an exact half going towards +Infinity
    whatever the sign.  With [x] 100 times the value and [k = floor (x + 1/2)]
    the integer nearest to [x] (a half going up), of magnitude below 2^52:
    the result is [k], unless [x] lies so close below the half [k + 1/2]
    that the nearest native number is that half itself, and then the result
    is [k + 1]; it is [k] whenever [x] is farther below that half than
    [|x| / 2^53 + 2^-1075], the error of a native number.  When [x] is
    exactly a native number, of any magnitude, the result is [k]. *)
Theorem toCents_is_Math_round (m : Money) :
  Invariant.canonical (Money.toBigNumber m) = true ->
  let x := (Qvalue (Money.toBigNumber m) * (100 # 1))%Q in
  let k := Qfloor (x + (1 # 2)) in
  (Z.abs k < 2 ^ 52 ->
   JsNumber.to_Z (Money.toCents m)
   = Some (if Qeq_bool (native_image x) (inject_Z k + (1 # 2)) then k + 1 else k)) /\
  (Z.abs k < 2 ^ 52 ->
   (Qabs x * (2 # 1) ^ (-53) + (2 # 1) ^ (-1075) < inject_Z k + (1 # 2) - x)%Q ->
   JsNumber.to_Z (Money.toCents m) = Some k) /\
  (forall M E,
     JsNumber.wf_number (Finite false M E) = true ->
     (BigNumber.magnitude (Money.toBigNumber m) * (100 # 1) == JsNumber.magnitude M E)%Q ->
     JsNumber.to_Z (Money.toCents m) = Some k).
Proof.
  intros Hcan x k. unfold Money.toBigNumber, ZanNumber.toBigNumber in *.
  destruct m as [[v] code]. cbn [_value value] in *.
  destruct v as [| |neg c e]; try discriminate Hcan.
  set (y := (BigNumber.magnitude (BFinite neg c e) * (100 # 1))%Q).
  assert (Hy : (0 <= y)%Q).
  { unfold y. apply Qmult_le_0_compat; [now apply big_magnitude_nonneg | discriminate]. }
  assert (Hx : (x == if neg then - y else y)%Q).
  { unfold x, y, Qvalue. cbn [BigNumber.is_neg]. destruct neg; ring. }
  assert (Ek : k = Qfloor ((if neg then - y else y) + (1 # 2))).
  { unfold k. apply Qfloor_comp. now rewrite Hx. }
  assert (Ha : (Qabs x == y)%Q).
  { rewrite Hx. destruct neg; [rewrite Qabs_opp|]; now apply Qabs_pos. }
  unfold Money.toCents, ZanNumber.toBigNumber. cbn [_value value].
  rewrite hundred. change (BFinite false [1] 2) with one_hundred.
  assert (Hnear : Z.abs k < 2 ^ 52 ->
            (exists m' e', JsNumber.nearest false (Qabs x) = Finite false m' e') /\
            JsNumber.to_Z
              (JsNumber.Math_round
                 (BigNumber.toNumber (BigNumber.times (BFinite neg c e) one_hundred)))
            = Some (if Qeq_bool (native_image x) (inject_Z k + (1 # 2))
                    then k + 1 else k)).
  { intros Hk. rewrite Ek in Hk.
    destruct (nearest_near y neg Hy Hk) as [m' [e' [Hn [Hwf [H1 H2]]]]].
    rewrite <- Ek in H1, H2.
    split; [exists m', e'; now rewrite (nearest_ext false _ _ Ha)|].
    assert (Hsmall : (y < (10 # 1) ^ 16)%Q).
    { assert (H52 : (inject_Z (Z.abs k) + (1 # 2) < (10 # 1) ^ 16)%Q).
      { apply Qlt_trans with (inject_Z (2 ^ 52) + (1 # 2))%Q; [|reflexivity].
        apply Qplus_lt_l. rewrite <- Zlt_Qlt. now rewrite Ek. }
      eapply Qle_lt_trans; [|exact H52].
      pose proof (Qfloor_le (x + (1 # 2))) as F1.
      pose proof (Qlt_floor (x + (1 # 2))) as F2.
      fold k in F1, F2. rewrite inject_Z_plus in F2. change (inject_Z 1) with 1%Q in F2.
      rewrite Hx in F1, F2.
      assert (A1 : (inject_Z k <= inject_Z (Z.abs k))%Q) by (rewrite <- Zle_Qle; lia).
      assert (A2 : (- inject_Z k <= inject_Z (Z.abs k))%Q)
        by (rewrite <- inject_Z_opp, <- Zle_Qle; lia).
      destruct neg; lra. }
    rewrite (hundredfold_number neg c e Hcan Hsmall). fold y.
    rewrite nearest_sign, Hn. cbn [with_sign].
    rewrite to_Z_Math_round by exact Hwf. f_equal.
    assert (HF : (native_image x
                  == JsNumber.to_Q (Finite neg m' e'))%Q).
    { unfold native_image.
      rewrite (nearest_ext false _ _ Ha), Hn. cbn [JsNumber.to_Q].
      destruct neg.
      - destruct (Qle_bool 0 x) eqn:Hs; [|reflexivity].
        apply Qle_bool_iff in Hs. rewrite Hx in Hs.
        assert (Hy0 : (y == 0)%Q) by lra.
        rewrite (nearest_ext false _ _ Hy0) in Hn. cbn in Hn.
        injection Hn as <- <-. unfold JsNumber.magnitude. ring.
      - assert (Hs : Qle_bool 0 x = true) by (apply Qle_bool_iff; rewrite Hx; exact Hy).
        now rewrite Hs. }
    rewrite (Qeq_bool_comp _ _ _ HF).
    unfold JsNumber.to_Q. now apply floor_of_bracket. }
  split; [|split].
  - intros Hk. exact (proj2 (Hnear Hk)).
  - intros Hk Hfar. destruct (Hnear Hk) as [[m' [e' Hn]] ->]. f_equal.
    destruct (Qeq_bool (native_image x) (inject_Z k + (1 # 2))) eqn:Hq; [exfalso|reflexivity].
    apply Qeq_bool_iff in Hq.
    pose proof (native_image_error x m' e' Hn) as Herr.
    apply Qabs_Qle_condition in Herr. destruct Herr as [_ Herr].
    rewrite Hq in Herr. lra.
  - intros M E Hwf Hv. fold y in Hv. change one_hundred with (BFinite false [1] 2).
    rewrite (times_hundred neg c e M E Hcan Hwf Hv).
    rewrite to_Z_Math_round by exact Hwf. f_equal. unfold k.
    apply Qfloor_comp. apply Qplus_comp; [|reflexivity].
    rewrite Hx. unfold JsNumber.to_Q. destruct neg; now rewrite Hv.
Qed.

Lemma toCents_is_Math_round_witness :
  JsNumber.to_Z
    (Money.toCents
       {| _value := {| value := BFinite false [1; 0; 0; 1; 2; 4] 2 |};
          currencyCode := "USD" |})
  = Some 10012 /\
  JsNumber.to_Z
    (Money.toCents
       {| _value := {| value := BFinite false [1; 0; 0; 1; 2; 6] 2 |};
          currencyCode := "USD" |})
  = Some 10013 /\
  JsNumber.to_Z
    (Money.toCents
       {| _value := {| value := BFinite false [1] (-3) |}; currencyCode := "USD" |})
  = Some 0 /\
  JsNumber.to_Z
    (Money.toCents
       {| _value :=
            {| value :=
                 BFinite false [4; 9; 9; 9; 9; 9; 9; 9; 9; 9; 9; 9; 9; 9; 9; 9; 9; 9; 9; 9] (-3) |};
          currencyCode := "USD" |})
  = Some 1 /\
  JsNumber.to_Z (Money.toCents minus_0_015_usd) = Some (-1).
Proof.
  split; [|split; [|split; [|split]]].
  - exact (proj1 (proj2 (toCents_is_Math_round
                           {| _value := {| value := BFinite false [1; 0; 0; 1; 2; 4] 2 |};
                              currencyCode := "USD" |} eq_refl))
             ltac:(vm_compute; reflexivity) ltac:(vm_compute; reflexivity)).
  - exact (proj1 (proj2 (toCents_is_Math_round
                           {| _value := {| value := BFinite false [1; 0; 0; 1; 2; 6] 2 |};
                              currencyCode := "USD" |} eq_refl))
             ltac:(vm_compute; reflexivity) ltac:(vm_compute; reflexivity)).
  - exact (proj1 (proj2 (toCents_is_Math_round
                           {| _value := {| value := BFinite false [1] (-3) |};
                              currencyCode := "USD" |} eq_refl))
             ltac:(vm_compute; reflexivity) ltac:(vm_compute; reflexivity)).
  - exact (proj1 (toCents_is_Math_round
                    {| _value :=
                         {| value :=
                              BFinite false
                                [4; 9; 9; 9; 9; 9; 9; 9; 9; 9; 9; 9; 9; 9; 9; 9; 9; 9; 9; 9] (-3) |};
                       currencyCode := "USD" |} eq_refl)
             ltac:(vm_compute; reflexivity)).
  - exact (proj2 (proj2 (toCents_is_Math_round minus_0_015_usd eq_refl))
             6755399441055744 (-52) eq_refl ltac:(vm_compute; reflexivity)).
Defined.

(** ** C10: a record keeps its own currency *)

(** C10. For every record [d] and every [currencyCode] argument, given or
    defaulted: [fromAnyOrThrow] checks the argument and, when it is a
    recognized code, does what [fromMoneyDto d] does without using it.  The
    Money it returns holds the value that the library reads from [d.amount]
    and has the currency [d.currency]; and it returns one exactly when the
    argument is recognized, the library reads the amount as a finite value,
    and [d.currency] is recognized. *)
Theorem fromAnyOrThrow_record_keeps_its_currency `{lib : Library}
    (d : MoneyDto) (c : option string) :
  MoneyFactory.fromAnyOrThrow (ADto d) c
  = (if isValidCurrencyCode (MoneyFactory.or_USD c)
     then MoneyFactory.fromMoneyDto d
     else Throw ("Invalid currency code: " ++ MoneyFactory.or_USD c)) /\
  (forall m,
     MoneyFactory.fromAnyOrThrow (ADto d) c = Ok m ->
     currencyCode m = currency d /\
     value (_value m) = BigNumber.ofString parseNumeric (amount d)) /\
  ((exists m, MoneyFactory.fromAnyOrThrow (ADto d) c = Ok m) <->
   isValidCurrencyCode (MoneyFactory.or_USD c) = true /\
   BigNumber.isFinite (BigNumber.ofString parseNumeric (amount d)) = true /\
   isValidCurrencyCode (currency d) = true).
Proof.
  assert (E : MoneyFactory.fromAnyOrThrow (ADto d) c
              = if isValidCurrencyCode (MoneyFactory.or_USD c)
                then MoneyFactory.fromMoneyDto d
                else Throw ("Invalid currency code: " ++ MoneyFactory.or_USD c)).
  { unfold MoneyFactory.fromAnyOrThrow.
    destruct (isValidCurrencyCode (MoneyFactory.or_USD c)) eqn:Hc.
    - now rewrite (validate_valid _ Hc).
    - now rewrite (validate_invalid _ Hc). }
  rewrite E. split; [reflexivity|].
  destruct (isValidCurrencyCode (MoneyFactory.or_USD c)).
  - unfold MoneyFactory.fromMoneyDto.
    set (v := BigNumber.ofString parseNumeric (amount d)).
    destruct (BigNumber.isNaN v || negb (BigNumber.isFinite v)) eqn:Hg.
    + split; [intros m H; discriminate H|]. split.
      * intros [m H]. discriminate H.
      * intros [_ [Hf _]]. destruct v; discriminate.
    + split.
      * intros m H. destruct (new_money_ok _ _ _ H) as [-> _]. split; reflexivity.
      * split.
        -- intros [m H]. destruct (new_money_ok _ _ _ H) as [_ [Hf Hv]]. auto.
        -- intros [_ [Hf Hv]]. rewrite (new_money_finite _ _ Hf Hv). now eexists.
  - split; [intros m H; discriminate H|]. split.
    + intros [m H]. discriminate H.
    + intros [H _]. discriminate H.
Qed.

Lemma fromAnyOrThrow_record_keeps_its_currency_witness :
  exists m,
    @MoneyFactory.fromAnyOrThrow default_library
      (ADto {| amount := "1e10"; currency := "EUR" |}) (Some "USD") = Ok m /\
    currencyCode m = "EUR" /\
    value (_value m) = BFinite false [1] 10.
Proof.
  destruct (@fromAnyOrThrow_record_keeps_its_currency default_library
              {| amount := "1e10"; currency := "EUR" |} (Some "USD"))
    as [_ [Hcur Hret]].
  destruct (proj2 Hret (conj eq_refl (conj eq_refl eq_refl))) as [m Hm].
  destruct (Hcur m Hm) as [H1 H2].
  exists m. split; [exact Hm|]. split; [exact H1 | exact H2].
Defined.
